(* ===== verification/_CoqProject ===== *)
-Q . S2P
Prelude.v
JsMap.v
Emitter.v
Backoff.v
Frames.v
Watermark.v
Storage.v
Outbox.v
Json.v
Errors.v
Rest.v
Stringify.v
Token.v
Receive.v
Tracker.v
AgentFrames.v
FakeServer.v
FakeServerFacts.v
Wire.v
ChannelToken.v
Reply.v
ReplyStreams.v
ReplyEnd.v
ReplyDone.v
Agent.v
AgentExample.v
AgentSteps.v
AgentOutbound.v
AgentTurns.v
AgentAcks.v
Hub.v
Conversation.v
Sse.v
Phoenix.v
Transports.v
Session.v
Example.v
Delivery.v
Outgoing.v
Lifecycle.v
Client.v
TokenFlow.v
SharedTokens.v
Subscriber.v
SubscriberFacts.v
LoadReport.v
LoadResults.v
LoadScenarios.v
LoadFacts.v
MockProvider.v
MockFacts.v
Scaffold.v
LoadScripts.v
LoadScriptFacts.v
ToolLoop.v
ToolFacts.v
ToolHistory.v
ToolAgent.v
Widget.v
TypeGen.v
Ids.v
