(* ===== verification/Prelude.v ===== *)
(** * The TypeScript SDKs of Converger

    Converger is a message broker between end users and agents.  This library
    models its two TypeScript SDKs and proves what makes them correct:
    [packages/client-ts], which an end user's application holds a conversation
    with, and [packages/agent-ts], which an agent answers turns with.  Both keep
    a connection to the server over an unreliable network, resend what was not
    acknowledged, and resume from the last position they saw.  Beside them it
    models the tooling that judges the promise of zero loss: the fake server
    the agent SDK ships for tests, and the load tests ([load]), from the
    scripts that send and the subscriber that counts losses to the verdict of a
    run.  Of the examples it models an agent that runs a model's tool calls and
    the message list of a widget.

    ** Style

    Each class is a record of its private fields; each method and callback is a
    function on it, with the source's guards and early returns.  The moment's
    environment (clock, random draws, whether the socket takes a write) is an
    argument.  An [await] ends a function: the continuation is a value kept in
    the state (a task) and runs when its promise settles; timers are values
    too.  A whole component is then a step function over an input type (calls,
    frames, closes, timers, settled promises), so that a theorem about all runs
    covers every interleaving.  What a component does to the outside is a
    [log], newest first.  Times are milliseconds in [Z], or rationals where the
    source divides; seqs are [Z].  The one exception is [ToolLoop], whose code
    is a long sequence of awaits with little state: it is a program in a free
    monad over what it asks of others, reasoned about by weakest preconditions.

    ** Files and what they model

    Shared:
    - this file: notations, record update ([x <| f := v |>]), the hint
      database [converger], lemmas on lists and options; [JsMap]: the
      JavaScript [Map] with its insertion order; [Json]: [JSON.parse];
      [Stringify]: [JSON.stringify] and [String].
    - [Emitter]: [emitter.ts] of both SDKs.  [Backoff]: [backoff.ts] of both.
    - [Frames]: [protocol/frames.ts], persistence of frames, close codes.
    - [Wire]: [transport/native.ts] and the agent's [socket.ts], one machine
      with a [flavour] for their differences.

    The client ([packages/client-ts/src]):
    - [Watermark] ([protocol/watermark.ts]), [Storage] ([storage/storage.ts]),
      [Outbox] ([storage/outbox.ts], the persistent outbox and its write
      queue), [Errors] ([errors.ts]), [Rest] ([rest/client.ts]), [Token]
      ([token.ts]).
    - [Receive]: the receive window ([#watermark], [#seen], [#ownSeqs]) of
      [conversation.ts]; [Conversation]: all of [conversation.ts] as a state
      machine, against the interface [TokenSource] of [Token].
    - [Sse] ([transport/sse.ts]), [Phoenix] ([transport/phoenix.ts]);
      [Transports]: the contract of [transport/types.ts] as a class, with the
      three transports as instances.
    - [Session]: the handlers of [Conversation] as sequences of atomic actions;
      [Delivery], [Outgoing], [Lifecycle]: the invariants and theorems proved
      on those; [Example]: the runs the witnesses use.
    - [Client] ([client.ts]): options, the set of sessions, [close];
      [SharedTokens]: the sessions over a heap of token managers, the client's
      and those of conversation tokens; [TokenFlow]: what a session's step does
      to its manager.
    - [Ids]: the identifiers both SDKs make up.

    The agent ([packages/agent-ts/src]):
    - [AgentFrames] ([frames.ts], [errors.ts], [turn.ts]), [Tracker]
      ([watermarks.ts]), [ChannelToken] ([token.ts]).
    - [Reply] ([reply.ts]) with [ReplyStreams], [ReplyEnd], [ReplyDone].
    - [Agent] ([agent.ts]); [AgentSteps]: its handlers as atomic actions;
      [AgentOutbound], [AgentTurns] and [AgentAcks]: what it writes, what it
      hands to the handler, which answers it heard; [AgentExample]: the runs of
      the witnesses.
    - [FakeServer] ([testing/index.ts], the in-memory server) with
      [FakeServerFacts]; [Hub]: an agent and that server joined by two links
      that lose, delay and cut, but do not reorder.

    The load tests ([load]):
    - [Subscriber] ([lib/converger.js]) with [SubscriberFacts].
    - [LoadResults] and [LoadScenarios] ([results.js]: from the raw files to
      the checks), [LoadReport] ([report.js]: the report and the regression
      gate), with [LoadFacts].
    - [LoadScripts] ([e2e.js], [reconnect.js], [idle.js], [webhook_burst.js],
      [dead_channel.js], [lib/summary.js]) with [LoadScriptFacts].
    - [MockProvider] ([mock_provider/server.js]) with [MockFacts].

    Tools and examples:
    - [Scaffold]: the project scaffold ([packages/create-converger-agent]).
    - [TypeGen]: the names and schemas of the type generator
      ([packages/agent-ts/scripts/generate-types.mjs]).
    - [ToolLoop] ([examples/agents/llm-tool-loop-ts], [loop.ts] and [tools.ts])
      with [ToolFacts] (weakest preconditions; approval) and [ToolHistory]
      (the history sent to the model); [ToolAgent]: [agent.ts], whose turns run
      side by side over a heap of histories.
    - [Widget]: the message list of [examples/typescript/react-widget].

    ** What is proved

    - Receiving ([Delivery], [Receive]): an activity is emitted at most once,
      a fresh one is emitted, and no resume position skips a seq.
    - Sending ([Outgoing], [Outbox]): a message leaves the outbox only settled,
      goes on the wire once per connection, its promise settles once, and the
      outbox survives reloads (from the last persisted change on, if no write
      fails) and crashes (as an earlier state of it).
    - Connection ([Lifecycle], [Transports], [Wire], [Sse], [Phoenix],
      [Backoff], [Client]): what each close leads to, stopping is final, each
      attempt ends once, a silent server is dropped, the cuts of a stream into
      reads make no difference up to its end, messages of an old join do no
      harm, a client's [close] stops every session.
    - Tokens ([Token], [ChannelToken], [SharedTokens]): one request at a time,
      when the cache may answer, and that the sessions of a client share its
      manager exactly until they have a conversation token, each remaining a
      run of its own machine ([SharedTokens.session_is_run]).
    - HTTP ([Rest], [Errors]): ids are one path segment, paging terminates with
      the whole history, errors by status.
    - Agent ([AgentOutbound], [AgentTurns], [Tracker]): no accepted send is
      lost or settled twice, the write rate and the unacknowledged sends are
      bounded, turns run once, in order and within the slots.
    - Replies ([ReplyStreams], [ReplyDone]): streamed chunks are the written
      text, [end] terminates and leaves nothing behind.
    - The server and the agent together ([FakeServerFacts], [Hub]): the server
      refines a set of append-only logs; an acked send is in the transcript at
      the seq of its ack, a handled turn is the transcript's frame, the agent
      never resumes from beyond what the server has, for ids without ":" and
      positions of its own.
    - Load tests ([SubscriberFacts], [LoadFacts], [MockFacts]): the zero-loss
      verdict is sound and complete, what exactly makes a run pass, the gate fails exactly on a regression, percentiles are
      nearest-rank, the mock's counters count its answers.
    - Load scripts ([LoadScriptFacts]): a virtual user keeps its rate with a key
      per send, idle sockets are shared out without overlap, storms follow
      their schedule, and a passing reconnect run lost nothing and checked
      every subscriber, given that k6 judges [count<1] as documented.
    - The example agent ([ToolFacts], [ToolHistory], [ToolAgent]): no tool runs
      without the approval it needs, at most eight requests per turn, each with
      a history in which every tool call is answered, whatever fails and
      however turns interleave.
    - The widget ([Widget]): each message is shown once with its own outcome.
    - The type generator ([TypeGen]): references stand alone, and stripping
      twice is stripping once.
    - Scaffold: options round trip through the command line, escaped values
      through JSON; when a project is written.

    Some theorems and examples state what the code does where it falls short
    of what it means to do ([Lifecycle.gap_detection_dies],
    [AgentTurns.waiting_turn_outlives_stop], [Outbox.send_before_load_overwrites],
    [ReplyDone.typing_twice_leaks], [Emitter.once_called_twice],
    [Sse.frames_after_close], [FakeServerFacts.colliding_conversations],
    [SubscriberFacts.headless_verdict], [LoadFacts.crash_without_summary_passes],
    [LoadScriptFacts.unverified_e2e_passes], [ToolHistory.refund_reported_as_failed],
    [Widget.sends_in_one_millisecond] and others).

    ** Fuel

    [JSON.parse] has more fuel than the text has characters, and each call
    consumes one.  [Agent.pump] runs one round per queued send.  [Sse.drain]
    has the length of the buffer, and every event found shortens it.
    [Receive.advance] and [Subscriber.fill] have the size of the set they
    empty.  [LoadResults.find_bytes] has the length of the text.  [Rest.history] has
    the number of requests as fuel, and [Rest.history_complete] says how many
    are enough.  [Emitter.emit] has the depth of nested emissions.
    [LoadScripts.sends], [LoadScripts.storms] and [LoadScripts.join_wait] have
    the number of rounds; [LoadScriptFacts.sends_keep_rate] and
    [LoadScriptFacts.storms_schedule] say how many are enough.  [ToolLoop.iterate]
    counts down from the source's own [MAX_ITERATIONS].

    ** Not modelled

    - The Elixir server, the SDKs in other languages, the website; the other
      examples, which only connect library calls; re-exports and the generated
      protocol types, which are declarations.  k6, Anthropic's client, React
      and json-schema-to-typescript are parameters or inputs.  Outside
      [Hub] the server is what the inputs say: any frames, in any order,
      unless a theorem names a documented promise.
    - On the links of [Hub] a message is a JSON value, not its text.  A load
      test's files that do not parse end the program and are not modelled.
    - JavaScript strings are their UTF-8 bytes, not UTF-16 code units; numbers
      are exact, without the rounding of doubles.
    - Listeners that call back into a session while it emits, and a socket
      that calls back while it is written to: a callback is an input of its own.
    - That a manager made for a conversation asks the client's manager first:
      in [SharedTokens] its requests are moves like any other.
    - [fetch], [WebSocket], [URL] and [Date.parse] are parameters or inputs. *)

(** ** This file: shared notation, record update, JSON values and generic lemmas. *)

From stdpp Require Import base gmap sets list strings numbers.
From Stdlib Require Import ZArith QArith Qround Qminmax Lia Lqa.


Declare Scope converger_scope.
Delimit Scope converger_scope with converger.
Open Scope Z_scope.
Open Scope converger_scope.

(** ** Functional record update

    The classes of the SDKs keep their state in private fields ([this.#x = v]).
    A class is a [Record] here, and a field assignment is [s <| x := v |>].
    A record opts in with an [Eta] instance that rebuilds it from its
    projections; the setter of a field is then computed by [solve_setter]. *)
Class Eta (R : Type) := eta : R -> R.

Class Setter {R E : Type} (getter : R -> E) := upd : (E -> E) -> R -> R.
Arguments upd {R E} getter {Setter} f r /.

Ltac solve_setter :=
  match goal with
  | |- @Setter ?R ?E ?g =>
      let inst := constr:(_ : Eta R) in
      let e := eval red in inst in
      let p := eval pattern g in e in
      match p with
      | ?u _ => exact (fun f => u (fun r => f (g r)))
      end
  end.

#[export] Hint Extern 1 (Setter _) => solve_setter : typeclass_instances.

Notation "x <| proj := v |>" := (upd proj (fun _ => v) x)
  (at level 12, v at level 99, left associativity) : converger_scope.
Notation "x <| proj ::= f |>" := (upd proj f x)
  (at level 12, f at level 99, left associativity) : converger_scope.

(** [o ?? d]: JavaScript's nullish coalescing. *)
Notation "o ?? d" := (default d o) (at level 40, left associativity) : converger_scope.

(** ** JavaScript values

    A JSON value.  Numbers are exact rationals: [JSON.parse] yields no [NaN],
    and the values the SDKs read (seqs, milliseconds) are exact doubles.
    An object is its list of members in property order. *)
Inductive json : Type :=
| JNull
| JBool (b : bool)
| JNum (q : Q)
| JStr (s : string)
| JArr (l : list json)
| JObj (members : list (string * json)).

(** [value[key]]: the member of an object, [None] for [undefined]. *)
Fixpoint assoc {A : Type} (key : string) (l : list (string * A)) : option A :=
  match l with
  | [] => None
  | (k, v) :: l' => if String.eqb k key then Some v else assoc key l'
  end.

Definition member (key : string) (v : json) : option json :=
  match v with
  | JObj l => assoc key l
  | _ => None
  end.

(** [Number.isInteger]. *)
Definition is_integer (q : Q) : bool := Qnum q mod Z.pos (Qden q) =? 0.

(** The integer a number with [is_integer] stands for. *)
Definition to_integer (q : Q) : Z := Qfloor q.

(** Truthiness of a [string | null | undefined]. *)
Definition truthy (o : option string) : bool :=
  match o with
  | None | Some "" => false
  | Some _ => true
  end.

(** [Math.round]: ties towards positive infinity. *)
Definition math_round (q : Q) : Z := Qfloor (q + (1 # 2))%Q.

(** The integers a double represents exactly ([Number.MAX_SAFE_INTEGER]). *)
Definition max_safe_integer : Z := 2 ^ 53 - 1.

(** ** Tactics *)

(** Case analysis on every [match] of the goal, then simplification. *)
Ltac cases := repeat (case_match; simplify_eq/=; try done).

(** Turn the boolean comparisons of the context into propositions. *)
Ltac bools :=
  repeat match goal with
  | H : (_ && _)%bool = true |- _ => apply andb_prop in H as [? ?]
  | H : (_ || _)%bool = false |- _ => apply orb_false_elim in H as [? ?]
  | H : negb _ = true |- _ => apply negb_true_iff in H
  | H : negb _ = false |- _ => apply negb_false_iff in H
  | H : (_ <=? _) = true |- _ => apply Z.leb_le in H
  | H : (_ <=? _) = false |- _ => apply Z.leb_gt in H
  | H : (_ <? _) = true |- _ => apply Z.ltb_lt in H
  | H : (_ <? _) = false |- _ => apply Z.ltb_ge in H
  | H : (_ =? _) = true |- _ => apply Z.eqb_eq in H
  | H : (_ =? _) = false |- _ => apply Z.eqb_neq in H
  | H : bool_decide _ = true |- _ => apply bool_decide_eq_true in H
  | H : bool_decide _ = false |- _ => apply bool_decide_eq_false in H
  | H : String.eqb _ _ = true |- _ => apply String.eqb_eq in H
  | H : String.eqb _ _ = false |- _ => apply String.eqb_neq in H
  end.

Create HintDb converger.

(** ** Generic lemmas *)

Lemma assoc_app {A} key (l1 l2 : list (string * A)) :
  assoc key (l1 ++ l2) = match assoc key l1 with Some v => Some v | None => assoc key l2 end.
Proof. induction l1 as [|[k v] l1 IH]; simpl; [done|]. by destruct (k =? key)%string. Qed.

Lemma filter_all {A} (P : A -> Prop) `{!forall x, Decision (P x)} (l : list A) :
  Forall P l -> filter P l = l.
Proof. induction 1 as [|x l Hx _ IH]; [done|]. by rewrite filter_cons_True, IH. Qed.

Lemma filter_none {A} (P : A -> Prop) `{!forall x, Decision (P x)} (l : list A) :
  Forall (fun x => ~ P x) l -> filter P l = [].
Proof. induction 1 as [|x l Hx _ IH]; [done|]. by rewrite filter_cons_False, IH. Qed.

Lemma sublist_map {A B} (f : A -> B) (l k : list A) :
  l `sublist_of` k -> map f l `sublist_of` map f k.
Proof. induction 1; simpl; by constructor. Qed.

Lemma is_integer_inject z : is_integer (inject_Z z) = true.
Proof. unfold is_integer; simpl. by rewrite Z.mod_1_r. Qed.

Lemma to_integer_inject z : to_integer (inject_Z z) = z.
Proof. unfold to_integer. apply Qfloor_Z. Qed.

Lemma math_round_inject z : math_round (inject_Z z) = z.
Proof.
  unfold math_round, Qfloor, inject_Z, Qplus; simpl.
  rewrite Z.mul_1_r. change (Z.pos (1 * 2)) with 2. 
  symmetry. apply Z.div_unique with 1; lia.
Qed.

Lemma math_round_mono p q : (p <= q)%Q -> math_round p <= math_round q.
Proof. intros H. apply Qfloor_resp_le. lra. Qed.

#[export] Hint Resolve is_integer_inject : converger.
#[export] Hint Rewrite math_round_inject is_integer_inject to_integer_inject : converger.
