(* ===== verification/JsMap.v ===== *)
(** * JsMap: the JavaScript [Map] with string keys, entries in insertion order. *)

From stdpp Require Import base sets list strings.
From Stdlib Require Import Lia.
From S2P Require Import Prelude.

Open Scope string_scope.
Open Scope list_scope.

(** [map.set(key, v)]: an existing key keeps its place. *)
Fixpoint map_set {A} (key : string) (v : A) (m : list (string * A)) : list (string * A) :=
  match m with
  | [] => [(key, v)]
  | (k, w) :: m' => if String.eqb k key then (key, v) :: m' else (k, w) :: map_set key v m'
  end.

(** [map.delete(key)]. *)
Fixpoint map_delete {A} (key : string) (m : list (string * A)) : list (string * A) :=
  match m with
  | [] => []
  | (k, w) :: m' => if String.eqb k key then m' else (k, w) :: map_delete key m'
  end.

Section Lemmas.
Context {A : Type}.
Implicit Types (m : list (string * A)) (v : A).

Lemma assoc_In key m v : assoc key m = Some v -> (key, v) ∈ m.
Proof.
  induction m as [|[k w] m IH]; simpl; [done|]. destruct (String.eqb_spec k key) as [->|Hne].
  - intros [= ->]. apply list_elem_of_here.
  - intros Hm. apply list_elem_of_further, IH, Hm.
Qed.

Lemma assoc_none key m : assoc key m = None -> key ∉ map fst m.
Proof.
  induction m as [|[k w] m IH]; simpl; [intros _; apply not_elem_of_nil|].
  destruct (String.eqb_spec k key) as [->|Hne]; [done|]. intros Hm. rewrite not_elem_of_cons. auto.
Qed.

Lemma assoc_set key k v m : assoc k (map_set key v m) = if String.eqb key k then Some v else assoc k m.
Proof.
  induction m as [|[k' w] m IH]; simpl; [done|].
  destruct (String.eqb_spec k' key) as [->|Hne]; simpl; [by destruct (key =? k)%string|].
  rewrite IH. destruct (String.eqb_spec key k) as [->|]; [|done]. by rewrite (proj2 (String.eqb_neq k' k) Hne).
Qed.

Lemma keys_set key v m : map fst (map_set key v m) = if bool_decide (key ∈ map fst m) then map fst m else map fst m ++ [key].
Proof.
  induction m as [|[k w] m IH]; simpl; [done|].
  destruct (String.eqb_spec k key) as [->|Hne]; simpl.
  - rewrite bool_decide_eq_true_2; [done|apply list_elem_of_here].
  - rewrite IH. repeat case_bool_decide; try done; set_solver.
Qed.

Lemma length_set key v m : (length (map_set key v m) <= S (length m))%nat.
Proof. induction m as [|[k w] m IH]; simpl; [lia|]. destruct (k =? key)%string; simpl; lia. Qed.

Lemma elem_of_set kv key v m : kv ∈ map_set key v m -> kv = (key, v) \/ kv ∈ m.
Proof.
  induction m as [|[k w] m IH]; simpl; [rewrite list_elem_of_singleton; auto|].
  destruct (k =? key)%string; rewrite !elem_of_cons; naive_solver.
Qed.

Lemma delete_sublist key m : map_delete key m `sublist_of` m.
Proof.
  induction m as [|[k w] m IH]; simpl; [done|]. destruct (k =? key)%string; by constructor.
Qed.

Lemma length_delete key m : (length (map_delete key m) <= length m)%nat.
Proof. apply sublist_length, delete_sublist. Qed.

(** Deleting a bound key removes exactly its entry. *)
Lemma delete_Permutation key v m : assoc key m = Some v -> m ≡ₚ (key, v) :: map_delete key m.
Proof.
  induction m as [|[k w] m IH]; simpl; [done|]. destruct (String.eqb_spec k key) as [->|Hne].
  - by intros [= ->].
  - intros Hm. rewrite (IH Hm) at 1. apply Permutation_swap.
Qed.

Lemma set_Permutation key v m : assoc key m = None -> map_set key v m = m ++ [(key, v)].
Proof.
  induction m as [|[k w] m IH]; simpl; [done|]. destruct (k =? key)%string; [done|]. intros Hm. by rewrite IH.
Qed.

Lemma set_replaces key v w m : assoc key m = Some w -> exists m1 m2, m = m1 ++ (key, w) :: m2 /\ map_set key v m = m1 ++ (key, v) :: m2.
Proof.
  induction m as [|[k u] m IH]; simpl; [done|]. destruct (String.eqb_spec k key) as [->|Hne].
  - intros [= ->]. by exists [], m.
  - intros Hm. destruct (IH Hm) as (m1 & m2 & -> & ->). by exists ((k, u) :: m1), m2.
Qed.
End Lemmas.

Section Permutations.
Context {A : Type}.
Implicit Types (m : list (string * A)) (v : A).

Lemma delete_none key m : assoc key m = None -> map_delete key m = m.
Proof.
  induction m as [|[k w] m IH]; simpl; [done|]. destruct (k =? key)%string; [done|]. intros H. by rewrite IH.
Qed.

(** Deleting a fresh entry undoes the setting. *)
Lemma set_delete_none key v m : assoc key m = None -> map_delete key (map_set key v m) = m.
Proof.
  induction m as [|[k w] m IH]; simpl; [by rewrite String.eqb_refl|].
  destruct (k =? key)%string eqn:E; [done|]. simpl. rewrite E. intros H. by rewrite IH.
Qed.

(** Setting is deleting, then adding. *)
Lemma set_delete_Permutation key v m : map_set key v m ≡ₚ (key, v) :: map_delete key m.
Proof.
  induction m as [|[k w] m IH]; simpl; [done|]. destruct (k =? key)%string; [done|]. rewrite IH. apply Permutation_swap.
Qed.

Lemma assoc_delete key k m :
  NoDup (map fst m) -> assoc k (map_delete key m) = if String.eqb key k then None else assoc k m.
Proof.
  induction m as [|[k' w] m IH]; simpl; [by destruct (key =? k)%string|]. intros Hnd. inversion_clear Hnd as [|? ? Hk Hnd'].
  destruct (String.eqb_spec k' key) as [->|Hne].
  - destruct (String.eqb_spec key k) as [->|]; [|done]. destruct (assoc k m) eqn:E; [|done]. exfalso. apply Hk.
    apply assoc_In in E. apply list_elem_of_fmap. by exists (k, a).
  - simpl. rewrite (IH Hnd'). destruct (String.eqb_spec key k) as [->|]; [|done]. by rewrite (proj2 (String.eqb_neq k' k) Hne).
Qed.

Lemma nodup_set key v m : NoDup (map fst m) -> NoDup (map fst (map_set key v m)).
Proof.
  intros Hnd. rewrite keys_set. case_bool_decide as Hb; [done|]. apply NoDup_app. split; [done|]. split; [|apply NoDup_singleton].
  intros x Hx ->%list_elem_of_singleton. done.
Qed.

Lemma nodup_delete key m : NoDup (map fst m) -> NoDup (map fst (map_delete key m)).
Proof. intros Hnd. eapply sublist_NoDup; [exact Hnd|]. apply sublist_map, delete_sublist. Qed.

Lemma assoc_elem key v m : NoDup (map fst m) -> (key, v) ∈ m -> assoc key m = Some v.
Proof.
  induction m as [|[k w] m IH]; simpl; [set_solver|]. intros Hnd. inversion_clear Hnd as [|? ? Hk Hnd'].
  intros [[= -> ->]|Hin]%elem_of_cons; [by rewrite String.eqb_refl|].
  destruct (String.eqb_spec k key) as [->|]; [|auto]. exfalso. apply Hk. apply list_elem_of_fmap. by exists (key, v).
Qed.
End Permutations.
