(* ===== verification/Emitter.v ===== *)
(** * Emitter: typed events
    ([packages/client-ts/src/emitter.ts] and [packages/agent-ts/src/emitter.ts],
    class [TypedEmitter]; the two are the same code).

    Listeners are compared by identity: a listener is the number of a function
    of the program, or a wrapper made by [once].  What a function does when it
    is called is a parameter: it may subscribe, unsubscribe and emit in turn,
    and throw.  Nested emissions run on fuel, the depth of the call stack. *)

From stdpp Require Import base gmap sets list strings.
From Stdlib Require Import Lia.
From S2P Require Import Prelude JsMap.

Open Scope string_scope.
Open Scope list_scope.
Open Scope nat_scope.

(** A listener: a function, or the wrapper number [w]. *)
Inductive listener := User (f : nat) | Once (w : nat).

#[export] Instance listener_eq_dec : EqDecision listener.
Proof. solve_decision. Defined.

(** The calls a listener may make on the emitter. *)
Inductive op (P : Type) :=
| OpOn (event : string) (f : nat)
| OpOnce (event : string) (f : nat)
| OpOff (event : string) (l : listener)
| OpRemoveAll (event : option string)
| OpEmit (event : string) (payload : P).
Arguments OpOn {P}. Arguments OpOnce {P}. Arguments OpOff {P}. Arguments OpRemoveAll {P}. Arguments OpEmit {P}.

(** A listener was called; it threw, to the handler or to a microtask. *)
Inductive output (P : Type) := OCalled (l : listener) (f : nat) (payload : P) | OReported (f : nat) | OUncaught (f : nat).
Arguments OCalled {P}. Arguments OReported {P}. Arguments OUncaught {P}.

(** [wrappers]: the event and function of each wrapper made. *)
(* @src packages/client-ts/src/emitter.ts 14-17 TypedEmitter *)
Record TypedEmitter (P : Type) := mkEmitter {
  listeners : list (string * list listener);
  has_handler : bool;
  wrappers : list (string * nat);
  log : list (output P);
}.
Arguments mkEmitter {P}. Arguments listeners {P}. Arguments has_handler {P}. Arguments wrappers {P}. Arguments log {P}.

#[export] Instance eta_emitter {P} : Eta (TypedEmitter P) := fun s => mkEmitter (listeners s) (has_handler s) (wrappers s) (log s).

Section Emitter.
Context {P : Type}.
Implicit Types s : TypedEmitter P.

Definition new_emitter : TypedEmitter P := mkEmitter [] false [] [].

Definition say (o : output P) s : TypedEmitter P := s <| log ::= cons o |>.

(** The listeners of an event, in the order of subscription. *)
Definition listening (event : string) s : list listener := assoc event (listeners s) ?? [].

(* @src packages/client-ts/src/emitter.ts 19-28 on *)
Definition on (event : string) (l : listener) s : TypedEmitter P :=
  let set := listening event s in
  s <| listeners ::= map_set event (if bool_decide (l ∈ set) then set else set ++ [l]) |>.

(* @src packages/client-ts/src/emitter.ts 39-41 off *)
Definition off (event : string) (l : listener) s : TypedEmitter P :=
  match assoc event (listeners s) with
  | Some set => s <| listeners ::= map_set event (filter (.≠ l) set) |>
  | None => s
  end.

(** The wrapper made is the next number. *)
(* @src packages/client-ts/src/emitter.ts 30-37 once *)
Definition once (event : string) (f : nat) s : TypedEmitter P :=
  on event (Once (length (wrappers s))) (s <| wrappers ::= fun l => l ++ [(event, f)] |>).

(* @src packages/client-ts/src/emitter.ts 43-47 removeAllListeners *)
Definition removeAllListeners (event : option string) s : TypedEmitter P :=
  match event with
  | None => s <| listeners := [] |>
  | Some e => s <| listeners ::= map_delete e |>
  end.

(* @src packages/client-ts/src/emitter.ts 49-52 setListenerErrorHandler *)
Definition setListenerErrorHandler s : TypedEmitter P := s <| has_handler := true |>.

(** What each function does when called, and whether it then throws. *)
Context (body : nat -> P -> list (op P) * bool).

(** The wrapper's [off()], and the function it calls. *)
(* @src packages/client-ts/src/emitter.ts 32-35 once *)
Definition unwrap (l : listener) s : option nat * TypedEmitter P :=
  match l with
  | User f => (Some f, s)
  | Once w => match wrappers s !! w with Some (event, f) => (Some f, off event (Once w) s) | None => (None, s) end
  end.

(** A throwing listener: [catch]. *)
(* @src packages/client-ts/src/emitter.ts 61-67 emit *)
Definition report (f : nat) s : TypedEmitter P := say (if has_handler s then OReported f else OUncaught f) s.

(* @src packages/client-ts/src/emitter.ts 54-69 emit *)
Fixpoint emit (fuel : nat) (event : string) (payload : P) s : TypedEmitter P :=
  match fuel with
  | O => s
  | S fuel =>
      let perform o s :=
        match o with
        | OpOn e f => on e (User f) s
        | OpOnce e f => once e f s
        | OpOff e l => off e l s
        | OpRemoveAll e => removeAllListeners e s
        | OpEmit e p => emit fuel e p s
        end in
      let call s l :=
        match unwrap l s with
        | (Some f, s) =>
            let '(ops, throws) := body f payload in
            let s := fold_left (fun s o => perform o s) ops (say (OCalled l f payload) s) in
            if throws then report f s else s
        | (None, s) => s
        end in
      fold_left call (listening event s) s
  end.

Definition perform (fuel : nat) (o : op P) s : TypedEmitter P :=
  match o with
  | OpOn e f => on e (User f) s
  | OpOnce e f => once e f s
  | OpOff e l => off e l s
  | OpRemoveAll e => removeAllListeners e s
  | OpEmit e p => emit fuel e p s
  end.

Definition run (fuel : nat) (ops : list (op P)) s : TypedEmitter P := fold_left (fun s o => perform fuel o s) ops s.

(** ** Properties *)

(** The listeners called, newest first. *)
Definition called s : list listener := omap (fun o => match o with OCalled l _ _ => Some l | _ => None end) (log s).

(** Functions that do not emit from within their calls. *)
Definition flat : Prop := forall f p e q, OpEmit e q ∉ (body f p).1.

(** The listeners registered know their wrappers. *)
Definition known s : Prop := forall e set w, assoc e (listeners s) = Some set -> Once w ∈ set -> w < length (wrappers s).

Lemma called_perform fuel o s : (forall e q, o <> OpEmit e q) -> called (perform fuel o s) = called s.
Proof.
  intros Ho. destruct o; simpl; try done.
  - unfold off. by destruct (assoc event (listeners s)).
  - unfold removeAllListeners. by destruct event.
  - by destruct (Ho event payload).
Qed.

Lemma wrappers_perform fuel o s :
  (forall e q, o <> OpEmit e q) -> wrappers s `prefix_of` wrappers (perform fuel o s).
Proof.
  intros Ho. destruct o; simpl; try done.
  - by eexists.
  - unfold off. by destruct (assoc event (listeners s)).
  - unfold removeAllListeners. by destruct event.
  - by destruct (Ho event payload).
Qed.

Lemma perform_flat fuel ops s :
  (forall e q, OpEmit e q ∉ ops) ->
  called (fold_left (fun s o => perform fuel o s) ops s) = called s /\
  wrappers s `prefix_of` wrappers (fold_left (fun s o => perform fuel o s) ops s).
Proof.
  revert s. induction ops as [|o ops IH]; intros s Ho; [done|]. simpl.
  assert (H : forall e q, o <> OpEmit e q) by (intros e q ->; by apply (Ho e q), list_elem_of_here).
  destruct (IH (perform fuel o s)) as [H1 H2]; [intros e q Hin; by apply (Ho e q), list_elem_of_further|].
  rewrite H1, called_perform by done. split; [done|]. etransitivity; [by apply wrappers_perform | exact H2].
Qed.

(** An emission calls exactly the listeners subscribed to the event when
it began, each once and in the order they subscribed, whatever they
subscribe or unsubscribe meanwhile and whether or not they throw. *)
Theorem emit_calls_snapshot (fuel : nat) (event : string) (payload : P) (s : TypedEmitter P) :
  flat -> known s ->
  called (emit (S fuel) event payload s) = reverse (listening event s) ++ called s.
Proof.
  intros Hflat Hk. cbn [emit].
  assert (Hall : Forall (fun l => match l with User _ => True | Once w => w < length (wrappers s) end) (listening event s)).
  { apply Forall_forall. intros [f|w] Hl; [done|]. unfold listening in Hl. destruct (assoc event (listeners s)) as [set|] eqn:E; [|by apply elem_of_nil in Hl].
    by eapply Hk. }
  revert Hall. generalize (listening event s) as ls. intros ls.
  assert (Hgen : forall n (s0 : TypedEmitter P), n <= length (wrappers s0) ->
    Forall (fun l => match l with User _ => True | Once w => w < n end) ls ->
    called (fold_left (fun s l => match unwrap l s with
    | (Some f, s) => let '(ops, throws) := body f payload in
      let s := fold_left (fun s o => perform fuel o s) ops (say (OCalled l f payload) s) in if throws then report f s else s
    | (None, s) => s end) ls s0) = reverse ls ++ called s0).
  { clear Hk s. intros n. induction ls as [|l ls IH]; intros s Hn Hall; [done|]. apply Forall_cons in Hall as [Hl Hall]. cbn [fold_left].
    assert (Hu : exists f s1, unwrap l s = (Some f, s1) /\ called s1 = called s /\ wrappers s1 = wrappers s).
    { destruct l as [f|w]; simpl; [by eexists _, _|]. destruct (lookup_lt_is_Some_2 (wrappers s) w) as [[e f] Hw]; [lia|].
      rewrite Hw. eexists _, _. split; [done|]. unfold off. by destruct (assoc e (listeners s)). }
    destruct Hu as (f & s1 & -> & Hc & Hw). pose proof (Hflat f payload) as Hf. destruct (body f payload) as [ops throws].
    destruct (perform_flat fuel ops (say (OCalled l f payload) s1) Hf) as [H1 [k H2]].
    simpl in H2. set (s2 := fold_left _ ops _) in *.
    assert (H3 : exists s3, (if throws then report f s2 else s2) = s3 /\ called s3 = l :: called s /\ wrappers s3 = wrappers s2).
    { eexists; split; [reflexivity|]. change (called (say (OCalled l f payload) s1)) with (l :: called s1) in H1. rewrite Hc in H1.
      destruct throws; [|done]. unfold report. destruct (has_handler s2); simpl; (split; [exact H1 | done]). }
    destruct H3 as (s3 & -> & H4 & H5). rewrite IH; [|rewrite H5, H2, Hw, length_app; lia | done].
    rewrite H4, reverse_cons, <- app_assoc. done. }
  intros Hall. by apply (Hgen (length (wrappers s))).
Qed.
End Emitter.

(** ** The agent's emitter, the same class *)

(* @src packages/agent-ts/src/emitter.ts 14-17 TypedEmitter *)
Definition AgentEmitter : Type -> Type := TypedEmitter.
(* @src packages/agent-ts/src/emitter.ts 19-28 on *)
Definition agent_on {P} : string -> listener -> AgentEmitter P -> AgentEmitter P := on.
(* @src packages/agent-ts/src/emitter.ts 30-37 once *)
Definition agent_once {P} : string -> nat -> AgentEmitter P -> AgentEmitter P := once.
(* @src packages/agent-ts/src/emitter.ts 39-41 off *)
Definition agent_off {P} : string -> listener -> AgentEmitter P -> AgentEmitter P := off.
(* @src packages/agent-ts/src/emitter.ts 43-47 removeAllListeners *)
Definition agent_removeAllListeners {P} : option string -> AgentEmitter P -> AgentEmitter P := removeAllListeners.
(* @src packages/agent-ts/src/emitter.ts 54-69 emit *)
Definition agent_emit {P} (body : nat -> P -> list (op P) * bool) : nat -> string -> P -> AgentEmitter P -> AgentEmitter P := emit body.

(** Nested emissions: a listener that emits the event it is called for.  The
    outer emission still calls the [once] wrapper the inner one has used up. *)
Example once_called_twice :
  let body := fun (f p : nat) => match f, p with 0, 0 => ([OpEmit "e" 1], false) | _, _ => ([], false) end in
  called (run body 5 [OpOn "e" 0; OpOnce "e" 7; OpEmit "e" 0] new_emitter) = [Once 0; Once 0; User 0; User 0].
Proof. reflexivity. Qed.

Lemma emit_calls_snapshot_witness :
  let body := fun (f p : nat) => match f with 0 => ([OpOff "e" (User 1); OpOn "e" 2], true) | _ => ([], false) end in
  let s := run body 5 [OpOn "e" 0; OpOn "e" 1; OpOnce "e" 3] new_emitter in
  called (emit body 5 "e" 0 s) = [Once 0; User 1; User 0] /\
  called (emit body 5 "e" 0 s) = reverse (listening "e" s) ++ called s.
Proof.
  intros body s. split; [reflexivity|]. apply (emit_calls_snapshot body 4 "e" 0 s).
  - intros [|f] p e q; simpl; set_solver.
  - intros e set w Hs Hw. change (listeners s) with [("e", [User 0; User 1; Once 0])] in Hs. cbn [assoc] in Hs.
    destruct (String.eqb "e" e); [|done]. injection Hs as <-.
    assert (Hw0 : Once w = Once 0) by set_solver. injection Hw0 as ->. simpl. lia.
Defined.
