(* ===== verification/Backoff.v ===== *)
(** * Backoff: jittered exponential reconnect delays.

    Both SDKs carry the same policy ([packages/client-ts/src/backoff.ts] and
    [packages/agent-ts/src/backoff.ts]); they differ in the default of
    [maxDelayMs] only.  Numbers are exact rationals: rounding of doubles in
    [factor ** n] and in the products is not modelled. *)

From stdpp Require Import base numbers.
From Stdlib Require Import ZArith QArith Qround Qminmax Qpower Lia Lqa.
From S2P Require Import Prelude.

Open Scope Q_scope.

(** ** Data *)

(* @src packages/client-ts/src/backoff.ts 8-29 ReconnectOptions *)
Record ReconnectOptions := mkReconnectOptions {
  o_enabled : option bool;
  o_initialDelayMs : option Q;
  o_maxDelayMs : option Q;
  o_factor : option Q;
  o_jitter : option Q;
  o_maxAttempts : option Z;
}.

(** [maxAttempts]: [None] is [Number.POSITIVE_INFINITY]. *)
(* @src packages/client-ts/src/backoff.ts 8-32 ResolvedReconnect *)
Record ResolvedReconnect := mkResolvedReconnect {
  enabled : bool;
  initialDelayMs : Q;
  maxDelayMs : Q;
  factor : Q;
  jitter : Q;
  maxAttempts : option Z;
}.

(** The argument of [resolveReconnect]: options, [false] or [undefined]. *)
Inductive reconnect_arg :=
| RFalse
| RUndefined
| ROptions (o : ReconnectOptions).

Definition no_options : ReconnectOptions := mkReconnectOptions None None None None None None.

(** ** [resolveReconnect] *)

(** The shared body, for a package's default [maxDelayMs]. *)
Definition resolve_with (defaultMaxDelayMs : Q) (options : reconnect_arg) : ResolvedReconnect :=
  let o := match options with
           | RFalse => mkReconnectOptions (Some false) None None None None None
           | RUndefined => no_options
           | ROptions o => o
           end in
  {| enabled := o_enabled o ?? true;
     initialDelayMs := o_initialDelayMs o ?? 1000;
     maxDelayMs := o_maxDelayMs o ?? defaultMaxDelayMs;
     factor := o_factor o ?? 2;
     jitter := Qmin 1 (Qmax 0 (o_jitter o ?? (1 # 2)));
     maxAttempts := o_maxAttempts o |}.

(* @src packages/client-ts/src/backoff.ts 34-45 resolveReconnect *)
Definition resolveReconnect : reconnect_arg -> ResolvedReconnect := resolve_with 10000.

(* @src packages/agent-ts/src/backoff.ts 8-41 resolveReconnect *)
Definition agent_resolveReconnect : reconnect_arg -> ResolvedReconnect := resolve_with 30000.

(** ** [backoffDelay] *)

(** [base]: the exponential delay before jitter, capped. *)
Definition backoff_base (attempt : Z) (policy : ResolvedReconnect) : Q :=
  Qmin (maxDelayMs policy) (initialDelayMs policy * Qpower (factor policy) (Z.max 0 (attempt - 1))).

(** [floor]: a positive [retryAfterMs], else 0. *)
Definition retry_floor (retryAfterMs : option Q) : Q :=
  match retryAfterMs with
  | Some r => if Qlt_le_dec 0 r then r else 0
  | None => 0
  end.

(** [random] is the value [Math.random()] returned, in [[0, 1)]. *)
(* @src packages/client-ts/src/backoff.ts 47-62 backoffDelay *)
Definition backoffDelay (attempt : Z) (policy : ResolvedReconnect) (retryAfterMs : option Q) (random : Q) : Z :=
  let base := backoff_base attempt policy in
  let delay := base * (1 - jitter policy) + random * base * jitter policy in
  math_round (Qmax delay (retry_floor retryAfterMs)).

(* @src packages/agent-ts/src/backoff.ts 43-58 backoffDelay *)
Definition agent_backoffDelay : Z -> ResolvedReconnect -> option Q -> Q -> Z := backoffDelay.

(** ** Lemmas *)

(** A policy whose numbers make sense; [resolveReconnect] clamps [jitter] only. *)
Record policy_ok (p : ResolvedReconnect) : Prop := {
  ok_initial : 0 <= initialDelayMs p;
  ok_max : 0 <= maxDelayMs p;
  ok_factor : 1 <= factor p;
  ok_jitter : 0 <= jitter p <= 1;
}.

Lemma jitter_clamped d o : 0 <= jitter (resolve_with d o) <= 1.
Proof.
  unfold resolve_with; simpl. split.
  - apply Q.min_glb; [lra|apply Q.le_max_l].
  - apply Q.le_min_l.
Qed.

Lemma Qpower_1_le f n : 1 <= f -> (0 <= n)%Z -> 1 <= Qpower f n.
Proof.
  intros Hf Hn. pattern n. apply natlike_ind; [simpl; lra| |done].
  intros k Hk IH. unfold Z.succ. rewrite Qpower_plus by lra. simpl.
  nra.
Qed.

Lemma Qpower_mono f m n : 1 <= f -> (0 <= m <= n)%Z -> Qpower f m <= Qpower f n.
Proof.
  intros Hf Hmn. replace n with (m + (n - m))%Z by lia.
  rewrite Qpower_plus by lra.
  pose proof (Qpower_1_le f m Hf ltac:(lia)). pose proof (Qpower_1_le f (n - m) Hf ltac:(lia)). nra.
Qed.

Lemma backoff_base_nonneg attempt p : policy_ok p -> 0 <= backoff_base attempt p.
Proof.
  intros [Hi Hm Hf _]. unfold backoff_base. apply Q.min_glb; [done|].
  pose proof (Qpower_1_le (factor p) (Z.max 0 (attempt - 1)) Hf ltac:(lia)). nra.
Qed.

Lemma backoff_base_mono a b p : policy_ok p -> (a <= b)%Z -> backoff_base a p <= backoff_base b p.
Proof.
  intros [Hi Hm Hf _] Hab. unfold backoff_base. apply Q.min_glb.
  - eapply Qle_trans; [apply Q.le_min_l|lra].
  - eapply Qle_trans; [apply Q.le_min_r|].
    pose proof (Qpower_mono (factor p) (Z.max 0 (a - 1)) (Z.max 0 (b - 1)) Hf ltac:(lia)). nra.
Qed.

(** The jittered delay stays in the "equal jitter" interval. *)
Lemma jittered_bounds base j r :
  0 <= base -> 0 <= j <= 1 -> 0 <= r <= 1 ->
  base * (1 - j) <= base * (1 - j) + r * base * j <= base.
Proof.
  intros Hb Hj Hr. assert (0 <= base * j) by nra.
  assert (0 <= r * (base * j) <= base * j) by nra.
  assert (r * base * j == r * (base * j)) by ring. lra.
Qed.

Lemma backoff_range attempt p retryAfterMs random :
  policy_ok p -> 0 <= random < 1 ->
  (math_round (Qmax (backoff_base attempt p * (1 - jitter p)) (retry_floor retryAfterMs))
   <= backoffDelay attempt p retryAfterMs random
   <= math_round (Qmax (backoff_base attempt p) (retry_floor retryAfterMs)))%Z.
Proof.
  intros Hp Hr. pose proof (backoff_base_nonneg attempt p Hp).
  destruct (jittered_bounds (backoff_base attempt p) (jitter p) random) as [Hlo Hhi];
    [done|apply Hp|lra|].
  unfold backoffDelay. split; apply math_round_mono, Q.max_le_compat_r; done.
Qed.

(** ** Properties *)

(** The delay before a reconnect attempt: drawn between
    [base * (1 - jitter)] and [base] (rounded), or [retryAfterMs] when that is
    later, for every value [Math.random()] can return. *)
Theorem backoffDelay_bounds attempt p retryAfterMs random :
  policy_ok p -> 0 <= random < 1 ->
  (math_round (Qmax (backoff_base attempt p * (1 - jitter p)) (retry_floor retryAfterMs))
   <= backoffDelay attempt p retryAfterMs random
   <= math_round (Qmax (backoff_base attempt p) (retry_floor retryAfterMs)))%Z.
Proof. apply backoff_range. Qed.

(** A server-provided [retryAfterMs] is a floor: no attempt, policy or
    random draw makes the SDK reconnect before that many milliseconds. *)
Theorem backoffDelay_never_early attempt p (ms : Z) random :
  (0 < ms)%Z -> (ms <= backoffDelay attempt p (Some (inject_Z ms)) random)%Z.
Proof.
  intros Hms. unfold backoffDelay, retry_floor.
  destruct (Qlt_le_dec 0 (inject_Z ms)) as [_|Hle].
  - etransitivity; [apply Z.eq_le_incl; symmetry; apply (math_round_inject ms)|].
    apply math_round_mono, Q.le_max_r.
  - exfalso. unfold Qle in Hle; simpl in Hle. lia.
Qed.

(** With the default policy of the client the delay doubles from one
    second and is capped at ten seconds, whatever the number of failed
    attempts: the reconnect of attempt [n] waits at most
    [min(10000, 1000 * 2^(n-1))] ms, at least half of that, and the bounds
    never shrink as attempts fail. *)
Theorem default_backoff_window (n : Z) random :
  (1 <= n)%Z -> 0 <= random < 1 ->
  let p := resolveReconnect RUndefined in
  backoff_base n p == Qmin 10000 (inject_Z (1000 * 2 ^ (n - 1)))
  /\ backoff_base n p <= backoff_base (n + 1) p
  /\ (500 <= backoffDelay n p None random <= 10000)%Z.
Proof.
  intros Hn Hr p.
  assert (Hok : policy_ok p).
  { split; [unfold p; simpl; lra| unfold p; simpl; lra| unfold p; simpl; lra|apply jitter_clamped]. }
  split; [|split].
  - unfold backoff_base, p, resolveReconnect, resolve_with. simpl.
    rewrite Z.max_r by lia. rewrite inject_Z_mult, Zpower_Qpower by lia. reflexivity.
  - apply backoff_base_mono; [done|lia].
  - destruct (backoff_range n p None random Hok Hr) as [Hlo Hhi].
    assert (1000 <= backoff_base n p <= 10000) as [Hb1 Hb2].
    { split.
      - change 1000 with (backoff_base 1 p). apply backoff_base_mono; [done|lia].
      - unfold backoff_base. eapply Qle_trans; [apply Q.le_min_l|]. unfold p; simpl; lra. }
    assert (jitter p == 1 # 2) as Hj by reflexivity.
    split.
    + etransitivity; [|exact Hlo]. change 500%Z with (math_round 500).
      apply math_round_mono. eapply Qle_trans; [|apply Q.le_max_l]. rewrite Hj. lra.
    + etransitivity; [exact Hhi|]. change 10000%Z with (math_round 10000).
      apply math_round_mono. simpl. apply Q.max_lub; lra.
Qed.

Lemma backoffDelay_bounds_witness :
  let p := resolveReconnect RUndefined in
  (math_round (Qmax (backoff_base 3 p * (1 - jitter p)) (retry_floor (Some (inject_Z 3000))))
   <= backoffDelay 3 p (Some (inject_Z 3000)) (1 # 2)
   <= math_round (Qmax (backoff_base 3 p) (retry_floor (Some (inject_Z 3000)))))%Z.
Proof.
  intros p. apply (backoffDelay_bounds 3 p (Some (inject_Z 3000)) (1 # 2)); [|split; [discriminate|reflexivity]].
  split; try discriminate. split; discriminate.
Defined.

Lemma backoffDelay_never_early_witness :
  (backoffDelay 1 (resolveReconnect RUndefined) (Some (inject_Z 30000)) (1 # 2) = 30000
   /\ 30000 <= backoffDelay 1 (resolveReconnect RUndefined) (Some (inject_Z 30000)) (1 # 2))%Z.
Proof. split; [reflexivity|]. by apply (backoffDelay_never_early 1 (resolveReconnect RUndefined) 30000 (1 # 2)). Defined.

Lemma default_backoff_window_witness :
  let p := resolveReconnect RUndefined in
  backoff_base 4 p == Qmin 10000 (inject_Z (1000 * 2 ^ (4 - 1)))
  /\ backoff_base 4 p <= backoff_base (4 + 1) p
  /\ (500 <= backoffDelay 4 p None (1 # 3) <= 10000)%Z.
Proof. apply (default_backoff_window 4 (1 # 3)); [discriminate|split; [discriminate|reflexivity]]. Defined.
