(* ===== verification/Frames.v ===== *)
(** * Frames: the frame vocabulary of Protocol v1.

    [packages/client-ts/src/protocol/frames.ts] (the end-user SDK) and the
    predicates of [packages/agent-ts/src/frames.ts] (the agent SDK).  Frames
    carry the fields the SDKs read; fields they only pass on are JSON. *)

From stdpp Require Import base gmap sets list strings.
From Stdlib Require Import ZArith QArith Lia.
From S2P Require Import Prelude.

Open Scope string_scope.
Open Scope Z_scope.

(** ** Server to client *)

(* @src packages/client-ts/src/protocol/frames.ts 12-13 PROTOCOL_VERSION *)
Definition PROTOCOL_VERSION : string := "converger/1".

(* @src packages/client-ts/src/protocol/frames.ts 18-23 Sender *)
Record Sender := mkSender { sender_id : string; sender_role : string; sender_name : option string }.

(** [limits?: Partial<Limits>], the fields the client reads. *)
(* @src packages/client-ts/src/protocol/frames.ts 25-36 Limits *)
Record Limits := mkLimits { maxInFlight : option Z; idleTimeoutMs : option Z }.

(** [WelcomeFrame["data"]]. [watermark = None] is [null]. *)
(* @src packages/client-ts/src/protocol/frames.ts 54-72 WelcomeFrame *)
Record WelcomeData := mkWelcomeData {
  w_protocol : string;
  w_conversationId : string;
  w_userId : option string;
  w_watermark : option Z;
  w_expiresAt : option Z;
  w_limits : option Limits;
}.

(* @src packages/client-ts/src/protocol/frames.ts 133-142 AckFrame *)
Record AckFrame := mkAckFrame {
  ack_clientId : string;
  ack_id : string;
  ack_seq : option Z;
  ack_timestamp : option Z;
  ack_duplicate : option bool;
}.

(* @src packages/client-ts/src/protocol/frames.ts 144-187 ErrorFrame *)
Record ErrorData := mkErrorData {
  ed_code : string;
  ed_message : string;
  ed_number : option Z;
  ed_retryable : option bool;
  ed_retryAfterMs : option Z;
  ed_clientId : option string;
  ed_frameType : option string;
  ed_details : option (list (string * json));
}.

(* @src packages/client-ts/src/protocol/frames.ts 243-247 ReplayTruncatedFrame *)
Record ReplayTruncated := mkReplayTruncated { rt_watermark : Z; rt_headSeq : Z }.

(** Any frame outside the control types the session switches on: a message
    frame, a conversation event, [typing], or a type this SDK does not know.
    [f_seq] is the raw JSON value of [seq], as [isPersistent] reads it. *)
(* @src packages/client-ts/src/protocol/frames.ts 83-131 PersistentFrameBase *)
Record Frame := mkFrame {
  f_type : string;
  f_seq : option json;
  f_id : option string;
  f_from : option string;
  f_clientId : option string;
  f_timestamp : option Z;
  f_sender : option Sender;
  f_isTyping : option bool;
  f_data : json;
  f_metadata : option (list (string * json));
  f_replyTo : option string;
}.

(** Control frames are split by the [type] the session switches on. *)
(* @src packages/client-ts/src/protocol/frames.ts 189-262 ServerFrame *)
Inductive ServerFrame :=
| SWelcome (data : WelcomeData)
| SAck (ack : AckFrame)
| SError (data : ErrorData)
| SDeliveryStatus (data : json)
| SPresence (data : json)
| STokenRefreshed (expiresAt : option Z)
| SReplayTruncated (data : ReplayTruncated)
| SHeartbeat (headSeq : option Z)
| SFrame (frame : Frame).

(** ** Client to server *)

(* @src packages/client-ts/src/protocol/frames.ts 278-286 ClientMessageFrame *)
Record ClientMessageFrame := mkClientMessage {
  m_clientId : string;
  m_text : string;
  m_attachments : option (list json);
  m_metadata : option (list (string * json));
  m_meta : option (list (string * json));
  m_replyTo : option string;
}.

(* @src packages/client-ts/src/protocol/frames.ts 268-321 ClientFrame *)
Inductive ClientFrame :=
| CHello (protocol token : string) (conversationId userId : option string) (watermark : option Z)
| CText (m : ClientMessageFrame)
| CSync (watermark : Z)
| CPing (nonce : string)
| CAuth (token : string)
| CTyping (isTyping : bool)
| CRead (watermark : Z).

(** ** Predicates *)

(* @src packages/client-ts/src/protocol/frames.ts 323-336 CONTROL_TYPES *)
Definition CONTROL_TYPES : list string :=
  ["welcome"; "ack"; "error"; "deliveryStatus"; "presence"; "heartbeat"; "tokenRefreshed";
   "replayTruncated"; "run"; "genui_components"; "skills"].

(* @src packages/client-ts/src/protocol/frames.ts 338-351 isPersistent *)
Definition isPersistent (type seq : option json) : bool :=
  match type with
  | Some (JStr t) =>
      negb (bool_decide (t ∈ CONTROL_TYPES))
      && match seq with
         | Some (JNum q) => is_integer q && (0 <? to_integer q)
         | _ => false
         end
  | _ => false
  end.

(** [frame.seq] once [isPersistent] accepted the frame. *)
Definition seq_of (seq : option json) : Z :=
  match seq with
  | Some (JNum q) => to_integer q
  | _ => 0
  end.

Module CloseCode.
(* @src packages/client-ts/src/protocol/frames.ts 355-355 CloseCode.normal *)
Definition normal := 1000.
(* @src packages/client-ts/src/protocol/frames.ts 356-356 CloseCode.internalError *)
Definition internalError := 1011.
(* @src packages/client-ts/src/protocol/frames.ts 357-357 CloseCode.tooBig *)
Definition tooBig := 1009.
(* @src packages/client-ts/src/protocol/frames.ts 358-358 CloseCode.restart *)
Definition restart := 1012.
(* @src packages/client-ts/src/protocol/frames.ts 359-359 CloseCode.tryAgainLater *)
Definition tryAgainLater := 1013.
(* @src packages/client-ts/src/protocol/frames.ts 360-360 CloseCode.conversationNotFound *)
Definition conversationNotFound := 1008.
(* @src packages/client-ts/src/protocol/frames.ts 361-361 CloseCode.unsupportedProtocol *)
Definition unsupportedProtocol := 4400.
(* @src packages/client-ts/src/protocol/frames.ts 362-362 CloseCode.unauthorized *)
Definition unauthorized := 4401.
(* @src packages/client-ts/src/protocol/frames.ts 363-363 CloseCode.forbidden *)
Definition forbidden := 4403.
(* @src packages/client-ts/src/protocol/frames.ts 364-364 CloseCode.idleTimeout *)
Definition idleTimeout := 4408.
(* @src packages/client-ts/src/protocol/frames.ts 365-365 CloseCode.slowConsumer *)
Definition slowConsumer := 4503.
End CloseCode.

(* @src packages/client-ts/src/protocol/frames.ts 368-374 RETRYABLE_SEND_ERRORS *)
Definition RETRYABLE_SEND_ERRORS : list string :=
  ["rate_limited"; "too_many_in_flight"; "unavailable"; "internal"].

(** ** The agent SDK's predicates *)

(* @src packages/agent-ts/src/frames.ts 214-222 NON_MESSAGE_TYPES *)
Definition NON_MESSAGE_TYPES : list string :=
  ["hello"; "welcome"; "resume"; "genui_event"; "client_tools"; "client_skills"; "abort";
   "tool_call"; "skill"; "skills"; "genui"; "genui_components"; "interrupt"; "interrupt_resolved";
   "run"; "error"; "typing"; "survey"; "regenerate"; "edit"; "ack"; "deliveryStatus"; "presence";
   "conversationUpdate"; "endOfConversation"; "event"; "heartbeat"; "ping"; "read"; "sync"; "auth";
   "tokenRefreshed"; "replayTruncated"; "subscribe"; "unsubscribe"; "subscribed"; "unsubscribed";
   "message"; "activity"; "activitySet"; "frame"].

(* @src packages/agent-ts/src/frames.ts 224-228 UNACKED_TYPES *)
Definition UNACKED_TYPES : list string :=
  ["tool_call"; "skill"; "genui"; "interrupt"; "interrupt_resolved"; "run"; "genui_components";
   "skills"; "error"; "typing"; "read"; "sync"].

(** [typeof data === "object" && data !== null]: an object or an array. *)
Definition is_object (v : option json) : bool :=
  match v with
  | Some (JObj _) | Some (JArr _) => true
  | _ => false
  end.

(* @src packages/agent-ts/src/frames.ts 230-238 isMessageFrame *)
Definition isMessageFrame (type data : option json) : bool :=
  match type with
  | Some (JStr t) => negb (bool_decide (t ∈ NON_MESSAGE_TYPES)) && is_object data
  | _ => false
  end.

(** ** Lemmas *)

Lemma isPersistent_spec type seq :
  isPersistent type seq = true <->
  exists t q, type = Some (JStr t) /\ t ∉ CONTROL_TYPES /\ seq = Some (JNum q)
              /\ is_integer q = true /\ 0 < seq_of seq.
Proof.
  split.
  - destruct type as [[]|]; simpl; try done. intros H; bools.
    destruct seq as [[]|]; try done. bools. eauto 10.
  - intros (t & q & -> & Ht & -> & Hq & Hpos). simpl in *.
    rewrite bool_decide_eq_false_2, Hq by done. simpl. by apply Z.ltb_lt.
Qed.

Lemma isPersistent_pos type seq : isPersistent type seq = true -> 0 < seq_of seq.
Proof. intros H. apply isPersistent_spec in H as (t & q & ? & ? & ? & ? & ?). done. Qed.

(** No frame the agent acknowledges is of a type it sends unacknowledged. *)
Lemma unacked_not_message t : t ∈ UNACKED_TYPES -> t ∈ NON_MESSAGE_TYPES.
Proof. unfold UNACKED_TYPES, NON_MESSAGE_TYPES. set_solver. Qed.

Lemma message_frame_is_acked t data :
  isMessageFrame (Some (JStr t)) data = true -> t ∉ UNACKED_TYPES.
Proof.
  simpl. intros H Hu. bools. by apply unacked_not_message in Hu.
Qed.
