(* ===== verification/Watermark.v ===== *)
(** * Watermark: the wire forms of a watermark
    ([packages/client-ts/src/protocol/watermark.ts]).

    A watermark is the integer [seq] of the last persistent frame a client has
    seen.  It travels as a JSON number, a decimal string, or the opaque
    pre-v1 form, base64url of ["seq:N"].

    [btoa], [atob], [String(n)] and [Number(text)] are modelled on the
    characters the code passes through them: code units below 256, integers
    below 10^16.  [Number] rounds to a double. *)

From stdpp Require Import base gmap list strings.
From Stdlib Require Import ZArith QArith Lia Ascii.
From S2P Require Import Prelude.

Open Scope string_scope.
Open Scope list_scope.
Open Scope Z_scope.

(** ** Characters *)

Abbreviation chars := (list ascii).
Definition code (c : ascii) : Z := Z.of_N (N_of_ascii c).
Definition chr (z : Z) : ascii := ascii_of_N (Z.to_N z).
Definition chars_of (s : string) : chars := String.list_ascii_of_string s.
Definition str_of (l : chars) : string := String.string_of_list_ascii l.

(** ** Base64 ([btoa], [atob]) *)

Definition alphabet : chars :=
  chars_of "ABCDEFGHIJKLMNOPQRSTUVWXYZabcdefghijklmnopqrstuvwxyz0123456789+/".

Definition b64_char (v : Z) : ascii := nth (Z.to_nat v) alphabet "="%char.

Fixpoint index_of (c : ascii) (l : chars) : option Z :=
  match l with
  | [] => None
  | d :: l' => if Ascii.eqb c d then Some 0 else Z.succ <$> index_of c l'
  end.
Definition b64_value (c : ascii) : option Z := index_of c alphabet.

Fixpoint btoa (l : chars) : chars :=
  match l with
  | [] => []
  | [a] =>
      let a := code a in
      [b64_char (a / 4); b64_char (a mod 4 * 16); "="%char; "="%char]
  | [a; b] =>
      let a := code a in let b := code b in
      [b64_char (a / 4); b64_char (a mod 4 * 16 + b / 16); b64_char (b mod 16 * 4); "="%char]
  | a :: b :: c :: rest =>
      let a := code a in let b := code b in let c := code c in
      b64_char (a / 4) :: b64_char (a mod 4 * 16 + b / 16)
        :: b64_char (b mod 16 * 4 + c / 64) :: b64_char (c mod 64) :: btoa rest
  end.

(** The six-bit groups of [atob]; the bits left over after the last full byte
    are discarded. *)
Fixpoint decode_groups (l : list Z) : option chars :=
  match l with
  | [] => Some []
  | [_] => None
  | [a; b] => Some [chr (a * 4 + b / 16)]
  | [a; b; c] => Some [chr (a * 4 + b / 16); chr (b mod 16 * 16 + c / 4)]
  | a :: b :: c :: d :: rest =>
      match decode_groups rest with
      | Some out =>
          Some (chr (a * 4 + b / 16) :: chr (b mod 16 * 16 + c / 4) :: chr (c mod 4 * 64 + d) :: out)
      | None => None
      end
  end.

Definition is_ascii_space (c : ascii) : bool :=
  bool_decide (code c ∈ [9; 10; 12; 13; 32]).

(** Remove one trailing ["="], if there is one. *)
Definition drop_pad (l : chars) : chars :=
  match rev l with
  | c :: l' => if Ascii.eqb c "=" then rev l' else l
  | [] => l
  end.

(** WHATWG forgiving-base64 decode; [None] is the [InvalidCharacterError]. *)
Definition atob (l : chars) : option chars :=
  let l := filter (fun c => is_ascii_space c = false) l in
  let l := if (length l mod 4 =? 0)%nat then drop_pad (drop_pad l) else l in
  if (length l mod 4 =? 1)%nat then None
  else mapM b64_value l ≫= decode_groups.

(** ** [base64UrlEncode], [base64UrlDecode] *)

(** [.replace(/x/g, "y")] for single characters. *)
Definition replace_char (x y : ascii) (l : chars) : chars :=
  map (fun c => if Ascii.eqb c x then y else c) l.

(** [.replace(/=+$/, "")]. *)
Fixpoint drop_while_pad (l : chars) : chars :=
  match l with
  | c :: l' => if Ascii.eqb c "=" then drop_while_pad l' else l
  | [] => []
  end.
Definition strip_pad (l : chars) : chars := rev (drop_while_pad (rev l)).

(* @src packages/client-ts/src/protocol/watermark.ts 13-15 base64UrlEncode *)
Definition base64UrlEncode (text : chars) : chars :=
  strip_pad (replace_char "/" "_" (replace_char "+" "-" (btoa text))).

(* @src packages/client-ts/src/protocol/watermark.ts 17-24 base64UrlDecode *)
Definition base64UrlDecode (value : chars) : option chars :=
  let padded := replace_char "_" "/" (replace_char "-" "+" value) in
  atob (padded ++ repeat "="%char ((4 - length padded mod 4) mod 4)).

(** ** Decimal integers *)

(** The rounding of [Number(text)] for an integer below [2^54]: the nearest
    double, ties to even. *)
Definition to_double (n : Z) : Z :=
  if n <=? 2 ^ 53 then n
  else if n mod 4 =? 1 then n - 1
  else if n mod 4 =? 3 then n + 1
  else n.

Definition digit (c : ascii) : option Z :=
  if (48 <=? code c) && (code c <=? 57) then Some (code c - 48) else None.

Definition value_of_digits (ds : list Z) : Z := fold_left (fun acc d => acc * 10 + d) ds 0.

(** [/^(0|[1-9][0-9]{0,15})$/] and the integer it matches. *)
Definition match_decimal (l : chars) : option Z :=
  match mapM digit l with
  | Some [0] => Some 0
  | Some (d :: ds) =>
      if (1 <=? d) && (length ds <=? 15)%nat then Some (value_of_digits (d :: ds)) else None
  | _ => None
  end.

(** [String(n)] of a non-negative integer below [10^21]. *)
Fixpoint digits_of (fuel : nat) (n : Z) (acc : chars) : chars :=
  match fuel with
  | O => acc
  | S fuel =>
      let acc := chr (48 + n mod 10) :: acc in
      if n <? 10 then acc else digits_of fuel (n / 10) acc
  end.
Definition decimal (n : Z) : chars := digits_of 21 n [].

(** ** [encodeOpaqueWatermark], [parseWatermark] *)

Definition seq_prefix : chars := chars_of "seq:".

(* @src packages/client-ts/src/protocol/watermark.ts 26-29 encodeOpaqueWatermark *)
Definition encodeOpaqueWatermark (seq : Z) : string :=
  str_of (base64UrlEncode (seq_prefix ++ decimal seq)).

(** [/^seq:(0|[1-9][0-9]{0,15})$/.exec(decoded)]. *)
Definition match_opaque (l : chars) : option Z :=
  match l with
  | c1 :: c2 :: c3 :: c4 :: rest =>
      if bool_decide ([c1; c2; c3; c4] = seq_prefix) then match_decimal rest else None
  | _ => None
  end.

(** [None] is [undefined]; the result [None] is [null]. *)
(* @src packages/client-ts/src/protocol/watermark.ts 31-45 parseWatermark *)
Definition parseWatermark (value : option json) : option Z :=
  match value with
  | Some (JNum q) => if is_integer q && (0 <=? to_integer q) then Some (to_integer q) else None
  | Some (JStr "") => None
  | Some (JStr s) =>
      match match_decimal (chars_of s) with
      | Some n => Some (to_double n)
      | None => to_double <$> (base64UrlDecode (chars_of s) ≫= match_opaque)
      end
  | _ => None
  end.

(** ** Lemmas: base64 *)

Lemma code_bounds c : 0 <= code c < 256.
Proof. unfold code. pose proof (N_ascii_bounded c). lia. Qed.

Lemma chr_code c : chr (code c) = c.
Proof. unfold chr, code. by rewrite N2Z.id, ascii_N_embedding. Qed.

Lemma chr_code_eq c z : z = code c -> chr z = c.
Proof. intros ->. apply chr_code. Qed.

(** Case analysis on a six-bit value. *)
Definition sextets : list Z := map Z.of_nat (seq 0 64).

Lemma sextet_in v : 0 <= v < 64 -> v ∈ sextets.
Proof.
  intros Hv. apply list_elem_of_In, in_map_iff. exists (Z.to_nat v).
  split; [lia|]. apply in_seq. lia.
Qed.

Lemma sextet_forall (P : Z -> bool) : forallb P sextets = true -> forall v, 0 <= v < 64 -> P v = true.
Proof.
  intros HP v Hv. rewrite forallb_forall in HP.
  apply HP, list_elem_of_In. by apply sextet_in.
Qed.

Lemma b64_value_char v : 0 <= v < 64 -> b64_value (b64_char v) = Some v.
Proof.
  intros Hv. apply (bool_decide_eq_true_1 _).
  exact (sextet_forall (fun v => bool_decide (b64_value (b64_char v) = Some v)) eq_refl v Hv).
Qed.

(** A character [base64UrlEncode] and [atob] treat as plain data. *)
Definition plain (c : ascii) : bool :=
  negb (Ascii.eqb c "=") && negb (Ascii.eqb c "-") && negb (Ascii.eqb c "_") && negb (is_ascii_space c).

Lemma plain_b64_char v : 0 <= v < 64 -> plain (b64_char v) = true.
Proof. exact (sextet_forall (fun v => plain (b64_char v)) eq_refl v). Qed.

(** The six-bit groups [btoa] writes, without padding. *)
Fixpoint sextets_of (l : chars) : list Z :=
  match l with
  | [] => []
  | [a] => let a := code a in [a / 4; a mod 4 * 16]
  | [a; b] => let a := code a in let b := code b in [a / 4; a mod 4 * 16 + b / 16; b mod 16 * 4]
  | a :: b :: c :: rest =>
      let a := code a in let b := code b in let c := code c in
      a / 4 :: a mod 4 * 16 + b / 16 :: b mod 16 * 4 + c / 64 :: c mod 64 :: sextets_of rest
  end.

(** Induction on a list three elements at a time. *)
Lemma list_ind3 {A} (P : list A -> Prop) :
  P [] -> (forall a, P [a]) -> (forall a b, P [a; b]) ->
  (forall a b c l, P l -> P (a :: b :: c :: l)) -> forall l, P l.
Proof.
  intros H0 H1 H2 H3 l.
  enough (P l /\ (forall a, P (a :: l)) /\ (forall a b, P (a :: b :: l))) by tauto.
  induction l as [|x l IH]; naive_solver.
Qed.

Ltac code_facts :=
  repeat match goal with
  | c : ascii |- _ =>
      lazymatch goal with
      | _ : 0 <= code c < 256 |- _ => fail
      | _ => pose proof (code_bounds c)
      end
  end.

Lemma btoa_sextets l :
  btoa l = map b64_char (sextets_of l) ++ repeat "="%char ((3 - length l mod 3) mod 3).
Proof.
  induction l as [| | |a b c l IH] using list_ind3; try reflexivity.
  cbn [btoa sextets_of map app]. rewrite IH. do 6 f_equal.
  change (length (a :: b :: c :: l)) with (3 + length l)%nat.
  replace ((3 + length l) mod 3)%nat with (length l mod 3)%nat; [done|].
  replace (3 + length l)%nat with (length l + 1 * 3)%nat by lia. by rewrite Nat.Div0.mod_add.
Qed.

Lemma sextets_of_bounds l : Forall (fun v => 0 <= v < 64) (sextets_of l).
Proof.
  induction l as [|a|a b|a b c l IH] using list_ind3; code_facts; cbn [sextets_of];
    repeat (apply Forall_cons; split); try done; Z.to_euclidean_division_equations; lia.
Qed.

Lemma decode_sextets l : decode_groups (sextets_of l) = Some l.
Proof.
  induction l as [|a|a b|a b c l IH] using list_ind3; code_facts; [done| | |];
    cbn [sextets_of decode_groups]; [| |rewrite IH]; repeat f_equal;
    apply chr_code_eq; Z.to_euclidean_division_equations; lia.
Qed.

Lemma length_sextets l :
  ((length (sextets_of l) mod 4 = 0 /\ length l mod 3 = 0)
   \/ (length (sextets_of l) mod 4 = 2 /\ length l mod 3 = 1)
   \/ (length (sextets_of l) mod 4 = 3 /\ length l mod 3 = 2))%nat.
Proof.
  induction l as [|a|a b|a b c l IH] using list_ind3; [auto..|].
  cbn [sextets_of length].
  replace (S (S (S (S (length (sextets_of l)))))) with (length (sextets_of l) + 1 * 4)%nat by lia.
  replace (S (S (S (length l)))) with (length l + 1 * 3)%nat by lia.
  rewrite !Nat.Div0.mod_add. exact IH.
Qed.

Lemma sextets_padding l :
  ((4 - length (sextets_of l) mod 4) mod 4 = (3 - length l mod 3) mod 3)%nat.
Proof. destruct (length_sextets l) as [[-> ->]|[[-> ->]|[-> ->]]]; done. Qed.

Lemma mapM_b64_value vs :
  Forall (fun v => 0 <= v < 64) vs -> mapM b64_value (map b64_char vs) = Some vs.
Proof.
  induction 1 as [|v vs Hv _ IH]; [done|]. cbn [map].
  change (mapM b64_value (b64_char v :: map b64_char vs))
    with (b64_value (b64_char v) ≫= fun y => mapM b64_value (map b64_char vs) ≫= fun k => Some (y :: k)).
  by rewrite b64_value_char, IH.
Qed.

Lemma plain_sextets l : Forall (fun c => plain c = true) (map b64_char (sextets_of l)).
Proof. apply Forall_map. eapply Forall_impl; [apply sextets_of_bounds|]. apply plain_b64_char. Qed.

(** ** Lemmas: padding and the URL alphabet *)

Lemma drop_while_pad_repeat n l : drop_while_pad (repeat "="%char n ++ l) = drop_while_pad l.
Proof. induction n; simpl; auto. Qed.

Lemma plain_not_pad c : plain c = true -> Ascii.eqb c "=" = false.
Proof. unfold plain. intros H. bools. done. Qed.

Lemma rev_repeat {A} (x : A) n : rev (repeat x n) = repeat x n.
Proof.
  induction n as [|n IH]; [done|]. simpl. rewrite IH. clear IH.
  induction n as [|n IH]; [done|]. simpl. by rewrite IH.
Qed.

Lemma strip_pad_plain l n :
  Forall (fun c => Ascii.eqb c "=" = false) l -> strip_pad (l ++ repeat "="%char n) = l.
Proof.
  intros Hl. unfold strip_pad. rewrite rev_app_distr, rev_repeat, drop_while_pad_repeat.
  assert (drop_while_pad (rev l) = rev l) as ->; [|apply rev_involutive].
  assert (Forall (fun c => Ascii.eqb c "=" = false) (rev l)) as Hr by (by apply Forall_rev).
  destruct Hr as [|c l' Hc _]; simpl; [done|]. by rewrite Hc.
Qed.

Lemma drop_pad_plain l :
  Forall (fun c => Ascii.eqb c "=" = false) l -> drop_pad l = l.
Proof.
  intros Hl. unfold drop_pad.
  assert (Forall (fun c => Ascii.eqb c "=" = false) (rev l)) as Hr by (by apply Forall_rev).
  destruct Hr as [|c l' Hc _]; simpl; [done|]. by rewrite Hc.
Qed.

Lemma drop_pad_snoc l : drop_pad (l ++ ["="%char]) = l.
Proof. unfold drop_pad. rewrite rev_app_distr. simpl. apply rev_involutive. Qed.

Lemma drop_two_pads l n :
  Forall (fun c => Ascii.eqb c "=" = false) l -> (n <= 2)%nat ->
  drop_pad (drop_pad (l ++ repeat "="%char n)) = l.
Proof.
  intros Hl Hn. destruct n as [|[|[|n]]]; [..|lia]; simpl.
  - rewrite app_nil_r, (drop_pad_plain l) by done. by apply drop_pad_plain.
  - by rewrite drop_pad_snoc, drop_pad_plain.
  - change ["="%char; "="%char] with (["="%char] ++ ["="%char]).
    by rewrite (app_assoc l), !drop_pad_snoc.
Qed.

(** The URL alphabet is undone by the decoder, on characters [btoa] writes. *)
Lemma url_alphabet_inv l :
  Forall (fun c => Ascii.eqb c "-" = false /\ Ascii.eqb c "_" = false) l ->
  replace_char "_" "/" (replace_char "-" "+" (replace_char "/" "_" (replace_char "+" "-" l))) = l.
Proof.
  unfold replace_char. rewrite !map_map. induction 1 as [|c l [H1 H2] _ IH]; [done|].
  cbn [map]. rewrite IH. f_equal.
  destruct (Ascii.eqb_spec c "+") as [->|H3]; [done|].
  destruct (Ascii.eqb_spec c "/") as [->|H4]; [done|]. by rewrite H1, H2.
Qed.

Lemma length_replace_char x y l : length (replace_char x y l) = length l.
Proof. apply length_map. Qed.

Lemma replace_char_repeat x y n :
  Ascii.eqb "=" x = false -> replace_char x y (repeat "="%char n) = repeat "="%char n.
Proof. intros H. unfold replace_char. rewrite map_repeat. by rewrite H. Qed.

(** [atob] reads back what [btoa] wrote. *)
Lemma atob_padded l :
  atob (map b64_char (sextets_of l) ++ repeat "="%char ((3 - length l mod 3) mod 3)) = Some l.
Proof.
  pose proof (plain_sextets l) as Hp. set (body := map b64_char (sextets_of l)) in *.
  assert (length body = length (sextets_of l)) as Hlen by apply length_map.
  assert (Forall (fun c => Ascii.eqb c "=" = false) body) as Hpad.
  { eapply Forall_impl; [exact Hp|]. apply plain_not_pad. }
  unfold atob. rewrite filter_all.
  2: { apply Forall_app. split.
       - eapply Forall_impl; [exact Hp|]. unfold plain. intros c Hc. bools. done.
       - apply Forall_forall. intros c Hc%list_elem_of_In%repeat_spec. by subst. }
  rewrite length_app, repeat_length, Hlen.
  assert (((length (sextets_of l) + (3 - length l mod 3) mod 3) mod 4)%nat = 0%nat) as ->.
  { rewrite Nat.Div0.add_mod. destruct (length_sextets l) as [[-> ->]|[[-> ->]|[-> ->]]]; done. }
  rewrite Nat.eqb_refl, drop_two_pads; [|done|].
  2: { pose proof (Nat.mod_upper_bound (3 - length l mod 3) 3). lia. }
  rewrite Hlen.
  assert (((length (sextets_of l) mod 4) =? 1)%nat = false) as ->.
  { destruct (length_sextets l) as [[-> _]|[[-> _]|[-> _]]]; done. }
  unfold body. rewrite mapM_b64_value by apply sextets_of_bounds. simpl. apply decode_sextets.
Qed.

(** ** Lemmas: decimal integers *)

Definition digit_char (d : Z) : ascii := chr (48 + d).

Lemma digit_of_char d : 0 <= d < 10 -> digit (digit_char d) = Some d.
Proof.
  intros Hd.
  assert (d = 0 \/ d = 1 \/ d = 2 \/ d = 3 \/ d = 4 \/ d = 5 \/ d = 6 \/ d = 7 \/ d = 8 \/ d = 9)
    as [->|[->|[->|[->|[->|[->|[->|[->|[->| ->]]]]]]]]] by lia; reflexivity.
Qed.

Lemma mapM_digit ds :
  Forall (fun d => 0 <= d < 10) ds -> mapM digit (map digit_char ds) = Some ds.
Proof.
  induction 1 as [|d ds Hd _ IH]; [done|]. cbn [map].
  change (mapM digit (digit_char d :: map digit_char ds))
    with (digit (digit_char d) ≫= fun y => mapM digit (map digit_char ds) ≫= fun k => Some (y :: k)).
  by rewrite digit_of_char, IH.
Qed.

Lemma value_of_digits_snoc ds d : value_of_digits (ds ++ [d]) = value_of_digits ds * 10 + d.
Proof. unfold value_of_digits. by rewrite fold_left_app. Qed.

(** [ds] is the canonical decimal representation of [n]. *)
Record canonical (ds : list Z) (n : Z) : Prop := {
  can_digits : Forall (fun d => 0 <= d < 10) ds;
  can_value : value_of_digits ds = n;
  can_zero : n = 0 -> ds = [0];
  can_head : 0 < n -> exists d ds', ds = d :: ds' /\ 1 <= d;
  can_length : 0 < n -> 10 ^ (Z.of_nat (length ds) - 1) <= n;
}.

Lemma canonical_snoc ds n d :
  0 < n -> 0 <= d < 10 -> canonical ds n -> canonical (ds ++ [d]) (n * 10 + d).
Proof.
  intros Hn Hd [Hds Hv Hz Hh Hl]. destruct (Hh Hn) as (d0 & ds' & -> & Hd0).
  split.
  - apply Forall_app. split; [done|]. by apply Forall_singleton.
  - rewrite value_of_digits_snoc. lia.
  - lia.
  - intros _. exists d0, (ds' ++ [d]). split; [done|lia].
  - intros _. rewrite length_app. simpl. specialize (Hl Hn). simpl in Hl.
    replace (Z.of_nat (S (length ds' + 1)) - 1) with (Z.succ (Z.of_nat (S (length ds')) - 1)) by lia.
    rewrite Z.pow_succ_r by lia. lia.
Qed.

Lemma canonical_digit d : 0 <= d < 10 -> canonical [d] d.
Proof.
  intros Hd. split.
  - by apply Forall_singleton.
  - unfold value_of_digits; simpl; lia.
  - by intros ->.
  - intros. exists d, []. split; [done|lia].
  - intros. simpl. lia.
Qed.

Lemma digits_of_canonical fuel n acc :
  0 <= n < 10 ^ Z.of_nat fuel -> (0 < fuel)%nat ->
  exists ds, digits_of fuel n acc = map digit_char ds ++ acc /\ canonical ds n.
Proof.
  revert n acc. induction fuel as [|fuel IH]; intros n acc Hn Hf; [lia|]. cbn [digits_of].
  assert (n = n / 10 * 10 + n mod 10) as Hdm by (Z.to_euclidean_division_equations; lia).
  assert (0 <= n mod 10 < 10) as Hd by (apply Z.mod_pos_bound; lia).
  destruct (n <? 10) eqn:Hlt; bools.
  - exists [n]. rewrite Z.mod_small by lia. split; [done|]. apply canonical_digit. lia.
  - assert (0 < n / 10) by (apply Z.div_str_pos; lia).
    rewrite Nat2Z.inj_succ, Z.pow_succ_r in Hn by lia.
    destruct (IH (n / 10) (chr (48 + n mod 10) :: acc)) as (ds & -> & Hds).
    + split; [lia|]. apply Z.div_lt_upper_bound; lia.
    + destruct fuel; [simpl in Hn; lia|lia].
    + exists (ds ++ [n mod 10]). split.
      * rewrite map_app, <- app_assoc. done.
      * rewrite Hdm at 2. by apply canonical_snoc.
Qed.

Lemma match_decimal_canonical ds n :
  canonical ds n -> 0 <= n < 10 ^ 16 -> match_decimal (map digit_char ds) = Some n.
Proof.
  intros [Hds Hv Hz Hh Hl] Hn. unfold match_decimal. rewrite mapM_digit by done.
  destruct (decide (n = 0)) as [Hn0|Hn0]; [by rewrite (Hz Hn0), Hn0|].
  destruct (Hh ltac:(lia)) as (d & ds' & -> & Hd). specialize (Hl ltac:(lia)).
  assert (length ds' <= 15)%nat as Hlen.
  { destruct (Nat.leb_spec (length ds') 15) as [|Hgt]; [done|exfalso].
    assert (10 ^ 16 <= 10 ^ (Z.of_nat (length (d :: ds')) - 1)); [|lia].
    apply Z.pow_le_mono_r; [lia|]. simpl. lia. }
  apply Nat.leb_le in Hlen. apply Z.leb_le in Hd as Hd'.
  rewrite Hd', Hlen. cbn [andb]. rewrite Hv.
  destruct d as [|p|p], ds'; done || lia.
Qed.

Lemma match_decimal_decimal n : 0 <= n < 10 ^ 16 -> match_decimal (decimal n) = Some n.
Proof.
  intros Hn. destruct (digits_of_canonical 21 n []) as (ds & Hds & Hcan); [lia..|].
  unfold decimal. rewrite Hds, app_nil_r. by apply match_decimal_canonical.
Qed.

Lemma to_double_safe n : n <= 2 ^ 53 -> to_double n = n.
Proof. intros H. unfold to_double. apply Z.leb_le in H. by rewrite H. Qed.

Lemma to_double_nonneg n : 0 <= n -> 0 <= to_double n.
Proof. intros H. unfold to_double. repeat case_match; lia. Qed.

Lemma to_double_close n : Z.abs (to_double n - n) <= 1.
Proof. unfold to_double. repeat case_match; lia. Qed.

Lemma fold_digits_nonneg ds acc :
  Forall (fun d => 0 <= d) ds -> 0 <= acc -> 0 <= fold_left (fun acc d => acc * 10 + d) ds acc.
Proof. intros H. revert acc. induction H as [|d ds Hd _ IH]; intros acc Hacc; simpl; [done|]. apply IH. lia. Qed.

Lemma value_of_digits_nonneg ds : Forall (fun d => 0 <= d) ds -> 0 <= value_of_digits ds.
Proof. intros H. by apply fold_digits_nonneg. Qed.

Lemma digit_bounds c d : digit c = Some d -> 0 <= d <= 9.
Proof. unfold digit. case_match; [|done]. intros [= <-]. bools. lia. Qed.

Lemma match_decimal_nonneg l n : match_decimal l = Some n -> 0 <= n.
Proof.
  unfold match_decimal. destruct (mapM digit l) as [ds|] eqn:Hm; [|done].
  assert (0 <= value_of_digits ds).
  { apply value_of_digits_nonneg. apply mapM_Some_1 in Hm.
    clear n. induction Hm as [|c d l' ds' Hd Hm IH]; [done|]. apply Forall_cons.
    split; [|done]. apply digit_bounds in Hd. lia. }
  destruct ds as [|d ds]; [done|]. destruct d, ds; intros; simplify_eq/=; repeat case_match; simplify_eq; lia.
Qed.

Lemma match_opaque_nonneg l n : match_opaque l = Some n -> 0 <= n.
Proof.
  destruct l as [|c1 [|c2 [|c3 [|c4 l]]]]; simpl; try done. case_match; [|done].
  apply match_decimal_nonneg.
Qed.

Lemma chars_of_str_of l : chars_of (str_of l) = l.
Proof. apply String.list_ascii_of_string_of_list_ascii. Qed.

(** [base64UrlEncode] is [btoa] in the URL alphabet, unpadded. *)
Lemma base64UrlEncode_sextets text :
  base64UrlEncode text = replace_char "/" "_" (replace_char "+" "-" (map b64_char (sextets_of text))).
Proof.
  unfold base64UrlEncode. rewrite btoa_sextets.
  unfold replace_char. rewrite !map_app, !map_repeat. simpl.
  apply strip_pad_plain. rewrite !Forall_map.
  eapply Forall_impl; [apply sextets_of_bounds|]. intros v Hv; simpl.
  pose proof (plain_not_pad _ (plain_b64_char v Hv)).
  destruct (Ascii.eqb (b64_char v) "+"); simpl; [done|]. by destruct (Ascii.eqb (b64_char v) "/").
Qed.

(** An opaque watermark starts with ["c2Vx"], so it is never a decimal string. *)
Lemma opaque_head l : exists l', base64UrlEncode (seq_prefix ++ l) = "c"%char :: l'.
Proof. rewrite base64UrlEncode_sextets. eexists. reflexivity. Qed.

Lemma match_decimal_opaque l : match_decimal (base64UrlEncode (seq_prefix ++ l)) = None.
Proof. destruct (opaque_head l) as [l' ->]. reflexivity. Qed.

Lemma str_of_not_empty l : l <> [] -> exists c s, str_of l = String c s.
Proof. destruct l as [|c l]; [done|]. intros _. by exists c, (str_of l). Qed.

(** [parseWatermark] of a non-empty string. *)
Lemma parseWatermark_string l :
  l <> [] ->
  parseWatermark (Some (JStr (str_of l))) =
    match match_decimal l with
    | Some n => Some (to_double n)
    | None => to_double <$> (base64UrlDecode l ≫= match_opaque)
    end.
Proof.
  intros Hl. unfold parseWatermark. destruct (str_of_not_empty l Hl) as (c & s & E).
  rewrite E, <- E, chars_of_str_of. done.
Qed.

Lemma base64UrlDecode_sextets text :
  base64UrlDecode (replace_char "/" "_" (replace_char "+" "-" (map b64_char (sextets_of text)))) = Some text.
Proof.
  unfold base64UrlDecode. rewrite url_alphabet_inv.
  - rewrite length_map, sextets_padding. apply atob_padded.
  - eapply Forall_impl; [apply plain_sextets|]. unfold plain. intros c Hc. bools. done.
Qed.

(** ** Properties *)

(** [base64UrlDecode] inverts [base64UrlEncode] on every text: the
    alphabet substitutions, the stripped padding and [atob]'s forgiving
    decoding cancel out. *)
Theorem base64Url_roundtrip (text : chars) :
  base64UrlDecode (base64UrlEncode text) = Some text.
Proof. rewrite base64UrlEncode_sextets. apply base64UrlDecode_sextets. Qed.

(** The text every server form of a watermark carries parses to its integer;
    above [2^53] to the nearest double. *)
Lemma parse_opaque n :
  0 <= n < 10 ^ 16 -> parseWatermark (Some (JStr (encodeOpaqueWatermark n))) = Some (to_double n).
Proof.
  intros Hn. unfold encodeOpaqueWatermark.
  destruct (opaque_head (decimal n)) as [l' Hl'].
  rewrite parseWatermark_string by (by rewrite Hl').
  rewrite match_decimal_opaque, base64UrlEncode_sextets, base64UrlDecode_sextets.
  simpl. by rewrite match_decimal_decimal.
Qed.

(** Every form in which a server may send a watermark parses to its seq:
    the JSON number, its decimal string, and the opaque form
    [encodeOpaqueWatermark] writes, for every seq a double represents. *)
Theorem parseWatermark_forms (seq : Z) :
  0 <= seq <= 2 ^ 53 ->
  parseWatermark (Some (JNum (inject_Z seq))) = Some seq
  /\ parseWatermark (Some (JStr (str_of (decimal seq)))) = Some seq
  /\ parseWatermark (Some (JStr (encodeOpaqueWatermark seq))) = Some seq.
Proof.
  intros Hseq. assert (0 <= seq < 10 ^ 16) as H16 by lia. split_and!.
  - unfold parseWatermark. rewrite is_integer_inject, to_integer_inject.
    destruct (0 <=? seq) eqn:E; [done|bools; lia].
  - pose proof (match_decimal_decimal seq H16) as Hdec.
    rewrite parseWatermark_string by (by intros H; rewrite H in Hdec).
    by rewrite Hdec, to_double_safe by lia.
  - by rewrite parse_opaque, to_double_safe by lia.
Qed.

Lemma parseWatermark_forms_witness :
  0 <= 42 <= 2 ^ 53
  /\ parseWatermark (Some (JNum (inject_Z 42))) = Some 42
  /\ parseWatermark (Some (JStr (str_of (decimal 42)))) = Some 42
  /\ parseWatermark (Some (JStr (encodeOpaqueWatermark 42))) = Some 42.
Proof. split; [lia|]. apply (parseWatermark_forms 42). lia. Defined.

(** Whatever JSON value a server sends, a parsed watermark is a
    non-negative integer, usable as a resume position; and above [2^53], where
    [Number] rounds, it is off by at most one. *)
Theorem parseWatermark_sound (value : option json) :
  (forall n, parseWatermark value = Some n -> 0 <= n)
  /\ (forall n, 2 ^ 53 < n < 10 ^ 16 ->
        exists m, parseWatermark (Some (JStr (encodeOpaqueWatermark n))) = Some m /\ Z.abs (m - n) <= 1).
Proof.
  split.
  - intros n. destruct value as [[| |q|s| |]|]; try done; cbn [parseWatermark].
    + case_match; [|done]. intros [= <-]. bools. done.
    + destruct s as [|c s]; [done|]. set (l := chars_of (String c s)).
      destruct (match_decimal l) as [m|] eqn:Hm.
      * intros [= <-]. by apply to_double_nonneg, (match_decimal_nonneg l).
      * intros H. apply fmap_Some in H as (m & Hb & ->). apply bind_Some in Hb as (l' & _ & Hb).
        by apply to_double_nonneg, (match_opaque_nonneg l').
  - intros n Hn. exists (to_double n). split; [apply parse_opaque; lia|apply to_double_close].
Qed.
