(* ===== verification/Storage.v ===== *)
(** * Storage: the key-value storage behind the outbox
    ([packages/client-ts/src/storage/storage.ts]).

    [KeyValueStorage] is the interface the outbox is written against; the
    in-memory adapter and the Web Storage adapter implement it.  The value
    type [V] is what the texts written with [JSON.stringify] stand for. *)

From stdpp Require Import base gmap strings.
From S2P Require Import Prelude.

(** The operations of a storage, on its contents [M]. *)
(* @src packages/client-ts/src/storage/storage.ts 12-17 KeyValueStorage *)
Class KeyValueStorage (M V : Type) := {
  getItem : string -> M -> option V;
  setItem : string -> V -> M -> M;
  removeItem : string -> M -> M;
}.

(** What the outbox relies on: a key reads back the last value written to it. *)
Class KeyValueLaws (M V : Type) `{KeyValueStorage M V} := {
  getItem_setItem k v m : getItem k (setItem k v m) = Some v;
  getItem_setItem_ne k k' v m : k <> k' -> getItem k' (setItem k v m) = getItem k' m;
  getItem_removeItem k m : getItem k (removeItem k m) = None;
  getItem_removeItem_ne k k' m : k <> k' -> getItem k' (removeItem k m) = getItem k' m;
}.

(** ** [MemoryStorage]: a [Map<string, string>] *)

(* @src packages/client-ts/src/storage/storage.ts 23-25 getItem *)
Definition memory_getItem {V} (key : string) (items : gmap string V) : option V := items !! key.
(* @src packages/client-ts/src/storage/storage.ts 27-29 setItem *)
Definition memory_setItem {V} (key : string) (value : V) (items : gmap string V) : gmap string V :=
  <[key := value]> items.
(* @src packages/client-ts/src/storage/storage.ts 31-33 removeItem *)
Definition memory_removeItem {V} (key : string) (items : gmap string V) : gmap string V := delete key items.

(* @src packages/client-ts/src/storage/storage.ts 19-34 MemoryStorage *)
Definition MemoryStorage (V : Type) : KeyValueStorage (gmap string V) V :=
  {| getItem := memory_getItem; setItem := memory_setItem; removeItem := memory_removeItem |}.
#[export] Existing Instance MemoryStorage.

#[export] Instance MemoryStorage_laws V : KeyValueLaws (gmap string V) V.
Proof.
  split; intros; simpl; unfold memory_getItem, memory_setItem, memory_removeItem.
  - apply lookup_insert_eq.
  - by apply lookup_insert_ne.
  - apply lookup_delete_eq.
  - by apply lookup_delete_ne.
Qed.

(** ** [WebStorage]: delegates to a Web Storage object *)

(* @src packages/client-ts/src/storage/storage.ts 43-62 WebStorage *)
Definition WebStorage {M V} (ls : KeyValueStorage M V) : KeyValueStorage M V :=
  {| getItem key := getItem key; setItem key value := setItem key value; removeItem key := removeItem key |}.

(** ** [defaultStorage] *)

(** The global [localStorage]: reading it throws, it is absent, or it is there
    and a probe write and removal succeed or throw. *)
Inductive local_storage := LsThrows | LsAbsent | LsPresent (probe_ok : bool).

Inductive storage_kind := KMemory | KWeb.

(* @src packages/client-ts/src/storage/storage.ts 64-84 defaultStorage *)
Definition defaultStorage (has_window has_document : bool) (ls : local_storage) : storage_kind :=
  if negb has_window || negb has_document then KMemory
  else match ls with
       | LsPresent true => KWeb
       | LsThrows | LsAbsent | LsPresent false => KMemory
       end.
