(* ===== verification/Outbox.v ===== *)
(** * Outbox: the persistent outbox and resume state of one conversation
    ([packages/client-ts/src/storage/outbox.ts], class [ConversationStore]).

    The store keeps its unacknowledged sends in memory and persists a snapshot
    after every change.  Writes are chained on one promise; here they are the
    queue [writes], and [run_write] settles the oldest one.  [clear] waits for
    the writes pending then, and removes the key: its removals are in
    [removals], each with the number of writes it still waits for.  A stored text is
    the value [JSON.parse] reads from it, or [Unparsable]. *)

From stdpp Require Import base gmap list strings.
From Stdlib Require Import ZArith Lia.
From S2P Require Import Prelude Frames Storage.

Open Scope string_scope.
Open Scope list_scope.
Open Scope Z_scope.

(** ** Data *)

(* @src packages/client-ts/src/storage/outbox.ts 16-24 OutboxEntry *)
Record OutboxEntry := mkEntry {
  clientId : string;
  frame : ClientMessageFrame;
  createdAt : Z;
  attempts : Z;
}.

(* @src packages/client-ts/src/storage/outbox.ts 26-33 ResumeState *)
Record ResumeState := mkResume {
  r_conversationId : string;
  r_userId : option string;
  r_watermark : Z;
}.

(** [Partial<Persisted>]: what a stored text may parse to. *)
(* @src packages/client-ts/src/storage/outbox.ts 35-39 Persisted *)
Record Persisted := mkPersisted {
  p_v : option Z;
  p_state : option ResumeState;
  p_outbox : option (list OutboxEntry);
}.

(** A text found in the storage: [JSON.parse] throws, yields [null], or an object. *)
Inductive StoredText := Unparsable | ParsedNull | Parsed (p : Persisted).

(** How [storage.getItem] settled: it threw, [null] or an empty text, or a text. *)
Inductive read_result := ReadFailed | ReadNothing | ReadText (t : StoredText).

(* @src packages/client-ts/src/storage/outbox.ts 41-49 ConversationStore *)
Record ConversationStore := mkStore {
  prefix : string;
  key : option string;
  entries : list OutboxEntry;
  state : option ResumeState;
  writes : list (string * Persisted);
  removals : list (string * nat);
  storage_errors : nat;
}.

#[export] Instance eta_entry : Eta OutboxEntry :=
  fun e => mkEntry (clientId e) (frame e) (createdAt e) (attempts e).
#[export] Instance eta_store : Eta ConversationStore :=
  fun s => mkStore (prefix s) (key s) (entries s) (state s) (writes s) (removals s) (storage_errors s).

#[export] Instance ResumeState_eq_dec : EqDecision ResumeState.
Proof. solve_decision. Defined.

(** ** Operations *)

(* @src packages/client-ts/src/storage/outbox.ts 63-65 keyFor *)
Definition keyFor (prefix conversationId : string) : string :=
  (prefix +:+ ":conversation:" +:+ conversationId)%string.

(* @src packages/client-ts/src/storage/outbox.ts 51-61 constructor *)
Definition new_store (prefix : string) (conversationId : option string) : ConversationStore :=
  mkStore prefix (keyFor prefix <$> conversationId) [] None [] [] 0.

Definition snapshot (s : ConversationStore) : Persisted :=
  mkPersisted (Some 1) (state s) (Some (entries s)).

(* @src packages/client-ts/src/storage/outbox.ts 159-173 persist *)
Definition persist (s : ConversationStore) : ConversationStore :=
  match key s with
  | None => s
  | Some k => s <| writes ::= fun w => w ++ [(k, snapshot s)] |>
  end.

(** [load] up to its [await]: the key it reads, or [None] (nothing to load). *)
Definition load_key (s : ConversationStore) : option string := key s.

(** [load] once [getItem] settled. *)
(* @src packages/client-ts/src/storage/outbox.ts 67-83 load *)
Definition load (r : read_result) (s : ConversationStore) : ConversationStore :=
  match r with
  | ReadFailed | ReadText Unparsable => s <| storage_errors ::= S |>
  | ReadNothing | ReadText ParsedNull => s
  | ReadText (Parsed p) =>
      if bool_decide (p_v p = Some 1) then
        let known := map clientId (entries s) in
        let loaded := filter (fun e => clientId e ∉ known) (p_outbox p ?? []) in
        s <| entries ::= fun l => loaded ++ l |>
          <| state ::= fun st => match p_state p with Some x => Some x | None => st end |>
      else s
  end.

(** [attach] up to the [await] of [load]: [None] when the key does not change. *)
(* @src packages/client-ts/src/storage/outbox.ts 85-89 attach *)
Definition attach_begin (conversationId : string) (s : ConversationStore) : option ConversationStore :=
  let k := keyFor (prefix s) conversationId in
  if bool_decide (key s = Some k) then None else Some (s <| key := Some k |>).

(** [attach] once [load] settled. *)
(* @src packages/client-ts/src/storage/outbox.ts 90-92 attach *)
Definition attach_end (r : read_result) (s : ConversationStore) : ConversationStore :=
  persist (load r s).

(* @src packages/client-ts/src/storage/outbox.ts 102-104 get *)
Definition get (id : string) (s : ConversationStore) : option OutboxEntry :=
  List.find (fun e => String.eqb (clientId e) id) (entries s).

(* @src packages/client-ts/src/storage/outbox.ts 106-109 add *)
Definition add (e : OutboxEntry) (s : ConversationStore) : ConversationStore :=
  persist (s <| entries ::= fun l => l ++ [e] |>).

(** Update the first entry with a clientId in place. *)
Fixpoint update_first (id : string) (f : OutboxEntry -> OutboxEntry) (l : list OutboxEntry) : list OutboxEntry :=
  match l with
  | [] => []
  | e :: l' => if String.eqb (clientId e) id then f e :: l' else e :: update_first id f l'
  end.

(* @src packages/client-ts/src/storage/outbox.ts 111-117 touch *)
Definition touch (id : string) (s : ConversationStore) : ConversationStore :=
  match get id s with
  | Some _ => persist (s <| entries ::= update_first id (fun e => e <| attempts ::= Z.succ |>) |>)
  | None => s
  end.

(** Remove the first entry with a clientId ([findIndex] and [splice]). *)
Fixpoint remove_first (id : string) (l : list OutboxEntry) : list OutboxEntry :=
  match l with
  | [] => []
  | e :: l' => if String.eqb (clientId e) id then l' else e :: remove_first id l'
  end.

(* @src packages/client-ts/src/storage/outbox.ts 119-125 remove *)
Definition remove (id : string) (s : ConversationStore) : option OutboxEntry * ConversationStore :=
  match get id s with
  | Some e => (Some e, persist (s <| entries ::= remove_first id |>))
  | None => (None, s)
  end.

(* @src packages/client-ts/src/storage/outbox.ts 127-138 setState *)
Definition setState (st : ResumeState) (s : ConversationStore) : ConversationStore :=
  let prev := state s in
  let s := s <| state := Some st |> in
  if bool_decide (prev = Some st) then s else persist s.

(** [clear] up to its [await]. *)
(* @src packages/client-ts/src/storage/outbox.ts 140-146 clear *)
Definition clear (s : ConversationStore) : ConversationStore :=
  let s := s <| entries := [] |> <| state := None |> in
  match key s with
  | None => s
  | Some k => s <| removals ::= fun l => l ++ [(k, length (writes s))] |>
  end.

(** ** The storage side *)

Section Storage.
Context {M : Type} `{KeyValueStorage M StoredText}.

(** Settle the oldest pending write; [ok = false] when [setItem] throws. *)
(* @src packages/client-ts/src/storage/outbox.ts 165-172 persist *)
Definition run_write (ok : bool) (s : ConversationStore) (m : M) : ConversationStore * M :=
  match writes s with
  | [] => (s, m)
  | (k, p) :: rest =>
      let s := s <| writes := rest |> <| removals ::= map (fun r => (r.1, pred r.2)) |> in
      if ok then (s, setItem k (Parsed p) m) else (s <| storage_errors ::= S |>, m)
  end.

(** [clear] after its [await]: removal [i], which waits for no write any more. *)
(* @src packages/client-ts/src/storage/outbox.ts 146-152 clear *)
Definition run_removal (i : nat) (ok : bool) (s : ConversationStore) (m : M) : ConversationStore * M :=
  match removals s !! i with
  | Some (k, O) =>
      let s := s <| removals ::= fun l => take i l ++ drop (S i) l |> in
      if ok then (s, removeItem k m) else (s <| storage_errors ::= S |>, m)
  | _ => (s, m)
  end.

(** [flush()]: every pending write has settled (none of them throwing). *)
Definition drain (s : ConversationStore) (m : M) : ConversationStore * M :=
  (s <| writes := [] |> <| removals ::= map (fun r => (r.1, 0%nat)) |>,
   fold_left (fun m w => setItem w.1 (Parsed w.2) m) (writes s) m).

(** [load] reading a storage that does not fail. *)
Definition load_from (m : M) (s : ConversationStore) : ConversationStore :=
  match load_key s with
  | None => s
  | Some k => load (match getItem k m with Some t => ReadText t | None => ReadNothing end) s
  end.
End Storage.

(** All that happens to a store: the session's calls, reads of the storage
    ([r]: whatever [getItem] came to) and writes and removals that settle
    ([ok = false]: that throw), in any order. *)
Inductive store_op :=
| OAdd (e : OutboxEntry)
| OTouch (id : string)
| ORemove (id : string)
| OSetState (st : ResumeState)
| OLoad (r : read_result)
| OAttach (conversationId : string)
| OAttached (r : read_result)
| OClear
| OWrite (ok : bool)
| ORemoved (i : nat) (ok : bool).

(** The operations on the store itself. *)
Definition change (op : store_op) (s : ConversationStore) : ConversationStore :=
  match op with
  | OAdd e => add e s
  | OTouch id => touch id s
  | ORemove id => (remove id s).2
  | OSetState st => setState st s
  | OLoad r => match load_key s with Some _ => load r s | None => s end
  | OAttach id => attach_begin id s ?? s
  | OAttached r => attach_end r s
  | OClear => clear s
  | OWrite _ | ORemoved _ _ => s
  end.

Definition exec {M} `{KeyValueStorage M StoredText} (op : store_op) (sm : ConversationStore * M) : ConversationStore * M :=
  let '(s, m) := sm in
  match op with
  | OWrite ok => run_write ok s m
  | ORemoved i ok => run_removal i ok s m
  | op => (change op s, m)
  end.

Definition run {M} `{KeyValueStorage M StoredText} (ops : list store_op) (sm : ConversationStore * M) : ConversationStore * M :=
  fold_left (fun sm op => exec op sm) ops sm.

(** ** Lemmas *)

(** The clientIds waiting in the outbox, oldest first. *)
Definition ids (s : ConversationStore) : list string := map clientId (entries s).

Lemma entries_persist s : entries (persist s) = entries s.
Proof. unfold persist. by destruct (key s). Qed.
Lemma state_persist s : state (persist s) = state s.
Proof. unfold persist. by destruct (key s). Qed.
Lemma key_persist s : key (persist s) = key s.
Proof. unfold persist. by destruct (key s) eqn:?. Qed.
Lemma prefix_persist s : prefix (persist s) = prefix s.
Proof. unfold persist. by destruct (key s). Qed.

#[export] Hint Rewrite entries_persist state_persist key_persist prefix_persist : outbox.

Lemma clientId_touch e : clientId (e <| attempts ::= Z.succ |>) = clientId e.
Proof. done. Qed.

Lemma map_update_first {A} (g : OutboxEntry -> A) id f l :
  (forall e, g (f e) = g e) -> map g (update_first id f l) = map g l.
Proof. intros Hf. induction l as [|e l IH]; simpl; [done|]. case_match; simpl; by rewrite ?Hf, ?IH. Qed.

Lemma map_touch {A} (g : OutboxEntry -> A) id s :
  (forall e, g (e <| attempts ::= Z.succ |>) = g e) -> map g (entries (touch id s)) = map g (entries s).
Proof.
  intros Hg. unfold touch. destruct (get id s); [|done].
  rewrite entries_persist. simpl. by apply map_update_first.
Qed.

Lemma ids_touch id s : ids (touch id s) = ids s.
Proof. by apply map_touch. Qed.

(** The pending sends with the frames they put on the wire. *)
Definition turns (s : ConversationStore) : list (string * ClientMessageFrame) :=
  map (fun e => (clientId e, frame e)) (entries s).

Lemma turns_touch id s : turns (touch id s) = turns s.
Proof. by apply map_touch. Qed.

Lemma ids_add e s : ids (add e s) = ids s ++ [clientId e].
Proof. unfold add, ids. rewrite entries_persist. simpl. by rewrite map_app. Qed.

Lemma ids_setState st s : ids (setState st s) = ids s.
Proof. unfold setState, ids. case_match; [done|]. by rewrite entries_persist. Qed.

Lemma entries_setState st s : entries (setState st s) = entries s.
Proof. unfold setState. case_match; [done|]. by rewrite entries_persist. Qed.

Lemma get_Some id s e : get id s = Some e -> e ∈ entries s /\ clientId e = id.
Proof. intros H. apply find_some in H as [H1 H2]. apply String.eqb_eq in H2. by rewrite list_elem_of_In. Qed.

Lemma get_None id s : get id s = None <-> id ∉ ids s.
Proof.
  unfold get, ids. induction (entries s) as [|e l IH]; simpl.
  - split; [by intros _ ?%not_elem_of_nil|done].
  - rewrite not_elem_of_cons. destruct (String.eqb_spec (clientId e) id) as [<-|Hne]; [naive_solver|].
    rewrite IH. naive_solver.
Qed.

Lemma get_is_Some id s : is_Some (get id s) <-> id ∈ ids s.
Proof.
  destruct (decide (id ∈ ids s)) as [Hin|Hin].
  - split; [done|]. intros _. destruct (get id s) eqn:E; [by eexists|]. by apply get_None in E.
  - apply get_None in Hin as E. rewrite E. split; [by intros [? ?]|done].
Qed.

Lemma map_remove_first id l :
  NoDup (map clientId l) -> map clientId (remove_first id l) = filter (fun x => x <> id) (map clientId l).
Proof.
  induction l as [|e l IH]; simpl; [done|]. intros [Hni Hnd]%NoDup_cons.
  destruct (String.eqb_spec (clientId e) id) as [<-|Hne].
  - rewrite filter_cons_False by naive_solver. symmetry. apply filter_all.
    apply Forall_forall. intros x Hx ->. done.
  - rewrite filter_cons_True by done. simpl. by rewrite IH.
Qed.

Lemma ids_remove id s :
  NoDup (ids s) -> ids (remove id s).2 = filter (fun x => x <> id) (ids s).
Proof.
  intros Hnd. unfold remove. destruct (get id s) eqn:E; simpl.
  - unfold ids. rewrite entries_persist. simpl. by apply map_remove_first.
  - apply get_None in E. symmetry. apply filter_all.
    apply Forall_forall. intros x Hx ->. done.
Qed.

Lemma remove_first_sublist id l : remove_first id l `sublist_of` l.
Proof. induction l as [|e l IH]; simpl; [done|]. case_match; by constructor. Qed.

Lemma ids_remove_sublist id s : ids (remove id s).2 `sublist_of` ids s.
Proof.
  unfold remove. destruct (get id s); simpl; [|done]. unfold ids. rewrite entries_persist. simpl.
  apply sublist_map, remove_first_sublist.
Qed.

Lemma ids_remove_ne x id s : x <> id -> id ∈ ids s -> id ∈ ids (remove x s).2.
Proof.
  intros Hne. unfold remove. destruct (get x s); simpl; [|done]. unfold ids. rewrite entries_persist. simpl.
  induction (entries s) as [|e l IH]; simpl; [done|].
  intros [->|Hin]%elem_of_cons; case_match; simpl; bools; set_solver.
Qed.

Lemma remove_fst id s : (remove id s).1 = get id s.
Proof. unfold remove. by destruct (get id s). Qed.

Lemma state_touch id s : state (touch id s) = state s.
Proof. unfold touch. destruct (get id s); by rewrite ?state_persist. Qed.
Lemma state_add e s : state (add e s) = state s.
Proof. unfold add. by rewrite state_persist. Qed.
Lemma state_remove id s : state (remove id s).2 = state s.
Proof. unfold remove. destruct (get id s); simpl; by rewrite ?state_persist. Qed.

Lemma key_touch id s : key (touch id s) = key s.
Proof. unfold touch. destruct (get id s); by rewrite ?key_persist. Qed.
Lemma key_remove id s : key (remove id s).2 = key s.
Proof. unfold remove. destruct (get id s); simpl; by rewrite ?key_persist. Qed.
Lemma key_setState st s : key (setState st s) = key s.
Proof. unfold setState. case_match; by rewrite ?key_persist. Qed.

(** *** Snapshots and writes *)

(** Every change appends the snapshot of the new contents, or leaves the store
    untouched. *)
Lemma persist_writes s k : key s = Some k -> writes (persist s) = writes s ++ [(k, snapshot (persist s))].
Proof. intros Hk. unfold persist. rewrite Hk. done. Qed.

(** Loading only adds. *)
Lemma ids_load r s id : id ∈ ids s -> id ∈ ids (load r s).
Proof.
  intros Hid. unfold load. destruct r as [| |[| |p]]; try done. destruct (bool_decide _); [|done].
  unfold ids in *. simpl. rewrite map_app. apply elem_of_app. by right.
Qed.

Lemma snapshot_persist s : snapshot (persist s) = snapshot s.
Proof. unfold snapshot. by rewrite entries_persist, state_persist. Qed.

(** A change queues the snapshot of the new contents, or nothing. *)
Lemma change_writes op s :
  writes (change op s) = writes s \/ exists k, key (change op s) = Some k /\ writes (change op s) = writes s ++ [(k, snapshot (change op s))].
Proof.
  assert (Hp : forall s0, writes s0 = writes s ->
    writes (persist s0) = writes s \/ exists k, key (persist s0) = Some k /\ writes (persist s0) = writes s ++ [(k, snapshot (persist s0))]).
  { intros s0 H0. rewrite key_persist. destruct (key s0) as [k|] eqn:Hk; [right|left; unfold persist; by rewrite Hk].
    exists k. split; [done|]. by rewrite (persist_writes _ k), H0. }
  assert (Hl : forall r, writes (load r s) = writes s) by (intros [| |[| |p]]; try done; simpl; by case_bool_decide).
  destruct op as [e|id|id|st|r|id|r| |ok|i ok]; simpl; try by left.
  - by apply Hp.
  - unfold touch. destruct (get id s); [by apply Hp|by left].
  - unfold remove. destruct (get id s); [by apply Hp|by left].
  - unfold setState. case_bool_decide; [by left|by apply Hp].
  - left. destruct (load_key s); [apply Hl|done].
  - left. unfold attach_begin. by case_bool_decide.
  - apply Hp, Hl.
  - left. unfold clear. simpl. by destruct (key s).
Qed.

(** The session's own changes: they keep the key, and a change of the contents
    queues a write. *)
Definition is_mutation (op : store_op) : bool :=
  match op with OAdd _ | OTouch _ | ORemove _ | OSetState _ => true | _ => false end.

Lemma mutation_writes op s k :
  is_mutation op = true -> key s = Some k ->
  key (change op s) = Some k /\
  ((writes (change op s) = writes s /\ snapshot (change op s) = snapshot s) \/
   writes (change op s) = writes s ++ [(k, snapshot (change op s))]).
Proof.
  intros Hm Hk. destruct op as [e|id|id|st| | | | | |]; try done; simpl.
  - unfold add. rewrite key_persist. split; [done|right]. by rewrite (persist_writes _ k).
  - unfold touch. destruct (get id s); [|by auto]. rewrite key_persist.
    split; [done|right]. by rewrite (persist_writes _ k).
  - unfold remove. destruct (get id s); simpl; [|by auto]. rewrite key_persist.
    split; [done|right]. by rewrite (persist_writes _ k).
  - unfold setState. case_bool_decide as Hst.
    + split; [done|left]. split; [done|]. unfold snapshot; simpl. by rewrite Hst.
    + rewrite key_persist. split; [done|right]. by rewrite (persist_writes _ k).
Qed.

Lemma find_filter_unknown id (known : list string) (l : list OutboxEntry) :
  id ∉ known ->
  List.find (fun e => String.eqb (clientId e) id) (filter (fun e => clientId e ∉ known) l)
  = List.find (fun e => String.eqb (clientId e) id) l.
Proof.
  intros Hid. induction l as [|e l IH]; [done|]. rewrite filter_cons. case_decide as Hk; simpl.
  - by rewrite IH.
  - destruct (String.eqb_spec (clientId e) id) as [<-|_]; [done|]. apply IH.
Qed.

Lemma find_filter_known id (known : list string) (l : list OutboxEntry) :
  id ∈ known ->
  List.find (fun e => String.eqb (clientId e) id) (filter (fun e => clientId e ∉ known) l) = None.
Proof.
  intros Hid. induction l as [|e l IH]; [done|]. rewrite filter_cons. case_decide as Hk; simpl; [|done].
  destruct (String.eqb_spec (clientId e) id) as [<-|_]; [done|]. apply IH.
Qed.

Lemma find_app {A} (f : A -> bool) l1 l2 :
  List.find f (l1 ++ l2) = match List.find f l1 with Some x => Some x | None => List.find f l2 end.
Proof. induction l1 as [|x l1 IH]; simpl; [done|]. by destruct (f x). Qed.

(** *** The storage never runs ahead of the store *)

Section Durability.
Context {M : Type} `{KeyValueLaws M StoredText}.
Context (pre conversation : string).
Let k := keyFor pre conversation.

(** A fresh session of the conversation over the storage [m]. *)
Definition session (m : M) : ConversationStore * M := (new_store pre (Some conversation), m).

(** The snapshots of the stores the prefixes of [ops] reach. *)
Definition past (ops : list store_op) (m0 : M) (p : Persisted) : Prop :=
  exists ops1 ops2, ops = ops1 ++ ops2 /\ p = snapshot (run ops1 (session m0)).1.

Lemma run_snoc ops op sm : run (ops ++ [op]) sm = exec op (run ops sm).
Proof. unfold run. by rewrite fold_left_app. Qed.

Lemma past_snoc ops op m0 p : past ops m0 p -> past (ops ++ [op]) m0 p.
Proof. intros (o1 & o2 & -> & ->). exists o1, (o2 ++ [op]). by rewrite app_assoc. Qed.

Lemma past_now ops m0 : past ops m0 (snapshot (run ops (session m0)).1).
Proof. exists ops, []. by rewrite app_nil_r. Qed.

(** Pending writes to the conversation's key carry past snapshots; the storage
holds a past snapshot, what it held before the session, or, once a removal
has settled, nothing. *)
Record durable (ops : list store_op) (m0 : M) (s : ConversationStore) (m : M) : Prop := {
  dur_writes : Forall (fun w => w.1 = k -> past ops m0 w.2) (writes s);
  dur_stored : (exists p, getItem k m = Some (Parsed p) /\ past ops m0 p) \/ getItem k m = None \/ getItem k m = getItem k m0;
}.

Lemma durable_snoc ops op m0 s m : durable ops m0 s m -> durable (ops ++ [op]) m0 s m.
Proof.
  intros [Hw Hs]. split.
  - eapply Forall_impl; [exact Hw|]. intros w Hp Hk. by apply past_snoc, Hp.
  - destruct Hs as [(p & ? & ?)|?]; [left|by right]. exists p. split; [done|]. by apply past_snoc.
Qed.

Lemma durable_change ops op m0 s m :
  past ops m0 (snapshot (change op s)) -> durable ops m0 s m -> durable ops m0 (change op s) m.
Proof.
  intros Hnow [Hw Hs]. split; [|done]. destruct (change_writes op s) as [->|(k' & _ & ->)]; [done|].
  apply Forall_app. split; [done|]. by constructor.
Qed.

Lemma durable_write ok ops m0 s m : durable ops m0 s m -> durable ops m0 (run_write ok s m).1 (run_write ok s m).2.
Proof.
  intros [Hw Hs]. unfold run_write. destruct (writes s) as [|[k' p] rest] eqn:E; [by split; simpl; rewrite ?E|].
  apply Forall_cons in Hw as [Hp Hrest]. simpl in Hp. destruct ok; split; simpl; [done| |done|done].
  destruct (decide (k' = k)) as [->|Hne]; [|by rewrite getItem_setItem_ne]. left. exists p. rewrite getItem_setItem. by split; [|apply Hp].
Qed.

Lemma durable_removal i ok ops m0 s m :
  durable ops m0 s m -> durable ops m0 (run_removal i ok s m).1 (run_removal i ok s m).2.
Proof.
  intros [Hw Hs]. unfold run_removal. destruct (removals s !! i) as [[k' []]|]; [|done..].
  destruct ok; split; simpl; [done| |done|done]. destruct (decide (k' = k)) as [->|Hne]; [right; left; apply getItem_removeItem|].
  by rewrite getItem_removeItem_ne.
Qed.

Lemma durable_run ops m0 s m : run ops (session m0) = (s, m) -> durable ops m0 s m.
Proof.
  revert s m. induction ops as [|op ops IH] using rev_ind; intros s m Hrun.
  - injection Hrun as <- <-. split; simpl; auto.
  - pose proof (past_now (ops ++ [op]) m0) as Hnow. rewrite Hrun in Hnow. simpl in Hnow.
    rewrite run_snoc in Hrun. destruct (run ops (session m0)) as [s0 m'] eqn:E.
    specialize (durable_snoc _ op _ _ _ (IH s0 m' eq_refl)) as Hd.
    pose proof (fun Hp => durable_change _ op _ _ _ Hp Hd) as Hc.
    destruct op as [e|id|id|st|r|id|r| |ok|i ok]; cbn [exec] in Hrun; try (injection Hrun as <- <-; by apply Hc).
    + pose proof (durable_write ok _ _ _ _ Hd) as H1. by rewrite Hrun in H1.
    + pose proof (durable_removal i ok _ _ _ _ Hd) as H1. by rewrite Hrun in H1.
Qed.

(** Once the pending writes have settled, the storage holds the contents of
    the store. *)
Definition in_sync (s : ConversationStore) (m : M) : Prop :=
  key s = Some k /\
  match last (writes s) with
  | Some w => w = (k, snapshot s)
  | None => getItem k m = Some (Parsed (snapshot s))
  end.

Lemma in_sync_change op s m : is_mutation op = true -> in_sync s m -> in_sync (change op s) m.
Proof.
  intros Hm [Hk Hl]. unfold in_sync. destruct (mutation_writes op s k Hm Hk) as [Hk' [[-> ->]| ->]]; split; try done.
  by rewrite last_snoc.
Qed.

Lemma in_sync_write s m : in_sync s m -> in_sync (run_write true s m).1 (run_write true s m).2.
Proof.
  intros [Hk Hl]. unfold run_write. destruct (writes s) as [|[k' p] [|w rest]] eqn:E; [split; simpl; by rewrite ?E|..].
  - simpl in Hl. injection Hl as -> ->. split; [done|]. apply getItem_setItem.
  - change (last ((k', p) :: w :: rest)) with (last (w :: rest)) in Hl. split; [done|]. cbn [fst snd writes upd].
    destruct (last (w :: rest)) eqn:El; [exact Hl|]. by apply last_None in El.
Qed.

(** The tail of a session in which nothing fails: its own changes and writes
    that settle. *)
Definition settles_well (op : store_op) : bool :=
  match op with OWrite ok => ok | ORemoved _ _ => true | op => is_mutation op end.

Lemma removals_change op s : op <> OClear -> removals (change op s) = removals s.
Proof.
  assert (Hp : forall s0, removals (persist s0) = removals s0) by (intros s0; unfold persist; by destruct (key s0)).
  assert (Hl : forall r, removals (load r s) = removals s) by (intros [| |[| |p]]; try done; simpl; by case_bool_decide).
  destruct op as [e|id|id|st|r|id|r| |ok|i ok]; intros Hc; simpl; try done.
  - unfold add. by rewrite Hp.
  - unfold touch. destruct (get id s); by rewrite ?Hp.
  - unfold remove. destruct (get id s); simpl; by rewrite ?Hp.
  - unfold setState. case_bool_decide; by rewrite ?Hp.
  - by destruct (load_key s).
  - unfold attach_begin. by case_bool_decide.
  - unfold attach_end. by rewrite Hp.
Qed.

Lemma in_sync_run ops s m :
  forallb settles_well ops = true -> removals s = [] -> in_sync s m -> in_sync (run ops (s, m)).1 (run ops (s, m)).2.
Proof.
  revert s m. induction ops as [|op ops IH]; intros s m Hops Hr Hs; [done|]. simpl in Hops. apply andb_prop in Hops as [Hop Hops].
  change (run (op :: ops) (s, m)) with (run ops (exec op (s, m))).
  assert (H1 : removals (exec op (s, m)).1 = [] /\ in_sync (exec op (s, m)).1 (exec op (s, m)).2).
  { destruct (is_mutation op) eqn:Hm.
    - replace (exec op (s, m)) with (change op s, m) by (by destruct op). split; [|by apply in_sync_change].
      cbn [fst]. rewrite removals_change; [done|]. by intros ->.
    - destruct op; try done; simpl in Hop |- *.
      + subst ok. split; [|by apply in_sync_write]. unfold run_write. destruct (writes s) as [|[k' p] rest]; [done|]. simpl. by rewrite Hr.
      + unfold run_removal. by rewrite Hr. }
  destruct H1 as [Hr1 Hs1], (exec op (s, m)) as [s' m']. by apply IH.
Qed.

Lemma load_snapshot p : load (ReadText (Parsed p)) (new_store pre (Some conversation)) =
  (if bool_decide (p_v p = Some 1)
     then new_store pre (Some conversation) <| entries := p_outbox p ?? [] |> <| state := p_state p |>
   else new_store pre (Some conversation)).
Proof.
  unfold load. case_bool_decide; [|done]. unfold new_store; simpl.
  rewrite app_nil_r, filter_all by (apply Forall_forall; intros ? _; apply not_elem_of_nil).
  by destruct (p_state p).
Qed.

Lemma drain_sync s m : in_sync s m -> getItem k (drain s m).2 = Some (Parsed (snapshot s)).
Proof.
  intros [_ Hl]. unfold drain. simpl. destruct (writes s) as [|w ws _] using rev_ind; [done|].
  rewrite last_snoc in Hl. rewrite fold_left_app, Hl. apply getItem_setItem.
Qed.
End Durability.

(** ** Properties *)

(** C17. A reload loses nothing: whatever happened to a session's store and to
    the storage before (sends, reads, changes of the key, clears, failed
    writes), take a change that is persisted, made when no removal of a [clear]
    is pending.  From then on, as long as the session only sends, counts
    attempts, settles and saves its state, and no write throws, a new session
    of the conversation that starts once the pending writes have settled
    ([flush]) loads exactly the outbox and the resume state of the old one. *)
Theorem reload_restores_outbox (M : Type) `{KeyValueLaws M StoredText} pre conversation (s0 : ConversationStore) (m0 : M) op ops s m :
  removals s0 = [] ->
  key (change op s0) = Some (keyFor pre conversation) -> writes (change op s0) <> writes s0 ->
  forallb settles_well ops = true -> run (op :: ops) (s0, m0) = (s, m) ->
  let reloaded := load_from (drain s m).2 (new_store pre (Some conversation)) in
  entries reloaded = entries s /\ state reloaded = state s.
Proof.
  intros Hr Hk Hw Hops Hrun. assert (H1 : in_sync pre conversation (change op s0) m0).
  { split; [done|]. destruct (change_writes op s0) as [?|(k' & Hk' & ->)]; [done|]. rewrite last_snoc. congruence. }
  assert (H2 : removals (change op s0) = []).
  { rewrite removals_change; [done|]. intros ->. apply Hw. simpl. unfold clear. simpl. by destruct (key s0). }
  assert (Hex : exec op (s0, m0) = (change op s0, m0)) by (destruct op; done).
  change (run (op :: ops) (s0, m0)) with (run ops (exec op (s0, m0))) in Hrun. rewrite Hex in Hrun.
  pose proof (in_sync_run pre conversation ops _ _ Hops H2 H1) as H3. rewrite Hrun in H3. apply drain_sync in H3. cbn [fst snd] in H3.
  unfold load_from. change (load_key (new_store pre (Some conversation))) with (Some (keyFor pre conversation)).
  cbv iota. by rewrite H3, load_snapshot.
Qed.

(** C18. A crash at any moment is a rollback: whatever writes had settled, the
    storage holds the outbox and state of an earlier moment of the session
    (an older snapshot never overwrites a newer one half way), or nothing was
    written yet. *)
Theorem crash_restores_past (M : Type) `{KeyValueLaws M StoredText} pre conversation ops (m0 : M) s m :
  run ops (session pre conversation m0) = (s, m) ->
  getItem (keyFor pre conversation) m = getItem (keyFor pre conversation) m0
  \/ exists ops1 ops2, ops = ops1 ++ ops2
       /\ entries (load_from m (new_store pre (Some conversation))) = entries (run ops1 (session pre conversation m0)).1
       /\ state (load_from m (new_store pre (Some conversation))) = state (run ops1 (session pre conversation m0)).1.
Proof.
  intros Hrun. destruct (durable_run pre conversation ops m0 s m Hrun) as [_ Hs].
  unfold load_from. change (load_key (new_store pre (Some conversation))) with (Some (keyFor pre conversation)). cbv iota.
  destruct Hs as [(p & Hp & o1 & o2 & -> & ->)|[Hn|Hs]]; [right|right|by left].
  - exists o1, o2. split; [done|]. rewrite Hp, load_snapshot. done.
  - exists [], ops. by rewrite Hn.
Qed.

(** [load] merges what was stored with what the session already holds:
    an entry the session knows keeps its in-memory version, every other stored
    entry is found again, and clientIds stay unique. *)
Theorem load_merges (p : Persisted) (s : ConversationStore) :
  p_v p = Some 1 -> NoDup (ids s) -> NoDup (map clientId (p_outbox p ?? [])) ->
  let s' := load (ReadText (Parsed p)) s in
  (forall id, get id s' = match get id s with
                          | Some e => Some e
                          | None => List.find (fun e => String.eqb (clientId e) id) (p_outbox p ?? [])
                          end)
  /\ NoDup (ids s').
Proof.
  intros Hv Hs Hp s'. subst s'. unfold load. rewrite bool_decide_eq_true_2 by done.
  fold (ids s). split.
  - intros id. unfold get at 1. simpl. rewrite find_app. fold (get id s).
    destruct (get id s) as [e|] eqn:Hg.
    + rewrite find_filter_known; [done|]. apply get_is_Some. by rewrite Hg.
    + apply get_None in Hg. rewrite find_filter_unknown by done. by destruct (List.find _ _).
  - unfold ids at 1. simpl. rewrite map_app. apply NoDup_app. split_and!; [|intros id Hid|done].
    + eapply sublist_NoDup; [exact Hp|]. apply sublist_map, sublist_filter.
    + apply list_elem_of_In, in_map_iff in Hid as (e & <- & Hin).
      apply list_elem_of_In, list_elem_of_filter in Hin. by destruct Hin.
Qed.

(** The example data of the witnesses. *)
Definition ex_frame (id text : string) : ClientMessageFrame := mkClientMessage id text None None None None.
Definition ex_entry (id text : string) (at_ms : Z) : OutboxEntry := mkEntry id (ex_frame id text) at_ms 0.
Definition ex_ops : list store_op :=
  [OAdd (ex_entry "a" "one" 1); OWrite true; OAdd (ex_entry "b" "two" 2); OTouch "a";
   OSetState (mkResume "c1" (Some "u") 7); ORemove "a"].

(** What comes first: an outbox found in the storage, a send whose write throws. *)
Definition ex_stored : gmap string StoredText :=
  setItem (keyFor "p" "c1") (Parsed (mkPersisted (Some 1) (Some (mkResume "c1" None 3)) (Some [ex_entry "old" "unsent" 0]))) ∅.
Definition ex_history : list store_op :=
  [OLoad (match getItem (keyFor "p" "c1") ex_stored with Some t => ReadText t | None => ReadNothing end);
   OAdd (ex_entry "lost" "write" 1); OWrite false].

Lemma reload_restores_outbox_witness :
  let sm0 := run ex_history (session "p" "c1" ex_stored) in
  let sm := run ex_ops sm0 in
  (ids sm.1 = ["old"; "lost"; "b"] /\ length (writes sm.1) = 4%nat /\ storage_errors sm.1 = 1%nat) /\
  let reloaded := load_from (drain sm.1 sm.2).2 (new_store "p" (Some "c1")) in
  entries reloaded = entries sm.1 /\ state reloaded = state sm.1.
Proof.
  intros sm0 sm. split; [vm_compute; done|].
  apply (reload_restores_outbox _ "p" "c1" sm0.1 sm0.2 (OAdd (ex_entry "a" "one" 1)) (tail ex_ops) sm.1 sm.2);
    [reflexivity|reflexivity|vm_compute; discriminate|reflexivity|]. vm_compute. reflexivity.
Defined.

Lemma crash_restores_past_witness :
  let s := (run ex_ops (session "p" "c1" (∅ : gmap string StoredText))).1 in
  let m := (run ex_ops (session "p" "c1" (∅ : gmap string StoredText))).2 in
  ids (load_from m (new_store "p" (Some "c1"))) = ["a"] /\
  (getItem (keyFor "p" "c1") m = getItem (keyFor "p" "c1") (∅ : gmap string StoredText)
   \/ exists ops1 ops2, ex_ops = ops1 ++ ops2
       /\ entries (load_from m (new_store "p" (Some "c1"))) = entries (run ops1 (session "p" "c1" (∅ : gmap string StoredText))).1
       /\ state (load_from m (new_store "p" (Some "c1"))) = state (run ops1 (session "p" "c1" (∅ : gmap string StoredText))).1).
Proof.
  intros s m. split; [reflexivity|].
  apply (crash_restores_past _ "p" "c1" ex_ops (∅ : gmap string StoredText) s m). apply surjective_pairing.
Defined.

Lemma load_merges_witness :
  let p := mkPersisted (Some 1) None (Some [ex_entry "a" "stored" 1; ex_entry "b" "stored" 2]) in
  let s := add (ex_entry "b" "in memory" 3) (new_store "p" (Some "c1")) in
  let s' := load (ReadText (Parsed p)) s in
  ids s' = ["a"; "b"]
  /\ (forall id, get id s' = match get id s with
                             | Some e => Some e
                             | None => List.find (fun e => String.eqb (clientId e) id) (p_outbox p ?? [])
                             end)
  /\ NoDup (ids s').
Proof.
  intros p s s'. split; [reflexivity|].
  apply (load_merges p s); [reflexivity|vm_compute; apply NoDup_singleton|].
  vm_compute. repeat constructor; set_solver.
Defined.

(** A send made before [resume] read the storage overwrites what was
    stored for the conversation: once its write settles, the earlier outbox
    and the watermark are gone, whatever they were. *)
Theorem send_before_load_overwrites (M : Type) `{KeyValueLaws M StoredText} pre conversation e (m0 : M) :
  let '(s, m) := run [OAdd e; OWrite true] (session pre conversation m0) in
  let reloaded := load_from m (new_store pre (Some conversation)) in
  entries reloaded = [e] /\ state reloaded = None
  /\ entries (load_from m s) = [e] /\ state (load_from m s) = None.
Proof.
  unfold run, session, load_from. cbn -[load keyFor getItem].
  rewrite !getItem_setItem. split_and!; try done.
  unfold load; simpl. rewrite filter_cons_False; [done|].
  intros Hni. apply Hni. by left.
Qed.

Lemma send_before_load_overwrites_witness :
  let m0 := setItem (keyFor "p" "c1") (Parsed (mkPersisted (Some 1) (Some (mkResume "c1" None 41)) (Some [ex_entry "old" "unsent" 1])))
              (∅ : gmap string StoredText) in
  ids (load_from m0 (new_store "p" (Some "c1"))) = ["old"] /\
  let '(s, m) := run [OAdd (ex_entry "new" "text" 2); OWrite true] (session "p" "c1" m0) in
  let reloaded := load_from m (new_store "p" (Some "c1")) in
  entries reloaded = [ex_entry "new" "text" 2] /\ state reloaded = None
  /\ entries (load_from m s) = [ex_entry "new" "text" 2] /\ state (load_from m s) = None.
Proof.
  intros m0. split; [vm_compute; reflexivity|].
  exact (send_before_load_overwrites (gmap string StoredText) "p" "c1" (ex_entry "new" "text" 2) m0).
Defined.
