(* ===== verification/Json.v ===== *)
(** * Json: [JSON.parse], the part of the JavaScript library the SDKs read
    tokens, frames and close reasons with.

    A JavaScript string is represented by its UTF-8 bytes.  The parser is a
    recursive descent with fuel; [parse_json] gives it more fuel than the text
    has characters, and every recursive call consumes one. *)

From stdpp Require Import base list strings.
From Stdlib Require Import ZArith QArith Ascii.
From S2P Require Import Prelude Watermark.

Open Scope string_scope.
Open Scope list_scope.
Open Scope Z_scope.

Definition is_ws (c : ascii) : bool := bool_decide (code c ∈ [9; 10; 13; 32]).

Fixpoint skip_ws (l : chars) : chars :=
  match l with
  | c :: l' => if is_ws c then skip_ws l' else l
  | [] => []
  end.

(** ** Strings *)

Definition hex_digit (c : ascii) : option Z :=
  let z := code c in
  if (48 <=? z) && (z <=? 57) then Some (z - 48)
  else if (65 <=? z) && (z <=? 70) then Some (z - 55)
  else if (97 <=? z) && (z <=? 102) then Some (z - 87)
  else None.

Definition hex4 (a b c d : ascii) : option Z :=
  match hex_digit a, hex_digit b, hex_digit c, hex_digit d with
  | Some a, Some b, Some c, Some d => Some (((a * 16 + b) * 16 + c) * 16 + d)
  | _, _, _, _ => None
  end.

(** The UTF-8 bytes of a code point. *)
Definition utf8 (z : Z) : chars :=
  if z <? 128 then [chr z]
  else if z <? 2048 then [chr (192 + z / 64); chr (128 + z mod 64)]
  else if z <? 65536 then [chr (224 + z / 4096); chr (128 + z / 64 mod 64); chr (128 + z mod 64)]
  else [chr (240 + z / 262144); chr (128 + z / 4096 mod 64); chr (128 + z / 64 mod 64); chr (128 + z mod 64)].

Definition simple_escape (c : ascii) : option ascii :=
  match code c with
  | 34 | 47 | 92 => Some c
  | 98 => Some (chr 8)
  | 102 => Some (chr 12)
  | 110 => Some (chr 10)
  | 114 => Some (chr 13)
  | 116 => Some (chr 9)
  | _ => None
  end.

(** A code unit of a [\u] escape, joined with the low surrogate after a high one. *)
Definition join_surrogates (u : Z) (rest : chars) : Z * chars :=
  match rest with
  | bs :: u' :: a :: b :: c :: d :: rest' =>
      if (55296 <=? u) && (u <? 56320) && (code bs =? 92) && (code u' =? 117) then
        match hex4 a b c d with
        | Some v => if (56320 <=? v) && (v <? 57344)
                    then (65536 + (u - 55296) * 1024 + (v - 56320), rest')
                    else (u, rest)
        | None => (u, rest)
        end
      else (u, rest)
  | _ => (u, rest)
  end.

(** The characters of a string literal after its opening quote. *)
Fixpoint string_body (fuel : nat) (l : chars) : option (chars * chars) :=
  match fuel with
  | O => None
  | S fuel =>
      match l with
      | [] => None
      | c :: l' =>
          if code c =? 34 then Some ([], l')
          else if code c =? 92 then
            match l' with
            | e :: l'' =>
                if code e =? 117 then
                  match l'' with
                  | h1 :: h2 :: h3 :: h4 :: rest =>
                      match hex4 h1 h2 h3 h4 with
                      | Some u =>
                          let '(z, rest) := join_surrogates u rest in
                          match string_body fuel rest with
                          | Some (s, r) => Some (utf8 z ++ s, r)
                          | None => None
                          end
                      | None => None
                      end
                  | _ => None
                  end
                else
                  match simple_escape e, string_body fuel l'' with
                  | Some x, Some (s, r) => Some (x :: s, r)
                  | _, _ => None
                  end
            | [] => None
            end
          else if code c <? 32 then None
          else match string_body fuel l' with
               | Some (s, r) => Some (c :: s, r)
               | None => None
               end
      end
  end.

(** ** Numbers *)

Fixpoint take_digits (l : chars) : list Z * chars :=
  match l with
  | c :: l' =>
      match digit c with
      | Some d => let '(ds, r) := take_digits l' in (d :: ds, r)
      | None => ([], l)
      end
  | [] => ([], [])
  end.

Definition pow10 (e : Z) : Q := Qpower 10 e.

(** [frac] and [exp] parts: the fraction digits and the exponent. *)
Definition fraction (l : chars) : option (list Z * chars) :=
  match l with
  | c :: l' =>
      if code c =? 46 then
        match take_digits l' with
        | ([], _) => None
        | r => Some r
        end
      else Some ([], l)
  | [] => Some ([], [])
  end.

Definition exponent (l : chars) : option (Z * chars) :=
  match l with
  | c :: l' =>
      if (code c =? 101) || (code c =? 69) then
        let '(sign, l'') :=
          match l' with
          | s :: r => if code s =? 45 then (-1, r) else if code s =? 43 then (1, r) else (1, l')
          | [] => (1, [])
          end in
        match take_digits l'' with
        | ([], _) => None
        | (ds, r) => Some (sign * value_of_digits ds, r)
        end
      else Some (0, l)
  | [] => Some (0, [])
  end.

Definition number (l : chars) : option (Q * chars) :=
  let '(sign, l) := match l with
                    | c :: r => if code c =? 45 then (-1, r) else (1, l)
                    | [] => (1, [])
                    end in
  match take_digits l with
  | ([], _) => None
  | (0 :: _ :: _, _) => None
  | (ds, r) =>
      match fraction r with
      | Some (fs, r) =>
          match exponent r with
          | Some (e, r) =>
              let m := sign * value_of_digits (ds ++ fs) in
              Some (Qred (inject_Z m * pow10 (e - Z.of_nat (length fs)))%Q, r)
          | None => None
          end
      | None => None
      end
  end.

(** ** Values *)

(** A member read twice keeps its place and takes the later value. *)
Fixpoint set_member (k : string) (v : json) (l : list (string * json)) : list (string * json) :=
  match l with
  | [] => [(k, v)]
  | (k', v') :: l' => if String.eqb k' k then (k, v) :: l' else (k', v') :: set_member k v l'
  end.

Fixpoint strip_prefix (p l : chars) : option chars :=
  match p, l with
  | [], _ => Some l
  | c :: p', d :: l' => if Ascii.eqb c d then strip_prefix p' l' else None
  | _ :: _, [] => None
  end.

Definition literal (l : chars) : option (json * chars) :=
  match strip_prefix (chars_of "true") l, strip_prefix (chars_of "false") l, strip_prefix (chars_of "null") l with
  | Some r, _, _ => Some (JBool true, r)
  | _, Some r, _ => Some (JBool false, r)
  | _, _, Some r => Some (JNull, r)
  | None, None, None => match number l with Some (q, r) => Some (JNum q, r) | None => None end
  end.

Fixpoint value (fuel : nat) (l : chars) : option (json * chars) :=
  match fuel with
  | O => None
  | S fuel =>
      match skip_ws l with
      | [] => None
      | c :: r =>
          if code c =? 123 then
            match skip_ws r with
            | d :: r' => if code d =? 125 then Some (JObj [], r') else members fuel r []
            | [] => None
            end
          else if code c =? 91 then
            match skip_ws r with
            | d :: r' => if code d =? 93 then Some (JArr [], r') else items fuel r []
            | [] => None
            end
          else if code c =? 34 then
            match string_body fuel r with
            | Some (s, r') => Some (JStr (str_of s), r')
            | None => None
            end
          else literal (c :: r)
      end
  end
with members (fuel : nat) (l : chars) (acc : list (string * json)) : option (json * chars) :=
  match fuel with
  | O => None
  | S fuel =>
      match skip_ws l with
      | q :: r =>
          if code q =? 34 then
            match string_body fuel r with
            | Some (k, r') =>
                match skip_ws r' with
                | colon :: r'' =>
                    if code colon =? 58 then
                      match value fuel r'' with
                      | Some (v, r3) =>
                          let acc := set_member (str_of k) v acc in
                          match skip_ws r3 with
                          | d :: r4 => if code d =? 44 then members fuel r4 acc
                                       else if code d =? 125 then Some (JObj acc, r4) else None
                          | [] => None
                          end
                      | None => None
                      end
                    else None
                | [] => None
                end
            | None => None
            end
          else None
      | [] => None
      end
  end
with items (fuel : nat) (l : chars) (acc : list json) : option (json * chars) :=
  match fuel with
  | O => None
  | S fuel =>
      match value fuel l with
      | Some (v, r) =>
          match skip_ws r with
          | d :: r' => if code d =? 44 then items fuel r' (acc ++ [v])
                       else if code d =? 93 then Some (JArr (acc ++ [v]), r') else None
          | [] => None
          end
      | None => None
      end
  end.

(** [JSON.parse]; [None] is the [SyntaxError]. *)
Definition parse_json (text : chars) : option json :=
  match value (S (length text)) text with
  | Some (v, r) => match skip_ws r with [] => Some v | _ => None end
  | None => None
  end.

(** Test texts, with ['] for the double quote. *)
Definition quoted (s : string) : chars := replace_char "'" (chr 34) (chars_of s).

Example parse_json_object :
  parse_json (quoted "{ 'a': [1, -2.5e1, true], 'b': {'c': null}, 'a': 'x\u0041\n' }")
  = Some (JObj [("a", JStr (str_of [chr 120; chr 65; chr 10])); ("b", JObj [("c", JNull)])]).
Proof. reflexivity. Qed.

Example parse_json_bad : parse_json (quoted "{'a': 01}") = None /\ parse_json (quoted "[1,]") = None.
Proof. split; reflexivity. Qed.
