(* ===== verification/Errors.v ===== *)
(** * Errors: the errors the client SDK raises
    ([packages/client-ts/src/errors.ts]), and how a failed REST response
    becomes one.

    [Date.parse] is a parameter: the milliseconds of a date, [None] for [NaN].
    [Number(text)] is modelled on decimal and [0x], [0o], [0b] literals and
    exactly, where a double rounds; of the white space a trim removes, the
    ASCII part. *)

From stdpp Require Import base list strings pretty.
From Stdlib Require Import ZArith QArith Lia Ascii.
From Stdlib Require Qcanon.
From S2P Require Import Prelude Watermark Json Frames.

Open Scope string_scope.
Open Scope list_scope.
Open Scope Z_scope.

(** The subclass of a [ConvergerError], with the fields it adds. *)
Inductive error_kind :=
| KBase
| KProtocol (data : ErrorData)
| KApi (status : Z) (details : option (list (string * json))) (requestId : option string) (retryAfterMs : option Z) (body : json)
| KClosed.

(* @src packages/client-ts/src/errors.ts 9-19 ConvergerError *)
Record ConvergerError := mkError {
  err_code : string;
  err_message : string;
  err_kind : error_kind;
}.

Definition error (code message : string) : ConvergerError := mkError code message KBase.

(* @src packages/client-ts/src/errors.ts 21-40 ConvergerProtocolError *)
Definition ConvergerProtocolError (data : ErrorData) : ConvergerError :=
  mkError (ed_code data)
          (if String.eqb (ed_message data) "" then ed_code data else ed_message data)
          (KProtocol data).

(** [this.retryable = frame.data.retryable === true]. *)
Definition protocol_retryable (data : ErrorData) : bool := ed_retryable data ?? false.

(* @src packages/client-ts/src/errors.ts 84-90 ConvergerClosedError *)
Definition ConvergerClosedError (message code : string) : ConvergerError := mkError code message KClosed.

(* @src packages/client-ts/src/errors.ts 78-81 retryable *)
Definition api_retryable (status : Z) : bool := (status =? 429) || (status =? 503) || (500 <=? status).

(** ** [Number(text)] *)

(** The white space [trim] and [Number] remove. *)
Definition is_js_space (c : ascii) : bool := bool_decide (code c ∈ [9; 10; 11; 12; 13; 32]).

Fixpoint drop_space (l : chars) : chars :=
  match l with
  | c :: l' => if is_js_space c then drop_space l' else l
  | [] => []
  end.

Definition trim (l : chars) : chars := rev (drop_space (rev (drop_space l))).

(** Digits of a base, all of the text. *)
Definition based (base : Z) (l : chars) : option Q :=
  match l with
  | [] => None
  | _ => (fun ds => inject_Z (fold_left (fun acc d => acc * base + d) ds 0)) <$>
           mapM (fun c => d ← hex_digit c; if d <? base then Some d else None) l
  end.

(** A decimal literal without sign, all of the text. *)
Definition unsigned_decimal (l : chars) : option Q :=
  let '(ip, r) := take_digits l in
  let '(fp, r) := match r with
                  | c :: r' => if code c =? 46 then take_digits r' else ([], r)
                  | [] => ([], [])
                  end in
  match ip ++ fp, exponent r with
  | [], _ => None
  | ds, Some (e, []) => Some (Qred (inject_Z (value_of_digits ds) * pow10 (e - Z.of_nat (length fp))))
  | _, _ => None
  end.

(** [Number(text)], when it is finite. *)
Definition finite_number (text : string) : option Q :=
  match trim (chars_of text) with
  | [] => Some 0%Q
  | (c :: l) as t =>
      if code c =? 43 then unsigned_decimal l
      else if code c =? 45 then Qopp <$> unsigned_decimal l
      else match code c, l with
           | 48, x :: ds =>
               if bool_decide (code x ∈ [120; 88]) then based 16 ds
               else if bool_decide (code x ∈ [111; 79]) then based 8 ds
               else if bool_decide (code x ∈ [98; 66]) then based 2 ds
               else unsigned_decimal t
           | _, _ => unsigned_decimal t
           end
  end.

(** ** Failed responses *)

(* @src packages/client-ts/src/errors.ts 92-104 STATUS_CODES *)
Definition STATUS_CODES : list (Z * string) :=
  [(400, "bad_request"); (401, "unauthorized"); (403, "forbidden"); (404, "not_found"); (409, "conflict");
   (413, "payload_too_large"); (415, "unsupported_media_type"); (422, "invalid_message"); (429, "rate_limited");
   (502, "bad_gateway"); (503, "unavailable")].

Fixpoint status_code (status : Z) (l : list (Z * string)) : option string :=
  match l with
  | (k, v) :: l' => if k =? status then Some v else status_code status l'
  | [] => None
  end.

(* @src packages/client-ts/src/errors.ts 106-108 isRecord *)
Definition as_record (value : option json) : option (list (string * json)) :=
  match value with Some (JObj l) => Some l | _ => None end.

Definition as_string (value : option json) : option string :=
  match value with Some (JStr s) => Some s | _ => None end.

(** [/^[a-z][a-z0-9_]*$/]. *)
Definition is_lower (c : ascii) : bool := (97 <=? code c) && (code c <=? 122).
Definition is_code_char (c : ascii) : bool :=
  is_lower c || ((48 <=? code c) && (code c <=? 57)) || (code c =? 95).
Definition is_code (s : string) : bool :=
  match chars_of s with c :: l => is_lower c && forallb is_code_char l | [] => false end.

Section Responses.
Context (date_parse : string -> option Z).

(* @src packages/client-ts/src/errors.ts 110-117 parseRetryAfter *)
Definition parseRetryAfter (value : option string) (now : Z) : option Z :=
  match value with
  | None | Some "" => None
  | Some v =>
      match finite_number v with
      | Some seconds => Some (Z.max 0 (math_round (seconds * 1000)))
      | None => (fun date => Z.max 0 (date - now)) <$> date_parse v
      end
  end.

Definition fallback_code (status : Z) : string :=
  status_code status STATUS_CODES ?? (if 500 <=? status then "internal" else "http_error").

(** The code, message, details and request id read from a body. *)
(* @src packages/client-ts/src/errors.ts 127-157 apiErrorFrom *)
Definition read_error (fallback message : string) (body : json) :
  string * string * option (list (string * json)) * option string :=
  match body with
  | JObj l =>
      match assoc "error" l, as_record (assoc "errors" l) with
      | Some (JObj e), _ =>
          (as_string (assoc "code" e) ?? fallback, as_string (assoc "message" e) ?? message,
           as_record (assoc "details" e), as_string (assoc "request_id" e))
      | Some (JStr e), _ =>
          if is_code e then (e, as_string (assoc "detail" l) ?? e, None, None) else (fallback, e, None, None)
      | _, Some es =>
          match as_string (assoc "detail" es), es with
          | Some d, [_] => (fallback, d, None, None)
          | _, _ => (fallback, "validation failed", Some es, None)
          end
      | _, None => (fallback, message, None, None)
      end
  | JStr s =>
      match trim (chars_of s) with
      | [] => (fallback, message, None, None)
      | t => (fallback, str_of (take 500 t), None, None)
      end
  | _ => (fallback, message, None, None)
  end.

(* @src packages/client-ts/src/errors.ts 119-126 apiErrorFrom *)
Definition apiErrorFrom (status : Z) (body : json) (retryAfter : option string) (now : Z) : ConvergerError :=
  let retryAfterMs := parseRetryAfter retryAfter now in
  let '(code, message, details, requestId) := read_error (fallback_code status) ("HTTP " +:+ pretty status) body in
  mkError code message (KApi status details requestId retryAfterMs body).

(** ** Properties *)

Lemma parseRetryAfter_nonneg value now ms : parseRetryAfter value now = Some ms -> 0 <= ms.
Proof.
  unfold parseRetryAfter. destruct value as [[|c s]|]; [done| |done].
  destruct (finite_number _); [intros [= <-]; lia|]. intros (d & _ & ->)%fmap_Some. lia.
Qed.

Lemma take_digits_all ds : Forall (fun d => 0 <= d < 10) ds -> take_digits (map digit_char ds) = (ds, []).
Proof. induction 1 as [|d ds Hd _ IH]; [done|]. simpl. by rewrite digit_of_char, IH. Qed.

Lemma digit_char_plain d : 0 <= d < 10 ->
  is_js_space (digit_char d) = false /\ code (digit_char d) = 48 + d.
Proof.
  intros Hd. assert (d = 0 \/ d = 1 \/ d = 2 \/ d = 3 \/ d = 4 \/ d = 5 \/ d = 6 \/ d = 7 \/ d = 8 \/ d = 9)
    as [->|[->|[->|[->|[->|[->|[->|[->|[->| ->]]]]]]]]] by lia; split; reflexivity.
Qed.

Lemma trim_solid l : Forall (fun c => is_js_space c = false) l -> trim l = l.
Proof.
  assert (H : forall l, Forall (fun c => is_js_space c = false) l -> drop_space l = l).
  { intros k [|c k' Hc _]; [done|]. simpl. by rewrite Hc. }
  intros Hl. unfold trim. rewrite (H l) by done. rewrite H by (by apply List.Forall_rev).
  apply rev_involutive.
Qed.

Lemma finite_number_digits ds n :
  canonical ds n -> 0 <= n -> finite_number (str_of (map digit_char ds)) = Some (inject_Z n).
Proof.
  intros Hc Hn. unfold finite_number, chars_of, str_of. rewrite String.list_ascii_of_string_of_list_ascii.
  rewrite trim_solid by (apply List.Forall_map; eapply Forall_impl; [apply Hc | intros d Hd; by apply digit_char_plain]).
  assert (Hu : unsigned_decimal (map digit_char ds) = Some (inject_Z n)).
  { unfold unsigned_decimal. rewrite (take_digits_all ds (can_digits _ _ Hc)), app_nil_r. simpl.
    assert (Hne : ds <> []).
    { intros ->. destruct (decide (n = 0)) as [->|]; [by specialize (can_zero _ _ Hc eq_refl)|].
      destruct (can_head _ _ Hc) as (? & ? & ? & _); [lia | done]. }
    destruct ds as [|d ds']; [done|]. rewrite (can_value _ _ Hc). f_equal. unfold pow10; simpl.
    unfold Qmult, inject_Z; simpl. rewrite Z.mul_1_r. apply Qcanon.Qred_identity. simpl. apply Z.gcd_1_r. }
  pose proof (can_digits _ _ Hc) as Hds. destruct ds as [|d ds']; [by unfold unsigned_decimal in Hu|].
  cbn [map] in Hu |- *. cbv beta iota zeta. rewrite Hu. apply Forall_cons in Hds as [Hd _]. destruct (digit_char_plain d Hd) as [_ Hcode].
  rewrite Hcode. rewrite (proj2 (Z.eqb_neq (48 + d) 43)), (proj2 (Z.eqb_neq (48 + d) 45)) by lia.
  destruct (decide (n = 0)) as [H0|H0].
  - apply (can_zero _ _ Hc) in H0 as [= -> ->]. done.
  - destruct (can_head _ _ Hc) as (d' & l' & [= <- <-] & H1); [lia|].
    assert (d = 1 \/ d = 2 \/ d = 3 \/ d = 4 \/ d = 5 \/ d = 6 \/ d = 7 \/ d = 8 \/ d = 9)
      as [->|[->|[->|[->|[->|[->|[->|[->| ->]]]]]]]] by lia; done.
Qed.

(** A [Retry-After] in seconds, written in decimal, is read back as that
many milliseconds, whatever the clock; and no header yields a negative
delay. *)
Theorem retry_after_seconds (n now : Z) (value : option string) :
  0 <= n < 10 ^ 21 ->
  parseRetryAfter (Some (str_of (decimal n))) now = Some (n * 1000) /\
  (forall ms, parseRetryAfter value now = Some ms -> 0 <= ms).
Proof.
  intros Hn. split; [|apply parseRetryAfter_nonneg].
  destruct (digits_of_canonical 21 n []) as (ds & Hds & Hc); [done | lia|]. rewrite app_nil_r in Hds.
  unfold decimal. rewrite Hds. unfold parseRetryAfter. rewrite (finite_number_digits ds n) by (done || lia).
  destruct (str_of (map digit_char ds)) eqn:E.
  - exfalso. apply (f_equal chars_of) in E. unfold str_of, chars_of in E.
    rewrite String.list_ascii_of_string_of_list_ascii in E. simpl in E. destruct ds; [|done].
    destruct (decide (n = 0)) as [->|]; [by specialize (can_zero _ _ Hc eq_refl)|].
    destruct (can_head _ _ Hc) as (? & ? & ? & _); [lia | done].
  - f_equal. change 1000%Q with (inject_Z 1000). rewrite <- inject_Z_mult, math_round_inject. lia.
Qed.

(** What the error of a failed response says: its status is the
response's, its code is the one the body gives ([error.code], or an
[error] that is itself a code) and otherwise the one of the status. *)
Theorem apiErrorFrom_code (status : Z) (body : json) (retryAfter : option string) (now : Z) :
  let e := apiErrorFrom status body retryAfter now in
  (exists details requestId,
   err_kind e = KApi status details requestId (parseRetryAfter retryAfter now) body) /\
  err_code e =
  match member "error" body with
  | Some (JObj l) => as_string (assoc "code" l) ?? fallback_code status
  | Some (JStr s) => if is_code s then s else fallback_code status
  | _ => fallback_code status
  end.
Proof.
  cbv zeta. unfold apiErrorFrom.
  destruct (read_error (fallback_code status) ("HTTP " +:+ pretty status) body) as [[[code message] details] requestId] eqn:E.
  split; [by eexists _, _|]. simpl. unfold read_error in E. destruct body as [| | |s| |l]; simpl; try congruence.
  - destruct (trim (chars_of s)); congruence.
  - destruct (assoc "error" l) as [[| | |s| |e]|]; try congruence.
    all: try (destruct (is_code s); congruence).
    all: destruct (as_record (assoc "errors" l)) as [es|]; [|congruence].
    all: destruct (as_string (assoc "detail" es)), es as [|? [|? ?]]; congruence.
Qed.
End Responses.

Lemma retry_after_seconds_witness :
  0 <= 120 < 10 ^ 21 /\ parseRetryAfter (fun _ => None) (Some (str_of (decimal 120))) 0 = Some (120 * 1000).
Proof.
  split; [lia|]. exact (proj1 (retry_after_seconds (fun _ => None) 120 0 None ltac:(lia))).
Defined.

(** The other shapes of the header: an HTTP date, fractions, junk. *)
Example retry_after_shapes :
  let date := fun s => if String.eqb s "Wed, 21 Oct 2015 07:28:00 GMT" then Some 1445412480000 else None in
  (parseRetryAfter date (Some "Wed, 21 Oct 2015 07:28:00 GMT") 1445412470000, parseRetryAfter date (Some " 1.5e0 ") 0,
   parseRetryAfter date (Some "soon") 0, parseRetryAfter date (Some "-3") 0, parseRetryAfter date (Some "") 0)
  = (Some 10000, Some 1500, None, Some 0, None).
Proof. vm_compute. reflexivity. Qed.
