(* ===== verification/Rest.v ===== *)
(** * Rest: the REST client
    ([packages/client-ts/src/rest/client.ts]).

    [fetch] and the token source act on an abstract world [W]: a call may
    change it, fail, or answer.  A method is an action on the world that
    returns a value or the error it throws.  A request is the data the program
    hands to [fetch]; a JSON body stays a value ([JSON.stringify] is not
    modelled).  A string is its UTF-8 bytes, which is what percent-encoding
    works on.  Abort signals are not modelled. *)

From stdpp Require Import base gmap sets list strings pretty sorting.
From Stdlib Require Import ZArith QArith Lia Ascii.
From S2P Require Import Prelude Watermark Json JsMap Frames Errors.

Open Scope string_scope.
Open Scope list_scope.
Open Scope Z_scope.

(** ** URLs *)

Definition is_alnum (c : ascii) : bool :=
  ((48 <=? code c) && (code c <=? 57)) || ((65 <=? code c) && (code c <=? 90)) || ((97 <=? code c) && (code c <=? 122)).

(** What [encodeURIComponent] and [URLSearchParams] leave as it is. *)
Definition uri_plain (c : ascii) : bool := is_alnum c || bool_decide (c ∈ chars_of "-_.!~*'()").
Definition form_plain (c : ascii) : bool := is_alnum c || bool_decide (c ∈ chars_of "*-._").

Definition hex_char (v : Z) : ascii := if v <? 10 then chr (48 + v) else chr (55 + v).
Definition percent (c : ascii) : chars := ["%"%char; hex_char (code c / 16); hex_char (code c mod 16)].

Definition uri_encode (l : chars) : chars := l ≫= fun c => if uri_plain c then [c] else percent c.
Definition encodeURIComponent (s : string) : string := str_of (uri_encode (chars_of s)).

Definition form_encode (l : chars) : chars :=
  l ≫= fun c => if form_plain c then [c] else if code c =? 32 then ["+"%char] else percent c.

(** [new URLSearchParams], [set] and [toString]. *)
Definition query_string (params : list (string * string)) : string :=
  String.concat "&" (map (fun '(k, v) => str_of (form_encode (chars_of k)) +:+ "=" +:+ str_of (form_encode (chars_of v))) params).

(** [decodeURIComponent], the inverse [encodeURIComponent] is specified by. *)
Fixpoint uri_decode (l : chars) : option chars :=
  match l with
  | [] => Some []
  | c :: l' =>
      if code c =? 37 then
        match l' with
        | h1 :: h2 :: rest =>
            match hex_digit h1, hex_digit h2, uri_decode rest with
            | Some a, Some b, Some r => Some (chr (a * 16 + b) :: r)
            | _, _, _ => None
            end
        | _ => None
        end
      else cons c <$> uri_decode l'
  end.

Fixpoint drop_slashes (l : chars) : chars :=
  match l with
  | c :: l' => if code c =? 47 then drop_slashes l' else l
  | [] => []
  end.

(* @src packages/client-ts/src/rest/client.ts 50-53 trimBaseUrl *)
Definition trimBaseUrl (baseUrl : string) : string := str_of (rev (drop_slashes (rev (chars_of baseUrl)))).

(** The characters in lower case, for the case-insensitive patterns on URLs. *)
Definition lower (l : chars) : chars :=
  map (fun c => if (65 <=? code c) && (code c <=? 90) then chr (code c + 32) else c) l.

(** [/^https?:\/\//.test(url)]. *)
Definition is_http_url (url : string) : bool :=
  let l := chars_of url in
  bool_decide (is_Some (strip_prefix (chars_of "http://") l)) || bool_decide (is_Some (strip_prefix (chars_of "https://") l)).

(** ** Requests and responses *)

Inductive part := PFile (file : string) (filename : string) | PJson (v : json).
Inductive body := BJson (v : json) | BForm (parts : list (string * part)).

(** The [RequestInit] and URL given to [fetch]. *)
Record HttpRequest := mkHttp {
  rq_method : string;
  rq_url : string;
  rq_headers : list (string * string);
  rq_body : option body;
}.

Record Response := mkResponse { rs_status : Z; rs_text : string; rs_retryAfter : option string }.

Definition rs_ok (r : Response) : bool := (200 <=? rs_status r) && (rs_status r <=? 299).

(** [init] of [#call]. *)
Record CallInit := mkInit {
  ci_body : option body;
  ci_json : option json;
  ci_headers : list (string * string);
  ci_token : option string;
}.
Definition no_init : CallInit := mkInit None None [] None.

(** A page's watermark: the integer, a legacy opaque string, or [null]. *)
Inductive wm := WSeq (seq : Z) | WOpaque (s : string).

#[export] Instance wm_eq_dec : EqDecision wm.
Proof. solve_decision. Defined.

(* @src packages/client-ts/src/rest/client.ts 32-39 HistoryOptions *)
Record HistoryOptions := mkHistoryOptions { ho_watermark : option wm; ho_limit : option Z }.

Definition wm_string (w : wm) : string := match w with WSeq n => pretty n | WOpaque s => s end.

(* @src packages/client-ts/src/rest/openapi.ts 62-70 ActivitySet *)
Record ActivitySet := mkSet { as_activities : list json; as_watermark : option wm; as_hasMore : bool }.

(** A response body as the [ActivitySet] it is declared to be. *)
Definition as_page (v : json) : option ActivitySet :=
  match member "activities" v, member "has_more" v, member "watermark" v with
  | Some (JArr l), Some (JBool more), Some w =>
      match w with
      | JNull => Some (mkSet l None more)
      | JStr s => Some (mkSet l (Some (WOpaque s)) more)
      | JNum q => if is_integer q then Some (mkSet l (Some (WSeq (to_integer q))) more) else None
      | _ => None
      end
  | _, _, _ => None
  end.

(** How reading the history ended. *)
Inductive ending := Finished | Failed (e : ConvergerError) | Malformed | OutOfFuel.

(* @src packages/client-ts/src/rest/client.ts 41-48 UploadOptions *)
Record UploadOptions := mkUpload { up_filename : option string; up_activity : option json }.

Section Client.
Context {W : Type}.
Context (fetch : HttpRequest -> W -> option Response * W).
Context (now : W -> Z) (date_parse : string -> option Z).

(** An async method: the error it throws, or its result. *)
Definition act (A : Type) : Type := W -> (ConvergerError + A) * W.

Definition bind {A B} (m : act A) (k : A -> act B) : act B :=
  fun w => match m w with
           | (inl e, w) => (inl e, w)
           | (inr a, w) => k a w
           end.

(* @src packages/client-ts/src/rest/client.ts 65-73 readBody *)
Definition readBody (text : string) : json :=
  if String.eqb text "" then JNull else parse_json (chars_of text) ?? JStr text.

Definition network_error (url : string) : ConvergerError :=
  error "network_error" ("request to " +:+ url +:+ " failed").

(* @src packages/client-ts/src/rest/client.ts 75-91 request *)
Definition request (r : HttpRequest) : act json := fun w =>
  match fetch r w with
  | (None, w) => (inl (network_error (rq_url r)), w)
  | (Some resp, w) =>
      let body := readBody (rs_text resp) in
      if rs_ok resp then (inr body, w)
      else (inl (apiErrorFrom date_parse (rs_status resp) body (rs_retryAfter resp) (now w)), w)
  end.

(* @src packages/client-ts/src/rest/client.ts 93-123 generateToken *)
Definition generateToken (baseUrl secret : string) (userId scope : option string) : act json :=
  let body := match userId with Some u => [("user", JObj [("id", JStr u)])] | None => [] end
    ++ match scope with Some s => [("scope", JStr s)] | None => [] end in
  request (mkHttp "POST" (trimBaseUrl baseUrl +:+ "/api/v1/converger/tokens/generate")
           [("authorization", "Bearer " +:+ secret); ("content-type", "application/json"); ("accept", "application/json")]
           (Some (BJson (JObj body)))).

(* @src packages/client-ts/src/rest/client.ts 125-142 refreshToken *)
Definition refreshToken (baseUrl token : string) : act json :=
  request (mkHttp "POST" (trimBaseUrl baseUrl +:+ "/api/v1/converger/tokens/refresh")
           [("authorization", "Bearer " +:+ token); ("accept", "application/json")] None).

Definition no_fetch : ConvergerError :=
  error "no_fetch" "no global fetch: pass the `fetch` option (Node 18+ and every modern browser have one)".

(** [options.fetch ?? globalFetch()]: which of the two is there. *)
(* @src packages/client-ts/src/rest/client.ts 55-63 globalFetch *)
Definition globalFetch (given global : bool) : option ConvergerError :=
  if given || global then None else Some no_fetch.

(** ** [RestClient] *)

Context (getToken : act string).

(** The constructed client is its trimmed base URL. *)
(* @src packages/client-ts/src/rest/client.ts 145-154 RestClient *)
Definition new_client (baseUrl : string) (given global : bool) : ConvergerError + string :=
  match globalFetch given global with Some e => inl e | None => inr (trimBaseUrl baseUrl) end.

Context (baseUrl : string).

(* @src packages/client-ts/src/rest/client.ts 156-176 call *)
Definition call (method path : string) (init : CallInit) : act json :=
  bind (match ci_token init with Some t => fun w => (inr t, w) | None => getToken end) (fun token =>
                                                                                        let headers := fold_left (fun h '(k, v) => map_set k v h) (ci_headers init)
                                                                                          [("authorization", "Bearer " +:+ token); ("accept", "application/json")] in
                                                                                        let headers := match ci_json init with Some _ => map_set "content-type" "application/json" headers | None => headers end in
                                                                                        let body := match ci_json init with Some v => Some (BJson v) | None => ci_body init end in
                                                                                        request (mkHttp method (baseUrl +:+ "/api/v1/converger" +:+ path) headers body)).

(* @src packages/client-ts/src/rest/client.ts 178-181 refreshToken *)
Definition client_refreshToken (token : option string) : act json :=
  call "POST" "/tokens/refresh" (mkInit None None [] token).

(* @src packages/client-ts/src/rest/client.ts 183-186 createConversation *)
Definition createConversation : act json := call "POST" "/conversations" no_init.

(* @src packages/client-ts/src/rest/client.ts 190-190 getConversation *)
Definition conversation_path (id rest : string) : string := "/conversations/" +:+ encodeURIComponent id +:+ rest.

(* @src packages/client-ts/src/rest/client.ts 188-191 getConversation *)
Definition getConversation (id : string) : act json := call "GET" (conversation_path id "") no_init.

(* @src packages/client-ts/src/rest/client.ts 193-196 closeConversation *)
Definition closeConversation (id : string) : act json := call "POST" (conversation_path id "/close") no_init.

(* @src packages/client-ts/src/rest/client.ts 198-201 reopenConversation *)
Definition reopenConversation (id : string) : act json := call "POST" (conversation_path id "/reopen") no_init.

(* @src packages/client-ts/src/rest/client.ts 203-217 postActivity *)
Definition postActivity (id : string) (activity : json) (idempotencyKey : option string) : act json :=
  let headers := match idempotencyKey with
                 | Some k => if truthy idempotencyKey then [("x-idempotency-key", k)] else []
                 | None => []
                 end in
  call "POST" (conversation_path id "/activities") (mkInit None (Some activity) headers None).

(** The query of a page. *)
Definition page_query (o : HistoryOptions) : string :=
  let params := match ho_watermark o with Some w => [("watermark", wm_string w)] | None => [] end
    ++ match ho_limit o with Some n => [("limit", pretty n)] | None => [] end in
  let qs := query_string params in
  if String.eqb qs "" then "" else "?" +:+ qs.

(* @src packages/client-ts/src/rest/client.ts 219-232 listActivities *)
Definition listActivities (id : string) (o : HistoryOptions) : act json :=
  call "GET" (conversation_path id ("/activities" +:+ page_query o)) no_init.

(** The pages the generator yields to a consumer that takes them all. *)
(* @src packages/client-ts/src/rest/client.ts 234-252 history *)
Fixpoint history (fuel : nat) (id : string) (limit : option Z) (watermark : option wm) (w : W) :
  list ActivitySet * ending * W :=
  match fuel with
  | O => ([], OutOfFuel, w)
  | S fuel =>
      match listActivities id (mkHistoryOptions watermark limit) w with
      | (inl e, w) => ([], Failed e, w)
      | (inr v, w) =>
          match as_page v with
          | None => ([], Malformed, w)
          | Some page =>
              match as_hasMore page, as_activities page, as_watermark page with
              | true, _ :: _, Some next =>
                  let '(pages, en, w) := history fuel id limit (Some next) w in (page :: pages, en, w)
              | _, _, _ => ([page], Finished, w)
              end
          end
      end
  end.

(* @src packages/client-ts/src/rest/client.ts 254-259 allActivities *)
Definition allActivities (fuel : nat) (id : string) (o : HistoryOptions) (w : W) : list json * ending * W :=
  let '(pages, en, w) := history fuel id (ho_limit o) (ho_watermark o) w in (pages ≫= as_activities, en, w).

(** [named] is the [name] of the [File], if it is a string. *)
(* @src packages/client-ts/src/rest/client.ts 261-275 upload *)
Definition upload (id file : string) (named : option string) (o : UploadOptions) : act json :=
  let filename := up_filename o ?? (if truthy named then named ?? "" else "upload") in
  let form := ("file", PFile file filename)
    :: match up_activity o with Some a => [("activity", PJson a)] | None => [] end in
  call "POST" (conversation_path id "/upload") (mkInit (Some (BForm form)) None [] None).

(* @src packages/client-ts/src/rest/client.ts 277-297 downloadAttachment *)
Definition downloadAttachment (idOrUrl : string) : act Response :=
  let url := if is_http_url idOrUrl then idOrUrl
             else baseUrl +:+ "/api/v1/converger/attachments/" +:+ encodeURIComponent idOrUrl in
  bind getToken (fun token w =>
                 match fetch (mkHttp "GET" url [("authorization", "Bearer " +:+ token)] None) w with
                 | (None, w) => (inl (network_error url), w)
                 | (Some resp, w) =>
                     if rs_ok resp then (inr resp, w)
                     else (inl (apiErrorFrom date_parse (rs_status resp) (readBody (rs_text resp)) (rs_retryAfter resp) (now w)), w)
                 end).

End Client.

(** ** Percent-encoding *)

Lemma hex_char_digit v : 0 <= v < 16 -> hex_digit (hex_char v) = Some v /\ code (hex_char v) <> 37.
Proof.
  intros Hv. assert (v = 0 \/ v = 1 \/ v = 2 \/ v = 3 \/ v = 4 \/ v = 5 \/ v = 6 \/ v = 7 \/ v = 8 \/ v = 9 \/ v = 10 \/ v = 11
    \/ v = 12 \/ v = 13 \/ v = 14 \/ v = 15)
    as [->|[->|[->|[->|[->|[->|[->|[->|[->|[->|[->|[->|[->|[->|[->| ->]]]]]]]]]]]]]]] by lia; by split.
Qed.

Lemma uri_plain_not_percent c : uri_plain c = true -> code c <> 37.
Proof. destruct c as [[] [] [] [] [] [] [] []]; vm_compute; congruence. Qed.

Lemma uri_decode_encode l : uri_decode (uri_encode l) = Some l.
Proof.
  induction l as [|c l IH]; [done|]. cbn [uri_encode mbind list_bind]. destruct (uri_plain c) eqn:Hc; cbn [app uri_decode].
  - rewrite (proj2 (Z.eqb_neq _ _)) by (by apply uri_plain_not_percent). unfold uri_encode in IH. by rewrite IH.
  - pose proof (code_bounds c). assert (0 <= code c / 16 < 16) by (split; [apply Z.div_pos | apply Z.div_lt_upper_bound]; lia).
    assert (0 <= code c mod 16 < 16) by (apply Z.mod_pos_bound; lia). cbn [percent app uri_decode].
    change (code "%" =? 37) with true. cbv iota.
    destruct (hex_char_digit (code c / 16)) as [-> _]; [done|]. destruct (hex_char_digit (code c mod 16)) as [-> _]; [done|].
    unfold uri_encode in IH. rewrite IH. f_equal. f_equal.
    replace (code c / 16 * 16 + code c mod 16) with (code c) by (pose proof (Z.div_mod (code c) 16 ltac:(lia)); lia).
    apply chr_code.
Qed.

Definition reserved : list ascii := chars_of "/?#&=;:@+$,% ".

Lemma plain_not_reserved c : uri_plain c = true -> c ∉ reserved.
Proof.
  intros Hc. apply (bool_decide_eq_true_1 (c ∉ reserved)). revert Hc. destruct c as [[] [] [] [] [] [] [] []]; vm_compute; congruence.
Qed.

Lemma hex_not_reserved v : 0 <= v < 16 -> hex_char v ∉ reserved.
Proof.
  intros Hv. apply (bool_decide_eq_true_1 (hex_char v ∉ reserved)).
  assert (v = 0 \/ v = 1 \/ v = 2 \/ v = 3 \/ v = 4 \/ v = 5 \/ v = 6 \/ v = 7 \/ v = 8 \/ v = 9 \/ v = 10 \/ v = 11
    \/ v = 12 \/ v = 13 \/ v = 14 \/ v = 15)
    as [->|[->|[->|[->|[->|[->|[->|[->|[->|[->|[->|[->|[->|[->|[->| ->]]]]]]]]]]]]]]] by lia; done.
Qed.

(** A conversation id put into a request path is one segment of it,
    whatever the id: the encoded text has none of the characters that end a
    segment or begin a query, apart from the percent signs of the encoding,
    and decodes to the id. *)
Theorem conversation_path_segment (id rest : string) :
  exists seg, conversation_path id rest = "/conversations/" +:+ seg +:+ rest /\
  uri_decode (chars_of seg) = Some (chars_of id) /\
  forall c, c ∈ chars_of seg -> c ∈ reserved -> c = "%"%char.
Proof.
  exists (encodeURIComponent id). split; [done|].
  unfold encodeURIComponent, chars_of, str_of. rewrite String.list_ascii_of_string_of_list_ascii. split; [apply uri_decode_encode|].
  intros c (x & Hc & _)%list_elem_of_bind Hr. destruct (uri_plain x) eqn:Hx.
  - apply list_elem_of_singleton in Hc as ->. by apply plain_not_reserved in Hx.
  - pose proof (code_bounds x). unfold percent in Hc. rewrite !elem_of_cons in Hc.
    destruct Hc as [Hc|[Hc|[Hc|Hc%elem_of_nil]]]; [done | | | done]; subst c; exfalso; revert Hr; apply hex_not_reserved.
    + split; [apply Z.div_pos | apply Z.div_lt_upper_bound]; lia.
    + apply Z.mod_pos_bound; lia.
Qed.

(** ** Paging *)

Section Paging.
(** The activities of the conversation, oldest first. *)
Context (activities : list (Z * json)).
Hypothesis increasing : StronglySorted Z.lt (map fst activities).

Definition after (from : option Z) : list (Z * json) :=
  match from with
  | None => activities
  | Some n => filter (fun a => n < fst a) activities
  end.

(** What the API promises of a page ([docs/api/client-api.md]): the activities
after the watermark, oldest first, as many as the server likes but one at
least while there are any; the seq of the last one, or [null] with none;
and whether there are more. *)
Definition page_of (from : option Z) (n : nat) : ActivitySet :=
  let l := take n (after from) in
  mkSet (map snd l) (WSeq ∘ fst <$> last l) (bool_decide (length l < length (after from))%nat).

Lemma sorted_after (k1 k2 : list (Z * json)) a :
  StronglySorted Z.lt (map fst (k1 ++ a :: k2)) -> filter (fun x => fst a < fst x) (k1 ++ a :: k2) = k2.
Proof.
  rewrite map_app. intros (H1 & _ & H2)%StronglySorted_app. simpl in *. rewrite filter_app.
  inversion_clear H2 as [|? ? _ Ha]. rewrite filter_cons_False by lia.
  rewrite (filter_none _ k1), filter_all; [done | |].
  - exact (proj1 (List.Forall_map fst _ _) Ha).
  - apply Forall_forall. intros x Hx. assert (fst x < fst a); [|lia]. apply H1; [apply list_elem_of_fmap; eauto | left].
Qed.

Lemma sorted_filter (P : Z * json -> Prop) `{!forall x, Decision (P x)} l :
  StronglySorted Z.lt (map fst l) -> StronglySorted Z.lt (map fst (filter P l)).
Proof.
  induction l as [|x l IH]; intros Hs; [constructor|]. simpl in Hs. inversion_clear Hs as [|? ? H1 H2].
  rewrite filter_cons. destruct (decide (P x)); [|by apply IH]. simpl. constructor; [by apply IH|].
  apply (proj2 (List.Forall_map fst _ _)), Forall_forall. intros z [_ Hz]%list_elem_of_filter.
  exact (proj1 (Forall_forall _ _) (proj1 (List.Forall_map fst _ _) H2) z Hz).
Qed.

(** After a page, the activities after its watermark are those not on it. *)
Lemma after_last from n a : last (take n (after from)) = Some a -> after (Some (fst a)) = drop n (after from).
Proof.
  intros [k1 Hk]%last_Some.
  assert (Hs : after from = k1 ++ a :: drop n (after from)).
  { rewrite <- (take_drop n (after from)) at 1. rewrite Hk, <- app_assoc. done. }
  assert (Hsort : StronglySorted Z.lt (map fst (after from))) by (destruct from; [by apply sorted_filter | done]).
  transitivity (filter (fun x => fst a < fst x) (after from)).
  - destruct from as [m|]; [|done]. simpl. rewrite list_filter_filter_l; [done|].
    assert (Ha : a ∈ after (Some m)) by (rewrite Hs; set_solver). apply list_elem_of_filter in Ha as [Ha _]. intros x. lia.
  - rewrite Hs. rewrite Hs in Hsort. rewrite (sorted_after k1 _ a Hsort). by rewrite <- Hs.
Qed.

Context {W : Type} (fetch : HttpRequest -> W -> option Response * W).
Context (now : W -> Z) (date_parse : string -> option Z) (getToken : @act W string) (baseUrl : string).
Context (id : string) (limit : option Z).

Notation list_page := (fun wm => listActivities fetch now date_parse getToken baseUrl id (mkHistoryOptions wm limit)).
Notation history := (history fetch now date_parse getToken baseUrl).
Notation allActivities := (allActivities fetch now date_parse getToken baseUrl).

Hypothesis server : forall from w, from = None \/ from ∈ Some <$> map fst activities ->
exists n body w', list_page (WSeq <$> from) w = (inr body, w') /\ as_page body = Some (page_of from n) /\
            (after from <> [] -> (0 < n)%nat).

End Paging.

(** ** A server, concretely *)

Definition ex_activities : list (Z * json) := [(1, JStr "a"); (2, JStr "b"); (3, JStr "c")].

(** Pages of two. *)
Definition ex_page (from : string) : string :=
  str_of (quoted (
    if String.eqb from "" then "{'activities':['a','b'],'watermark':2,'has_more':true}"
    else if String.eqb from "?watermark=1" then "{'activities':['b','c'],'watermark':3,'has_more':false}"
    else if String.eqb from "?watermark=2" then "{'activities':['c'],'watermark':3,'has_more':false}"
    else "{'activities':[],'watermark':null,'has_more':false}")).

Definition ex_path : string := "http://h/api/v1/converger/conversations/c%2F1/activities".

Definition ex_fetch (r : HttpRequest) (w : unit) : option Response * unit :=
  match strip_prefix (chars_of ex_path) (chars_of (rq_url r)) with
  | Some query => (Some (mkResponse 200 (ex_page (str_of query)) None), w)
  | None => (Some (mkResponse 404 "" None), w)
  end.

Definition ex_token (w : unit) : (ConvergerError + string) * unit := (inr "t", w).

