(* ===== verification/Stringify.v ===== *)
(** * Stringify: [JSON.stringify] and [String], the parts of the JavaScript
    library the programs write texts with, and that a string so written reads
    back. *)

From Stdlib Require Import Ascii.
From stdpp Require Import base list strings pretty.
From Stdlib Require Import ZArith QArith Qround Qabs Lia.
From S2P Require Import Prelude Watermark Json.

Open Scope string_scope.
Open Scope list_scope.
Open Scope Z_scope.

(** ** [String] *)

(** [String(x)] of a number that is a decimal of at most [k] places. *)
Fixpoint decimals (k : nat) (x : Q) : list Z :=
  match k with
  | O => []
  | S k => if is_integer x then [] else let y := (x * 10)%Q in Qfloor y :: decimals k (y - inject_Z (Qfloor y))%Q
  end.

Definition js_num (x : Q) : string :=
  let a := Qabs x in
  let ds := decimals 20 (a - inject_Z (Qfloor a))%Q in
  (if Qlt_le_dec x 0 then "-" else "") +:+ pretty (Qfloor a) +:+
  match ds with [] => "" | _ => "." +:+ String.concat "" (map pretty ds) end.

(** [String(v)]. *)
Fixpoint js_string (v : json) : string :=
  match v with
  | JNull => "null"
  | JBool b => if b then "true" else "false"
  | JNum q => js_num q
  | JStr s => s
  | JArr l => String.concat "," (map (fun x => match x with JNull => "" | _ => js_string x end) l)
  | JObj _ => "[object Object]"
  end.

(** ** [JSON.stringify] *)

(** A character of a string as [JSON.stringify] writes it. *)
Definition json_escape_char (c : ascii) : chars :=
  let z := code c in
  let bs := chr 92 in
  if z =? 34 then [bs; c] else if z =? 92 then [bs; c]
  else if z =? 8 then [bs; chr 98] else if z =? 12 then [bs; chr 102] else if z =? 10 then [bs; chr 110]
  else if z =? 13 then [bs; chr 114] else if z =? 9 then [bs; chr 116]
  else if z <? 32 then [bs; chr 117; chr 48; chr 48; chr (48 + z / 16); chr (if z mod 16 <? 10 then 48 + z mod 16 else 87 + z mod 16)]
  else [c].

(** A double quote, as a text. *)
Definition dq : string := str_of [chr 34].

Definition quote_string (s : string) : string := dq +:+ str_of (concat (map json_escape_char (chars_of s))) +:+ dq.

(** [JSON.stringify(v)]. *)
Fixpoint stringify (v : json) : string :=
  match v with
  | JNull => "null"
  | JBool b => if b then "true" else "false"
  | JNum q => js_num q
  | JStr s => quote_string s
  | JArr l => "[" +:+ String.concat "," (map stringify l) +:+ "]"
  | JObj l => "{" +:+ String.concat "," (map (fun '(k, v) => quote_string k +:+ ":" +:+ stringify v) l) +:+ "}"
  end.

(** ** Strings read back *)

(** A control character is written as a short escape or by its code. *)
Lemma escape_control c : code c < 32 ->
  (exists x, json_escape_char c = [chr 92; x] /\ (code x =? 117) = false /\ simple_escape x = Some c) \/
  (exists x y, json_escape_char c = [chr 92; chr 117; chr 48; chr 48; x; y] /\ hex4 (chr 48) (chr 48) x y = Some (code c)).
Proof.
  intros Hlt. destruct c as [b0 b1 b2 b3 b4 b5 b6 b7].
  destruct b5, b6, b7; try (exfalso; destruct b0, b1, b2, b3, b4; vm_compute in Hlt; discriminate). clear Hlt.
  destruct b0, b1, b2, b3, b4.
  all: first [left; eexists; repeat split; reflexivity|right; eexists _, _; split; reflexivity].
Qed.

Lemma join_surrogates_low u l : u < 55296 -> join_surrogates u l = (u, l).
Proof.
  intros Hu. unfold join_surrogates. replace (55296 <=? u) with false by (symmetry; apply Z.leb_gt; lia).
  by destruct l as [|? [|? [|? [|? [|? [|? ?]]]]]].
Qed.

(** What one escaped character adds to a string literal is the character. *)
Lemma string_body_escape c fuel l : string_body (S fuel) (json_escape_char c ++ l) =
  match string_body fuel l with Some (s, r) => Some (c :: s, r) | None => None end.
Proof.
  destruct (Z.lt_ge_cases (code c) 32) as [Hlt|Hge].
  - destruct (escape_control c Hlt) as [(x & -> & Hx & Hs)|(x & y & -> & Hh)].
    + cbn [app string_body]. change (code (chr 92) =? 34) with false. change (code (chr 92) =? 92) with true. cbn iota.
      rewrite Hx, Hs. done.
    + cbn [app string_body]. change (code (chr 92) =? 34) with false. change (code (chr 92) =? 92) with true.
      change (code (chr 117) =? 117) with true. cbn iota. rewrite Hh, join_surrogates_low by lia.
      assert (utf8 (code c) = [c]) as ->; [|done]. unfold utf8. replace (code c <? 128) with true by (symmetry; apply Z.ltb_lt; lia).
      by rewrite chr_code.
  - destruct (Z.eqb_spec (code c) 34) as [E|H1]; [|destruct (Z.eqb_spec (code c) 92) as [E|H2]].
    + assert (c = chr 34) as -> by (symmetry; by apply chr_code_eq). done.
    + assert (c = chr 92) as -> by (symmetry; by apply chr_code_eq). done.
    + assert (json_escape_char c = [c]) as -> by (unfold json_escape_char; repeat (case_match; bools; try lia); done).
      cbn [app string_body].
      by rewrite (proj2 (Z.eqb_neq _ _) H1), (proj2 (Z.eqb_neq _ _) H2), (proj2 (Z.ltb_ge _ _) Hge).
Qed.

Lemma string_body_escaped v fuel rest : (length v < fuel)%nat ->
  string_body fuel (concat (map json_escape_char v) ++ chr 34 :: rest) = Some (v, rest).
Proof.
  revert fuel. induction v as [|c v IH]; intros [|fuel] Hf; simpl in Hf; try lia; [done|].
  cbn [map concat]. rewrite <- app_assoc, string_body_escape, IH by lia. done.
Qed.

Lemma escape_length v : (length v <= length (concat (map json_escape_char v)))%nat.
Proof.
  induction v as [|c v IH]; [done|]. cbn [map concat]. rewrite length_app.
  assert (1 <= length (json_escape_char c))%nat by (unfold json_escape_char; repeat case_match; simpl; lia). simpl. lia.
Qed.
