(* ===== verification/Token.v ===== *)
(** * Token: the cached token of a client, its expiry and its refresh
    ([packages/client-ts/src/token.ts]).

    Times are milliseconds since the epoch, as exact rationals ([lifetime / 2]
    need not be an integer).  A call of the provider is an output; how it
    settles is an input ([settle]). *)

From stdpp Require Import base list strings.
From Stdlib Require Import ZArith QArith Qminmax Lia Lqa Ascii.
From S2P Require Import Prelude Watermark Json Errors.

Open Scope string_scope.
Open Scope list_scope.
Open Scope Q_scope.

(** ** Data *)

(** What a provider may return: a string, or an object whose [token] is
    absent or a string; [None] is [undefined] or [null]. *)
(* @src packages/client-ts/src/token.ts 11-18 TokenInfo *)
Record TokenInfo := mkTokenInfo {
  ti_token : option string;
  ti_expiresAt : option Q;
  ti_expiresIn : option Q;
}.

Inductive token_value := VString (token : string) | VInfo (info : TokenInfo) | VNothing.

(* @src packages/client-ts/src/token.ts 20-21 TokenRequestReason *)
Inductive TokenRequestReason := initial | refresh | rejected.

(** The argument of the provider. *)
(* @src packages/client-ts/src/token.ts 23-33 TokenProvider *)
Record TokenRequest := mkRequest { reason : TokenRequestReason; previous : option string }.

(** The claims the SDK reads; each is present when the member has the type
    the code tests for. *)
(* @src packages/client-ts/src/token.ts 35-44 TokenClaims *)
Record TokenClaims := mkClaims {
  exp : option Q;
  conversation_id : option string;
  user_id : option string;
  scope : option string;
}.

(* @src packages/client-ts/src/token.ts 61-69 ActiveToken *)
Record ActiveToken := mkActive {
  token : string;
  expiresAt : option Q;
  claims : option TokenClaims;
  receivedAt : Q;
}.

#[export] Instance eta_active : Eta ActiveToken :=
  fun t => mkActive (token t) (expiresAt t) (claims t) (receivedAt t).

(** ** [decodeToken] *)

(** [text.split(".")]. *)
Fixpoint split_dots (l cur : chars) : list chars :=
  match l with
  | [] => [rev cur]
  | c :: l' => if Ascii.eqb c "."%char then rev cur :: split_dots l' [] else split_dots l' (c :: cur)
  end.

Definition string_member (key : string) (v : json) : option string :=
  match member key v with Some (JStr s) => Some s | _ => None end.

Definition number_member (key : string) (v : json) : option Q :=
  match member key v with Some (JNum q) => Some q | _ => None end.

Definition claims_of (v : json) : TokenClaims :=
  mkClaims (number_member "exp" v) (string_member "conversation_id" v) (string_member "user_id" v)
           (string_member "scope" v).

(* @src packages/client-ts/src/token.ts 46-59 decodeToken *)
Definition decodeToken (t : string) : option TokenClaims :=
  match split_dots (chars_of t) [] with
  | _ :: (_ :: _) as part :: _ =>
      match base64UrlDecode part ≫= parse_json with
      | Some (JObj _ as v) | Some (JArr _ as v) => Some (claims_of v)
      | _ => None
      end
  | _ => None
  end.

(** ** [normalise] *)

Definition invalid_token : ConvergerError := error "invalid_token" "the tokenProvider returned no token".

(* @src packages/client-ts/src/token.ts 71-81 normalise *)
Definition normalise (value : token_value) (now : Q) : ConvergerError + ActiveToken :=
  let info := match value with
              | VString t => Some (mkTokenInfo (Some t) None None)
              | VInfo i => Some i
              | VNothing => None
              end in
  match info with
  | Some (mkTokenInfo (Some t) at_ms in_s) =>
      if String.eqb t "" then inl invalid_token
      else
        let c := decodeToken t in
        let e := match at_ms with
                 | Some _ => at_ms
                 | None => match in_s with
                           | Some s => Some (now + s * 1000)
                           | None => match c ≫= exp with
                                     | Some x => Some (x * 1000)
                                     | None => None
                                     end
                           end
                 end in
        inr (mkActive t e c now)
  | _ => inl invalid_token
  end.

(** ** [TokenManager] *)

(** [#pending]: none; a request on the wire; or a promise that has already
    rejected and that nothing clears (see [fetch]). *)
Inductive pending_state := NoPending | InFlight | Wedged (e : ConvergerError).

(* @src packages/client-ts/src/token.ts 89-93 TokenManager *)
Record TokenManager := mkManager {
  skewMs : Q;
  current : option ActiveToken;
  pending : pending_state;
}.

#[export] Instance eta_manager : Eta TokenManager :=
  fun m => mkManager (skewMs m) (current m) (pending m).

(* @src packages/client-ts/src/token.ts 95-99 constructor *)
Definition new_manager (refreshSkewMs : Q) (init : option token_value) (now : Q) : ConvergerError + TokenManager :=
  match init with
  | None => inr (mkManager refreshSkewMs None NoPending)
  | Some v => match normalise v now with
              | inl e => inl e
              | inr t => inr (mkManager refreshSkewMs (Some t) NoPending)
              end
  end.

(* @src packages/client-ts/src/token.ts 154-156 needsRefresh *)
Definition needsRefresh (m : TokenManager) (t : ActiveToken) (now : Q) : bool :=
  match expiresAt t with
  | Some e => Qle_bool (e - now) (Qmin (skewMs m) 5000)
  | None => false
  end.

(** How the provider behaves when called: it throws before returning, or it
    returns (a value or a promise) and settles later. *)
Inductive provider_call := Throws (e : option ConvergerError) | Returns.

(** The error of a failed provider: a [ConvergerError] is passed on, anything
    else ([None]) is wrapped. *)
Definition provider_error (e : option ConvergerError) : ConvergerError :=
  e ?? error "token_provider_failed" "the tokenProvider failed".

(** [fetch]: the requests made of the provider, and the promise returned
    ([inl]: already rejected; [inr]: settles with the pending request).

    The [finally] that clears [#pending] runs inside the async function; when
    the provider throws before the first [await] it runs before the assignment
    [this.#pending = pending], which then stores the rejected promise. *)
(* @src packages/client-ts/src/token.ts 112-133 fetch *)
Definition fetch (r : TokenRequestReason) (p : provider_call) (m : TokenManager)
  : list TokenRequest * (ConvergerError + unit) * TokenManager :=
  match pending m with
  | Wedged e => ([], inl e, m)
  | InFlight => ([], inr tt, m)
  | NoPending =>
      let context := mkRequest r (token <$> current m) in
      match p with
      | Throws e => ([context], inl (provider_error e), m <| pending := Wedged (provider_error e) |>)
      | Returns => ([context], inr tt, m <| pending := InFlight |>)
      end
  end.

(** The provider's promise settles: a value, or a rejection. *)
Inductive provider_result := Value (v : token_value) | Rejects (e : option ConvergerError).

(** The rest of [fetch]'s async function once the provider settled. *)
(* @src packages/client-ts/src/token.ts 118-130 fetch *)
Definition settle (r : provider_result) (now : Q) (m : TokenManager) : (ConvergerError + ActiveToken) * TokenManager :=
  match pending m with
  | InFlight =>
      let m := m <| pending := NoPending |> in
      match r with
      | Rejects e => (inl (provider_error e), m)
      | Value v => match normalise v now with
                   | inl e => (inl e, m)
                   | inr t => (inr t, m <| current := Some t |>)
                   end
      end
  | NoPending | Wedged _ => (inl (provider_error None), m)
  end.

(** [get]: the cached token, or a fetch. *)
(* @src packages/client-ts/src/token.ts 105-110 get *)
Definition get (p : provider_call) (now : Q) (m : TokenManager)
  : list TokenRequest * (ActiveToken + (ConvergerError + unit)) * TokenManager :=
  match current m with
  | Some t =>
      if needsRefresh m t now
      then let '(calls, res, m) := fetch refresh p m in (calls, inr res, m)
      else ([], inl t, m)
  | None => let '(calls, res, m) := fetch initial p m in (calls, inr res, m)
  end.

(* @src packages/client-ts/src/token.ts 135-138 setExpiry *)
Definition setExpiry (e : option Q) (m : TokenManager) : TokenManager :=
  match current m, e with
  | Some t, Some _ => m <| current := Some (t <| expiresAt := e |>) |>
  | _, _ => m
  end.

(* @src packages/client-ts/src/token.ts 147-152 skewFor *)
Definition skewFor (m : TokenManager) (t : option ActiveToken) : Q :=
  match t with
  | Some t =>
      match expiresAt t with
      | Some e =>
          if Qeq_bool e 0 then skewMs m
          else
            let lifetime := e - receivedAt t in
            if Qlt_le_dec 0 lifetime then Qmin (skewMs m) (lifetime / 2) else skewMs m
      | None => skewMs m
      end
  | None => skewMs m
  end.

(* @src packages/client-ts/src/token.ts 140-145 refreshDelay *)
Definition refreshDelay (now : Q) (m : TokenManager) : option Q :=
  match current m ≫= expiresAt with
  | None => None
  | Some e => Some (Qmax 0 (e - skewFor m (current m) - now))
  end.

(** ** The interface a conversation is written against

    A session reads the delay of the next refresh, corrects the expiry, and
    replaces the client's manager by one for a conversation token. *)
Class TokenSource (T : Type) := {
  ts_refreshDelay : Q -> T -> option Q;
  ts_setExpiry : option Q -> T -> T;
  ts_forConversation : string -> Q -> Q -> ConvergerError + T;
}.

Class TokenSourceLaws (T : Type) `{TokenSource T} := {
  ts_delay_nonneg now t d : ts_refreshDelay now t = Some d -> 0 <= d;
  ts_delay_setExpiry now e t : is_Some (ts_refreshDelay now t) -> is_Some (ts_refreshDelay now (ts_setExpiry e t));
}.

(** A conversation token comes with its lifetime ([useConversationTokens]);
    [skew] is the session's [refreshSkewMs]. *)
Definition manager_source (skew : Q) : TokenSource TokenManager :=
  {| ts_refreshDelay := refreshDelay;
     ts_setExpiry := setExpiry;
     ts_forConversation t expires_in now :=
       new_manager skew (Some (VInfo (mkTokenInfo (Some t) None (Some expires_in)))) now |}.

Lemma manager_source_laws skew : @TokenSourceLaws TokenManager (manager_source skew).
Proof.
  split; simpl.
  - unfold refreshDelay. intros now t d. destruct (current t ≫= expiresAt); [|done].
    intros [= <-]. apply Q.le_max_l.
  - unfold refreshDelay, setExpiry. intros now e t [d Hd].
    destruct (current t) as [a|] eqn:Hc, e as [e|]; simpl; rewrite ?Hc; simpl in *; by eexists.
Qed.

(** ** The manager as a state machine

    The calls a client makes, in any order, and the settling of the request on
    the wire.  [waiting] counts the provider calls that have not settled. *)
Inductive command :=
| CGet (p : provider_call) (now : Q)
| CFetch (r : TokenRequestReason) (p : provider_call)
| CSettle (r : provider_result) (now : Q)
| CSetExpiry (e : option Q).

Record machine := mkMachine { manager : TokenManager; waiting : nat; requests : list TokenRequest }.

(** A call that returned waits for its promise; one that threw does not. *)
Definition waits (p : provider_call) (calls : list TokenRequest) : nat :=
  match p with Returns => length calls | Throws _ => 0 end.

Definition exec (c : command) (x : machine) : machine :=
  match c with
  | CGet p now =>
      let '(calls, _, m) := get p now (manager x) in
      mkMachine m (waiting x + waits p calls) (requests x ++ calls)
  | CFetch r p =>
      let '(calls, _, m) := fetch r p (manager x) in
      mkMachine m (waiting x + waits p calls) (requests x ++ calls)
  | CSettle r now =>
      let '(_, m) := settle r now (manager x) in
      mkMachine m (match pending (manager x) with InFlight => waiting x - 1 | _ => waiting x end) (requests x)
  | CSetExpiry e => mkMachine (setExpiry e (manager x)) (waiting x) (requests x)
  end.

Definition run (cs : list command) (x : machine) : machine := fold_left (fun x c => exec c x) cs x.

(** ** Lemmas *)

(** The pending flag is the number of unsettled provider calls. *)
Definition single_flight (x : machine) : Prop :=
  waiting x = match pending (manager x) with InFlight => 1%nat | _ => 0%nat end.

Lemma fetch_single_flight r p x :
  single_flight x ->
  let '(calls, _, m) := fetch r p (manager x) in
  single_flight (mkMachine m (waiting x + waits p calls) (requests x ++ calls)).
Proof.
  unfold single_flight, fetch. destruct (pending (manager x)) eqn:E; intros Hw;
    destruct p; simpl; rewrite ?E, Hw; reflexivity.
Qed.

Lemma exec_single_flight c x : single_flight x -> single_flight (exec c x).
Proof.
  intros Hx. destruct c as [p now|r p|r now|e]; unfold exec.
  - unfold get. destruct (current (manager x)) as [t|].
    + destruct (needsRefresh _ t now).
      * pose proof (fetch_single_flight refresh p x Hx) as H. by destruct (fetch refresh p (manager x)) as [[? ?] ?].
      * unfold single_flight in *. destruct p; simpl in *; lia.
    + pose proof (fetch_single_flight initial p x Hx) as H. by destruct (fetch initial p (manager x)) as [[? ?] ?].
  - pose proof (fetch_single_flight r p x Hx) as H. by destruct (fetch r p (manager x)) as [[? ?] ?].
  - unfold single_flight in *. unfold settle. destruct (pending (manager x)) eqn:E; simpl; [by rewrite E| |by rewrite E].
    rewrite Hx. destruct r as [v|e]; simpl; [|done]. by destruct (normalise v now).
  - unfold single_flight, setExpiry in *. simpl. by destruct (current (manager x)), e.
Qed.

(** Once wedged, a manager never asks its provider again. *)
Lemma exec_wedged c x e :
  pending (manager x) = Wedged e ->
  pending (manager (exec c x)) = Wedged e /\ requests (exec c x) = requests x.
Proof.
  intros Hp. destruct c as [p now|r p|r now|e']; unfold exec, get, settle, setExpiry.
  - destruct (current (manager x)); [destruct (needsRefresh _ _ _)|]; unfold fetch; rewrite ?Hp; simpl;
      by rewrite app_nil_r.
  - unfold fetch. rewrite Hp. simpl. by rewrite app_nil_r.
  - rewrite Hp. by simpl.
  - simpl. by destruct (current (manager x)), e'.
Qed.

Lemma run_wedged cs x e :
  pending (manager x) = Wedged e ->
  pending (manager (run cs x)) = Wedged e /\ requests (run cs x) = requests x.
Proof.
  revert x. induction cs as [|c cs IH]; intros x Hx; [done|]. simpl.
  destruct (exec_wedged c x e Hx) as [Hx' Hr]. destruct (IH _ Hx') as [? ?]. split; congruence.
Qed.

Lemma skewFor_bounds m t e :
  current m = Some t -> expiresAt t = Some e -> ~ e == 0 -> receivedAt t < e -> 0 <= skewMs m ->
  0 <= skewFor m (current m) <= (e - receivedAt t) / 2.
Proof.
  intros Hc He He0 Hlife Hskew. unfold skewFor. rewrite Hc, He.
  destruct (Qeq_bool e 0) eqn:E; [by apply Qeq_bool_eq in E|].
  destruct (Qlt_le_dec 0 (e - receivedAt t)) as [Hl|Hl]; [|lra].
  assert ((e - receivedAt t) / 2 == (e - receivedAt t) * (1 # 2)) as Hhalf by reflexivity.
  split; [apply Q.min_glb; lra|apply Q.le_min_r].
Qed.

Lemma refreshDelay_Some m t e now :
  current m = Some t -> expiresAt t = Some e ->
  refreshDelay now m = Some (Qmax 0 (e - skewFor m (current m) - now)).
Proof. intros Hc He. unfold refreshDelay. by rewrite Hc; simpl; rewrite He. Qed.

(** ** Properties *)

(** C20. However [get], [fetch], [setExpiry] and settled provider promises
    interleave, at most one provider request is outstanding. *)
Theorem at_most_one_request skew cs :
  let x := run cs (mkMachine (mkManager skew None NoPending) 0 []) in
  (waiting x <= 1)%nat /\ (waiting x = 1%nat <-> pending (manager x) = InFlight).
Proof.
  intros x.
  assert (Hx : single_flight x).
  { subst x. cut (single_flight (mkMachine (mkManager skew None NoPending) 0 [])); [|done].
    generalize (mkMachine (mkManager skew None NoPending) 0 []).
    induction cs as [|c cs IH]; intros x Hx; [done|]. simpl. apply IH. by apply exec_single_flight. }
  unfold single_flight in Hx. destruct (pending (manager x)); rewrite Hx; split; try lia; split; done || lia.
Qed.

(** The scheduled refresh of a token with a known expiry: never in the
    past, never after the expiry while the token is still valid, never in the
    first half of its lifetime, and at least the (capped) skew ahead of the
    expiry. *)
Theorem refresh_due m t e now d :
  current m = Some t -> expiresAt t = Some e -> ~ e == 0 -> receivedAt t < e -> 0 <= skewMs m ->
  refreshDelay now m = Some d ->
  0 <= d
  /\ (now <= e -> now + d <= e)
  /\ receivedAt t + (e - receivedAt t) / 2 <= now + d
  /\ (now <= e - skewFor m (current m) -> now + d == e - skewFor m (current m)).
Proof.
  intros Hc He He0 Hlife Hskew. rewrite (refreshDelay_Some m t e now Hc He). intros [= <-].
  destruct (skewFor_bounds m t e Hc He He0 Hlife Hskew) as [Hs0 Hs1].
  revert Hs0 Hs1. generalize (skewFor m (current m)) as skew. intros skew Hs0 Hs1.
  assert ((e - receivedAt t) / 2 == (e - receivedAt t) * (1 # 2)) as Hhalf by reflexivity.
  pose proof (Q.le_max_l 0 (e - skew - now)). pose proof (Q.le_max_r 0 (e - skew - now)).
  destruct (Q.max_spec 0 (e - skew - now)) as [[Hlt Heq]|[Hle Heq]]; repeat split; intros; lra.
Qed.

Lemma refresh_due_witness :
  let t := mkActive "tok" (Some 100000) None 40000 in
  let m := mkManager 60000 (Some t) NoPending in
  refreshDelay 40000 m = Some (Qmax 0 (100000 - skewFor m (Some t) - 40000)) /\
  (forall d, refreshDelay 40000 m = Some d ->
    0 <= d
    /\ (40000 <= 100000 -> 40000 + d <= 100000)
    /\ receivedAt t + (100000 - receivedAt t) / 2 <= 40000 + d
    /\ (40000 <= 100000 - skewFor m (current m) -> 40000 + d == 100000 - skewFor m (current m))).
Proof.
  intros t m. split; [reflexivity|]. intros d Hd.
  apply (refresh_due m t 100000 40000 d); try reflexivity; try done.
Defined.

(** [get] answers from the cache only with a token that stays valid for
    more than the refresh margin, and then asks nobody; otherwise it makes
    exactly one request, unless one is outstanding already. *)
Theorem get_spec p now m :
  pending m <> InFlight -> (forall e, pending m <> Wedged e) ->
  match get p now m with
  | (calls, inl t, m') =>
      calls = [] /\ m' = m /\ current m = Some t
      /\ (forall e, expiresAt t = Some e -> Qmin (skewMs m) 5000 < e - now)
  | (calls, inr _, m') =>
      calls = [mkRequest (match current m with Some _ => refresh | None => initial end) (token <$> current m)]
      /\ (forall t, current m = Some t -> needsRefresh m t now = true)
  end.
Proof.
  intros Hp1 Hp2. unfold get, fetch. destruct (pending m) eqn:Ep; [|done|by destruct (Hp2 e)].
  destruct (current m) as [t|] eqn:Ec.
  - destruct (needsRefresh m t now) eqn:En.
    + destruct p; split; try done; congruence.
    + split_and!; try done. intros e He. unfold needsRefresh in En. rewrite He in En.
      destruct (Qlt_le_dec (Qmin (skewMs m) 5000) (e - now)) as [|Hle]; [done|].
      apply Qle_bool_iff in Hle. congruence.
  - destruct p; by split.
Qed.

Lemma get_spec_witness :
  let m := mkManager 60000 (Some (mkActive "tok" (Some 100000) None 0)) NoPending in
  (get Returns 0 m).1.2 = inl (mkActive "tok" (Some 100000) None 0) /\
  match get Returns 0 m with
  | (calls, inl t, m') =>
      calls = [] /\ m' = m /\ current m = Some t
      /\ (forall e, expiresAt t = Some e -> Qmin (skewMs m) 5000 < e - 0)
  | (calls, inr _, m') =>
      calls = [mkRequest (match current m with Some _ => refresh | None => initial end) (token <$> current m)]
      /\ (forall t, current m = Some t -> needsRefresh m t 0 = true)
  end.
Proof. intros m. split; [reflexivity|]. apply (get_spec Returns 0 m); done. Defined.

(** A provider that throws synchronously, once, wedges the manager: every
    later [fetch], whatever happens in between, rejects with the same error
    and the provider is never asked again. *)
Theorem sync_throw_wedges r e m cs r' p' :
  pending m = NoPending ->
  let x := run (CFetch r (Throws e) :: cs) (mkMachine m 0 []) in
  requests x = [mkRequest r (token <$> current m)]
  /\ (fetch r' p' (manager x)).1 = ([], inl (provider_error e)).
Proof.
  intros Hp x. set (y := exec (CFetch r (Throws e)) (mkMachine m 0 [])).
  assert (pending (manager y) = Wedged (provider_error e) /\ requests y = [mkRequest r (token <$> current m)]) as [Hy Hr].
  { subst y. unfold exec, fetch. simpl. by rewrite Hp. }
  destruct (run_wedged cs y _ Hy) as [Hx Hx']. subst x. change (run (_ :: cs) _) with (run cs y).
  split; [congruence|]. unfold fetch. by rewrite Hx.
Qed.

Lemma sync_throw_wedges_witness :
  let m := mkManager 60000 (Some (mkActive "tok" (Some 100000) None 0)) NoPending in
  let cs := [CGet Returns 99000; CSettle (Value (VString "new")) 99001] in
  let x := run (CFetch rejected (Throws None) :: cs) (mkMachine m 0 []) in
  requests x = [mkRequest rejected (token <$> current m)]
  /\ (fetch refresh Returns (manager x)).1 = ([], inl (provider_error None)).
Proof. intros m cs. apply (sync_throw_wedges rejected None m cs refresh Returns). reflexivity. Defined.
