(* ===== verification/Receive.v ===== *)
(** * Receive: the receive window of a session ([#watermark], [#seen] and
    [#ownSeqs] of [packages/client-ts/src/conversation.ts]).

    The watermark is the highest contiguous seq the session has seen; the seqs
    above it that arrived early wait in [seen].  [markSeen] is the code's loop;
    [covers] is what it implements: a set of seqs that grows by the seqs marked
    and whose watermark has no hole below it. *)

From stdpp Require Import base gmap sets list.
From Stdlib Require Import ZArith Lia.
From S2P Require Import Prelude.

Open Scope list_scope.
Open Scope Z_scope.

(** ** Data *)

(* @src packages/client-ts/src/conversation.ts 179-182 watermark *)
Record Window := mkWindow {
  watermark : Z;
  seen : gset Z;
  ownSeqs : gset Z;
}.

#[export] Instance eta_window : Eta Window := fun w => mkWindow (watermark w) (seen w) (ownSeqs w).

(** ** Operations *)

(** [seq <= this.#watermark || this.#seen.has(seq)]. *)
(* @src packages/client-ts/src/conversation.ts 698-698 duplicate *)
Definition duplicate (seq : Z) (w : Window) : bool :=
  (seq <=? watermark w) || bool_decide (seq ∈ seen w).

(** The [while] loop of [#markSeen]: the window, and whether it advanced. *)
(* @src packages/client-ts/src/conversation.ts 752-758 markSeen *)
Fixpoint advance (fuel : nat) (w : Window) : bool * Window :=
  match fuel with
  | O => (false, w)
  | S fuel =>
      if bool_decide (watermark w + 1 ∈ seen w) then
        let w := w <| seen := seen w ∖ {[watermark w + 1]} |> <| watermark ::= Z.succ |> in
        let w := w <| ownSeqs := ownSeqs w ∖ {[watermark w]} |> in
        (true, (advance fuel w).2)
      else (false, w)
  end.

(** [#markSeen] without its [#saveState]: each iteration removes a seen seq,
    so [size seen] iterations are enough ([advance_done]). *)
(* @src packages/client-ts/src/conversation.ts 748-760 markSeen *)
Definition mark (seq : Z) (w : Window) : bool * Window :=
  if seq <=? watermark w then (false, w)
  else
    let w := w <| seen := seen w ∪ {[seq]} |> in
    advance (size (seen w)) w.

Definition mark_all (seqs : list Z) (w : Window) : Window := fold_left (fun w seq => (mark seq w).2) seqs w.

(** ** Specification *)

(** The seqs a window has seen. *)
Definition covers (w : Window) (seq : Z) : Prop := seq <= watermark w \/ seq ∈ seen w.

(** Early seqs are strictly above the first missing one. *)
Definition window_ok (w : Window) : Prop := forall seq, seq ∈ seen w -> watermark w + 1 < seq.

(** ** Lemmas *)

Lemma duplicate_spec seq w : duplicate seq w = true <-> covers w seq.
Proof. unfold duplicate, covers. rewrite orb_true_iff, bool_decide_eq_true, Z.leb_le. done. Qed.

Lemma duplicate_false seq w : duplicate seq w = false <-> ~ covers w seq.
Proof. rewrite <- duplicate_spec. by destruct (duplicate seq w). Qed.

(** What the loop keeps: the seqs covered; and that early seqs are above the watermark. *)
Lemma advance_covers fuel w seq : covers (advance fuel w).2 seq <-> covers w seq.
Proof.
  revert w. induction fuel as [|fuel IH]; intros w; [done|]. simpl.
  case_bool_decide as Hin; [|done]. simpl. rewrite IH. unfold covers; simpl.
  rewrite elem_of_difference, elem_of_singleton.
  destruct (decide (seq = watermark w + 1)) as [->|]; intuition lia.
Qed.

Lemma advance_above fuel w :
  (forall seq, seq ∈ seen w -> watermark w < seq) ->
  forall seq, seq ∈ seen (advance fuel w).2 -> watermark (advance fuel w).2 < seq.
Proof.
  revert w. induction fuel as [|fuel IH]; intros w Hw; [done|]. simpl.
  case_bool_decide as Hin; [|done]. simpl. apply IH. simpl.
  intros seq. rewrite elem_of_difference, elem_of_singleton. intros [Hs Hne].
  specialize (Hw _ Hs). lia.
Qed.

(** The fuel suffices: the loop stops at a missing seq. *)
Lemma advance_done fuel w :
  (size (seen w) <= fuel)%nat -> watermark (advance fuel w).2 + 1 ∉ seen (advance fuel w).2.
Proof.
  revert w. induction fuel as [|fuel IH]; intros w Hf.
  - assert (seen w ≡ ∅) as He by (apply size_empty_iff; lia). simpl. set_solver.
  - simpl. case_bool_decide as Hin; [|done]. simpl. apply IH. simpl.
    rewrite size_difference, size_singleton by set_solver. lia.
Qed.

Lemma advance_mono fuel w : watermark w <= watermark (advance fuel w).2.
Proof.
  revert w. induction fuel as [|fuel IH]; intros w; [done|]. simpl.
  case_bool_decide; simpl; [|done]. specialize (IH (w <| seen := seen w ∖ {[watermark w + 1]} |>
    <| watermark ::= Z.succ |> <| ownSeqs := ownSeqs w ∖ {[Z.succ (watermark w)]} |>)). simpl in IH. lia.
Qed.

(** The flag says whether the watermark moved. *)
Lemma advance_flag fuel w : (advance fuel w).1 = true <-> watermark w < watermark (advance fuel w).2.
Proof.
  destruct fuel as [|fuel]; simpl; [by split; [|lia]|].
  case_bool_decide; simpl; [|by split; [|lia]]. split; [intros _|done].
  match goal with |- context [advance fuel ?v] => pose proof (advance_mono fuel v) as Hm end.
  simpl in Hm. lia.
Qed.

Lemma mark_covers seq w seq' : covers (mark seq w).2 seq' <-> covers w seq' \/ seq' = seq.
Proof.
  unfold mark. destruct (Z.leb_spec seq (watermark w)).
  - simpl. split; [by left|]. intros [?| ->]; [done|by left].
  - rewrite advance_covers. unfold covers; simpl. rewrite elem_of_union, elem_of_singleton. tauto.
Qed.

Lemma mark_ok seq w : window_ok w -> window_ok (mark seq w).2.
Proof.
  intros Hw. unfold mark. destruct (Z.leb_spec seq (watermark w)); [done|].
  set (v := w <| seen := seen w ∪ {[seq]} |>).
  intros s Hs. assert (watermark (advance (size (seen v)) v).2 < s) as Hlt.
  { apply advance_above; [|done]. subst v; simpl. intros x. rewrite elem_of_union, elem_of_singleton.
    intros [Hx| ->]; [|done]. specialize (Hw _ Hx). lia. }
  pose proof (advance_done (size (seen v)) v ltac:(lia)) as Hd.
  destruct (decide (s = watermark (advance (size (seen v)) v).2 + 1)) as [->|]; [done|]. lia.
Qed.

Lemma mark_mono seq w : watermark w <= watermark (mark seq w).2.
Proof.
  unfold mark. destruct (seq <=? watermark w); [done|].
  etransitivity; [|apply advance_mono]. done.
Qed.

Lemma mark_all_ok seqs w : window_ok w -> window_ok (mark_all seqs w).
Proof. revert w. induction seqs as [|s seqs IH]; intros w Hw; [done|]. apply IH. by apply mark_ok. Qed.

Lemma mark_all_covers seqs w seq : covers (mark_all seqs w) seq <-> covers w seq \/ seq ∈ seqs.
Proof.
  revert w. induction seqs as [|s seqs IH]; intros w; simpl.
  - split; [by left|]. intros [?|Hin]; [done|]. by apply not_elem_of_nil in Hin.
  - unfold mark_all in IH. rewrite IH, mark_covers, elem_of_cons. tauto.
Qed.

(** A well-formed window is determined by the seqs it covers. *)
Lemma window_ext w1 w2 :
  window_ok w1 -> window_ok w2 -> (forall seq, covers w1 seq <-> covers w2 seq) ->
  watermark w1 = watermark w2 /\ seen w1 = seen w2.
Proof.
  intros H1 H2 Hc.
  assert (watermark w1 = watermark w2) as Hw.
  { destruct (Ztrichotomy (watermark w1) (watermark w2)) as [Hlt|[?|Hgt]]; [|done|].
    - destruct (proj2 (Hc (watermark w1 + 1))) as [?|Hs]; [left; lia|lia|]. specialize (H1 _ Hs). lia.
    - destruct (proj1 (Hc (watermark w2 + 1))) as [?|Hs]; [left; lia|lia|]. specialize (H2 _ Hs). lia. }
  split; [done|]. apply set_eq. intros seq. specialize (Hc seq). unfold covers in Hc.
  split; intros Hs.
  - specialize (H1 _ Hs). destruct Hc as [[?|?] _]; [by right|lia|done].
  - specialize (H2 _ Hs). destruct Hc as [_ [?|?]]; [by right|lia|done].
Qed.

#[export] Hint Resolve mark_ok mark_all_ok mark_mono : converger.

(** ** Properties *)

(** C9. [markSeen] computes the contiguous prefix: after any seqs in any order
    and with any repetitions, the window covers exactly what it covered before
    plus those seqs, everything up to the new watermark was covered before or
    marked, and the next seq is missing (the loop ran to the end). *)
Theorem markSeen_contiguous seqs w :
  window_ok w ->
  let w' := mark_all seqs w in
  (forall seq, duplicate seq w' = true <-> duplicate seq w = true \/ seq ∈ seqs)
  /\ (forall seq, watermark w < seq <= watermark w' -> seq ∈ seen w \/ seq ∈ seqs)
  /\ watermark w <= watermark w'
  /\ duplicate (watermark w' + 1) w' = false.
Proof.
  intros Hw w'. pose proof (mark_all_ok seqs w Hw) as Hok. split_and!.
  - intros seq. rewrite !duplicate_spec. apply mark_all_covers.
  - intros seq [Hlo Hhi]. destruct (proj1 (mark_all_covers seqs w seq)) as [[?|?]|?]; auto; [by left|lia].
  - subst w'. clear. revert w. induction seqs as [|s seqs IH]; intros w; [done|].
    etransitivity; [apply (mark_mono s)|apply IH].
  - apply duplicate_false. intros [?|Hs]; [lia|]. specialize (Hok _ Hs). subst w'. lia.
Qed.

Lemma markSeen_contiguous_witness :
  let w := mkWindow 5 {[8]} ∅ in
  let w' := mark_all [7; 10; 6; 6] w in
  watermark w' = 8 /\
  (forall seq, duplicate seq w' = true <-> duplicate seq w = true \/ seq ∈ [7; 10; 6; 6])
  /\ (forall seq, watermark w < seq <= watermark w' -> seq ∈ seen w \/ seq ∈ [7; 10; 6; 6])
  /\ watermark w <= watermark w'
  /\ duplicate (watermark w' + 1) w' = false.
Proof.
  intros w w'. split; [reflexivity|]. apply (markSeen_contiguous [7; 10; 6; 6] w).
  intros seq Hs. change (seq ∈ ({[8]} : gset Z)) in Hs. apply elem_of_singleton in Hs as ->. done.
Defined.

(** Arrival order does not matter: the same seqs in any order and with any
    repetitions leave the same watermark and the same early seqs. *)
Theorem markSeen_order seqs1 seqs2 w :
  window_ok w -> (forall seq, seq ∈ seqs1 <-> seq ∈ seqs2) ->
  watermark (mark_all seqs1 w) = watermark (mark_all seqs2 w)
  /\ seen (mark_all seqs1 w) = seen (mark_all seqs2 w).
Proof.
  intros Hw Hs. apply window_ext; auto with converger.
  intros seq. by rewrite !mark_all_covers, Hs.
Qed.

Lemma markSeen_order_witness :
  watermark (mark_all [3; 1; 2; 5] (mkWindow 0 ∅ ∅)) = 3 /\
  watermark (mark_all [3; 1; 2; 5] (mkWindow 0 ∅ ∅)) = watermark (mark_all [5; 2; 2; 1; 3] (mkWindow 0 ∅ ∅))
  /\ seen (mark_all [3; 1; 2; 5] (mkWindow 0 ∅ ∅)) = seen (mark_all [5; 2; 2; 1; 3] (mkWindow 0 ∅ ∅)).
Proof.
  split; [reflexivity|]. apply (markSeen_order [3; 1; 2; 5] [5; 2; 2; 1; 3] (mkWindow 0 ∅ ∅)).
  - intros seq Hs. change (seq ∈ (∅ : gset Z)) in Hs. by apply not_elem_of_empty in Hs.
  - intros seq. set_solver.
Defined.
