(* ===== verification/Tracker.v ===== *)
(** * Tracker: the per-conversation resume positions of an agent connection
    ([packages/agent-ts/src/watermarks.ts], class [WatermarkTracker]).

    [#positions] is a JavaScript [Map]: its entries in insertion order, which
    [#touch] keeps from the least to the most recently active. *)

From stdpp Require Import base gmap sets list strings sorting.
From Stdlib Require Import ZArith Lia.
From S2P Require Import Prelude.

Open Scope string_scope.
Open Scope list_scope.
Open Scope Z_scope.

(** ** Data *)

(* @src packages/agent-ts/src/watermarks.ts 20-27 Position *)
Record Position := mkPosition {
  high : Z;
  floor : Z;
  seen : gset Z;
}.

(* @src packages/agent-ts/src/watermarks.ts 29-29 WINDOW *)
Definition WINDOW : nat := 512.

(* @src packages/agent-ts/src/watermarks.ts 32-34 WatermarkTracker *)
Record WatermarkTracker := mkTracker {
  capacity : Z;
  positions : list (string * Position);
}.

#[export] Instance eta_position : Eta Position := fun p => mkPosition (high p) (floor p) (seen p).
#[export] Instance eta_tracker : Eta WatermarkTracker := fun t => mkTracker (capacity t) (positions t).

Definition no_position : Position := mkPosition 0 0 ∅.

(** ** Operations *)

(** [this.#positions.delete(id)]. *)
Definition drop_key (id : string) (l : list (string * Position)) : list (string * Position) :=
  filter (fun kv => kv.1 <> id) l.

(** The [while] loop of [#touch]: forget the oldest entries beyond the capacity. *)
Definition evict (cap : Z) (l : list (string * Position)) : list (string * Position) :=
  drop (length l - Z.to_nat cap) l.

(* @src packages/agent-ts/src/watermarks.ts 94-101 touch *)
Definition touch_position (id : string) (p : Position) (t : WatermarkTracker) : WatermarkTracker :=
  t <| positions := evict (capacity t) (drop_key id (positions t) ++ [(id, p)]) |>.

(* @src packages/agent-ts/src/watermarks.ts 36-41 constructor *)
Definition new_tracker (cap : Z) (initial : list (string * Z)) : WatermarkTracker :=
  fold_left (fun t '(id, seq) => if 0 <=? seq then touch_position id (mkPosition seq seq ∅) t else t)
    initial (mkTracker (Z.max 1 cap) []).

(* @src packages/agent-ts/src/watermarks.ts 43-46 get *)
Definition get (id : string) (t : WatermarkTracker) : Z :=
  match assoc id (positions t) with Some p => high p | None => 0 end.

(* @src packages/agent-ts/src/watermarks.ts 48-51 has *)
Definition has (id : string) (t : WatermarkTracker) : bool :=
  match assoc id (positions t) with Some _ => true | None => false end.

(** [seq <= position.floor || position.seen.has(seq)]. *)
Definition seen_at (p : Position) (seq : Z) : bool := (seq <=? floor p) || bool_decide (seq ∈ seen p).

(* @src packages/agent-ts/src/watermarks.ts 53-58 seen *)
Definition was_seen (id : string) (seq : Z) (t : WatermarkTracker) : bool :=
  match assoc id (positions t) with Some p => seen_at p seq | None => false end.

(** [[...position.seen].sort((a, b) => a - b)]. *)
Definition sorted_seen (p : Position) : list Z := merge_sort Z.le (elements (seen p)).

(** Forget one old seq: everything up to it counts as seen. *)
Definition forget (p : Position) (old : Z) : Position :=
  p <| seen := seen p ∖ {[old]} |> <| floor ::= Z.max old |>.

(* @src packages/agent-ts/src/watermarks.ts 64-76 record *)
Definition record_at (seq : Z) (p : Position) : bool * Position :=
  if seen_at p seq then (false, p)
  else
    let p := p <| seen := seen p ∪ {[seq]} |> <| high ::= Z.max seq |> in
    if (WINDOW <? size (seen p))%nat then
      let sorted := sorted_seen p in
      (true, fold_left forget (take (length sorted - WINDOW) sorted) p)
    else (true, p).

(* @src packages/agent-ts/src/watermarks.ts 60-79 record *)
Definition record (id : string) (seq : Z) (t : WatermarkTracker) : bool * WatermarkTracker :=
  if seq <? 1 then (true, t)
  else
    let p := assoc id (positions t) ?? no_position in
    let '(fresh, p) := record_at seq p in
    (fresh, touch_position id p t).

(* @src packages/agent-ts/src/watermarks.ts 81-86 snapshot *)
Definition snapshot (t : WatermarkTracker) : list (string * Z) := map (fun '(id, p) => (id, high p)) (positions t).

(* @src packages/agent-ts/src/watermarks.ts 88-92 touch *)
Definition touch (id : string) (t : WatermarkTracker) : WatermarkTracker :=
  match assoc id (positions t) with Some p => touch_position id p t | None => t end.

(** ** Lemmas *)

Definition record_all (ops : list (string * Z)) (t : WatermarkTracker) : WatermarkTracker :=
  fold_left (fun t '(id, seq) => (record id seq t).2) ops t.

(** What a position reached by recording [R] (each at least 1) satisfies. *)
Record tracks (R : Z -> Prop) (p : Position) : Prop := {
  tracks_above : forall s, s ∈ seen p -> floor p < s;
  tracks_only : forall s, s ∈ seen p -> R s;
  tracks_all : forall s, R s -> seen_at p s = true;
  tracks_size : (size (seen p) <= WINDOW)%nat;
  tracks_floor : 0 < floor p -> size (seen p) = WINDOW;
  tracks_low : 0 <= floor p;
  tracks_high : forall s, R s -> s <= high p;
}.

Lemma seen_at_spec p seq : seen_at p seq = true <-> seq <= floor p \/ seq ∈ seen p.
Proof. unfold seen_at. rewrite orb_true_iff, bool_decide_eq_true, Z.leb_le. done. Qed.

(** The smallest seen seq comes first. *)
Lemma sorted_seen_min p :
  (WINDOW < size (seen p))%nat ->
  exists m rest, sorted_seen p = m :: rest /\ m ∈ seen p /\ (forall x, x ∈ seen p -> x <> m -> m < x).
Proof.
  intros Hsz. pose proof (merge_sort_Permutation Z.le (elements (seen p))) as Hp. fold (sorted_seen p) in Hp.
  pose proof (StronglySorted_merge_sort Z.le (elements (seen p))) as Hs. fold (sorted_seen p) in Hs.
  assert (forall x, x ∈ sorted_seen p <-> x ∈ seen p) as Hin by (intros x; by rewrite Hp, elem_of_elements).
  destruct (sorted_seen p) as [|m rest] eqn:E.
  - exfalso. apply Permutation_length in Hp. change (size (seen p)) with (length (elements (seen p))) in Hsz. simpl in *. lia.
  - exists m, rest. split; [done|]. split; [apply Hin; by left|]. intros x Hx Hne.
    apply Hin in Hx as [->|Hx]%elem_of_cons; [done|]. inversion_clear Hs as [|? ? _ Hall].
    rewrite Forall_forall in Hall. specialize (Hall _ Hx). lia.
Qed.

Lemma length_sorted_seen p : length (sorted_seen p) = size (seen p).
Proof.
  unfold sorted_seen. by rewrite merge_sort_Permutation.
Qed.

Lemma record_at_tracks R seq p :
  1 <= seq -> tracks R p ->
  (record_at seq p).1 = negb (seen_at p seq) /\ tracks (fun s => R s \/ s = seq) (record_at seq p).2.
Proof.
  intros Hseq [Hab Hon Hall Hsz Hfl Hlow Hhi]. unfold record_at.
  destruct (seen_at p seq) eqn:Hs; cbv iota.
  { split; [done|]. split; auto.
    - intros s [?| ->]; auto.
    - intros s [?| ->]; [auto|]. apply seen_at_spec in Hs as [Hle|Hin]; [|by apply Hhi, Hon].
      (* a seq at or below the floor is below a seen seq *)
      assert (size (seen p) <> 0%nat) as Hne by (rewrite Hfl by lia; done).
      destruct (set_choose (seen p)) as [x Hx]; [intros He; apply Hne; by rewrite He, size_empty|].
      specialize (Hab _ Hx). specialize (Hhi _ (Hon _ Hx)). cbn [snd]. lia. }
  apply not_true_iff_false in Hs. rewrite seen_at_spec in Hs.
  set (p1 := p <| seen := seen p ∪ {[seq]} |> <| high ::= Z.max seq |>). cbv zeta.
  assert (size (seen p1) = S (size (seen p))) as Hsz1.
  { subst p1. simpl. rewrite size_union by set_solver. rewrite size_singleton. lia. }
  assert (forall s, s ∈ seen p1 <-> s ∈ seen p \/ s = seq) as Hin1 by (subst p1; simpl; set_solver).
  assert (floor p1 = floor p /\ high p1 = Z.max seq (high p)) as [Hf1 Hh1] by done. clearbody p1.
  destruct (WINDOW <? size (seen p1))%nat eqn:Hw; simpl.
  - apply Nat.ltb_lt in Hw. split; [done|].
    destruct (sorted_seen_min p1 Hw) as (m & rest & Hsort & Hm & Hmin).
    rewrite length_sorted_seen, Hsz1. replace (S (size (seen p)) - WINDOW)%nat with 1%nat by lia.
    rewrite Hsort. simpl. split; simpl.
    + intros s [Hs1 Hne]%elem_of_difference. rewrite elem_of_singleton in Hne.
      assert (floor p1 < m) by (rewrite Hf1; apply Hin1 in Hm as [Hm| ->]; [by apply Hab|lia]).
      specialize (Hmin s Hs1 Hne). lia.
    + intros s [Hs1 _]%elem_of_difference. apply Hin1 in Hs1 as [?| ->]; auto.
    + intros s HR. rewrite seen_at_spec. simpl. rewrite elem_of_difference, elem_of_singleton, Hin1, Hf1.
      destruct (decide (s = m)) as [->|Hne]; [left; lia|].
      destruct HR as [HR| ->]; [|right; auto]. apply Hall, seen_at_spec in HR as [?|?]; [left; lia|right; auto].
    + rewrite size_difference, size_singleton by set_solver. lia.
    + intros _. rewrite size_difference, size_singleton by set_solver. lia.
    + lia.
    + intros s [HR| ->]; rewrite Hh1; [specialize (Hhi _ HR); lia|lia].
  - apply Nat.ltb_ge in Hw. split; [done|]. split.
    + intros s [Hs1| ->]%Hin1; rewrite Hf1; [by apply Hab|lia].
    + intros s [Hs1| ->]%Hin1; auto.
    + intros s HR. rewrite seen_at_spec, Hin1, Hf1. destruct HR as [HR| ->]; [|auto].
      apply Hall, seen_at_spec in HR as [?|?]; auto.
    + done.
    + intros Hpos. rewrite Hf1 in Hpos. specialize (Hfl Hpos). lia.
    + by rewrite Hf1.
    + intros s [HR| ->]; rewrite Hh1; [specialize (Hhi _ HR); lia|lia].
Qed.

Lemma assoc_drop_key {id k} (l : list (string * Position)) :
  assoc k (drop_key id l) = if String.eqb id k then None else assoc k l.
Proof.
  unfold drop_key. induction l as [|[k' p] l IH]; [by destruct (id =? k)%string|].
  destruct (decide (k' = id)) as [->|Hne].
  - rewrite filter_cons_False by (simpl; auto). simpl. rewrite IH. by destruct (id =? k)%string.
  - rewrite filter_cons_True by done. simpl. rewrite IH.
    destruct (String.eqb_spec id k) as [->|]; [|done]. by rewrite (proj2 (String.eqb_neq k' k) Hne).
Qed.

Lemma drop_key_keys id (l : list (string * Position)) :
  map fst (drop_key id l) = filter (fun k => k <> id) (map fst l).
Proof.
  unfold drop_key. induction l as [|[k p] l IH]; [done|]. simpl.
  destruct (decide (k = id)) as [->|Hne].
  - rewrite filter_cons_False by (simpl; auto). rewrite (filter_cons_False (fun k => k <> id)) by auto. done.
  - rewrite filter_cons_True by done. rewrite (filter_cons_True (fun k => k <> id)) by done. simpl. by f_equal.
Qed.

Lemma touch_keys_nodup id p t :
  NoDup (map fst (positions t)) -> NoDup (map fst (positions (touch_position id p t))).
Proof.
  intros Hnd. unfold touch_position, evict. simpl. rewrite <- skipn_map.
  assert (NoDup (map fst (drop_key id (positions t) ++ [(id, p)]))) as H.
  { rewrite map_app, drop_key_keys. simpl. apply NoDup_app. repeat split.
    - by apply NoDup_filter.
    - intros x [Hx _]%list_elem_of_filter ->%list_elem_of_singleton. done.
    - apply NoDup_singleton. }
  rewrite <- (take_drop (length (drop_key id (positions t) ++ [(id, p)]) - Z.to_nat (capacity t))
              (map fst (drop_key id (positions t) ++ [(id, p)]))) in H.
  by apply NoDup_app in H as (_ & _ & H).
Qed.

(** A touch that stays within the capacity forgets nothing. *)
Lemma touch_within K id p t :
  NoDup (map fst (positions t)) -> map fst (positions t) ⊆ K -> id ∈ K -> Z.of_nat (length K) <= capacity t ->
  positions (touch_position id p t) = drop_key id (positions t) ++ [(id, p)].
Proof.
  intros Hnd Hsub Hid Hcap. unfold touch_position, evict. simpl.
  assert (length (drop_key id (positions t) ++ [(id, p)]) <= length K)%nat as Hlen.
  { rewrite <- (length_map fst), map_app, drop_key_keys. simpl. apply NoDup_incl_length.
    - apply NoDup_ListNoDup, NoDup_app. repeat split.
      + by apply NoDup_filter.
      + intros x [Hx _]%list_elem_of_filter ->%list_elem_of_singleton. done.
      + apply NoDup_singleton.
    - intros x Hx%list_elem_of_In. apply list_elem_of_In. apply elem_of_app in Hx as [Hx| ->%list_elem_of_singleton]; [|done].
      apply list_elem_of_filter in Hx as [_ Hx]. auto. }
  replace (length _ - Z.to_nat (capacity t))%nat with 0%nat by lia. done.
Qed.

Lemma record_at_first n : 1 <= n -> record_at n no_position = (true, mkPosition n 0 {[n]}).
Proof.
  intros Hn. assert (seen_at no_position n = false) as Hs.
  { apply not_true_iff_false. rewrite seen_at_spec. simpl. rewrite elem_of_empty. lia. }
  unfold record_at. rewrite Hs. cbv iota.
  replace (no_position <| seen := seen no_position ∪ {[n]} |> <| high ::= Z.max n |>) with (mkPosition n 0 {[n]}).
  - cbv zeta. cbn [seen]. rewrite (size_singleton (C := gset Z) n). reflexivity.
  - unfold no_position. simpl. by rewrite union_empty_l_L, Z.max_l by lia.
Qed.

(** The seqs recorded for a conversation. *)
Definition recorded (ops : list (string * Z)) (id : string) (seq : Z) : Prop := 1 <= seq /\ (id, seq) ∈ ops.

Record follows (K : list string) (ops : list (string * Z)) (t : WatermarkTracker) : Prop := {
  follows_nodup : NoDup (map fst (positions t));
  follows_keys : map fst (positions t) ⊆ K;
  follows_cap : Z.of_nat (length K) <= capacity t;
  follows_seen : forall id, match assoc id (positions t) with
                            | Some p => tracks (recorded ops id) p
                            | None => forall s, ~ recorded ops id s
                            end;
}.

Lemma tracks_iff R R' p : (forall s, R s <-> R' s) -> tracks R p -> tracks R' p.
Proof.
  intros HR [Hab Hon Hall Hsz Hfl Hlow Hhi].
  split; [done|intros; by apply HR, Hon|intros; by apply Hall, HR|done|done|done|intros; by apply Hhi, HR].
Qed.

Lemma tracks_nothing R : (forall s, ~ R s) -> tracks R no_position.
Proof.
  intros HR. split; unfold no_position; cbn [seen floor high]; try (intros s Hs; by destruct (HR s)); try set_solver; try lia.
  rewrite size_empty. lia.
Qed.

Lemma follows_position K ops t id : follows K ops t -> tracks (recorded ops id) (assoc id (positions t) ?? no_position).
Proof. intros [_ _ _ Hs]. specialize (Hs id). destruct (assoc id (positions t)); [done|by apply tracks_nothing]. Qed.

Lemma follows_record K ops t id seq :
  follows K ops t -> id ∈ K -> follows K (ops ++ [(id, seq)]) (record id seq t).2.
Proof.
  intros Hf Hid. pose proof Hf as [Hnd Hkeys Hcap Hseen]. unfold record. case_match eqn:Hlt.
  - (* not recorded *)
    assert (forall k s, recorded ops k s <-> recorded (ops ++ [(id, seq)]) k s) as Hiff.
    { intros k s. unfold recorded. rewrite elem_of_app, list_elem_of_singleton. split; [naive_solver|].
      intros [? [?|?]]; [done|]. simplify_eq. lia. }
    split; try done. intros k. specialize (Hseen k). simpl. destruct (assoc k (positions t)).
    + by apply (tracks_iff (recorded ops k)).
    + intros s Hs%Hiff. by eapply Hseen.
  - assert (1 <= seq) as Hge by lia.
    destruct (record_at_tracks (recorded ops id) seq _ Hge (follows_position _ _ _ id Hf)) as [_ Htr].
    destruct (record_at seq (assoc id (positions t) ?? no_position)) as [fresh p] eqn:Hr. cbn [snd] in *.
    pose proof (touch_within K id p t Hnd Hkeys Hid Hcap) as Hpos.
    split.
    + by apply touch_keys_nodup.
    + rewrite Hpos, map_app, drop_key_keys. intros x [Hx|Hx]%elem_of_app.
      * apply list_elem_of_filter in Hx as [_ Hx]. auto.
      * apply list_elem_of_singleton in Hx as ->. done.
    + done.
    + intros k. rewrite Hpos, assoc_app, assoc_drop_key. simpl. specialize (Hseen k).
      destruct (String.eqb_spec id k) as [<-|Hne].
      * revert Htr. apply tracks_iff. intros s. unfold recorded. rewrite elem_of_app, list_elem_of_singleton.
        split; [intros [[? ?]| ->]; auto|intros [? [?|?]]; [auto|simplify_eq; auto]].
      * assert (forall s, recorded ops k s <-> recorded (ops ++ [(id, seq)]) k s) as Hiff.
        { intros s. unfold recorded. rewrite elem_of_app, list_elem_of_singleton. naive_solver. }
        destruct (assoc k (positions t)); [by apply (tracks_iff (recorded ops k))|].
        intros s Hs%Hiff. by eapply Hseen.
Qed.

Lemma follows_all K ops t more :
  follows K ops t -> map fst more ⊆ K -> follows K (ops ++ more) (record_all more t).
Proof.
  revert ops t. induction more as [|[id seq] more IH]; intros ops t Hf Hsub; [by rewrite app_nil_r|].
  simpl in *. rewrite (cons_middle _ ops), app_assoc. apply IH; [apply follows_record; set_solver|set_solver].
Qed.

Lemma follows_new K cap : Z.of_nat (length K) <= Z.max 1 cap -> follows K [] (new_tracker cap []).
Proof. intros H. split; simpl; [apply NoDup_nil_2|set_solver|done|]. intros id s [_ Hs]. set_solver. Qed.

Lemma follows_run K cap ops :
  Z.of_nat (length K) <= Z.max 1 cap -> map fst ops ⊆ K -> follows K ops (record_all ops (new_tracker cap [])).
Proof. intros Hcap Hsub. apply (follows_all K [] _ ops); [by apply follows_new|done]. Qed.

Lemma follows_mono K K' ops t :
  K ⊆ K' -> Z.of_nat (length K') <= capacity t -> follows K ops t -> follows K' ops t.
Proof. intros HK Hc [H1 H2 _ H4]. split; [done|set_solver|done|done]. Qed.

Lemma record_fresh id seq t : 1 <= seq -> (record id seq t).1 = (record_at seq (assoc id (positions t) ?? no_position)).1.
Proof. intros Hseq. unfold record. rewrite (proj2 (Z.ltb_ge seq 1) Hseq). by destruct (record_at _ _). Qed.

(** What [record] answers fresh was not recorded before. *)
Lemma follows_fresh K ops t id seq :
  follows K ops t -> 1 <= seq -> (record id seq t).1 = true -> (id, seq) ∉ ops.
Proof.
  intros Hf Hseq Hfresh Hin. rewrite record_fresh in Hfresh by done. pose proof (follows_position _ _ _ id Hf) as Htr.
  destruct (record_at_tracks _ seq _ Hseq Htr) as [Heq _]. rewrite Heq in Hfresh. apply negb_true_iff in Hfresh.
  rewrite (tracks_all _ _ Htr) in Hfresh; [done|by split].
Qed.

Lemma follows_touch K ops t id : follows K ops t -> follows K ops (touch id t).
Proof.
  intros Hf. pose proof Hf as [Hnd Hkeys Hcap Hseen]. unfold touch. destruct (assoc id (positions t)) as [p|] eqn:Hp; [|done].
  assert (id ∈ K) as Hid.
  { apply Hkeys. clear - Hp. induction (positions t) as [|[k q] l IH]; [done|]. simpl in *.
    destruct (String.eqb_spec k id) as [->|]; set_solver. }
  pose proof (touch_within K id p t Hnd Hkeys Hid Hcap) as Hpos. split.
  - by apply touch_keys_nodup.
  - rewrite Hpos, map_app, drop_key_keys. intros x [Hx|Hx]%elem_of_app.
    + apply list_elem_of_filter in Hx as [_ Hx]. auto.
    + apply list_elem_of_singleton in Hx as ->. done.
  - done.
  - intros k. rewrite Hpos, assoc_app, assoc_drop_key. simpl. specialize (Hseen k).
    destruct (String.eqb_spec id k) as [<-|Hne]; [by rewrite Hp in Hseen|]. by destruct (assoc k (positions t)).
Qed.

Lemma record_capacity id seq t : capacity (record id seq t).2 = capacity t.
Proof. unfold record. case_match; [done|]. by destruct (record_at _ _). Qed.

Lemma touch_capacity id t : capacity (touch id t) = capacity t.
Proof. unfold touch. by destruct (assoc _ _). Qed.

(** ** Theorems *)



(** The position a reconnect resumes from ([get], sent as
    [hello.watermarks]) is the highest recorded seq, not the last of an
    unbroken run: after recording [n >= 2] alone the tracker asks the server to
    resume after [n], although [n - 1] was never seen and would still be
    delivered as fresh. *)
Theorem resume_position_skips (cap : Z) (id : string) (n : Z) :
  2 <= n ->
  let t := (record id n (new_tracker cap [])).2 in
  get id t = n /\ was_seen id (n - 1) t = false /\ (record id (n - 1) t).1 = true.
Proof.
  intros Hn t.
  assert (positions t = [(id, mkPosition n 0 {[n]})]) as Hpos.
  { subst t. unfold record, new_tracker. cbn [fold_left positions assoc default].
    rewrite (proj2 (Z.ltb_ge n 1)), record_at_first by lia. unfold touch_position, evict. simpl.
    by replace (1 - Z.to_nat (Z.max 1 cap))%nat with 0%nat by lia. }
  assert (seen_at (mkPosition n 0 {[n]}) (n - 1) = false) as Hs.
  { apply not_true_iff_false. rewrite seen_at_spec. simpl. rewrite elem_of_singleton. lia. }
  unfold get, was_seen, record. rewrite Hpos. simpl. rewrite String.eqb_refl. simpl. split; [done|].
  split; [done|]. rewrite (proj2 (Z.ltb_ge (n - 1) 1)) by lia.
  unfold record_at. rewrite Hs. cbv iota zeta. by destruct (WINDOW <? _)%nat.
Qed.

Lemma resume_position_skips_witness : get "a" (record "a" 2 (new_tracker 256 [])).2 = 2.
Proof. exact (proj1 (resume_position_skips 256 "a" 2 ltac:(lia))). Defined.
