(* ===== verification/AgentFrames.v ===== *)
(** * AgentFrames: what the agent SDK reads of the frames it receives
    ([packages/agent-ts/src/frames.ts], [errors.ts] and [turn.ts]).

    A frame is a JSON object.  The SDK casts it to its protocol type and reads
    members; a member that is not of the declared type reads as absent here. *)

From stdpp Require Import base gmap sets list strings.
From Stdlib Require Import ZArith QArith.
From S2P Require Import Prelude Frames Json JsMap.

Open Scope string_scope.
Open Scope list_scope.
Open Scope Z_scope.

(** ** Members *)

Definition str_at (key : string) (v : json) : option string :=
  match member key v with Some (JStr s) => Some s | _ => None end.

Definition int_at (key : string) (v : json) : option Z :=
  match member key v with Some (JNum q) => if is_integer q then Some (to_integer q) else None | _ => None end.

Definition bool_at (key : string) (v : json) : option bool :=
  match member key v with Some (JBool b) => Some b | _ => None end.

Definition data_of (frame : json) : json := member "data" frame ?? JNull.

(* @src packages/agent-ts/src/frames.ts 105-109 ErrorFrame *)
Definition error_data (frame : json) : ErrorData :=
  let data := data_of frame in
  mkErrorData (str_at "code" data ?? "") (str_at "message" data ?? "") (int_at "number" data)
    (bool_at "retryable" data) (int_at "retryAfterMs" data) (str_at "clientId" data) (str_at "frameType" data)
    (match member "details" data with Some (JObj l) => Some l | _ => None end).

(* @src packages/agent-ts/src/frames.ts 65-66 DEFAULT_PATH *)
Definition DEFAULT_PATH : string := "/socket/converger/v1".

(* @src packages/agent-ts/src/frames.ts 62-63 SUBPROTOCOL *)
Definition SUBPROTOCOL : string := "converger.v1".

(* @src packages/agent-ts/src/frames.ts 59-60 PROTOCOL_VERSION *)
Definition AGENT_PROTOCOL_VERSION : string := "converger/1".

(** ** Errors *)

(* @src packages/agent-ts/src/errors.ts 17-28 RETRYABLE *)
Definition RETRYABLE : list string :=
  ["token_expired"; "rate_limited"; "too_many_in_flight"; "slow_consumer"; "busy"; "bot_unavailable"; "internal";
   "unavailable"; "replay_unavailable"].

(* @src packages/agent-ts/src/errors.ts 30-73 AgentError *)
Record AgentError := mkAgentError {
  ae_code : string;
  ae_message : string;
  ae_retryable : bool;
  ae_retryAfterMs : option Z;
  ae_conversationId : option string;
  ae_number : option Z;
  ae_clientId : option string;
  ae_frameType : option string;
  ae_details : option (list (string * json));
}.

(** [new AgentError(code, message, {retryable, conversationId, clientId})]. *)
(* @src packages/agent-ts/src/errors.ts 49-73 constructor *)
Definition agent_error (code message : string) (retryable : option bool) (conversationId clientId : option string) : AgentError :=
  mkAgentError code message (retryable ?? bool_decide (code ∈ RETRYABLE)) None conversationId None clientId None None.

(* @src packages/agent-ts/src/errors.ts 75-87 fromFrame *)
Definition fromFrame (data : ErrorData) (conversationId : option string) : AgentError :=
  mkAgentError (ed_code data) (if String.eqb (ed_message data) "" then ed_code data else ed_message data)
    (match ed_retryable data with Some b => b | None => bool_decide (ed_code data ∈ RETRYABLE) end)
    (ed_retryAfterMs data) conversationId (ed_number data) (ed_clientId data) (ed_frameType data) (ed_details data).

(* @src packages/agent-ts/src/errors.ts 90-93 isAgentError *)
Definition isAgentError (error : option AgentError) (code : option string) : bool :=
  match error with
  | Some e => match code with None => true | Some c => String.eqb (ae_code e) c end
  | None => false
  end.

(** ** Turns *)

(** [a ?? b] on members: [null] and [undefined] give way. *)
Definition nullish (a b : option json) : option json :=
  match a with None | Some JNull => b | Some v => Some v end.

Definition or_else {A} (a b : option A) : option A := match a with Some _ => a | None => b end.

(* @src packages/agent-ts/src/turn.ts 68-68 MEDIA *)
Definition MEDIA : list string := ["image"; "file"; "video"; "audio"].

(* @src packages/agent-ts/src/turn.ts 70-72 record *)
Definition record_of (v : option json) : option (list (string * json)) :=
  match v with Some (JObj l) => Some l | _ => None end.

(* @src packages/agent-ts/src/turn.ts 74-76 str *)
Definition str (v : option json) : option string :=
  match v with Some (JStr s) => Some s | _ => None end.

(** [channel]: [{type}] of a string, or the object given. *)
(* @src packages/agent-ts/src/turn.ts 26-66 Turn *)
Record Turn := mkTurn {
  t_conversationId : string;
  t_text : string;
  t_message : json;
  t_type : string;
  t_data : list (string * json);
  t_attachments : list json;
  t_participant : option json;
  t_channel : option (list (string * json));
  t_meta : list (string * json);
  t_metadata : list (string * json);
  t_action : option (list (string * json));
  t_replyTo : option json;
  t_id : option string;
  t_seq : option Z;
}.

Definition is_record (v : json) : bool := match v with JObj _ => true | _ => false end.

(* @src packages/agent-ts/src/turn.ts 78-120 buildTurn *)
Definition buildTurn (conversationId : string) (message : json) : Turn :=
  let type := str_at "type" message ?? "" in
  let data := record_of (member "data" message) ?? [] in
  let meta := record_of (member "meta" message) ?? [] in
  let metadata := record_of (member "metadata" message) ?? [] in
  let action := record_of (assoc "action" metadata) in
  let text :=
    or_else (str (assoc "text" data)) (or_else (str (assoc "caption" data)) (or_else (str (assoc "title" data))
      (or_else (str (assoc "name" data)) (match action with Some a => str (assoc "label" a) | None => None end)))) ?? "" in
  let attachments :=
    match assoc "attachments" data with
    | Some (JArr l) => filter (fun a => is_record a = true) l
    | _ =>
        if bool_decide (type ∈ MEDIA)
        then [JObj (map_set "contentType"
                     (JStr (or_else (str (assoc "mimeType" data)) (str (assoc "contentType" data)) ?? type)) data)]
        else []
    end in
  let rawChannel := nullish (assoc "channel" meta) (assoc "channel" metadata) in
  let channel :=
    match rawChannel with
    | Some (JStr s) => Some [("type", JStr s)]
    | v => record_of v
    end in
  mkTurn conversationId text message type data attachments (member "sender" message) channel meta metadata action
    (member "replyTo" message) (str_at "id" message) (int_at "seq" message).
