(* ===== verification/FakeServer.v ===== *)
(** * FakeServer: the in-process server of the agent SDK's testing helpers
    ([packages/agent-ts/src/testing/index.ts], class [FakeConvergerServer]).

    It stands for the agent's side of a Converger server: connections, a
    transcript with seqs per conversation, acks with de-duplication by
    clientId, and replay.  A frame is a JavaScript object; a message is the
    value the text on the wire parses to.  What the server does to its sockets
    is appended to [log], newest first.

    A promise of [waitFor] is a [wait_state] that the server's owner checks
    after every message and every 10 ms; the socket library is the environment. *)

From stdpp Require Import base gmap sets list strings pretty.
From Stdlib Require Import ZArith QArith Lia.
From S2P Require Import Prelude JsMap Json Errors AgentFrames.

Open Scope string_scope.
Open Scope list_scope.
Open Scope Z_scope.

(* @src packages/agent-ts/src/testing/index.ts 32-33 FakeFrame *)
Definition FakeFrame : Type := list (string * json).

(* @src packages/agent-ts/src/testing/index.ts 35-41 ReceivedFrame *)
Record ReceivedFrame := mkReceived { r_conversationId : option string; r_frame : json; r_connection : nat }.

(* @src packages/agent-ts/src/testing/index.ts 61-66 FakeConnection *)
Record FakeConnection := mkConnection { c_index : nat; c_hello : option json }.

(* @src packages/agent-ts/src/testing/index.ts 68-68 NATIVE *)
Definition NATIVE : list string := ["tool_call"; "skill"; "genui"; "interrupt"; "interrupt_resolved"].
(* @src packages/agent-ts/src/testing/index.ts 69-69 TRANSIENT *)
Definition TRANSIENT : list string := ["run"; "genui_components"; "skills"; "error"; "typing"; "read"; "sync"].

Inductive output :=
| OSend (socket : nat) (message : json)
| OCloseSocket (socket : nat) (code : Z) (reason : string)
| OTerminate (socket : nat).

(** [open_sockets]: the sockets whose [readyState] is [OPEN]. *)
(* @src packages/agent-ts/src/testing/index.ts 72-93 FakeConvergerServer *)
Record FakeConvergerServer := mkServer {
  received : list ReceivedFrame;
  connections : list FakeConnection;
  hellos : list json;
  rejectedTokens : gset string;
  sendErrors : list FakeFrame;
  swallowAcks : bool;
  expiresAt : option Z;
  transcripts : gmap string (list FakeFrame);
  keys : gmap string FakeFrame;
  connectionCount : nat;
  nextId : Z;
  open_sockets : gset nat;
  log : list output;
}.

#[export] Instance eta_server : Eta FakeConvergerServer :=
  fun s => mkServer (received s) (connections s) (hellos s) (rejectedTokens s) (sendErrors s) (swallowAcks s) (expiresAt s)
    (transcripts s) (keys s) (connectionCount s) (nextId s) (open_sockets s) (log s).

(** The fields as declared; [start] at time [now]. *)
(* @src packages/agent-ts/src/testing/index.ts 72-93 FakeConvergerServer *)
Definition new_server (now : Z) : FakeConvergerServer :=
  mkServer [] [] [] ∅ [] false (Some (now + 1800000)) ∅ ∅ 0 1 ∅ [].

Definition num (z : Z) : json := JNum (inject_Z z).

(** [{...a, ...b}]. *)
Definition spread (a b : FakeFrame) : FakeFrame := fold_left (fun acc '(k, v) => map_set k v acc) b a.

(** A member of the object, as [JSON.stringify] writes it: absent when [undefined]. *)
Definition set_defined (key : string) (v : option json) (f : FakeFrame) : FakeFrame :=
  match v with Some v => map_set key v f | None => map_delete key f end.

Definition envelope (conversationId : string) (frame : FakeFrame) : json :=
  JObj [("conversationId", JStr conversationId); ("frame", JObj frame)].

(** ** Sockets *)

(* @src packages/agent-ts/src/testing/index.ts 276-278 send *)
Definition send (i : nat) (message : json) (s : FakeConvergerServer) : FakeConvergerServer :=
  if bool_decide (i ∈ open_sockets s) then s <| log ::= cons (OSend i message) |> else s.

(** [socket.close(code, reason)]: the socket is no longer open. *)
Definition close_socket (i : nat) (code : Z) (reason : string) (s : FakeConvergerServer) : FakeConvergerServer :=
  s <| log ::= cons (OCloseSocket i code reason) |> <| open_sockets ::= fun l => l ∖ {[i]} |>.

Definition terminate (i : nat) (s : FakeConvergerServer) : FakeConvergerServer :=
  s <| log ::= cons (OTerminate i) |> <| open_sockets ::= fun l => l ∖ {[i]} |>.

(* @src packages/agent-ts/src/testing/index.ts 280-283 onConnection *)
Definition onConnection (s : FakeConvergerServer) : FakeConvergerServer :=
  s <| connectionCount ::= S |> <| connections ::= fun l => l ++ [mkConnection (connectionCount s) None] |>
    <| open_sockets ::= fun l => l ∪ {[connectionCount s]} |>.

(** The socket's [close] event. *)
(* @src packages/agent-ts/src/testing/index.ts 284-287 onConnection *)
Definition onSocketClose (i : nat) (s : FakeConvergerServer) : FakeConvergerServer :=
  s <| connections ::= filter (fun c => c_index c <> i) |> <| open_sockets ::= fun l => l ∖ {[i]} |>.

(* @src packages/agent-ts/src/testing/index.ts 250-253 closeAll *)
Definition closeAll (code : Z) (reason : string) (s : FakeConvergerServer) : FakeConvergerServer :=
  fold_left (fun s c => close_socket (c_index c) code reason s) (connections s) (s <| connections := [] |>).

(* @src packages/agent-ts/src/testing/index.ts 255-258 kill *)
Definition kill (s : FakeConvergerServer) : FakeConvergerServer :=
  fold_left (fun s c => terminate (c_index c) s) (connections s) (s <| connections := [] |>).

(** [stop], up to the closing of the listening socket. *)
(* @src packages/agent-ts/src/testing/index.ts 260-261 stop *)
Definition stop : FakeConvergerServer -> FakeConvergerServer := kill.

(* @src packages/agent-ts/src/testing/index.ts 176-179 deliver *)
Definition deliver (conversationId : string) (frame : FakeFrame) (s : FakeConvergerServer) : FakeConvergerServer :=
  fold_left (fun s c => send (c_index c) (envelope conversationId frame) s) (connections s) s.

(* @src packages/agent-ts/src/testing/index.ts 181-184 broadcast *)
Definition broadcast (frame : FakeFrame) (s : FakeConvergerServer) : FakeConvergerServer :=
  fold_left (fun s c => send (c_index c) (JObj frame) s) (connections s) s.

(** ** Transcripts *)

Definition transcript_of (conversationId : string) (s : FakeConvergerServer) : list FakeFrame :=
  transcripts s !! conversationId ?? [].

(* @src packages/agent-ts/src/testing/index.ts 120-123 transcript *)
Definition transcript (conversationId : string) (s : FakeConvergerServer) : list FakeFrame := transcript_of conversationId s.

(* @src packages/agent-ts/src/testing/index.ts 125-130 framesFor *)
Definition framesFor (conversationId : string) (type : option string) (s : FakeConvergerServer) : list json :=
  map r_frame (filter (fun r => r_conversationId r = Some conversationId /\
                                (type = None \/ str_at "type" (r_frame r) = type)) (received s)).

(* @src packages/agent-ts/src/testing/index.ts 265-274 store *)
Definition store (conversationId : string) (frame : FakeFrame) (s : FakeConvergerServer) : FakeFrame * FakeConvergerServer :=
  let t := transcript_of conversationId s in
  let stored := map_set "seq" (num (Z.of_nat (length t) + 1)) frame in
  (stored, s <| transcripts ::= <[conversationId := t ++ [stored]]> |>).

(** [`act-${this.#nextId++}`]. *)
Definition act_id (s : FakeConvergerServer) : string * FakeConvergerServer :=
  ("act-" +:+ pretty (nextId s), s <| nextId ::= Z.succ |>).

(** [Number(v)]; [None] is [NaN] (or not finite). *)
Definition to_number (v : json) : option Q :=
  match v with
  | JNum q => Some q
  | JStr s => finite_number s
  | JBool b => Some (if b then 1 else 0)%Q
  | JNull => Some 0%Q
  | _ => None
  end.

Definition seq_of (f : FakeFrame) : option Q := match assoc "seq" f with Some (JNum q) => Some q | _ => None end.

(** [frame.seq > watermark]; nothing is above [NaN]. *)
(* @src packages/agent-ts/src/testing/index.ts 386-386 replay *)
Definition above (watermark : option Q) (f : FakeFrame) : bool :=
  match watermark, seq_of f with Some w, Some q => if Qlt_le_dec w q then true else false | _, _ => false end.

(* @src packages/agent-ts/src/testing/index.ts 384-388 replay *)
Definition replay (i : nat) (conversationId : string) (watermark : option Q) (s : FakeConvergerServer) : FakeConvergerServer :=
  fold_left (fun s f => if above watermark f then send i (envelope conversationId f) s else s) (transcript_of conversationId s) s.

(** ** What a test makes the users and bots of a conversation do *)

Inductive said := SaysText (message : string) | SaysFrame (message : FakeFrame).

(* @src packages/agent-ts/src/testing/index.ts 136-150 userSays *)
Definition userSays (now : Z) (conversationId : string) (message : said) (delivers : bool) (sender : option string)
    (s : FakeConvergerServer) : FakeFrame * FakeConvergerServer :=
  let base := match message with
              | SaysText t => [("type", JStr "text"); ("data", JObj [("text", JStr t)])]
              | SaysFrame f => f
              end in
  let '(id, s) := act_id s in
  let frame := spread [("id", JStr id); ("from", JStr "user");
                       ("sender", JObj [("id", JStr (sender ?? "user-1")); ("role", JStr "user")]); ("timestamp", num now)] base in
  let meta := assoc "meta" frame in
  let '(stored, s) := store conversationId (map_delete "meta" frame) s in
  (stored,
   if delivers then deliver conversationId (match meta with Some m => map_set "meta" m stored | None => stored end) s else s).

(* @src packages/agent-ts/src/testing/index.ts 152-164 botSays *)
Definition botSays (now : Z) (conversationId message : string) (s : FakeConvergerServer) : FakeFrame * FakeConvergerServer :=
  let '(id, s) := act_id s in
  let '(stored, s) := store conversationId
    [("type", JStr "text"); ("id", JStr id); ("from", JStr "bot"); ("sender", JObj [("id", JStr "other-bot"); ("role", JStr "bot")]);
     ("data", JObj [("text", JStr message)]); ("timestamp", num now)] s in
  (stored, deliver conversationId stored s).

(* @src packages/agent-ts/src/testing/index.ts 166-169 resume *)
Definition resume (conversationId : string) (answers : FakeFrame) (s : FakeConvergerServer) : FakeConvergerServer :=
  deliver conversationId [("type", JStr "resume"); ("answers", JObj answers)] s.

(* @src packages/agent-ts/src/testing/index.ts 171-174 abort *)
Definition abort (conversationId : string) (s : FakeConvergerServer) : FakeConvergerServer :=
  deliver conversationId [("type", JStr "abort")] s.

(** ** Messages from an agent *)

Definition error_frame (data : FakeFrame) : FakeFrame := [("type", JStr "error"); ("data", JObj data)].

Definition error_message (code message : string) (number : Z) : json :=
  JObj (error_frame [("code", JStr code); ("message", JStr message); ("number", num number); ("retryable", JBool false)]).

(* @src packages/agent-ts/src/testing/index.ts 314-322 onMessage *)
Definition welcome (i : nat) (s : FakeConvergerServer) : json :=
  JObj [("type", JStr "welcome");
        ("data", JObj ([("protocol", JStr "converger/1"); ("compat", JArr [JStr "mekik/1"]); ("connectionId", JStr ("conn-" +:+ pretty i));
                        ("scope", JStr "channel"); ("channelId", JStr "fake-channel");
                        ("limits", JObj [("maxConversations", num 5000); ("idleTimeoutMs", num 60000)])]
                       ++ match expiresAt s with Some e => [("expiresAt", num e)] | None => [] end))].

(** [Object.entries(message.watermarks ?? {})]. *)
Definition watermarks_of (message : json) : list (string * json) :=
  match member "watermarks" message with Some (JObj l) => l | _ => [] end.

(* @src packages/agent-ts/src/testing/index.ts 305-328 onMessage *)
Definition onHello (i : nat) (message : json) (s : FakeConvergerServer) : FakeConvergerServer :=
  let s := s <| hellos ::= fun l => l ++ [message] |> in
  let accepted := match str_at "token" message with Some t => negb (bool_decide (t ∈ rejectedTokens s)) | None => false end in
  if accepted then
    let s := s <| connections ::= map (fun c => if Nat.eqb (c_index c) i then mkConnection i (Some message) else c) |> in
    let s := send i (welcome i s) s in
    fold_left (fun s '(id, w) => replay i id (to_number w) s) (watermarks_of message) s
  else close_socket i 4401 "unauthorized" (send i (error_message "unauthorized" "invalid token" 2000) s).

(* @src packages/agent-ts/src/testing/index.ts 302-339 onMessage *)
Definition onBare (now : Z) (i : nat) (type : string) (message : json) (s : FakeConvergerServer) : FakeConvergerServer :=
  let s := s <| received ::= fun l => l ++ [mkReceived None message i] |> in
  if String.eqb type "hello" then onHello i message s
  else if String.eqb type "ping" then
    send i (JObj (set_defined "nonce" (member "nonce" message) [("type", JStr "heartbeat"); ("timestamp", num now)])) s
  else if String.eqb type "auth" then
    send i (JObj [("type", JStr "tokenRefreshed"); ("data", JObj [("expiresAt", num (now + 1800000))])]) s
  else send i (error_message "bad_request" "conversation frames need an envelope" 1000) s.

(** The clientId a message frame is de-duplicated by. *)
(* @src packages/agent-ts/src/testing/index.ts 356-356 onMessage *)
Definition client_key (frame : FakeFrame) : option string :=
  match str (assoc "clientId" frame) with Some c => Some c | None => str (assoc "id" frame) end.

(** [`${conversationId}:${clientId}`]. *)
Definition dedup_key (conversationId clientId : string) : string := conversationId +:+ ":" +:+ clientId.

(** What is stored of a message frame. *)
(* @src packages/agent-ts/src/testing/index.ts 368-375 onMessage *)
Definition stored_frame (now : Z) (id : string) (frame : FakeFrame) : FakeFrame :=
  spread (map_delete "clientId" frame)
    [("id", JStr id); ("from", JStr "bot"); ("sender", JObj [("id", JStr "agent"); ("role", JStr "bot")]); ("timestamp", num now)].

(* @src packages/agent-ts/src/testing/index.ts 378-380 onMessage *)
Definition ack_of (now : Z) (clientId : string) (stored : FakeFrame) (duplicate : bool) : FakeFrame :=
  set_defined "seq" (assoc "seq" stored) (set_defined "id" (assoc "id" stored) [("type", JStr "ack"); ("clientId", JStr clientId)])
  ++ [("timestamp", num now)] ++ (if duplicate then [("duplicate", JBool true)] else []).

(* @src packages/agent-ts/src/testing/index.ts 355-382 onMessage *)
Definition onMessageFrame (now : Z) (i : nat) (conversationId type : string) (frame : FakeFrame) (s : FakeConvergerServer)
    : FakeConvergerServer :=
  let clientId := client_key frame in
  match sendErrors s with
  | e :: rest =>
      send i (envelope conversationId (error_frame (map_set "frameType" (JStr type) (set_defined "clientId" (JStr <$> clientId) e))))
        (s <| sendErrors := rest |>)
  | [] =>
      let key := dedup_key conversationId <$> clientId in
      let existing := k ← key; keys s !! k in
      let '(stored, s) :=
        match existing with
        | Some f => (f, s)
        | None =>
            let '(id, s) := match str (assoc "id" frame) with Some id => (id, s) | None => act_id s end in
            let '(stored, s) := store conversationId (stored_frame now id frame) s in
            (stored, match key with Some k => s <| keys ::= <[k := stored]> |> | None => s end)
        end in
      match clientId with
      | Some c => if swallowAcks s then s
                  else send i (envelope conversationId (ack_of now c stored (bool_decide (is_Some existing)))) s
      | None => s
      end
  end.

(* @src packages/agent-ts/src/testing/index.ts 340-382 onMessage *)
Definition onEnveloped (now : Z) (i : nat) (conversationId type : string) (frame : FakeFrame) (s : FakeConvergerServer)
    : FakeConvergerServer :=
  let s := s <| received ::= fun l => l ++ [mkReceived (Some conversationId) (JObj frame) i] |> in
  if String.eqb type "sync" then
    replay i conversationId (to_number (match assoc "watermark" frame with Some JNull | None => num 0 | Some v => v end)) s
  else if bool_decide (type ∈ TRANSIENT) then s
  else if bool_decide (type ∈ NATIVE) then (store conversationId (map_delete "seq" frame) s).2
  else onMessageFrame now i conversationId type frame s.

(** [JSON.parse] gave [message]; reading a member of [null] throws, which
    changes nothing. *)
(* @src packages/agent-ts/src/testing/index.ts 300-382 onMessage *)
Definition onMessage (now : Z) (i : nat) (message : json) (s : FakeConvergerServer) : FakeConvergerServer :=
  match str_at "type" message with
  | Some type => onBare now i type message s
  | None =>
      match str_at "conversationId" message, member "frame" message with
      | Some conversationId, Some (JObj frame) =>
          match str (assoc "type" frame) with Some type => onEnveloped now i conversationId type frame s | None => s end
      | _, _ => s
      end
  end.

(** The socket's [message] event: [JSON.parse] may throw. *)
(* @src packages/agent-ts/src/testing/index.ts 288-297 onConnection *)
Definition onRaw (now : Z) (i : nat) (raw : list Ascii.ascii) (s : FakeConvergerServer) : FakeConvergerServer :=
  match parse_json raw with Some message => onMessage now i message s | None => s end.

(** ** Waiting for the agent *)

Inductive wait_state (A : Type) := Waiting | Found (v : A) | TimedOut.
Arguments Waiting {A}. Arguments Found {A} _. Arguments TimedOut {A}.

(** [check]: at once, after every message, and every 10 ms; nothing once the
    promise has settled. *)
(* @src packages/agent-ts/src/testing/index.ts 187-214 waitFor *)
Definition wait_check {A} (predicate : FakeConvergerServer -> option A) (s : FakeConvergerServer) (w : wait_state A) : wait_state A :=
  match w with
  | Waiting => match predicate s with Some v => Found v | None => Waiting end
  | _ => w
  end.

(* @src packages/agent-ts/src/testing/index.ts 198-201 waitFor *)
Definition wait_timeout {A} (w : wait_state A) : wait_state A := match w with Waiting => TimedOut | _ => w end.

(** The predicate of [nextFrame], called when [from] frames were received. *)
(* @src packages/agent-ts/src/testing/index.ts 216-220 nextFrame *)
Definition nextFrame (from : nat) (p : ReceivedFrame -> bool) (s : FakeConvergerServer) : option ReceivedFrame :=
  head (filter (fun r => p r = true) (drop from (received s))).

(* @src packages/agent-ts/src/testing/index.ts 222-225 waitForConnections *)
Definition welcomed_connections (count : nat) (s : FakeConvergerServer) : option nat :=
  if (count <=? length (filter (fun c => is_Some (c_hello c)) (connections s)))%nat then Some (length (connections s)) else None.

Definition ENDED : list string := ["finished"; "error"; "aborted"; "interrupted"].

Section Strings.
(** [Number.prototype.toString] of a number that is not an integer. *)
Context (number_text : Q -> string).

(** [String(v)]; the elements of an array are joined by commas. *)
Fixpoint string_of (v : json) : string :=
  match v with
  | JNull => "null"
  | JBool b => if b then "true" else "false"
  | JNum q => if is_integer q then pretty (to_integer q) else number_text q
  | JStr s => s
  | JArr l =>
      match l with
      | [] => ""
      | x :: l' =>
          (match x with JNull => "" | _ => string_of x end)
          +:+ (fix rest (l : list json) : string :=
                 match l with
                 | [] => ""
                 | x :: l => "," +:+ (match x with JNull => "" | _ => string_of x end) +:+ rest l
                 end) l'
      end
  | JObj _ => "[object Object]"
  end.

Definition js_String (v : option json) : string := match v with Some v => string_of v | None => "undefined" end.

(** The run of the turn has ended ([ended] of [collect]). *)
(* @src packages/agent-ts/src/testing/index.ts 238-243 collect *)
Definition ended (conversationId : string) (from : nat) (until : list string) (s : FakeConvergerServer) : bool :=
  existsb (fun r => bool_decide (r_conversationId r = Some conversationId) && bool_decide (str_at "type" (r_frame r) = Some "run")
           && bool_decide (js_String (member "data" (r_frame r) ≫= member "status") ∈ until)) (drop from (received s)).

(* @src packages/agent-ts/src/testing/index.ts 43-59 TurnResult *)
Record TurnResult := mkTurnResult {
                                   tr_frames : list json;
                                   tr_messages : list json;
                                   tr_texts : list string;
                                   tr_toolCalls : list (option json);
                                   tr_streamed : string;
                                   tr_interrupts : list json;
                                   tr_status : option string;
}.

(** [typeof v === "object"], which [null] satisfies. *)
Definition typeof_object (v : option json) : bool :=
  match v with Some (JObj _ | JArr _ | JNull) => true | _ => false end.

(** Reading a member of [null] or [undefined] throws. *)
Definition read_member (key : string) (v : option json) : option (option json) :=
  match v with None | Some JNull => None | Some v => Some (member key v) end.

Definition of_type (t : string) (f : json) : bool := bool_decide (str_at "type" f = Some t).

(** [None]: it throws. *)
(* @src packages/agent-ts/src/testing/index.ts 391-405 summarise *)
Definition summarise (frames : list json) : option TurnResult :=
  let kind f := js_String (member "type" f) in
  let messages := filter (fun f => negb (bool_decide (kind f ∈ NATIVE)) && negb (bool_decide (kind f ∈ TRANSIENT))
                          && typeof_object (member "data" f) = true) frames in
  texts ← mapM (fun f => js_String <$> read_member "text" (member "data" f)) (filter (fun f => of_type "text" f = true) messages);
  let toolCalls := map (member "data") (filter (fun f => of_type "tool_call" f = true) frames) in
  let streamed := fold_right (fun f acc => js_String (member "chunk" f ≫= member "content") +:+ acc) ""
    (filter (fun f => of_type "genui" f && bool_decide ((member "chunk" f ≫= str_at "type") = Some "text") = true) frames) in
  status ← match last (filter (fun f => of_type "run" f = true) frames) with
           | None => Some None
           | Some r => (fun v => Some (js_String v)) <$> read_member "status" (member "data" r)
           end;
  Some (mkTurnResult frames messages texts toolCalls streamed (filter (fun f => of_type "interrupt" f = true) frames) status).

(** [turn] and [collect] once the run has ended: what the agent sent since. *)
(* @src packages/agent-ts/src/testing/index.ts 244-248 collect *)
Definition collected (conversationId : string) (from : nat) (s : FakeConvergerServer) : option TurnResult :=
  summarise (map r_frame (filter (fun r => r_conversationId r = Some conversationId) (drop from (received s)))).
End Strings.
