(* ===== verification/FakeServerFacts.v ===== *)
(** * FakeServerFacts: the fake server as append-only logs
    ([packages/agent-ts/src/testing/index.ts]).

    The server is driven by the inputs below: its sockets, and the test that
    owns it.  The abstract server is a log per conversation and the log entries
    known by a clientId; [appended] says what an input appends, and the server
    refines it ([server_refines_log]). *)

From stdpp Require Import base gmap sets list strings pretty.
From Stdlib Require Import ZArith QArith Lia.
From S2P Require Import Prelude JsMap Json AgentFrames FakeServer.

Open Scope string_scope.
Open Scope list_scope.
Open Scope Z_scope.

(** What can happen to a server; the last four are assignments to its public
    fields. *)
Inductive server_input :=
| SConnect
| SClosed (i : nat)
| SMessage (now : Z) (i : nat) (message : json)
| SUserSays (now : Z) (conversationId : string) (message : said) (delivers : bool) (sender : option string)
| SBotSays (now : Z) (conversationId message : string)
| SDeliver (conversationId : string) (frame : FakeFrame)
| SBroadcast (frame : FakeFrame)
| SCloseAll (code : Z) (reason : string)
| SKill
| SRejectToken (token : string)
| SSendError (e : FakeFrame)
| SSwallowAcks (b : bool)
| SExpiresAt (e : option Z).

Definition server_step (s : FakeConvergerServer) (x : server_input) : FakeConvergerServer :=
  match x with
  | SConnect => onConnection s
  | SClosed i => onSocketClose i s
  | SMessage now i m => onMessage now i m s
  | SUserSays now c m d u => (userSays now c m d u s).2
  | SBotSays now c m => (botSays now c m s).2
  | SDeliver c f => deliver c f s
  | SBroadcast f => broadcast f s
  | SCloseAll code reason => closeAll code reason s
  | SKill => kill s
  | SRejectToken t => s <| rejectedTokens ::= fun l => l ∪ {[t]} |>
  | SSendError e => s <| sendErrors ::= fun l => l ++ [e] |>
  | SSwallowAcks b => s <| swallowAcks := b |>
  | SExpiresAt e => s <| expiresAt := e |>
  end.

Definition server_run (l : list server_input) (s : FakeConvergerServer) : FakeConvergerServer := fold_left server_step l s.

(** ** The abstract server *)

(** The logs, and the entries known by a key. *)
Definition logs (s : FakeConvergerServer) := (transcripts s, keys s).

(** An entry to append: its conversation, its frame without the seq, its key. *)
Record entry := mkEntry { e_conversation : string; e_frame : FakeFrame; e_key : option string }.

Definition with_seq (n : Z) (f : FakeFrame) : FakeFrame := map_set "seq" (num n) f.

Definition append (e : entry) (l : gmap string (list FakeFrame) * gmap string FakeFrame)
    : gmap string (list FakeFrame) * gmap string FakeFrame :=
  let t := l.1 !! e_conversation e ?? [] in
  let f := with_seq (Z.of_nat (length t) + 1) (e_frame e) in
  (<[e_conversation e := t ++ [f]]> l.1, match e_key e with Some k => <[k := f]> l.2 | None => l.2 end).

(** The envelope of a message from an agent. *)
Definition enveloped (m : json) : option (string * string * FakeFrame) :=
  match str_at "type" m, str_at "conversationId" m, member "frame" m with
  | None, Some c, Some (JObj f) => match str (assoc "type" f) with Some t => Some (c, t, f) | None => None end
  | _, _, _ => None
  end.

(** What a message of an agent appends: a native frame, or a message frame
    that is neither refused nor known. *)
Definition message_entry (now : Z) (m : json) (s : FakeConvergerServer) : option entry :=
  match enveloped m with
  | None => None
  | Some (c, t, f) =>
      if String.eqb t "sync" || bool_decide (t ∈ TRANSIENT) then None
      else if bool_decide (t ∈ NATIVE) then Some (mkEntry c (map_delete "seq" f) None)
      else match sendErrors s with
           | _ :: _ => None
           | [] =>
               let key := dedup_key c <$> client_key f in
               match k ← key; keys s !! k with
               | Some _ => None
               | None => Some (mkEntry c (stored_frame now (str (assoc "id" f) ?? (act_id s).1) f) key)
               end
           end
  end.

(** The frame of a user's turn, before it is stored. *)
Definition user_frame (now : Z) (m : said) (sender : option string) (s : FakeConvergerServer) : FakeFrame :=
  spread [("id", JStr (act_id s).1); ("from", JStr "user");
          ("sender", JObj [("id", JStr (sender ?? "user-1")); ("role", JStr "user")]); ("timestamp", num now)]
    match m with
    | SaysText t => [("type", JStr "text"); ("data", JObj [("text", JStr t)])]
    | SaysFrame f => f
    end.

Definition bot_frame (now : Z) (m : string) (s : FakeConvergerServer) : FakeFrame :=
  [("type", JStr "text"); ("id", JStr (act_id s).1); ("from", JStr "bot");
   ("sender", JObj [("id", JStr "other-bot"); ("role", JStr "bot")]); ("data", JObj [("text", JStr m)]); ("timestamp", num now)].

Definition appended (x : server_input) (s : FakeConvergerServer) : option entry :=
  match x with
  | SMessage now _ m => message_entry now m s
  | SUserSays now c m _ u => Some (mkEntry c (map_delete "meta" (user_frame now m u s)) None)
  | SBotSays now c m => Some (mkEntry c (bot_frame now m s) None)
  | _ => None
  end.

(** ** Sending touches no log *)

Lemma logs_send i m s : logs (send i m s) = logs s.
Proof. unfold send. by case_bool_decide. Qed.

Lemma logs_fold {B} (f : FakeConvergerServer -> B -> FakeConvergerServer) l s :
  (forall s b, logs (f s b) = logs s) -> logs (fold_left f l s) = logs s.
Proof. intros Hf. revert s. induction l as [|b l IH]; intros s; simpl; [done|]. by rewrite IH. Qed.

Lemma logs_replay i c w s : logs (replay i c w s) = logs s.
Proof. unfold replay. apply logs_fold. intros s0 f. destruct (above w f); [apply logs_send | done]. Qed.

Lemma logs_deliver c f s : logs (deliver c f s) = logs s.
Proof. apply logs_fold. intros. apply logs_send. Qed.

Lemma logs_broadcast f s : logs (broadcast f s) = logs s.
Proof. apply logs_fold. intros. apply logs_send. Qed.

Lemma logs_closeAll code reason s : logs (closeAll code reason s) = logs s.
Proof. unfold closeAll. by rewrite logs_fold. Qed.

Lemma logs_kill s : logs (kill s) = logs s.
Proof. unfold kill. by rewrite logs_fold. Qed.

Lemma logs_hello i m s : logs (onHello i m s) = logs s.
Proof.
  unfold onHello. cbv zeta. destruct (match str_at "token" m with Some _ => _ | None => _ end).
  - rewrite logs_fold by (intros ? [id w]; apply logs_replay). by rewrite logs_send.
  - change (logs (send i (error_message "unauthorized" "invalid token" 2000) (s <| hellos ::= fun l => l ++ [m] |>)) = logs s).
    by rewrite logs_send.
Qed.

Lemma logs_bare now i t m s : logs (onBare now i t m s) = logs s.
Proof. unfold onBare. cbv zeta. repeat case_match; rewrite ?logs_hello, ?logs_send; done. Qed.

Lemma logs_store c f s : logs (store c f s).2 = append (mkEntry c f None) (logs s).
Proof. done. Qed.

Lemma logs_act_id s : logs (act_id s).2 = logs s.
Proof. done. Qed.

Lemma append_key c f k l :
  append (mkEntry c f (Some k)) l
  = let l' := append (mkEntry c f None) l in (l'.1, <[k := with_seq (Z.of_nat (length (l.1 !! c ?? [])) + 1) f]> l'.2).
Proof. done. Qed.

Lemma logs_message_frame now i c t f s :
  logs (onMessageFrame now i c t f s)
  = match sendErrors s, (k ← dedup_key c <$> client_key f; keys s !! k) with
    | _ :: _, _ | _, Some _ => logs s
    | [], None => append (mkEntry c (stored_frame now (str (assoc "id" f) ?? (act_id s).1) f) (dedup_key c <$> client_key f)) (logs s)
    end.
Proof.
  unfold onMessageFrame. destruct (sendErrors s); [|by rewrite logs_send].
  destruct (client_key f) as [x|]; simpl.
  - destruct (keys s !! dedup_key c x) as [g|]; simpl.
    + destruct (swallowAcks s); [done | by rewrite logs_send].
    + destruct (str (assoc "id" f)) as [id|]; simpl; destruct (swallowAcks _); rewrite ?logs_send; done.
  - destruct (str (assoc "id" f)) as [id|]; done.
Qed.

Lemma logs_message now i m s :
  logs (onMessage now i m s) = match message_entry now m s with Some e => append e (logs s) | None => logs s end.
Proof.
  unfold onMessage, message_entry, enveloped. destruct (str_at "type" m) as [t|]; [apply logs_bare|].
  destruct (str_at "conversationId" m) as [c|]; [|done]. destruct (member "frame" m) as [[| | | | |f]|]; try done.
  destruct (str (assoc "type" f)) as [t|]; [|done]. unfold onEnveloped. cbv zeta.
  set (s1 := s <| received ::= _ |>). assert (H1 : logs s1 = logs s) by done.
  destruct (String.eqb t "sync"); [by rewrite logs_replay|]. simpl. destruct (bool_decide (t ∈ TRANSIENT)); [done|].
  destruct (bool_decide (t ∈ NATIVE)); [done|]. rewrite logs_message_frame.
  change (sendErrors s1) with (sendErrors s). change (keys s1) with (keys s). change (act_id s1).1 with (act_id s).1. rewrite H1.
  destruct (sendErrors s); [|done]. by destruct (_ ≫= _).
Qed.

Lemma step_logs s x :
  logs (server_step s x) = match appended x s with Some e => append e (logs s) | None => logs s end.
Proof.
  destruct x; try done; simpl.
  - apply logs_message.
  - unfold userSays. simpl. destruct delivers; [by rewrite logs_deliver | done].
  - by rewrite logs_deliver.
  - apply logs_deliver.
  - apply logs_broadcast.
  - apply logs_closeAll.
  - apply logs_kill.
Qed.

(** ** Properties *)

(** C28. The server is a set of append-only logs: whatever happens to it, its
    transcripts and its table of known clientIds change by at most one append,
    with the next seq of the conversation, and by exactly the entry that
    [appended] reads from the input. *)
Theorem server_refines_log (s : FakeConvergerServer) (x : server_input) :
  logs (server_step s x) = match appended x s with Some e => append e (logs s) | None => logs s end.
Proof. apply step_logs. Qed.

(** Whatever a step appends under a key is new, and of the key's conversation. *)
Lemma appended_key x s e k :
  appended x s = Some e -> e_key e = Some k ->
  (exists id, k = dedup_key (e_conversation e) id) /\ keys s !! k = None.
Proof.
  destruct x; simpl; try done; [|by intros [= <-] ..]. unfold message_entry.
  destruct (enveloped message) as [[[c t] f]|]; [|done]. destruct (_ || _); [done|]. destruct (bool_decide _); [by intros [= <-]|].
  destruct (sendErrors s); [|done]. destruct (client_key f) as [id|] eqn:Hc; simpl; [|by intros [= <-]].
  destruct (keys s !! dedup_key c id) eqn:Hk; [done|]. intros [= <-] [= <-]. simpl. split; [by exists id | done].
Qed.

(** The logs are sound: seqs count from 1, and a known frame is in the
    transcript of its conversation. *)
Record logs_ok (s : FakeConvergerServer) : Prop := {
  lo_seq : forall c i f, transcript_of c s !! i = Some f -> assoc "seq" f = Some (num (Z.of_nat i + 1));
  lo_key : forall k f, keys s !! k = Some f -> exists c id, k = dedup_key c id /\ f ∈ transcript_of c s;
}.

Lemma transcript_append c e s s' :
  logs s' = append e (logs s) ->
  transcript_of c s' = transcript_of c s ++
    (if bool_decide (e_conversation e = c) then [with_seq (Z.of_nat (length (transcript_of c s)) + 1) (e_frame e)] else []).
Proof.
  unfold transcript_of, logs, append. intros [= Ht _]. rewrite Ht. simpl. case_bool_decide as H; subst.
  - by rewrite lookup_insert_eq.
  - by rewrite lookup_insert_ne, app_nil_r.
Qed.

Lemma keys_append e s s' :
  logs s' = append e (logs s) ->
  keys s' = match e_key e with
            | Some k => <[k := with_seq (Z.of_nat (length (transcript_of (e_conversation e) s)) + 1) (e_frame e)]> (keys s)
            | None => keys s
            end.
Proof. unfold logs, append. by intros [= _ ->]. Qed.

Lemma assoc_with_seq n f : assoc "seq" (with_seq n f) = Some (num n).
Proof. unfold with_seq. by rewrite assoc_set, String.eqb_refl. Qed.

Lemma logs_ok_same s s' : logs s' = logs s -> logs_ok s -> logs_ok s'.
Proof. unfold logs. intros [= Ht Hk] [H1 H2]. split; unfold transcript_of; [rewrite Ht | rewrite Ht, Hk]; assumption. Qed.

Lemma server_logs_ok s x : logs_ok s -> logs_ok (server_step s x).
Proof.
  intros Hok. pose proof (step_logs s x) as Hr. destruct (appended x s) as [e|] eqn:Ha; [|by eapply logs_ok_same].
  destruct Hok as [H1 H2]. split.
  - intros c i f. rewrite (transcript_append c e s _ Hr). case_bool_decide as Hc.
    + intros [Hi|[Hi Hf]]%lookup_app_Some; [by eapply H1|]. apply list_lookup_singleton_Some in Hf as [Hz <-].
      rewrite assoc_with_seq. change (list (string * json)) with FakeFrame in *. by replace i with (length (transcript_of c s)) by lia.
    + rewrite app_nil_r. apply H1.
  - intros k f. rewrite (keys_append e s _ Hr). intros Hk.
    assert (Hold : keys s !! k = Some f -> exists c id, k = dedup_key c id /\ f ∈ transcript_of c (server_step s x)).
    { intros (c & id & -> & Hin)%H2. exists c, id. split; [done|]. rewrite (transcript_append c e s _ Hr). apply elem_of_app. by left. }
    destruct (e_key e) as [k0|] eqn:Hk0; [|by apply Hold]. apply lookup_insert_Some in Hk as [[<- <-]|[_ Hk]]; [|by apply Hold].
    destruct (appended_key x s e k0 Ha Hk0) as [[id ->] _]. exists (e_conversation e), id. split; [done|].
    rewrite (transcript_append _ e s _ Hr), bool_decide_eq_true_2 by done. apply elem_of_app. right. apply list_elem_of_here.
Qed.

Lemma new_logs_ok now : logs_ok (new_server now).
Proof. split; unfold transcript_of; simpl; intros; simplify_map_eq. Qed.

Lemma server_run_ok l s : logs_ok s -> logs_ok (server_run l s).
Proof. revert s. induction l as [|x l IH]; intros s Hs; [done|]. by apply IH, server_logs_ok. Qed.

(** Logs only grow. *)
Record extends (s s' : FakeConvergerServer) : Prop := {
  ex_transcript : forall c, transcript_of c s `prefix_of` transcript_of c s';
  ex_keys : keys s ⊆ keys s';
}.

#[export] Instance extends_preorder : PreOrder extends.
Proof. split; [by split | intros a b c [H1 H2] [H3 H4]; split; [intros x; exact (transitivity (H1 x) (H3 x)) | exact (transitivity H2 H4)]]. Qed.

Lemma server_extends s x : extends s (server_step s x).
Proof.
  pose proof (step_logs s x) as Hr. destruct (appended x s) as [e|] eqn:Ha.
  - split; [intros c; rewrite (transcript_append c e s _ Hr); by eexists|].
    rewrite (keys_append e s _ Hr). destruct (e_key e) as [k|] eqn:Hk; [|done].
    apply insert_subseteq. by destruct (appended_key x s e k Ha Hk).
  - unfold logs in Hr. injection Hr as Ht Hk. split; [intros c; unfold transcript_of; by rewrite Ht | by rewrite Hk].
Qed.

Lemma server_run_extends l s : extends s (server_run l s).
Proof. revert s. induction l as [|x l IH]; intros s; [done|]. etransitivity; [apply server_extends | apply IH]. Qed.

(** A send the server knows is never stored twice: from the moment a
    clientId has an entry, through any later run, another frame under that
    clientId appends nothing, and is acked as a duplicate with the id and the
    seq of the entry, which is still the frame at that seq of its transcript. *)
Theorem resend_acked_as_first (l : list server_input) (s0 : FakeConvergerServer) (c x t : string) (stored frame : FakeFrame)
    (now : Z) (i : nat) (m : json) :
  let s := server_run l s0 in
  logs_ok s0 -> keys s0 !! dedup_key c x = Some stored ->
  enveloped m = Some (c, t, frame) -> client_key frame = Some x ->
  t <> "sync" -> t ∉ TRANSIENT -> t ∉ NATIVE -> sendErrors s = [] -> swallowAcks s = false -> i ∈ open_sockets s ->
  let s' := server_step s (SMessage now i m) in
  logs s' = logs s /\ log s' = OSend i (envelope c (ack_of now x stored true)) :: log s /\
  exists c' id n, dedup_key c x = dedup_key c' id /\ transcript_of c' s' !! n = Some stored /\
                  assoc "seq" stored = Some (num (Z.of_nat n + 1)).
Proof.
  intros s Hok Hk0 Hm Hx H1 H2 H3 He Hw Hi s'.
  assert (Hk : keys s !! dedup_key c x = Some stored) by (by eapply lookup_weaken, ex_keys, server_run_extends).
  assert (Hl : logs s' = logs s).
  { subst s'. rewrite step_logs. simpl. unfold message_entry. rewrite Hm.
    rewrite (proj2 (String.eqb_neq t "sync") H1), !bool_decide_eq_false_2, He, Hx by done. simpl. by rewrite Hk. }
  split; [exact Hl|]. split.
  - subst s'. simpl. unfold onMessage. unfold enveloped in Hm. destruct (str_at "type" m); [done|].
    destruct (str_at "conversationId" m); [|done]. destruct (member "frame" m) as [[| | | | |f]|]; try done.
    destruct (str (assoc "type" f)) as [t'|]; [|done]. injection Hm as -> -> ->. unfold onEnveloped. cbv zeta.
    rewrite (proj2 (String.eqb_neq t "sync") H1), !bool_decide_eq_false_2 by done. unfold onMessageFrame. simpl.
    rewrite He, Hx. simpl. rewrite Hk. simpl. rewrite Hw. unfold send. by rewrite bool_decide_eq_true_2.
  - assert (Hok' : logs_ok s') by (apply server_logs_ok, server_run_ok, Hok).
    assert (Hk' : keys s' !! dedup_key c x = Some stored) by (unfold logs in Hl; injection Hl as _ ->; done).
    destruct (lo_key _ Hok' _ _ Hk') as (c' & id & He' & [n Hn]%list_elem_of_lookup). exists c', id, n.
    split_and!; [done | done | by eapply lo_seq].
Qed.

(** What [replay] sends, given how a transcript is numbered. *)
Lemma replay_sends i c w s :
  i ∈ open_sockets s ->
  log (replay i c w s) = rev (map (fun f => OSend i (envelope c f)) (filter (fun f => above w f = true) (transcript_of c s))) ++ log s.
Proof.
  unfold replay. generalize (transcript_of c s) as t. intros t. revert s. induction t as [|f t IH]; intros s Hi; [done|].
  cbn [fold_left]. destruct (above w f) eqn:Ha.
  - rewrite filter_cons_True by done. simpl. rewrite IH; unfold send; rewrite bool_decide_eq_true_2 by done; [|done].
    simpl. by rewrite <- app_assoc.
  - rewrite filter_cons_False by congruence. by apply IH.
Qed.

Lemma above_numbered (t : list FakeFrame) k w :
  (forall i f, t !! i = Some f -> assoc "seq" f = Some (num (Z.of_nat (k + i) + 1))) ->
  filter (fun f => above (Some (inject_Z (Z.of_nat w))) f = true) t = drop (w - k) t.
Proof.
  revert k. induction t as [|f t IH]; intros k H; [by rewrite drop_nil|].
  assert (Hf : above (Some (inject_Z (Z.of_nat w))) f = bool_decide (w <= k)%nat).
  { unfold above, seq_of. rewrite (H 0%nat f eq_refl). simpl. rewrite Nat.add_0_r. destruct (Qlt_le_dec _ _) as [Hlt|Hle].
    - rewrite <- Zlt_Qlt in Hlt. rewrite bool_decide_eq_true_2 by lia. done.
    - rewrite <- Zle_Qle in Hle. rewrite bool_decide_eq_false_2 by lia. done. }
  specialize (IH (S k)). rewrite Nat.sub_succ_r in IH.
  assert (Ht : forall i g, t !! i = Some g -> assoc "seq" g = Some (num (Z.of_nat (S k + i) + 1))).
  { intros i g Hg. rewrite (H (S i) g Hg). do 3 f_equal. lia. }
  case_bool_decide as Hw.
  - rewrite filter_cons_True by congruence. rewrite IH by done. by replace (w - k)%nat with 0%nat by lia.
  - rewrite filter_cons_False by congruence. rewrite IH by done. by replace (w - k)%nat with (S (Nat.pred (w - k))) by lia.
Qed.

(** A replay from a watermark sends exactly the frames of the transcript
    after that position, each once, in order: nothing is skipped and nothing
    at or below the watermark is repeated. *)
Theorem replay_exact (l : list server_input) (now : Z) (i : nat) (c : string) (w : nat) :
  let s := server_run l (new_server now) in
  i ∈ open_sockets s ->
  log (replay i c (Some (inject_Z (Z.of_nat w))) s)
  = rev (map (fun f => OSend i (envelope c f)) (drop w (transcript c s))) ++ log s.
Proof.
  intros s Hi. rewrite replay_sends by done. do 3 f_equal. unfold transcript.
  rewrite (above_numbered _ 0 w); [by rewrite Nat.sub_0_r|].
  apply (lo_seq s). apply server_run_ok, new_logs_ok.
Qed.

(** ** What the server sends *)

(** The message [x] brings a frame of conversation [c] known by the clientId [y]. *)
Definition sends (x : server_input) (c y : string) : Prop :=
  match x with
  | SMessage _ _ m => exists t f, enveloped m = Some (c, t, f) /\ client_key f = Some y
  | _ => False
  end.

(** The outputs of a step that ended in [s]: bare frames, closes, stored frames
    (a user's turn with its [meta], too), errors, acks of known entries, and
    what the test made the server send. *)
Inductive sent_from (s : FakeConvergerServer) (x : server_input) : output -> Prop :=
| sf_bare i m t : str_at "type" m = Some t -> sent_from s x (OSend i m)
| sf_close i code reason : sent_from s x (OCloseSocket i code reason)
| sf_terminate i : sent_from s x (OTerminate i)
| sf_stored i c f : f ∈ transcript_of c s -> sent_from s x (OSend i (envelope c f))
| sf_meta i c f m : f ∈ transcript_of c s -> sent_from s x (OSend i (envelope c (map_set "meta" m f)))
| sf_error i c d : sent_from s x (OSend i (envelope c (error_frame d)))
| sf_ack i c y f now d : sends x c y -> keys s !! dedup_key c y = Some f -> sent_from s x (OSend i (envelope c (ack_of now y f d)))
| sf_told i c f : x = SDeliver c f -> sent_from s x (OSend i (envelope c f))
| sf_cast i f : x = SBroadcast f -> sent_from s x (OSend i (JObj f)).

(** Between two states, only outputs of a kind. *)
Definition says_only (P : output -> Prop) (s s' : FakeConvergerServer) : Prop :=
  exists outs, log s' = outs ++ log s /\ Forall P outs.

#[export] Instance says_only_preorder P : PreOrder (says_only P).
Proof.
  split; [intros s; by exists []|]. intros a b c (o1 & H1 & F1) (o2 & H2 & F2). exists (o2 ++ o1).
  rewrite H2, H1, app_assoc. split; [done|]. by apply Forall_app.
Qed.

Lemma says_nothing P s s' : log s' = log s -> says_only P s s'.
Proof. intros H. by exists []. Qed.

Lemma says_one P o s s' : log s' = o :: log s -> P o -> says_only P s s'.
Proof. intros H Ho. exists [o]. split; [done|]. by constructor. Qed.

Lemma says_send P i m s : P (OSend i m) -> says_only P s (send i m s).
Proof. intros HP. unfold send. case_bool_decide; [by eapply says_one | done]. Qed.

Lemma says_fold {B} P (Q : FakeConvergerServer -> Prop) (f : FakeConvergerServer -> B -> FakeConvergerServer) l s :
  (forall s b, b ∈ l -> Q s -> Q (f s b) /\ says_only P s (f s b)) -> Q s -> says_only P s (fold_left f l s).
Proof.
  revert s. induction l as [|b l IH]; intros s Hf HQ; simpl; [done|].
  destruct (Hf s b ltac:(apply list_elem_of_here) HQ) as [HQ' Hb]. etransitivity; [exact Hb|].
  apply IH; [|done]. intros s0 b0 Hb0. apply Hf. by apply list_elem_of_further.
Qed.

Lemma says_deliver P c f s : (forall i, P (OSend i (envelope c f))) -> says_only P s (deliver c f s).
Proof. intros HP. apply (says_fold P (fun _ => True)); [|done]. intros. split; [done|]. by apply says_send. Qed.

Lemma says_replay P i c w s :
  (forall f, f ∈ transcript_of c s -> P (OSend i (envelope c f))) -> says_only P s (replay i c w s).
Proof.
  intros HP. unfold replay. apply (says_fold P (fun _ => True)); [|done]. intros s0 f Hf _. split; [done|].
  destruct (above w f); [by apply says_send, HP | done].
Qed.

Lemma transcript_logs c s s' : logs s' = logs s -> transcript_of c s' = transcript_of c s.
Proof. unfold logs, transcript_of. by intros [= -> _]. Qed.

Lemma says_hello P i m s :
  (forall i m t, str_at "type" m = Some t -> P (OSend i m)) -> (forall i code r, P (OCloseSocket i code r)) ->
  (forall i c f, f ∈ transcript_of c s -> P (OSend i (envelope c f))) -> says_only P s (onHello i m s).
Proof.
  intros Hb Hc Ht. unfold onHello. cbv zeta. destruct (match str_at "token" m with Some _ => _ | None => _ end).
  - match goal with |- says_only _ _ (fold_left _ _ (send i ?w ?y)) => set (s1 := y); transitivity (send i w s1) end.
    { transitivity s1; [by apply says_nothing|]. by eapply says_send, Hb. }
    apply (says_fold P (fun s0 => logs s0 = logs s)); [|by rewrite logs_send].
    intros s0 [c w] _ Hl. split; [by rewrite logs_replay|]. apply says_replay. intros f. rewrite (transcript_logs c s s0 Hl). apply Ht.
  - set (s1 := s <| hellos ::= _ |>). transitivity (send i (error_message "unauthorized" "invalid token" 2000) s1).
    { transitivity s1; [by apply says_nothing|]. by eapply says_send, Hb. }
    eapply says_one; [done | apply Hc].
Qed.

Lemma says_bare P now i t m s :
  (forall i m t, str_at "type" m = Some t -> P (OSend i m)) -> (forall i code r, P (OCloseSocket i code r)) ->
  (forall i c f, f ∈ transcript_of c s -> P (OSend i (envelope c f))) -> says_only P s (onBare now i t m s).
Proof.
  intros Hb Hc Ht. unfold onBare. cbv zeta. set (s1 := s <| received ::= _ |>). transitivity s1; [by apply says_nothing|].
  destruct (String.eqb t "hello"); [by apply says_hello|].
  destruct (String.eqb t "ping"); [|destruct (String.eqb t "auth")]; eapply says_send, Hb; [|reflexivity..].
  by destruct (member "nonce" m).
Qed.

Lemma says_all P {B} (f : FakeConvergerServer -> B -> FakeConvergerServer) l s :
  (forall s b, says_only P s (f s b)) -> says_only P s (fold_left f l s).
Proof. intros Hf. by apply (says_fold P (fun _ => True)). Qed.

Lemma says_message_frame x now i c t f s :
  (forall y, client_key f = Some y -> sends x c y) ->
  says_only (sent_from (onMessageFrame now i c t f s) x) s (onMessageFrame now i c t f s).
Proof.
  intros Hx. set (s' := onMessageFrame now i c t f s). unfold s' at 2, onMessageFrame. destruct (sendErrors s) as [|e rest] eqn:He.
  2: { etransitivity; [|apply says_send, sf_error]. by apply says_nothing. }
  destruct (client_key f) as [y|] eqn:Hy; simpl; [specialize (Hx y eq_refl)|].
  2: { destruct (str (assoc "id" f)); by apply says_nothing. }
  assert (Hk : match keys s !! dedup_key c y with Some g => keys s' !! dedup_key c y = Some g | None => True end).
  { destruct (keys s !! dedup_key c y) as [g|] eqn:Hk; [|done].
    pose proof (logs_message_frame now i c t f s) as Hl. rewrite He, Hy in Hl. simpl in Hl. rewrite Hk in Hl.
    unfold logs in Hl. fold s' in Hl. injection Hl as _ ->. done. }
  destruct (keys s !! dedup_key c y) as [g|] eqn:Hg; simpl.
  - destruct (swallowAcks s); [done|]. by apply says_send, sf_ack.
  - pose proof (logs_message_frame now i c t f s) as Hl. rewrite He, Hy in Hl. simpl in Hl. rewrite Hg in Hl.
    unfold logs at 1 in Hl. fold s' in Hl. unfold append in Hl. cbn [e_conversation e_frame e_key fst snd] in Hl. injection Hl as _ Hl.
    assert (Hin : keys s' !! dedup_key c y = Some (with_seq (Z.of_nat (length (transcript_of c s)) + 1)
        (stored_frame now (str (assoc "id" f) ?? (act_id s).1) f))) by (rewrite Hl; apply lookup_insert_eq). clear Hl.
    destruct (str (assoc "id" f)) as [id|]; simpl in *; destruct (swallowAcks s); try by apply says_nothing.
    + etransitivity; [|apply says_send, (sf_ack _ _ _ _ _ _ _ _ Hx Hin)]. by apply says_nothing.
    + etransitivity; [|apply says_send, (sf_ack _ _ _ _ _ _ _ _ Hx Hin)]. by apply says_nothing.
Qed.

Lemma says_message now i m s : says_only (sent_from (onMessage now i m s) (SMessage now i m)) s (onMessage now i m s).
Proof.
  pose proof (eq_refl : enveloped m = enveloped m) as He. unfold enveloped at 1 in He. unfold onMessage. destruct (str_at "type" m) as [t|] eqn:Ht.
  { apply says_bare; [intros; by eapply sf_bare | intros; apply sf_close|]. intros j c f Hf. apply sf_stored.
    by rewrite (transcript_logs c s _ (logs_bare now i t m s)). }
  destruct (str_at "conversationId" m) as [c|]; [|done]. destruct (member "frame" m) as [[| | | | |f]|]; try done.
  destruct (str (assoc "type" f)) as [t|]; [|done]. unfold onEnveloped. cbv zeta. set (s1 := s <| received ::= _ |>).
  assert (H1 : forall P, says_only P s s1) by (intros; by apply says_nothing).
  destruct (String.eqb t "sync").
  { etransitivity; [apply H1|]. apply says_replay. intros g Hg. apply sf_stored.
    by rewrite (transcript_logs c s1 _ (logs_replay i c _ s1)). }
  destruct (bool_decide _); [apply H1|]. destruct (bool_decide _); [by apply says_nothing|].
  etransitivity; [apply H1|]. apply says_message_frame. intros y Hy. exists t, f. by rewrite <- He.
Qed.

Lemma server_says s x : says_only (sent_from (server_step s x) x) s (server_step s x).
Proof.
  destruct x; cbn [server_step]; try by apply says_nothing.
  - apply says_message.
  - unfold userSays. simpl. destruct delivers; [|by apply says_nothing]. set (f := map_delete "meta" _).
    match goal with |- says_only _ _ (deliver _ _ ?y) => set (s1 := y) end.
    etransitivity; [|apply says_deliver].
    + by apply says_nothing.
    + intros i.
      assert (Hin : forall g, map_set "seq" (num (Z.of_nat (length (transcript_of conversationId s)) + 1)) f
        ∈ transcript_of conversationId (deliver conversationId g s1)).
      { intros g. rewrite (transcript_logs conversationId s1 _ (logs_deliver _ _ _)). unfold s1, transcript_of; simpl.
        rewrite lookup_insert_eq. simpl. apply elem_of_app. right. apply list_elem_of_here. }
      destruct (assoc "meta" _); [by apply sf_meta | by apply sf_stored].
  - unfold botSays. simpl. match goal with |- says_only _ _ (deliver _ _ ?y) => set (s1 := y) end.
    etransitivity; [|apply says_deliver]; [by apply says_nothing|]. intros i. apply sf_stored.
    rewrite (transcript_logs conversationId s1 _ (logs_deliver _ _ _)). unfold s1, transcript_of; simpl.
    rewrite lookup_insert_eq. simpl. apply elem_of_app. right. apply list_elem_of_here.
  - apply says_deliver. intros. by apply sf_told.
  - apply says_all. intros. by apply says_send, sf_cast.
  - unfold closeAll. etransitivity; [|apply says_all]; [by apply says_nothing|]. intros s0 c. eapply says_one; [done | apply sf_close].
  - unfold kill. etransitivity; [|apply says_all]; [by apply says_nothing|]. intros s0 c. eapply says_one; [done | apply sf_terminate].
Qed.

(** ** Examples *)

(** An agent connects and sends one message. *)
Definition ex_message (c x : string) : FakeFrame :=
  [("type", JStr "text"); ("clientId", JStr x); ("data", JObj [("text", JStr "hi")])].

Definition ex_hello : json := JObj [("type", JStr "hello"); ("token", JStr "t")].

Definition ex_server_run (c x : string) : list server_input :=
  [SConnect; SMessage 10 0 ex_hello; SMessage 20 0 (envelope c (ex_message c x))].

Definition ex_first : FakeFrame :=
  with_seq 1 (stored_frame 20 "act-1" (ex_message "c" "x")).

Lemma ex_server_key : keys (server_run (ex_server_run "c" "x") (new_server 0)) !! dedup_key "c" "x" = Some ex_first.
Proof. vm_compute. reflexivity. Qed.

(** The message is sent again after a user's turn. *)
Lemma resend_acked_as_first_witness :
  let s0 := server_run (ex_server_run "c" "x") (new_server 0) in
  let s := server_run [SUserSays 30 "c" (SaysText "hello") true None] s0 in
  let s' := server_step s (SMessage 40 0 (envelope "c" (ex_message "c" "x"))) in
  length (transcript "c" s) = 2%nat /\ logs s' = logs s /\
  log s' = OSend 0 (envelope "c" (ack_of 40 "x" ex_first true)) :: log s.
Proof.
  intros s0 s s'. split; [vm_compute; reflexivity|].
  pose proof (resend_acked_as_first [SUserSays 30 "c" (SaysText "hello") true None] s0 "c" "x" "text" ex_first (ex_message "c" "x") 40 0
    (envelope "c" (ex_message "c" "x")) (server_run_ok _ _ (new_logs_ok 0)) ex_server_key eq_refl eq_refl ltac:(done)
    ltac:(refine (bool_decide_eq_true_1 _ _); reflexivity) ltac:(refine (bool_decide_eq_true_1 _ _); reflexivity)
    eq_refl eq_refl ltac:(refine (bool_decide_eq_true_1 _ _); vm_compute; reflexivity)) as (H1 & H2 & _).
  split; [exact H1|exact H2].
Defined.

Lemma replay_exact_witness :
  let s := server_run (ex_server_run "c" "x" ++ [SBotSays 30 "c" "two"; SBotSays 31 "c" "three"]) (new_server 0) in
  length (transcript "c" s) = 3%nat /\
  log (replay 0 "c" (Some (inject_Z 1)) s)
  = rev (map (fun f => OSend 0 (envelope "c" f)) (drop 1 (transcript "c" s))) ++ log s.
Proof.
  intros s. split; [vm_compute; reflexivity|].
  exact (replay_exact (ex_server_run "c" "x" ++ [SBotSays 30 "c" "two"; SBotSays 31 "c" "three"]) 0 0 "c" 1
    ltac:(refine (bool_decide_eq_true_1 _ _); vm_compute; reflexivity)).
Defined.

(** The de-duplication key joins the two ids with ":", which either may
    contain: a send of conversation "a" under "b:c" is taken for the one
    conversation "a:b" stored under "c".  It is acked as a duplicate, with the
    id and seq of that other frame, and never reaches its own transcript. *)
Example colliding_conversations :
  let s := server_run (ex_server_run "a:b" "c") (new_server 0) in
  let s' := server_step s (SMessage 30 0 (envelope "a" (ex_message "a" "b:c"))) in
  transcript "a" s' = [] /\
  exists stored, keys s !! dedup_key "a:b" "c" = Some stored /\
                 log s' = OSend 0 (envelope "a" (ack_of 30 "b:c" stored true)) :: log s.
Proof. split; [vm_compute; reflexivity|]. eexists. split; vm_compute; reflexivity. Qed.
