(* ===== verification/Wire.v ===== *)
(** * Wire: one WebSocket connection attempt
    ([packages/client-ts/src/transport/native.ts], class [NativeTransport], and
    [packages/agent-ts/src/socket.ts], class [AgentSocket]).

    The two classes carry the same machine: open, say hello, ping when idle,
    drop a silent server, report the end once.  The shared methods are written
    once, over what differs (the [flavour]); each package's method is an
    instance of them.  A [WebSocket] constructor, URLs and the socket's
    [readyState] belong to the environment: an attempt's [send] is told whether
    the socket is open and whether writing throws. *)

From stdpp Require Import base gmap sets list strings pretty.
From Stdlib Require Import ZArith QArith Lia Lqa Ascii.
From S2P Require Import Prelude Frames Watermark Json JsMap AgentFrames.

Open Scope string_scope.
Open Scope list_scope.
Open Scope Z_scope.

(** ** Data *)

(* @src packages/client-ts/src/transport/native.ts 36-37 CLIENT_IDLE_CLOSE *)
Definition CLIENT_IDLE_CLOSE : Z := 4000.
(* @src packages/agent-ts/src/socket.ts 46-47 CLIENT_IDLE_CLOSE *)
Definition AGENT_IDLE_CLOSE : Z := 4000.

(** How an attempt ended, as reported to [onClose]. *)
(* @src packages/agent-ts/src/socket.ts 29-37 SocketClose *)
Record SocketClose := mkClose { close_code : Z; close_reason : string; opened_once : bool; retryAfter : option Q }.

(** What the two classes do differently: whether [send] looks at [#closed],
    which parsed messages they accept, and whether they read a frame's [data]
    without checking that it is there. *)
Record flavour := mkFlavour { checks_closed : bool; accepted : json -> bool; reads_data : bool }.

(* @src packages/agent-ts/src/socket.ts 51-58 SocketOptions *)
Record SocketOptions := mkSocketOptions { hello : json; connectTimeoutMs : Q; livenessGraceMs : Q }.

Inductive output :=
| OOpen
| OMessage (message : json)
| OClose (c : SocketClose)
| OSend (message : json)
| OCloseSocket (c : Z) (r : string).

(** [socket]: whether [#socket] is set; [attached]: its callbacks are ours.
    [timer] and [connectTimer]: whether they are armed. *)
(* @src packages/client-ts/src/transport/native.ts 53-67 NativeTransport *)
Record Socket := mkSocket {
  socket : bool;
  attached : bool;
  opened : bool;
  closed : bool;
  welcomed : bool;
  timer : bool;
  connectTimer : bool;
  idleTimeoutMs : Q;
  lastIn : Z;
  lastOut : Z;
  pings : Z;
  retryAfterMs : option Q;
  log : list output;
}.

#[export] Instance eta_socket : Eta Socket :=
  fun s => mkSocket (socket s) (attached s) (opened s) (closed s) (welcomed s) (timer s) (connectTimer s)
    (idleTimeoutMs s) (lastIn s) (lastOut s) (pings s) (retryAfterMs s) (log s).

(** The moment a callback runs: [Date.now()], whether [readyState] is [OPEN],
    whether [socket.send] writes (it may throw). *)
Record Env := mkEnv { now : Z; is_open : bool; writes : bool }.

(* @src packages/agent-ts/src/socket.ts 64-79 constructor *)
Definition new_socket : Socket := mkSocket false false false false false false false 60000 0 0 0 None [].

Definition say (o : output) (s : Socket) : Socket := s <| log ::= cons o |>.

(** [typeof v === "number"] at a member. *)
Definition num_at (key : string) (v : json) : option Q :=
  match member key v with Some (JNum q) => Some q | _ => None end.

(* @src packages/client-ts/src/transport/types.ts 102-111 retryAfterFromReason *)
Definition retryAfterFromReason (reason : string) : option Q :=
  match chars_of reason with
  | "{"%char :: _ => match parse_json (chars_of reason) with Some v => num_at "retryAfterMs" v | None => None end
  | _ => None
  end.

(* @src packages/agent-ts/src/socket.ts 193-202 retryAfterFromReason *)
Definition agent_retryAfterFromReason : string -> option Q := retryAfterFromReason.

(** ** The shared machine *)

Section Machine.
Context (fl : flavour) (opts : SocketOptions).

(** [send]: whether the frame was written. *)
Definition send_on (env : Env) (message : json) (s : Socket) : bool * Socket :=
  if (checks_closed fl && closed s) || negb (socket s) || negb (is_open env) then (false, s)
  else if writes env then (true, say (OSend message) s <| lastOut := now env |>)
  else (false, s).

(** [#finish]: report the end, once. *)
Definition finish (c : Z) (r : string) (s : Socket) : Socket :=
  if closed s then s
  else
    let s := s <| closed := true |> <| timer := false |> <| connectTimer := false |> <| attached := false |> in
    let after := match retryAfterFromReason r with Some q => Some q | None => retryAfterMs s end in
    say (OClose (mkClose c r (opened s) after)) s.

Definition close_on (c : Z) (r : string) (s : Socket) : Socket :=
  let wasOpen := negb (closed s) in
  let s := finish c r s in
  if socket s && wasOpen then say (OCloseSocket c r) s else s.

Definition ping (n : Z) : json := JObj [("type", JStr "ping"); ("nonce", JStr ("p-" +:+ pretty n))].

Definition tick_on (env : Env) (s : Socket) : Socket :=
  if Qlt_le_dec (idleTimeoutMs s + livenessGraceMs opts) (inject_Z (now env - lastIn s)) then
    close_on CLIENT_IDLE_CLOSE "server silent" s
  else if Qlt_le_dec (inject_Z (now env - lastOut s)) (idleTimeoutMs s / 2) then s
  else
    let s := s <| pings ::= Z.succ |> in
    (send_on env (ping (pings s)) s).2.

(** [connect], when the constructor returns a socket. *)
Definition connect_on (s : Socket) : Socket :=
  s <| socket := true |> <| attached := true |> <| connectTimer := true |>.

Definition onopen (env : Env) (s : Socket) : Socket :=
  let s := s <| opened := true |> <| lastIn := now env |> in
  let s := (send_on env (hello opts) s).2 in
  say OOpen (s <| timer := true |>).

Definition is_welcome (v : json) : bool := bool_decide (str_at "type" v = Some "welcome").
Definition is_error (v : json) : bool := bool_decide (str_at "type" v = Some "error").

(** Reading a member of the frame's [data] throws when there is none. *)
Definition data_throws (v : json) : bool :=
  reads_data fl && (is_welcome v || is_error v)
  && match member "data" v with None | Some JNull => true | _ => false end.

(** The [data] of a socket message: a text, or binary. *)
Definition onmessage (env : Env) (data : option (list ascii)) (s : Socket) : Socket :=
  let s := s <| lastIn := now env |> in
  match data with
  | None => s
  | Some text =>
      match parse_json text with
      | None => s
      | Some v =>
          if negb (accepted fl v) then s
          else
            let s :=
              if is_welcome v then
                let s := s <| welcomed := true |> <| connectTimer := false |> in
                match num_at "idleTimeoutMs" (member "limits" (data_of v) ?? JNull) with
                | Some idle => if Qlt_le_dec 0 idle then s <| idleTimeoutMs := idle |> else s
                | None => s
                end
              else if is_error v then
                match num_at "retryAfterMs" (data_of v) with Some q => s <| retryAfterMs := Some q |> | None => s end
              else s in
            if data_throws v then s else say (OMessage v) s
      end
  end.
End Machine.

(** ** The two classes *)

(** A JSON object with a [type]; its [data] is read without a [?.]. *)
(* @src packages/client-ts/src/transport/native.ts 107-116 onmessage *)
Definition native : flavour := mkFlavour false (fun v => bool_decide (is_Some (str_at "type" v))) true.

(** Any JSON object. *)
(* @src packages/agent-ts/src/socket.ts 103-112 onmessage *)
Definition agent : flavour := mkFlavour true is_record false.

(* @src packages/client-ts/src/transport/native.ts 94-105 onopen *)
Definition native_onopen : SocketOptions -> Env -> Socket -> Socket := onopen native.
(* @src packages/client-ts/src/transport/native.ts 107-127 onmessage *)
Definition native_onmessage : Env -> option (list ascii) -> Socket -> Socket := onmessage native.
(* @src packages/client-ts/src/transport/native.ts 135-145 send *)
Definition native_send : Env -> json -> Socket -> bool * Socket := send_on native.
(* @src packages/client-ts/src/transport/native.ts 147-160 close *)
Definition native_close : Z -> string -> Socket -> Socket := close_on.
(* @src packages/client-ts/src/transport/native.ts 162-173 tick *)
Definition native_tick : SocketOptions -> Env -> Socket -> Socket := tick_on native.
(* @src packages/client-ts/src/transport/native.ts 175-195 finish *)
Definition native_finish : Z -> string -> Socket -> Socket := finish.

(* @src packages/agent-ts/src/socket.ts 96-102 onopen *)
Definition agent_onopen : SocketOptions -> Env -> Socket -> Socket := onopen agent.
(* @src packages/agent-ts/src/socket.ts 103-124 onmessage *)
Definition agent_onmessage : Env -> option (list ascii) -> Socket -> Socket := onmessage agent.
(* @src packages/agent-ts/src/socket.ts 135-146 send *)
Definition agent_send : Env -> json -> Socket -> bool * Socket := send_on agent.
(* @src packages/agent-ts/src/socket.ts 148-159 close *)
Definition agent_close : Z -> string -> Socket -> Socket := close_on.
(* @src packages/agent-ts/src/socket.ts 161-172 tick *)
Definition agent_tick : SocketOptions -> Env -> Socket -> Socket := tick_on agent.
(* @src packages/agent-ts/src/socket.ts 174-190 finish *)
Definition agent_finish : Z -> string -> Socket -> Socket := finish.

(** ** The attempt as a state machine *)

(** What can happen: [connect] (whose constructor may throw, which is reported
    from a microtask), the socket's callbacks while attached, the two timers
    while armed, and calls of [send] and [close]. *)
Inductive input :=
| IConnect (constructed : bool)
| IConnectFailed (message : string)
| IOpen
| IMessage (data : option (list ascii))
| IClosed (c : Z) (r : string)
| IInterval
| IConnectTimeout
| ISend (message : json)
| ICloseCall (c : Z) (r : string).

(* @src packages/client-ts/src/transport/native.ts 76-133 connect *)
Definition step (fl : flavour) (opts : SocketOptions) (env : Env) (i : input) (s : Socket) : Socket :=
  match i with
  | IConnect constructed => if socket s || closed s || negb constructed then s else connect_on s
  | IConnectFailed message => finish 1006 message s
  | IOpen => if attached s && negb (opened s) then onopen fl opts env s else s
  | IMessage data => if attached s then onmessage fl env data s else s
  | IClosed c r => if attached s then finish c r s else s
  | IInterval => if timer s then tick_on fl opts env s else s
  | IConnectTimeout => if connectTimer s then close_on CLIENT_IDLE_CLOSE "connect timeout" (s <| connectTimer := false |>) else s
  | ISend message => (send_on fl env message s).2
  | ICloseCall c r => close_on c r s
  end.

(* @src packages/agent-ts/src/socket.ts 85-129 connect *)
Definition agent_step : SocketOptions -> Env -> input -> Socket -> Socket := step agent.

Definition run (fl : flavour) (opts : SocketOptions) (l : list (Env * input)) (s : Socket) : Socket :=
  fold_left (fun s '(env, i) => step fl opts env i s) l s.

(** ** Lemmas *)

Definition is_close (o : output) : bool := match o with OClose _ => true | _ => false end.

(** Calls of the session's handlers. *)
Definition reports (o : output) : bool := match o with OOpen | OMessage _ | OClose _ => true | _ => false end.

(** Before the end no [onClose]; after it one, the last report, with nothing
    armed or attached any more. *)
Definition ends_once (s : Socket) : Prop :=
  if closed s
  then attached s = false /\ timer s = false /\ connectTimer s = false /\
       exists after c before, log s = after ++ OClose c :: before /\
         Forall (fun o => reports o = false) after /\ Forall (fun o => is_close o = false) before
  else Forall (fun o => is_close o = false) (log s).

Section Lemmas.
Context (fl : flavour) (opts : SocketOptions) (env : Env).

Lemma ends_say o s :
  is_close o = false -> (closed s = true -> reports o = false) -> ends_once s -> ends_once (say o s).
Proof.
  intros Hc Hr Hs. unfold ends_once in *. simpl. destruct (closed s).
  - destruct Hs as (? & ? & ? & after & c & before & -> & Ha & Hb). repeat split; try done.
    exists (o :: after), c, before. split; [done|]. split; [constructor; auto|done].
  - by constructor.
Qed.

Lemma send_cases message s :
  send_on fl env message s = (false, s) \/
  send_on fl env message s = (true, say (OSend message) s <| lastOut := now env |>).
Proof. unfold send_on. destruct (_ || _); [by left|]. destruct (writes env); auto. Qed.

Lemma ends_send message s : ends_once s -> ends_once (send_on fl env message s).2.
Proof.
  intros Hs. destruct (send_cases message s) as [->| ->]; [done|]. by apply (ends_say (OSend message) s).
Qed.

Lemma send_closed message s : closed (send_on fl env message s).2 = closed s.
Proof. by destruct (send_cases message s) as [->| ->]. Qed.

Lemma ends_finish c r s : ends_once s -> ends_once (finish c r s).
Proof.
  intros Hs. unfold finish. destruct (closed s) eqn:Hc; [done|]. unfold ends_once in *. rewrite Hc in Hs. simpl.
  repeat split. eexists [], _, (log s). split; [done|]. by split.
Qed.

Lemma finish_closed c r s : closed (finish c r s) = true.
Proof. unfold finish. by destruct (closed s) eqn:E. Qed.

Lemma ends_close c r s : ends_once s -> ends_once (close_on c r s).
Proof.
  intros Hs. unfold close_on. destruct (_ && _); [|by apply ends_finish]. by apply ends_say, ends_finish.
Qed.

Lemma ends_tick s : ends_once s -> ends_once (tick_on fl opts env s).
Proof.
  intros Hs. unfold tick_on. destruct (Qlt_le_dec _ _); [by apply ends_close|]. destruct (Qlt_le_dec _ _); [done|].
  by apply ends_send.
Qed.

Lemma ends_open s : closed s = false -> ends_once s -> ends_once (onopen fl opts env s).
Proof.
  intros Hc Hs. unfold onopen. apply ends_say; [done| |].
  - simpl. by rewrite send_closed, <- Hc.
  - set (s1 := s <| opened := true |> <| lastIn := now env |>).
    assert (ends_once s1) as H1 by done. apply (ends_send (hello opts)) in H1.
    revert H1. unfold ends_once. simpl. rewrite send_closed. subst s1. simpl. by rewrite Hc.
Qed.

Lemma ends_message data s : closed s = false -> ends_once s -> ends_once (onmessage fl env data s).
Proof.
  intros Hc Hs. unfold onmessage. destruct data as [text|]; [|done]. destruct (parse_json text) as [v|]; [|done].
  destruct (negb (accepted fl v)); [done|]. unfold ends_once in *. rewrite Hc in Hs.
  destruct (is_welcome v); [destruct (num_at _ _) as [q|]; [destruct (Qlt_le_dec 0 q)|]|destruct (is_error v); [destruct (num_at _ _)|]];
    destruct (data_throws _ _); simpl; rewrite Hc; by repeat constructor.
Qed.

Lemma ends_step i s : ends_once s -> ends_once (step fl opts env i s).
Proof.
  intros Hs. assert (closed s = true -> attached s = false /\ timer s = false /\ connectTimer s = false) as Hoff.
  { intros Hc. unfold ends_once in Hs. rewrite Hc in Hs. tauto. }
  destruct i; simpl.
  - destruct (socket s || closed s || negb constructed) eqn:E; [done|]. bools. unfold ends_once in *. simpl. by rewrite H1 in *.
  - by apply ends_finish.
  - destruct (attached s && negb (opened s)) eqn:E; [|done]. bools. apply ends_open; [|done].
    destruct (closed s); [|done]. destruct Hoff as [H1 _]; [done|congruence].
  - destruct (attached s) eqn:E; [|done]. apply ends_message; [|done].
    destruct (closed s); [|done]. destruct Hoff as [H1 _]; [done|congruence].
  - destruct (attached s); [by apply ends_finish|done].
  - destruct (timer s); [by apply ends_tick|done].
  - destruct (connectTimer s) eqn:E; [|done]. apply ends_close. unfold ends_once in *. simpl.
    destruct (closed s); [|done]. destruct Hoff as (_ & _ & H3); [done|congruence].
  - by apply ends_send.
  - by apply ends_close.
Qed.
End Lemmas.

Lemma ends_run fl opts l s : ends_once s -> ends_once (run fl opts l s).
Proof.
  revert s. unfold run. induction l as [|[env i] l IH]; intros s Hs; simpl; [done|]. by apply IH, ends_step.
Qed.

(** ** Theorems *)

(** Whatever the socket, the timers and the session do, an attempt reports
    its end at most once; once it has ended it reports nothing more, and its
    timers and callbacks are gone. *)
Theorem attempt_ends_once (fl : flavour) (opts : SocketOptions) (l : list (Env * input)) :
  let s := run fl opts l new_socket in
  if closed s
  then attached s = false /\ timer s = false /\ connectTimer s = false /\
       exists after c before, log s = after ++ OClose c :: before /\
         Forall (fun o => reports o = false) after /\ Forall (fun o => is_close o = false) before
  else Forall (fun o => is_close o = false) (log s).
Proof. apply (ends_run fl opts l new_socket). constructor. Qed.

(** C36. Liveness of a connection, one interval at a time: a tick drops a server
    silent for longer than [idleTimeoutMs] plus the grace (close code 4000);
    otherwise the connection stays, and if the socket takes the ping the client
    has not been silent for [idleTimeoutMs / 2]. *)
Theorem tick_keeps_alive (fl : flavour) (opts : SocketOptions) (env : Env) (s : Socket) :
  closed s = false -> (0 < idleTimeoutMs s)%Q ->
  let s' := tick_on fl opts env s in
  if Qlt_le_dec (idleTimeoutMs s + livenessGraceMs opts) (inject_Z (now env - lastIn s))
  then closed s' = true /\ exists after, log s' = after ++ OClose (mkClose 4000 "server silent" (opened s) (retryAfterMs s)) :: log s
  else closed s' = false /\ lastIn s' = lastIn s /\
       (socket s = true -> is_open env = true -> writes env = true ->
        (inject_Z (now env - lastOut s') < idleTimeoutMs s' / 2)%Q).
Proof.
  intros Hc Hidle s'. subst s'. unfold tick_on. destruct (Qlt_le_dec _ (inject_Z (now env - lastIn s))) as [Hlt|Hle].
  - unfold close_on, finish. rewrite Hc. simpl. destruct (socket s); simpl; (split; [done|]); [by eexists [_]|by exists []].
  - destruct (Qlt_le_dec (inject_Z (now env - lastOut s)) _) as [Hsoon|Hlate]; [done|].
    unfold send_on. simpl. rewrite Hc, andb_false_r. simpl.
    assert (0 < idleTimeoutMs s / 2)%Q as Hhalf by (apply Qlt_shift_div_l; lra).
    destruct (socket s), (is_open env), (writes env); simpl; repeat split; try done. intros _ _ _. rewrite Z.sub_diag. exact Hhalf.
Qed.

Lemma tick_keeps_alive_witness :
  let opts := mkSocketOptions JNull 15000 15000 in
  let s := run agent opts [(mkEnv 0 true true, IConnect true); (mkEnv 0 true true, IOpen)] new_socket in
  log (tick_on agent opts (mkEnv 30000 true true) s) = OSend (ping 1) :: log s /\
  closed (tick_on agent opts (mkEnv 75001 true true) s) = true.
Proof.
  intros opts s. split; [vm_compute; reflexivity|].
  exact (proj1 (tick_keeps_alive agent opts (mkEnv 75001 true true) s ltac:(vm_compute; reflexivity) ltac:(vm_compute; reflexivity))).
Defined.
