(* ===== verification/ChannelToken.v ===== *)
(** * ChannelToken: channel-scoped tokens for an agent
    ([packages/agent-ts/src/token.ts]).

    The platform's [URL] is a parameter.  The provider's closure is a state
    machine over its calls and the answers of the token endpoint; [cached] is
    assigned a microtask before [inflight] is cleared, which the model does in
    one step. *)

From stdpp Require Import base list strings pretty.
From Stdlib Require Import ZArith QArith Lia Lqa.
From S2P Require Import Prelude Watermark Json Rest AgentFrames.

Open Scope string_scope.
Open Scope list_scope.
Open Scope Z_scope.

(* @src packages/agent-ts/src/token.ts 22-30 TokenRequest *)
Inductive token_reason := connect | refresh | rejected.

#[export] Instance token_reason_eq_dec : EqDecision token_reason.
Proof. solve_decision. Defined.

(* @src packages/agent-ts/src/token.ts 32-43 ChannelTokenOptions *)
Record ChannelTokenOptions := mkTokenOptions {
  url : string;
  secret : string;
  userId : option string;
  permissions : option (list string);
  has_fetch : bool;
}.

(* @src packages/agent-ts/src/token.ts 45-50 ChannelToken *)
Record ChannelToken := mkToken { token : string; expiresIn : Q }.

Section Tokens.
(** [new URL]: its [protocol] and [host], or [None] when it throws. *)
Context (URL : string -> option (string * string)) (options : ChannelTokenOptions).

(** [url.replace(/^ws(s?):\/\//i, ...)]. *)
Definition ws_to_http (url : string) : string :=
  let l := chars_of url in
  match strip_prefix (chars_of "wss://") (lower l), strip_prefix (chars_of "ws://") (lower l) with
  | Some _, _ => "http" +:+ str_of (take 1 (drop 2 l)) +:+ "://" +:+ str_of (drop 6 l)
  | _, Some _ => "http://" +:+ str_of (drop 5 l)
  | _, _ => url
  end.

(* @src packages/agent-ts/src/socket.ts 213-216 httpBase *)
Definition httpBase (url : string) : option string :=
  match URL (ws_to_http url) with
  | Some (protocol, host) => Some (protocol +:+ "//" +:+ host)
  | None => None
  end.

(** The request of [generateChannelToken]; without a [fetch], its error;
[inl None] is an error of the platform. *)
(* @src packages/agent-ts/src/token.ts 52-63 generateChannelToken *)
Definition token_request : option AgentError + HttpRequest :=
  if negb (has_fetch options)
    then inl (Some (agent_error "token_error" "no fetch implementation: pass the `fetch` option" None None None))
  else match httpBase (url options) with
       | None => inl None
       | Some base =>
           inr (mkHttp "POST" (base +:+ "/api/v1/converger/tokens/generate")
                [("authorization", "Bearer " +:+ secret options); ("content-type", "application/json")]
                (Some (BJson (JObj ([("scope", JStr "channel")]
                                    ++ (if truthy (userId options) then [("user", JObj [("id", JStr (userId options ?? ""))])] else [])
                                    ++ match permissions options with Some l => [("permissions", JArr (map JStr l))] | None => [] end)))))
       end.

(** What the request comes to: [fetch] rejects, or a response; a body that is
not JSON makes [response.json()] reject. *)
Inductive answer := Rejected | Answered (r : Response).

(** How [generateChannelToken] settles; [inl None] is an error of the platform. *)
(* @src packages/agent-ts/src/token.ts 64-73 generateChannelToken *)
Definition generated (a : answer) : option AgentError + ChannelToken :=
  match a with
  | Rejected => inl None
  | Answered r =>
      if negb (rs_ok r) then
        inl (Some (agent_error (if rs_status r =? 429 then "rate_limited" else "http_error")
                   ("tokens/generate failed with HTTP " +:+ pretty (rs_status r) +:+ ": " +:+ str_of (take 300 (chars_of (rs_text r))))
                   (Some ((rs_status r =? 429) || (500 <=? rs_status r))) None None))
      else match parse_json (chars_of (rs_text r)) with
           | None | Some JNull => inl None
           | Some v =>
               match str_at "token" v with
               | None => inl (Some (agent_error "http_error" "tokens/generate returned no token" None None None))
               | Some t => inr (mkToken t (match member "expires_in" v with Some (JNum q) => q | _ => 1800%Q end))
               end
           end
  end.

(** ** [channelTokenProvider] *)

Context (refreshBeforeMs : option Q).

(* @src packages/agent-ts/src/token.ts 83-83 channelTokenProvider *)
Definition margin : Q := refreshBeforeMs ?? 120000%Q.

(** The closure: [cached], and whether [inflight] is set. *)
(* @src packages/agent-ts/src/token.ts 80-82 channelTokenProvider *)
Record Provider := mkProvider { cached : option (string * Q); inflight : bool }.

Definition new_provider : Provider := mkProvider None false.

(** What a call returns: a resolved promise, or the promise in flight, for
which it may have made the request. *)
Inductive returned := Cached (t : string) | Joined | Requested.

(** A call of the provider ([None]: no context). *)
(* @src packages/agent-ts/src/token.ts 84-97 channelTokenProvider *)
Definition call (reason : option token_reason) (now : Q) (p : Provider) : returned * Provider :=
  let c := if bool_decide (reason = Some rejected) then None else cached p in
  let fresh := match c with Some (t, e) => if Qlt_le_dec now (e - margin)%Q then Some t else None | None => None end in
  match fresh with
  | Some t => (Cached t, mkProvider c (inflight p))
  | None => (if inflight p then Joined else Requested, mkProvider c true)
  end.

(** The request settles. *)
(* @src packages/agent-ts/src/token.ts 88-95 channelTokenProvider *)
Definition settled (r : option AgentError + ChannelToken) (now : Q) (p : Provider) : Provider :=
  match r with
  | inl _ => mkProvider (cached p) false
  | inr t => mkProvider (Some (token t, now + expiresIn t * 1000)%Q) false
  end.

Inductive input := Call (reason : option token_reason) (now : Q) | Settled (r : option AgentError + ChannelToken) (now : Q).

(** The provider, what its calls returned and the requests outstanding. *)
Record machine := mkMachine { provider : Provider; answers : list returned; outstanding : nat }.

Definition step (m : machine) (i : input) : machine :=
  match i with
  | Call reason now =>
      let '(r, p) := call reason now (provider m) in
      mkMachine p (r :: answers m) (outstanding m + match r with Requested => 1 | _ => 0 end)%nat
  | Settled r now =>
      match outstanding m with
      | O => m
      | S n => mkMachine (settled r now (provider m)) (answers m) n
      end
  end.

Definition run (l : list input) : machine := fold_left step l (mkMachine new_provider [] 0).

(** ** Properties *)

(** However its calls and the server's answers interleave, the provider
has at most one token request outstanding, and a call joins it exactly
while there is one. *)
Theorem provider_single_flight (l : list input) :
  let m := run l in
  outstanding m = if inflight (provider m) then 1%nat else 0%nat.
Proof.
  unfold run. assert (H : forall m, outstanding m = (if inflight (provider m) then 1%nat else 0%nat) ->
    outstanding (fold_left step l m) = if inflight (provider (fold_left step l m)) then 1%nat else 0%nat).
  { induction l as [|i l IH]; intros m Hm; [done|]. apply IH. destruct i; simpl.
    - unfold call. set (c := if bool_decide _ then None else cached _). clearbody c.
      destruct c as [[t e]|]; [destruct (Qlt_le_dec _ _)|]; simpl; destruct (inflight (provider m)); lia.
    - destruct (outstanding m) as [|n] eqn:E; [by rewrite E|]. destruct (inflight (provider m)); [|done]. destruct r; simpl; lia. }
  by apply H.
Qed.

(** A call is answered from the cache only with a token that outlives the
margin and that the server has not just refused; a call after a refusal
never gets the refused token. *)
Theorem provider_call_spec (reason : option token_reason) (now : Q) (p : Provider) :
  let '(r, p') := call reason now p in
  match r with
  | Cached t => reason <> Some rejected /\ (exists e, cached p = Some (t, e) /\ now + margin < e)%Q /\ p' = p
  | _ => inflight p' = true /\ (r = Requested <-> inflight p = false) /\
      (reason = Some rejected -> cached p' = None)
  end.
Proof.
  unfold call. case_bool_decide as Hr; simpl.
  - destruct (inflight p); naive_solver.
  - destruct (cached p) as [[t e]|] eqn:E; simpl; [|destruct (inflight p); naive_solver].
    destruct (Qlt_le_dec now (e - margin)%Q) as [Hlt|Hle]; simpl; [|destruct (inflight p); naive_solver].
    split_and!; [done | exists e; split; [done | lra] | destruct p; simpl in *; congruence].
Qed.
End Tokens.
