(* ===== verification/Reply.v ===== *)
(** * Reply: the answer side of one turn
    ([packages/agent-ts/src/reply.ts], classes [ReplyImpl] and [StreamImpl]).

    A reply is a state machine over the handler's calls, the timers, the
    settled promises and the turns of the microtask queue.  [core.send] is
    [OSend], numbered in the order of the calls; [waits] says which async
    function is suspended on which send.  A continuation that waits for nothing but its
    turn ([FlushNext], [StreamFlushed], [StreamsEnded]) is an input of its own,
    so every order the event loop may choose is a run.

    Not modelled: the abort signals themselves (they are handed to
    [waitForAnswer] as given) and a [core.send] that throws. *)

From stdpp Require Import base gmap sets list strings.
From Stdlib Require Import ZArith QArith Lia Ascii.
From S2P Require Import Prelude Json JsMap AgentFrames.

Open Scope string_scope.
Open Scope list_scope.
Open Scope Z_scope.

(** ** Data *)

(* @src packages/agent-ts/src/reply.ts 33-44 StreamMode *)
Inductive StreamMode := Genui | Text | GenuiText.

#[export] Instance StreamMode_eq_dec : EqDecision StreamMode.
Proof. solve_decision. Defined.

(* @src packages/agent-ts/src/reply.ts 46-56 SendOptions *)
Record SendOptions := mkSendOptions {
  so_actions : list json;
  so_metadata : option json;
  so_replyTo : option json;
  so_id : option string;
}.

Definition no_options : SendOptions := mkSendOptions [] None None None.

(* @src packages/agent-ts/src/reply.ts 58-66 ToolCallOptions *)
Record ToolCallOptions := mkToolOptions {
  to_name : option string;
  to_description : option string;
  to_params : option json;
  to_result : option json;
  to_error : option string;
}.

(* @src packages/agent-ts/src/reply.ts 68-80 AskOptions *)
Record AskOptions := mkAskOptions {
  as_actions : list json;
  as_ui : option json;
  as_id : option string;
  as_timeoutMs : option Z;
  as_signal : option nat;
}.

(** What the reply takes from its agent, apart from [send]. *)
(* @src packages/agent-ts/src/reply.ts 138-147 ReplyCore *)
Record ReplyCore := mkCore { streamMode : StreamMode; streamFlushMs : Z; typingRefreshMs : Z }.

(** One call's draw of [randomId] and [nextClientId], and the time. *)
Record Env := mkEnv { now : Z; randomId : string -> string; clientId : string }.

(** A chunk id: the reply's counter, or what [ui] was given. *)
Inductive AIChunk :=
| TextChunk (content : string) (id : Z)
| UiChunk (component : string) (props : json) (id : json)
| DoneChunk (id : Z).

(** The frames the reply builds. *)
Inductive reply_frame :=
| FMessage (type : string) (clientId : string) (data : json) (options : SendOptions)
| FToolCall (id name status : string) (startedAt : Z) (endedAt : option Z) (options : ToolCallOptions)
| FGenui (streamId : string) (done : bool) (chunk : AIChunk)
| FInterrupt (id : string) (payload : json) (options : AskOptions)
| FResolved (id : string) (answer : json)
| FTyping (isTyping : bool)
| FRun (status : string)
| FRaw (frame : json).

Definition num (z : Z) : json := JNum (inject_Z z).
Definition given {A} (key : string) (f : A -> json) (o : option A) : list (string * json) :=
  match o with Some v => [(key, f v)] | None => [] end.
Definition nonempty (key : string) (l : list json) : list (string * json) :=
  match l with [] => [] | _ => [(key, JArr l)] end.

Definition chunk_json (c : AIChunk) : json :=
  match c with
  | TextChunk content id => JObj [("type", JStr "text"); ("content", JStr content); ("id", num id)]
  | UiChunk component props id => JObj [("type", JStr "ui"); ("component", JStr component); ("props", props); ("id", id)]
  | DoneChunk id => JObj [("type", JStr "event"); ("name", JStr "stream_done"); ("id", num id)]
  end.

(** The object handed to [core.send]. *)
Definition encode (f : reply_frame) : json :=
  match f with
  | FMessage type cid data o =>
      JObj ([("type", JStr type); ("clientId", JStr cid); ("data", data)] ++ nonempty "actions" (so_actions o)
            ++ given "metadata" id (so_metadata o) ++ given "replyTo" id (so_replyTo o)
            ++ (if truthy (so_id o) then given "id" JStr (so_id o) else []))
  | FToolCall i name status startedAt endedAt o =>
      JObj [("type", JStr "tool_call");
            ("data", JObj ([("id", JStr i); ("name", JStr name); ("status", JStr status); ("startedAt", num startedAt)]
                           ++ given "description" JStr (to_description o) ++ given "params" id (to_params o)
                           ++ given "result" id (to_result o) ++ given "error" JStr (to_error o) ++ given "endedAt" num endedAt))]
  | FGenui sid d c =>
      JObj [("type", JStr "genui"); ("streamId", JStr sid); ("done", JBool d); ("chunk", chunk_json c)]
  | FInterrupt i payload o =>
      JObj [("type", JStr "interrupt"); ("id", JStr i);
            ("data", JObj ([("payload", payload)] ++ nonempty "actions" (as_actions o) ++ given "ui" id (as_ui o)))]
  | FResolved i answer => JObj [("type", JStr "interrupt_resolved"); ("id", JStr i); ("data", JObj [("answer", answer)])]
  | FTyping b => JObj [("type", JStr "typing"); ("isTyping", JBool b)]
  | FRun status => JObj [("type", JStr "run"); ("data", JObj [("status", JStr status)])]
  | FRaw frame => frame
  end.

(** ** State *)

(** How far [StreamImpl.end] has come: not called, awaiting [#flushing],
    awaiting the [text] message, settled. *)
Inductive stream_end := SOpen | SFlushing | SSending (send : nat) | SEnded (message : option nat).

(** [queued] counts the flushes chained to [#flushing] that have not started;
    [flight] is the send the started one awaits. *)
(* @src packages/agent-ts/src/reply.ts 336-353 StreamImpl *)
Record StreamImpl := mkStream {
  mode : StreamMode;
  chunkId : option Z;
  buffer : string;
  text : string;
  timer : bool;
  queued : nat;
  flight : option nat;
  ending : stream_end;
}.

#[export] Instance eta_stream : Eta StreamImpl :=
  fun s => mkStream (mode s) (chunkId s) (buffer s) (text s) (timer s) (queued s) (flight s) (ending s).

(** How far [#finish] has come. *)
Inductive finish_phase := FStreams (l : list nat) | FTypingOff (send : nat) | FStreamDone (send : nat) | FRunEnd (send : nat) | FEnded.

(** How far an [ask] has come. *)
Inductive ask_phase := AInterrupt (send : nat) | AWaiting | AResolving (send : nat) (value : json) | ASettled.

Record Ask := mkAsk { a_id : string; a_phase : ask_phase; a_answer : option (json + AgentError) }.

#[export] Instance eta_ask : Eta Ask := fun a => mkAsk (a_id a) (a_phase a) (a_answer a).

(** The async functions suspended on a send. *)
Inductive wait :=
| WFlush (stream : nat)
| WText (stream : nat)
| WTypingOff
| WStreamDone
| WRunEnd
| WTyping
| WInterrupt (ask : nat)
| WResolving (ask : nat).

Inductive output :=
| OSend (send : nat) (frame : reply_frame)
| OWaitForAnswer (ask : nat) (interruptId : string) (signals : list nat) (timeoutMs : option Z)
| OThrew (e : AgentError)
| OUi (id : json)
| OAnswered (ask : nat) (value : json)
| OAskFailed (ask : nat) (e : AgentError)
| OFinished.

(* @src packages/agent-ts/src/reply.ts 158-171 ReplyImpl *)
Record ReplyImpl := mkReply {
  conversationId : string;
  core : ReplyCore;
  run_frames : bool;
  signal : option nat;
  tools : gmap string (string * Z);
  streams : list StreamImpl;
  live : list nat;
  streamId_ : option string;
  chunkCount : Z;
  genuiOpen : bool;
  typing : option nat;
  typingOn : bool;
  finish : option finish_phase;
  status : string;
  asks : list Ask;
  intervals : list nat;
  nextInterval : nat;
  nextSend : nat;
  waits : gmap nat wait;
  log : list output;
}.

#[export] Instance eta_reply : Eta ReplyImpl :=
  fun r => mkReply (conversationId r) (core r) (run_frames r) (signal r) (tools r) (streams r) (live r) (streamId_ r)
    (chunkCount r) (genuiOpen r) (typing r) (typingOn r) (finish r) (status r) (asks r) (intervals r) (nextInterval r)
    (nextSend r) (waits r) (log r).

Definition say (o : output) (r : ReplyImpl) : ReplyImpl := r <| log ::= cons o |>.

(** [core.send] whose promise nobody of the reply awaits. *)
Definition post (f : reply_frame) (r : ReplyImpl) : ReplyImpl := say (OSend (nextSend r) f) (r <| nextSend ::= S |>).

(** [await core.send]: the caller goes on in the state [w]. *)
Definition post_await (f : reply_frame) (w : wait) (r : ReplyImpl) : ReplyImpl :=
  post f (r <| waits ::= <[nextSend r := w]> |>).

Definition set_stream (i : nat) (st : StreamImpl) (r : ReplyImpl) : ReplyImpl := r <| streams ::= <[i := st]> |>.
Definition set_ask (a : nat) (k : Ask) (r : ReplyImpl) : ReplyImpl := r <| asks ::= <[a := k]> |>.

(** ** ReplyImpl *)

(* @src packages/agent-ts/src/reply.ts 330-333 stopTypingTimer *)
Definition stopTypingTimer (r : ReplyImpl) : ReplyImpl :=
  match typing r with
  | Some h => r <| intervals ::= filter (.≠ h) |> <| typing := None |>
  | None => r <| typing := None |>
  end.

(* @src packages/agent-ts/src/reply.ts 323-328 sendRun *)
Definition sendRun (st : string) (r : ReplyImpl) : ReplyImpl := post (FRun st) r.

(* @src packages/agent-ts/src/reply.ts 173-179 constructor *)
Definition new_reply (cid : string) (c : ReplyCore) (run : bool) (sig : option nat) : ReplyImpl :=
  let r := mkReply cid c run sig ∅ [] [] None 0 false None false None "finished" [] [] 0 0 ∅ [] in
  if run then sendRun "started" r else r.

(* @src packages/agent-ts/src/reply.ts 181-183 ended *)
Definition ended (r : ReplyImpl) : bool := match finish r with Some _ => true | None => false end.

(* @src packages/agent-ts/src/reply.ts 185-189 streamId *)
Definition streamId (env : Env) (r : ReplyImpl) : string * ReplyImpl :=
  let id := streamId_ r ?? randomId env "stream" in (id, r <| streamId_ := Some id |>).

(* @src packages/agent-ts/src/reply.ts 191-194 setStatus *)
Definition setStatus (st : string) (r : ReplyImpl) : ReplyImpl := r <| status := st |>.

(** [/^[a-z][a-z0-9_-]{0,63}$/]. *)
Definition is_lower (c : ascii) : bool := bool_decide (97 <= Z.of_N (N_of_ascii c) <= 122).
Definition is_type_char (c : ascii) : bool :=
  is_lower c || bool_decide (48 <= Z.of_N (N_of_ascii c) <= 57) || (c =? "_")%char || (c =? "-")%char.
Definition valid_type (type : string) : bool :=
  match String.list_ascii_of_string type with
  | c :: rest => is_lower c && forallb is_type_char rest && (length rest <=? 63)%nat
  | [] => false
  end.

(* @src packages/agent-ts/src/reply.ts 200-212 message *)
Definition message (env : Env) (type : string) (data : json) (o : SendOptions) (r : ReplyImpl) : ReplyImpl :=
  if valid_type type
  then post (FMessage type (clientId env) data o) (stopTypingTimer r <| typingOn := false |>)
  else say (OThrew (agent_error "invalid_message" ("invalid message type: " +:+ type) (Some false) None None)) r.

(* @src packages/agent-ts/src/reply.ts 196-198 text *)
Definition text_message (env : Env) (t : string) (o : SendOptions) (r : ReplyImpl) : ReplyImpl :=
  message env "text" (JObj [("text", JStr t)]) o r.

(** The promise of [text], awaited by a stream. *)
(* @src packages/agent-ts/src/reply.ts 318-321 sendText *)
Definition text_await (env : Env) (t : string) (w : wait) (r : ReplyImpl) : ReplyImpl :=
  post_await (FMessage "text" (clientId env) (JObj [("text", JStr t)]) no_options) w (stopTypingTimer r <| typingOn := false |>).

(* @src packages/agent-ts/src/reply.ts 214-220 stream *)
Definition stream (m : option StreamMode) (r : ReplyImpl) : ReplyImpl :=
  r <| streams ::= fun l => l ++ [mkStream (m ?? streamMode (core r)) None "" "" false 0 None SOpen] |>
    <| live ::= fun l => l ++ [length (streams r)] |>.

(* @src packages/agent-ts/src/reply.ts 222-235 toolCall *)
Definition toolCall (env : Env) (id st : string) (o : ToolCallOptions) (r : ReplyImpl) : ReplyImpl :=
  let known := tools r !! id in
  let name := or_else (to_name o) (fst <$> known) ?? "" in
  if String.eqb name ""
  then say (OThrew (agent_error "invalid_message" ("toolCall(" +:+ id +:+ ") needs a name on its first call") (Some false) None None)) r
  else
    let startedAt := (snd <$> known) ?? now env in
    post (FToolCall id name st startedAt (if String.eqb st "running" then None else Some (now env)) o)
         (r <| tools ::= <[id := (name, startedAt)]> |>).

(* @src packages/agent-ts/src/reply.ts 306-310 nextChunkId *)
Definition nextChunkId (r : ReplyImpl) : Z * ReplyImpl := (chunkCount r + 1, r <| chunkCount ::= Z.succ |>).

(** The frame of [sendChunk], and the state it leaves for [core.send]. *)
(* @src packages/agent-ts/src/reply.ts 312-316 sendChunk *)
Definition sendChunk (env : Env) (c : AIChunk) (r : ReplyImpl) : reply_frame * ReplyImpl :=
  let '(sid, r) := streamId env (r <| genuiOpen := true |>) in (FGenui sid false c, r).

(* @src packages/agent-ts/src/reply.ts 237-241 ui *)
Definition ui (env : Env) (component : string) (props : json) (id : option json) (r : ReplyImpl) : ReplyImpl :=
  let '(id, r) := match id with Some v => (v, r) | None => let '(n, r) := nextChunkId r in (num n, r) end in
  let '(f, r) := sendChunk env (UiChunk component props id) r in
  say (OUi id) (post f r).

(* @src packages/agent-ts/src/reply.ts 243-254 ask *)
Definition ask (env : Env) (payload : json) (o : AskOptions) (r : ReplyImpl) : ReplyImpl :=
  let id := as_id o ?? randomId env "ask" in
  let payload := match payload with JStr s => JObj [("title", JStr s)] | v => v end in
  let signals := option_list (signal r) ++ option_list (as_signal o) in
  let a := length (asks r) in
  let r := stopTypingTimer (say (OWaitForAnswer a id signals (as_timeoutMs o)) r) in
  post_await (FInterrupt id payload o) (WInterrupt a)
    (r <| asks ::= fun l => l ++ [mkAsk id (AInterrupt (nextSend r)) None] |>).

(** [const value = await answer] once the answer is there. *)
(* @src packages/agent-ts/src/reply.ts 256-257 ask *)
Definition answered (a : nat) (k : Ask) (r : ReplyImpl) : ReplyImpl :=
  match a_answer k with
  | Some (inl v) =>
      post_await (FResolved (a_id k) v) (WResolving a) (set_ask a (k <| a_phase := AResolving (nextSend r) v |>) r)
  | Some (inr e) => say (OAskFailed a e) (set_ask a (k <| a_phase := ASettled |>) r)
  | None => set_ask a (k <| a_phase := AWaiting |>) r
  end.

(** The answer's promise settles: remembered while the [interrupt] is on its way. *)
Definition answer (a : nat) (res : json + AgentError) (r : ReplyImpl) : ReplyImpl :=
  match asks r !! a with
  | Some k =>
      match a_answer k, a_phase k with
      | None, AWaiting => answered a (k <| a_answer := Some res |>) r
      | None, AInterrupt _ => set_ask a (k <| a_answer := Some res |>) r
      | _, _ => r
      end
  | None => r
  end.

(** The [await] of the [interrupt] resumes. *)
(* @src packages/agent-ts/src/reply.ts 254-256 ask *)
Definition interrupt_sent (a : nat) (e : option AgentError) (r : ReplyImpl) : ReplyImpl :=
  match asks r !! a with
  | Some k =>
      match e with
      | Some e => say (OAskFailed a e) (set_ask a (k <| a_phase := ASettled |>) r)
      | None => answered a k (if run_frames r then sendRun "interrupted" r else r)
      end
  | None => r
  end.

(** The [await] of the [interrupt_resolved] resumes. *)
(* @src packages/agent-ts/src/reply.ts 257-259 ask *)
Definition interrupt_resolved (a : nat) (e : option AgentError) (r : ReplyImpl) : ReplyImpl :=
  match asks r !! a with
  | Some k =>
      match e, a_phase k with
      | None, AResolving _ v =>
          let r := set_ask a (k <| a_phase := ASettled |>) r in
          say (OAnswered a v) (if run_frames r && negb (ended r) then sendRun "started" r else r)
      | Some e, _ => say (OAskFailed a e) (set_ask a (k <| a_phase := ASettled |>) r)
      | None, _ => r
      end
  | None => r
  end.

(* @src packages/agent-ts/src/reply.ts 262-265 typing *)
Definition typing_call (on : bool) (r : ReplyImpl) : ReplyImpl :=
  let r := stopTypingTimer r <| typingOn := on |> in
  if on then post_await (FTyping true) WTyping r else post (FTyping false) r.

(** The [await] of [typing(true)] resumes: [setInterval]. *)
(* @src packages/agent-ts/src/reply.ts 266-271 typing *)
Definition typing_sent (e : option AgentError) (r : ReplyImpl) : ReplyImpl :=
  match e with
  | None =>
      if 0 <? typingRefreshMs (core r)
      then r <| typing := Some (nextInterval r) |> <| intervals ::= cons (nextInterval r) |> <| nextInterval ::= S |>
      else r
  | Some _ => r
  end.

(** The interval's callback. *)
(* @src packages/agent-ts/src/reply.ts 268-270 typing *)
Definition typing_fired (h : nat) (r : ReplyImpl) : ReplyImpl :=
  if bool_decide (h ∈ intervals r) then post (FTyping true) r else r.

(* @src packages/agent-ts/src/reply.ts 274-276 send *)
Definition send (frame : json) (r : ReplyImpl) : ReplyImpl := post (FRaw frame) r.

(** ** StreamImpl *)

(* @src packages/agent-ts/src/reply.ts 363-375 write *)
Definition write (i : nat) (delta : string) (r : ReplyImpl) : ReplyImpl :=
  match streams r !! i with
  | Some st =>
      match ending st with
      | SOpen =>
          if String.eqb delta "" then r
          else
            let st := st <| text ::= fun t => t +:+ delta |> in
            if bool_decide (mode st = Text) then set_stream i st r
            else set_stream i (st <| buffer ::= fun b => b +:+ delta |> <| timer := true |>) r
      | _ => say (OThrew (agent_error "closed" "write() after end()" (Some false) None None)) r
      end
  | None => r
  end.

(** The flush timer's callback. *)
(* @src packages/agent-ts/src/reply.ts 371-374 write *)
Definition flush_fired (i : nat) (r : ReplyImpl) : ReplyImpl :=
  match streams r !! i with
  | Some st => if timer st then set_stream i (st <| timer := false |> <| queued ::= S |>) r else r
  | None => r
  end.

(** The first flush of the chain starts, when the one before it is done. *)
(* @src packages/agent-ts/src/reply.ts 395-406 flush *)
Definition flush_next (env : Env) (i : nat) (r : ReplyImpl) : ReplyImpl :=
  match streams r !! i with
  | Some st =>
      match queued st, flight st with
      | S n, None =>
          if String.eqb (buffer st) "" then set_stream i (st <| queued := n |>) r
          else
            let content := buffer st in
            let '(c, r) := match chunkId st with Some c => (c, r) | None => nextChunkId r end in
            let '(f, r) := sendChunk env (TextChunk content c) r in
            post_await f (WFlush i)
              (set_stream i (st <| queued := n |> <| buffer := "" |> <| chunkId := Some c |> <| flight := Some (nextSend r) |>) r)
      | _, _ => r
      end
  | None => r
  end.

(** The flush's send settled, either way. *)
Definition flush_done (i : nat) (r : ReplyImpl) : ReplyImpl :=
  match streams r !! i with
  | Some st => set_stream i (st <| flight := None |>) r
  | None => r
  end.

(* @src packages/agent-ts/src/reply.ts 377-386 end *)
Definition end_stream (i : nat) (r : ReplyImpl) : ReplyImpl :=
  match streams r !! i with
  | Some st =>
      match ending st with
      | SOpen => set_stream i (st <| timer := false |> <| queued ::= S |> <| ending := SFlushing |>) r
      | _ => r
      end
  | None => r
  end.

(** The promise of [end] settles, and [#onEnd] runs. *)
(* @src packages/agent-ts/src/reply.ts 390-392 end *)
Definition stream_ended (i : nat) (st : StreamImpl) (k : option nat) (r : ReplyImpl) : ReplyImpl :=
  set_stream i (st <| ending := SEnded k |>) r <| live ::= filter (.≠ i) |>.

(** [await this.#flushing] resumes, when the chain is done. *)
(* @src packages/agent-ts/src/reply.ts 387-392 end *)
Definition stream_flushed (env : Env) (i : nat) (r : ReplyImpl) : ReplyImpl :=
  match streams r !! i with
  | Some st =>
      match ending st, queued st, flight st with
      | SFlushing, O, None =>
          if negb (bool_decide (mode st = Genui)) && negb (String.eqb (text st) "")
          then text_await env (text st) (WText i) (set_stream i (st <| ending := SSending (nextSend r) |>) r)
          else stream_ended i st None r
      | _, _, _ => r
      end
  | None => r
  end.

(** The [text] message of the stream settled. *)
Definition stream_sent (i k : nat) (r : ReplyImpl) : ReplyImpl :=
  match streams r !! i with
  | Some st => stream_ended i st (Some k) r
  | None => r
  end.

(** ** The end of the reply *)

Definition is_ended (st : StreamImpl) : bool := match ending st with SEnded _ => true | _ => false end.

Definition all_ended (l : list nat) (r : ReplyImpl) : bool :=
  forallb (fun i => match streams r !! i with Some st => is_ended st | None => true end) l.

(* @src packages/agent-ts/src/reply.ts 278-287 end *)
Definition end_reply (r : ReplyImpl) : ReplyImpl :=
  match finish r with
  | Some _ => r
  | None =>
      let r := stopTypingTimer r in
      fold_left (fun r i => end_stream i r) (live r) r <| finish := Some (FStreams (live r)) |>
  end.

(** The last [await] of [#finish]. *)
(* @src packages/agent-ts/src/reply.ts 303-304 finish *)
Definition finish_run (r : ReplyImpl) : ReplyImpl :=
  if run_frames r
  then post_await (FRun (status r)) WRunEnd (r <| finish := Some (FRunEnd (nextSend r)) |>)
  else say OFinished (r <| finish := Some FEnded |>).

(* @src packages/agent-ts/src/reply.ts 292-303 finish *)
Definition finish_genui (env : Env) (r : ReplyImpl) : ReplyImpl :=
  if genuiOpen r then
    let '(sid, r) := streamId env (r <| genuiOpen := false |>) in
    let '(c, r) := nextChunkId r in
    post_await (FGenui sid true (DoneChunk c)) WStreamDone (r <| finish := Some (FStreamDone (nextSend r)) |>)
  else finish_run r.

(* @src packages/agent-ts/src/reply.ts 287-292 finish *)
Definition streams_ended (env : Env) (r : ReplyImpl) : ReplyImpl :=
  match finish r with
  | Some (FStreams l) =>
      if all_ended l r then
        if typingOn r
        then post_await (FTyping false) WTypingOff (r <| typingOn := false |> <| finish := Some (FTypingOff (nextSend r)) |>)
        else finish_genui env r
      else r
  | _ => r
  end.

(** ** The event loop *)

(** The async function suspended on send [k] goes on. *)
Definition resume (env : Env) (w : wait) (k : nat) (e : option AgentError) (r : ReplyImpl) : ReplyImpl :=
  match w with
  | WFlush i => flush_done i r
  | WText i => stream_sent i k r
  | WTypingOff => finish_genui env r
  | WStreamDone => finish_run r
  | WRunEnd => say OFinished (r <| finish := Some FEnded |>)
  | WTyping => typing_sent e r
  | WInterrupt a => interrupt_sent a e r
  | WResolving a => interrupt_resolved a e r
  end.

(** [core.send]'s promise number [k] settles. *)
Definition settled (env : Env) (k : nat) (e : option AgentError) (r : ReplyImpl) : ReplyImpl :=
  match waits r !! k with
  | Some w => resume env w k e (r <| waits ::= delete k |>)
  | None => r
  end.

Inductive input :=
| SendText (t : string) (o : SendOptions)
| Message (type : string) (data : json) (o : SendOptions)
| Stream (m : option StreamMode)
| Write (i : nat) (delta : string)
| EndStream (i : nat)
| ToolCall (id st : string) (o : ToolCallOptions)
| Ui (component : string) (props : json) (id : option json)
| AskUser (payload : json) (o : AskOptions)
| Typing (on : bool)
| Send (frame : json)
| End
| SetStatus (st : string)
| FlushTimer (i : nat)
| TypingTimer (h : nat)
| Answer (a : nat) (res : json + AgentError)
| Settled (k : nat) (e : option AgentError)
| FlushNext (i : nat)
| StreamFlushed (i : nat)
| StreamsEnded.

Definition step (r : ReplyImpl) (x : Env * input) : ReplyImpl :=
  let '(env, i) := x in
  match i with
  | SendText t o => text_message env t o r
  | Message type data o => message env type data o r
  | Stream m => stream m r
  | Write i delta => write i delta r
  | EndStream i => end_stream i r
  | ToolCall id st o => toolCall env id st o r
  | Ui c p id => ui env c p id r
  | AskUser p o => ask env p o r
  | Typing on => typing_call on r
  | Send f => send f r
  | End => end_reply r
  | SetStatus st => setStatus st r
  | FlushTimer i => flush_fired i r
  | TypingTimer h => typing_fired h r
  | Answer a res => answer a res r
  | Settled k e => settled env k e r
  | FlushNext i => flush_next env i r
  | StreamFlushed i => stream_flushed env i r
  | StreamsEnded => streams_ended env r
  end.

Definition run (r : ReplyImpl) (l : list (Env * input)) : ReplyImpl := fold_left step l r.
