(* ===== verification/ReplyStreams.v ===== *)
(** * ReplyStreams: what a token stream sends is what was written to it
    ([packages/agent-ts/src/reply.ts]). *)

From stdpp Require Import base gmap sets list strings.
From Stdlib Require Import ZArith QArith Lia.
From S2P Require Import Prelude JsMap AgentFrames Reply.

Open Scope string_scope.
Open Scope list_scope.
Open Scope Z_scope.

(** ** The chunks of a stream *)

(** The text sent in chunks with an id, in the order it was sent. *)
Fixpoint chunk_text (c : Z) (log : list output) : string :=
  match log with
  | OSend _ (FGenui _ _ (TextChunk content c')) :: log' =>
      if c' =? c then chunk_text c log' +:+ content else chunk_text c log'
  | _ :: log' => chunk_text c log'
  | [] => ""
  end.

(** What of a stream its chunks depend on. *)
Definition text_view (st : StreamImpl) : StreamMode * option Z * string * string :=
  (mode st, chunkId st, buffer st, text st).
Definition views (r : ReplyImpl) := text_view <$> streams r.

(** The chunks sent and the buffer make up the text. *)
Definition accounted (log : list output) (st : StreamImpl) : Prop :=
  (if bool_decide (mode st = Text) then ""
   else text st) = default "" ((fun c => chunk_text c log) <$> chunkId st) +:+ buffer st.

(** A step that leaves every stream's text as it is. *)
Definition quiet (r r' : ReplyImpl) : Prop :=
  views r' = views r /\ chunkCount r <= chunkCount r' /\ forall c, chunk_text c (log r') = chunk_text c (log r).

#[export] Instance quiet_preorder : PreOrder quiet.
Proof.
  split; [done|]. intros a b c (H1 & H2 & H3) (H4 & H5 & H6).
  split_and!; [congruence | lia |]. intros x. by rewrite H6.
Qed.

(** The kinds of steps, as far as the texts of streams go. *)
Inductive text_step (r r' : ReplyImpl) : Prop :=
| TQuiet : quiet r r' -> text_step r r'
| TNew m : views r' = views r ++ [(m, None, "", "")] -> chunkCount r' = chunkCount r -> log r' = log r -> text_step r r'
| TWrite i m c b t d :
  views r !! i = Some (m, c, b, t) ->
  views r' = <[i := (m, c, if bool_decide (m = Text) then b else b +:+ d, t +:+ d)]> (views r) ->
  chunkCount r' = chunkCount r -> log r' = log r -> text_step r r'
| TFlush i m c c' b t k sid :
  views r !! i = Some (m, c, b, t) -> b <> "" ->
  views r' = <[i := (m, Some c', "", t)]> (views r) ->
  (c = Some c' /\ chunkCount r' = chunkCount r \/ c = None /\ c' = chunkCount r + 1 /\ chunkCount r' = c') ->
  log r' = OSend k (FGenui sid false (TextChunk b c')) :: log r -> text_step r r'.

(** ** Every step is one of them *)

Lemma views_set_stream i st r :
  views (set_stream i st r) = <[i := text_view st]> (views r).
Proof. unfold views, set_stream; simpl. apply list_fmap_insert. Qed.

Lemma views_same i st st' r :
  streams r !! i = Some st -> text_view st' = text_view st -> views (set_stream i st' r) = views r.
Proof.
  intros Hi Hv. rewrite views_set_stream, Hv. apply list_insert_id. unfold views. by rewrite list_lookup_fmap, Hi.
Qed.

Lemma quiet_set_stream i st st' r :
  streams r !! i = Some st -> text_view st' = text_view st -> quiet r (set_stream i st' r).
Proof. intros Hi Hv. split_and!; [by eapply views_same | done | done]. Qed.

Lemma quiet_post f r : (forall sid d s c, f <> FGenui sid d (TextChunk s c)) -> quiet r (post f r).
Proof.
  intros Hf. split_and!; [done | done |]. intros c; simpl. destruct f; try done. destruct chunk; try done.
  by destruct (Hf streamId done content id).
Qed.

(** Steps that touch neither a stream's text, the counter nor the log. *)
Ltac quiet_fields := split_and!; [done | simpl; lia | done].

Lemma quiet_stop r : quiet r (stopTypingTimer r).
Proof. unfold stopTypingTimer. destruct (typing r); quiet_fields. Qed.

Lemma quiet_end_stream i r : quiet r (end_stream i r).
Proof.
  unfold end_stream. destruct (streams r !! i) as [st|] eqn:Hi; [|done].
  destruct (ending st); try done. by eapply quiet_set_stream.
Qed.

Lemma quiet_end_streams l r : quiet r (fold_left (fun r i => end_stream i r) l r).
Proof.
  revert r. induction l as [|i l IH]; intros r; simpl; [done|]. transitivity (end_stream i r); [apply quiet_end_stream | apply IH].
Qed.

Lemma quiet_finish_run r : quiet r (finish_run r).
Proof. unfold finish_run. destruct (run_frames r); quiet_fields. Qed.

Lemma quiet_finish_genui env r : quiet r (finish_genui env r).
Proof. unfold finish_genui, streamId, nextChunkId. destruct (genuiOpen r); [quiet_fields | apply quiet_finish_run]. Qed.

Lemma quiet_answered a k r : quiet r (answered a k r).
Proof. unfold answered. destruct (a_answer k) as [[?|?]|]; quiet_fields. Qed.

Lemma quiet_resume env w k e r : quiet r (resume env w k e r).
Proof.
  destruct w; cbn [resume].
  - unfold flush_done. destruct (streams r !! stream) as [st|] eqn:Hi; [by eapply quiet_set_stream | done].
  - unfold stream_sent, stream_ended. destruct (streams r !! stream) as [st|] eqn:Hi; [|done].
    transitivity (set_stream stream (st <| ending := SEnded (Some k) |>) r); [by eapply quiet_set_stream | quiet_fields].
  - apply quiet_finish_genui.
  - apply quiet_finish_run.
  - quiet_fields.
  - unfold typing_sent. destruct e; [done|]. destruct (_ <? _); quiet_fields.
  - unfold interrupt_sent. destruct (asks r !! ask) as [q|]; [|done]. destruct e; [quiet_fields|].
    destruct (run_frames r); [transitivity (sendRun "interrupted" r); [quiet_fields|]|]; apply quiet_answered.
  - unfold interrupt_resolved. destruct (asks r !! ask) as [q|]; [|done].
    destruct e, (a_phase q); try quiet_fields. destruct (_ && _); quiet_fields.
Qed.

Lemma quiet_settled env k e r : quiet r (settled env k e r).
Proof.
  unfold settled. destruct (waits r !! k) as [w|]; [|done]. etransitivity; [|apply quiet_resume]. quiet_fields.
Qed.

Lemma quiet_message env t d o r : quiet r (message env t d o r).
Proof.
  unfold message. destruct (valid_type _); [|quiet_fields]. transitivity (stopTypingTimer r); [apply quiet_stop | quiet_fields].
Qed.

Lemma text_write i delta r : text_step r (write i delta r).
Proof.
  unfold write. destruct (streams r !! i) as [st|] eqn:Hi; [|by apply TQuiet].
  destruct (ending st); try (apply TQuiet; quiet_fields).
  destruct (String.eqb delta ""); [by apply TQuiet|].
  eapply (TWrite _ _ i (mode st) (chunkId st) (buffer st) (text st) delta); simpl.
  + unfold views. by rewrite list_lookup_fmap, Hi.
  + destruct (bool_decide (mode st = Text)) eqn:Hm; simpl; rewrite views_set_stream; done.
  + by destruct (bool_decide (mode st = Text)).
  + by destruct (bool_decide (mode st = Text)).
Qed.

Lemma quiet_ask env p o r : quiet r (ask env p o r).
Proof.
  unfold ask. transitivity (stopTypingTimer (say (OWaitForAnswer (length (asks r)) (as_id o ?? randomId env "ask")
      (option_list (signal r) ++ option_list (as_signal o)) (as_timeoutMs o)) r)).
  + etransitivity; [|apply quiet_stop]. quiet_fields.
  + quiet_fields.
Qed.

Lemma quiet_end_reply r : quiet r (end_reply r).
Proof.
  unfold end_reply. destruct (finish r); [done|].
  transitivity (stopTypingTimer r); [apply quiet_stop|].
  etransitivity; [apply (quiet_end_streams (live (stopTypingTimer r)))|]. quiet_fields.
Qed.

Lemma text_flush_next env i r : text_step r (flush_next env i r).
Proof.
  unfold flush_next. destruct (streams r !! i) as [st|] eqn:Hi; [|by apply TQuiet].
  destruct (queued st) as [|n] eqn:Hq, (flight st); try by apply TQuiet.
  destruct (String.eqb (buffer st) "") eqn:Hb; [by eapply TQuiet, quiet_set_stream|]. bools.
  assert (Hv : views r !! i = Some (mode st, chunkId st, buffer st, text st)).
  { unfold views. by rewrite list_lookup_fmap, Hi. }
  destruct (chunkId st) as [c|] eqn:Hc; simpl; eapply TFlush; try exact Hv; try done;
    try (unfold post_await, post, say; simpl; reflexivity).
  + unfold views; simpl. rewrite list_fmap_insert. done.
  + left. done.
  + unfold views; simpl. rewrite list_fmap_insert. done.
  + right. done.
Qed.

Lemma quiet_stream_flushed env i r : quiet r (stream_flushed env i r).
Proof.
  unfold stream_flushed. destruct (streams r !! i) as [st|] eqn:Hi; [|done].
  destruct (ending st), (queued st), (flight st); try done. destruct (_ && _).
  + transitivity (set_stream i (st <| ending := SSending (nextSend r) |>) r); [by eapply quiet_set_stream|].
    unfold text_await. etransitivity; [apply quiet_stop|]. quiet_fields.
  + unfold stream_ended. transitivity (set_stream i (st <| ending := SEnded None |>) r); [by eapply quiet_set_stream | quiet_fields].
Qed.

Lemma step_text r x : text_step r (step r x).
Proof.
  destruct x as [env i]. destruct i; cbn [step].
  1, 2: apply TQuiet, quiet_message.
  - eapply (TNew _ _ (default (streamMode (core r)) m)); [|done|done]. unfold views, stream; simpl. by rewrite fmap_app.
  - apply text_write.
  - apply TQuiet, quiet_end_stream.
  - apply TQuiet. unfold toolCall. destruct (String.eqb _ _); quiet_fields.
  - apply TQuiet. unfold ui, nextChunkId, sendChunk, streamId. destruct id; quiet_fields.
  - apply TQuiet, quiet_ask.
  - apply TQuiet. unfold typing_call. transitivity (stopTypingTimer r); [apply quiet_stop|]. destruct on; quiet_fields.
  - apply TQuiet. by apply quiet_post.
  - apply TQuiet, quiet_end_reply.
  - apply TQuiet. quiet_fields.
  - apply TQuiet. unfold flush_fired. destruct (streams r !! i) as [st|] eqn:Hi; [|done].
    destruct (timer st); [by eapply quiet_set_stream | done].
  - apply TQuiet. unfold typing_fired. destruct (bool_decide _); quiet_fields.
  - apply TQuiet. unfold answer. destruct (asks r !! a) as [q|]; [|done].
    destruct (a_answer q), (a_phase q); try quiet_fields. apply quiet_answered.
  - apply TQuiet, quiet_settled.
  - apply text_flush_next.
  - apply TQuiet, quiet_stream_flushed.
  - apply TQuiet. unfold streams_ended. destruct (finish r) as [[]|]; try done.
    destruct (all_ended _ _); [|done]. destruct (typingOn r); [quiet_fields | apply quiet_finish_genui].
Qed.

(** ** The invariant *)

Record texts_ok (r : ReplyImpl) : Prop := {
  to_text : forall i m c b t, views r !! i = Some (m, c, b, t) ->
    (if bool_decide (m = Text) then "" else t) = default "" ((fun c => chunk_text c (log r)) <$> c) +:+ b;
  to_count : forall i m c b t, views r !! i = Some (m, Some c, b, t) -> c <= chunkCount r;
  to_apart : forall i j m m' c b b' t t',
    views r !! i = Some (m, Some c, b, t) -> views r !! j = Some (m', Some c, b', t') -> i = j;
  to_fresh : forall c, chunkCount r < c -> chunk_text c (log r) = "";
  to_plain : forall i c b t, views r !! i = Some (Text, c, b, t) -> c = None /\ b = "";
}.

Lemma append_empty_r s : s +:+ "" = s.
Proof. induction s as [|a s IH]; [done|]. change (String a (s +:+ "") = String a s). by rewrite IH. Qed.

Lemma append_assoc a b c : a +:+ (b +:+ c) = (a +:+ b) +:+ c.
Proof. induction a as [|x a IH]; [done|]. change (String x (a +:+ (b +:+ c)) = String x ((a +:+ b) +:+ c)). by rewrite IH. Qed.

Lemma lookup_insert_case {A} (l : list A) i j x y :
  <[i := x]> l !! j = Some y -> j = i /\ y = x \/ j <> i /\ l !! j = Some y.
Proof. intros H. apply list_lookup_insert_Some in H as [(-> & -> & _)|[? ?]]; [by left | right; split; congruence]. Qed.

Lemma lookup_snoc_case {A} (l : list A) j x y : (l ++ [x]) !! j = Some y -> j = length l /\ y = x \/ l !! j = Some y.
Proof.
  rewrite lookup_app_Some. intros [?|[Hj Hy]]; [by right|]. apply list_lookup_singleton_Some in Hy as [? ->].
  left; split; [lia | done].
Qed.

Lemma texts_ok_step r r' : text_step r r' -> texts_ok r -> texts_ok r'.
Proof.
  intros [(Hv & Hc & Hl) | m Hv Hc Hl | i m c b t d Hi Hv Hc Hl | i m c c' b t k sid Hi Hb Hv Hc Hl] [H1 H2 H3 H4 H5].
  - split; rewrite ?Hv; intros.
    + rewrite (H1 _ _ _ _ _ H). by destruct c; simpl; rewrite ?Hl.
    + specialize (H2 _ _ _ _ _ H). lia.
    + by eapply H3.
    + rewrite Hl. apply H4. lia.
    + by eapply H5.
  - split; rewrite ?Hv, ?Hc, ?Hl; [| | |done|].
    + intros i m' c b t [[_ [= -> -> -> ->]]|H]%lookup_snoc_case; [by destruct (bool_decide _) | by eapply H1].
    + intros i m' c b t [[_ [=]]|H]%lookup_snoc_case. by eapply H2.
    + intros i j m1 m2 c b b' t t' [[_ [=]]|Hx]%lookup_snoc_case [[_ [=]]|Hy]%lookup_snoc_case. by eapply H3.
    + intros i c b t [[_ [= <- -> -> _]]|H]%lookup_snoc_case; [done | by eapply H5].
  - split; rewrite ?Hv, ?Hc, ?Hl; [| | |done|].
    + intros j m' c0 b0 t0 [[_ [= -> -> -> ->]]|[_ H]]%lookup_insert_case; [|by eapply H1].
      specialize (H1 _ _ _ _ _ Hi). destruct (bool_decide (m = Text)); [done|]. by rewrite append_assoc, <- H1.
    + intros j m' c0 b0 t0 [[_ [= -> <- _ _]]|[_ H]]%lookup_insert_case; [exact (H2 _ _ _ _ _ Hi) | by eapply H2].
    + intros j1 j2 m1 m2 c0 b1 b2 t1 t2 [[-> E1]|[N1 Hx]]%lookup_insert_case
        [[-> E2]|[N2 Hy]]%lookup_insert_case; simplify_eq; by eauto.
    + intros j c0 b0 t0 [[_ E]|[_ H]]%lookup_insert_case; simplify_eq/=; by eapply H5.
  - assert (Hle : chunkCount r <= chunkCount r') by (destruct Hc as [[_ ->]|(_ & ? & ?)]; lia).
    assert (Hin : c' <= chunkCount r').
    { destruct Hc as [[-> ->]|(_ & ? & ->)]; [exact (H2 _ _ _ _ _ Hi) | lia]. }
    assert (Hother : forall j m' x b0 t0, j <> i -> views r !! j = Some (m', Some x, b0, t0) -> x <> c').
    { intros j m' x b0 t0 Hj Hx ->. destruct Hc as [[-> _]|(_ & -> & _)].
      - by apply Hj, (H3 _ _ _ _ _ _ _ _ _ Hx Hi).
      - specialize (H2 _ _ _ _ _ Hx). lia. }
    split; rewrite ?Hv, ?Hl.
    + intros j m' c0 b0 t0 [[_ [= -> -> -> ->]]|[Hj H]]%lookup_insert_case.
      * rewrite (H1 _ _ _ _ _ Hi); simpl. rewrite Z.eqb_refl, append_empty_r.
        destruct Hc as [[-> _]|(-> & -> & _)]; simpl; [done|]. by rewrite H4 by lia.
      * rewrite (H1 _ _ _ _ _ H). destruct c0 as [x|]; simpl; [|done].
        by rewrite (proj2 (Z.eqb_neq c' x)) by (apply not_eq_sym; eapply Hother; eauto).
    + intros j m' c0 b0 t0 [[_ [= _ <- _ _]]|[Hj H]]%lookup_insert_case; [done|]. specialize (H2 _ _ _ _ _ H). lia.
    + intros j1 j2 m1 m2 c0 b1 b2 t1 t2 [[-> E1]|[N1 Hx]]%lookup_insert_case
        [[-> E2]|[N2 Hy]]%lookup_insert_case; simplify_eq; [done | | | by eapply H3].
      * by destruct (Hother _ _ _ _ _ N2 Hy eq_refl).
      * by destruct (Hother _ _ _ _ _ N1 Hx eq_refl).
    + intros x Hx. simpl. rewrite (proj2 (Z.eqb_neq c' x)) by lia. apply H4. lia.
    + intros j c0 b0 t0 [[_ E]|[_ H]]%lookup_insert_case; [|by eapply H5]. simplify_eq. by apply H5 in Hi as [_ ->].
Qed.

Lemma texts_ok_run r l : texts_ok r -> texts_ok (run r l).
Proof. revert r. induction l as [|x l IH]; intros r H; [done|]. apply IH. eapply texts_ok_step; [apply step_text | done]. Qed.

Lemma texts_ok_new cid c b sig : texts_ok (new_reply cid c b sig).
Proof. unfold new_reply. destruct b; split; simpl; intros; done. Qed.

(** C10. Whatever the order of calls, timers and settled sends, the text chunks
    a stream has sent under its chunk id, in order, followed by what it still
    buffers, are exactly the text written to it; no other stream sends chunks
    under that id, and a stream in [text] mode sends none. *)
Theorem stream_chunks_are_text (cid : string) (c : ReplyCore) (b : bool) (sig : option nat) (l : list (Env * input))
    (i : nat) (st : StreamImpl) :
  let r := run (new_reply cid c b sig) l in
  streams r !! i = Some st ->
  (mode st = Text -> chunkId st = None) /\
  (mode st <> Text -> text st = default "" ((fun c => chunk_text c (log r)) <$> chunkId st) +:+ buffer st) /\
  (forall j st', j <> i -> streams r !! j = Some st' -> is_Some (chunkId st) -> chunkId st' <> chunkId st).
Proof.
  cbv zeta. intros Hi. destruct (texts_ok_run _ l (texts_ok_new cid c b sig)) as [H1 H2 H3 H4 H5].
  assert (Hview : forall j st', streams (run (new_reply cid c b sig) l) !! j = Some st' ->
    views (run (new_reply cid c b sig) l) !! j = Some (text_view st')) by (intros j st' H; unfold views; by rewrite list_lookup_fmap, H).
  pose proof (H1 _ _ _ _ _ (Hview _ _ Hi)) as Ht. split_and!.
  - intros Hm. specialize (Hview _ _ Hi). unfold text_view in Hview. rewrite Hm in Hview. by apply H5 in Hview as [? _].
  - intros Hm. by rewrite bool_decide_eq_false_2 in Ht.
  - intros j st' Hj Hst' [x Hx] E. apply Hj. pose proof (Hview _ _ Hi) as V1. pose proof (Hview _ _ Hst') as V2.
    unfold text_view in V1, V2. rewrite E in V2. rewrite Hx in V1, V2. by eapply H3.
Qed.
