(* ===== verification/ReplyEnd.v ===== *)
(** * ReplyEnd: the end of a reply, and of its streams
    ([packages/agent-ts/src/reply.ts]).

    [waiting] reads from the state which send an async function is suspended
    on; [sync] says [waits] agrees with it.  On that invariant rest the
    termination of [end] and what a settled stream has sent. *)

From stdpp Require Import base gmap sets list strings.
From Stdlib Require Import ZArith QArith Lia.
From S2P Require Import Prelude JsMap AgentFrames Reply ReplyStreams.

Open Scope string_scope.
Open Scope list_scope.
Open Scope nat_scope.

(** ** Who waits for which send *)

#[export] Instance wait_eq_dec : EqDecision wait.
Proof. solve_decision. Defined.

Definition sending (st : StreamImpl) : option nat := match ending st with SSending k => Some k | _ => None end.

Definition waiting (r : ReplyImpl) (w : wait) : option nat :=
  match w with
  | WFlush i => streams r !! i ≫= flight
  | WText i => streams r !! i ≫= sending
  | WTypingOff => match finish r with Some (FTypingOff k) => Some k | _ => None end
  | WStreamDone => match finish r with Some (FStreamDone k) => Some k | _ => None end
  | WRunEnd => match finish r with Some (FRunEnd k) => Some k | _ => None end
  | WTyping => None
  | WInterrupt a => q ← asks r !! a; match a_phase q with AInterrupt k => Some k | _ => None end
  | WResolving a => q ← asks r !! a; match a_phase q with AResolving k _ => Some k | _ => None end
  end.

(** [waits] agrees with the state, the function [w] apart, which has been resumed. *)
Record sync_but (w : wait) (r : ReplyImpl) : Prop := {
  sy_fresh : forall k u, waits r !! k = Some u -> k < nextSend r;
  sy_agree : forall k u, u <> w -> u <> WTyping -> waits r !! k = Some u <-> waiting r u = Some k;
  sy_gone : w <> WTyping -> forall k, waits r !! k <> Some w;
}.

Notation sync := (sync_but WTyping).

Lemma sync_resumed k w r : sync r -> waits r !! k = Some w -> sync_but w (r <| waits ::= delete k |>).
Proof.
  intros [H1 H2 H3] Hk. split; simpl.
  - intros k' u [_ H]%lookup_delete_Some. by eapply H1.
  - intros k' u Hu Ht. change (waiting (r <| waits ::= delete k |>) u) with (waiting r u). rewrite <- (H2 _ _ Ht Ht).
    rewrite lookup_delete_Some. split; [tauto|]. intros H. split; [|done]. intros ->. congruence.
  - intros Hw k' [Hk' H]%lookup_delete_Some. apply H2 in H; [|done|done]. apply H2 in Hk; [|done|done]. congruence.
Qed.

(** A step that suspends nothing leaves the resumed function at rest. *)
Lemma sync_rest w r r' :
  sync_but w r -> waits r' = waits r -> nextSend r <= nextSend r' ->
  (forall u, u <> w -> u <> WTyping -> waiting r' u = waiting r u) -> (w <> WTyping -> waiting r' w = None) -> sync r'.
Proof.
  intros [H1 H2 H3] Hw Hn Hu Hr. split; [| |done].
  - intros k u Hk. rewrite Hw in Hk. apply H1 in Hk. lia.
  - intros k u Ht _. rewrite Hw. destruct (decide (u = w)) as [->|Huw].
    + rewrite Hr by done. split; [|done]. intros Hk. by apply H3 in Hk.
    + rewrite Hu by done. by apply H2.
Qed.

(** A step that suspends [v] on the next send. *)
Lemma sync_suspend w v r r' :
  sync_but w r -> waits r' = <[nextSend r := v]> (waits r) -> nextSend r < nextSend r' ->
  (forall u, u <> v -> u <> w -> u <> WTyping -> waiting r' u = waiting r u) ->
  (v <> WTyping -> waiting r' v = Some (nextSend r)) -> (v <> w -> v <> WTyping -> waiting r v = None) ->
  (w <> v -> w <> WTyping -> waiting r' w = None) -> sync r'.
Proof.
  intros [H1 H2 H3] Hw Hn Hu Hv Hv0 Hr.
  assert (Hfresh : waits r !! nextSend r = None).
  { destruct (waits r !! nextSend r) as [u|] eqn:E; [|done]. apply H1 in E. lia. }
  assert (Hno : v <> WTyping -> forall k, waits r !! k <> Some v).
  { intros Hvt k Hk. destruct (decide (v = w)) as [->|Hvw]; [by eapply H3|]. apply H2 in Hk; [|done|done].
    rewrite Hv0 in Hk; done. }
  split; [| |done].
  - intros k u Hk. rewrite Hw in Hk. apply lookup_insert_Some in Hk as [[<- <-]|[_ Hk]]; [lia|]. apply H1 in Hk. lia.
  - intros k u Ht _. rewrite Hw. rewrite lookup_insert_Some. destruct (decide (u = v)) as [->|Huv].
    + rewrite Hv by done. split; [intros [[-> _]|[_ Hk]]; [done | by apply Hno in Hk] | intros [= ->]; by left].
    + destruct (decide (u = w)) as [->|Huw].
      * rewrite Hr by done. split; [intros [[_ ->]|[_ Hk]]; [done | by apply H3 in Hk] | done].
      * rewrite Hu by done. rewrite <- (H2 _ _ Huw Ht). split; [intros [[_ ->]|[_ Hk]]; done|].
        intros Hk. right. split; [|done]. intros <-. congruence.
Qed.

Lemma sync_unsuspended w r : sync r -> waiting r w = None -> sync_but w r.
Proof.
  intros [H1 H2 H3] Hw. split; [done | by intros; apply H2 |].
  intros Ht k Hk. apply H2 in Hk; [|done|done]. congruence.
Qed.

(** [waiting] through the setters. *)
Lemma waiting_set_stream i st st0 r u :
  streams r !! i = Some st0 -> (u = WFlush i -> flight st = flight st0) -> (u = WText i -> sending st = sending st0) ->
  waiting (set_stream i st r) u = waiting r u.
Proof.
  intros Hi Hf Ht. destruct u; try done; unfold set_stream; simpl.
  - destruct (decide (i = stream)) as [->|Hne]; [|by rewrite list_lookup_insert_ne].
    rewrite list_lookup_insert_eq by (by eapply lookup_lt_Some). rewrite Hi. simpl. by apply Hf.
  - destruct (decide (i = stream)) as [->|Hne]; [|by rewrite list_lookup_insert_ne].
    rewrite list_lookup_insert_eq by (by eapply lookup_lt_Some). rewrite Hi. simpl. by apply Ht.
Qed.

Definition interrupting (q : Ask) : option nat := match a_phase q with AInterrupt k => Some k | _ => None end.
Definition resolving (q : Ask) : option nat := match a_phase q with AResolving k _ => Some k | _ => None end.

Lemma waiting_set_ask a q q0 r u :
  asks r !! a = Some q0 -> (u = WInterrupt a -> interrupting q = interrupting q0) ->
  (u = WResolving a -> resolving q = resolving q0) -> waiting (set_ask a q r) u = waiting r u.
Proof.
  intros Hi Hf Ht. destruct u; try done; unfold set_ask; simpl.
  - destruct (decide (a = ask)) as [->|Hne]; [|by rewrite list_lookup_insert_ne].
    rewrite list_lookup_insert_eq by (by eapply lookup_lt_Some). rewrite Hi. simpl. by apply Hf.
  - destruct (decide (a = ask)) as [->|Hne]; [|by rewrite list_lookup_insert_ne].
    rewrite list_lookup_insert_eq by (by eapply lookup_lt_Some). rewrite Hi. simpl. by apply Ht.
Qed.

(** ** [sync] is kept *)

Lemma sync_stop r w : sync_but w r -> sync_but w (stopTypingTimer r).
Proof. unfold stopTypingTimer. by destruct (typing r), 1. Qed.

Lemma waiting_stop r u : waiting (stopTypingTimer r) u = waiting r u.
Proof. unfold stopTypingTimer. by destruct (typing r), u. Qed.

(** [waiting] of every function but those at hand is unchanged. *)
Ltac same_waiting := let u := fresh "u" in intros u; intros; destruct u; done.

Lemma sync_post f r : sync r -> sync (post f r).
Proof. intros H. eapply (sync_rest WTyping r); [done | done | simpl; lia | same_waiting | done]. Qed.

Lemma sync_say o r : sync r -> sync (say o r).
Proof. intros H. by eapply (sync_rest WTyping r). Qed.

Lemma sync_set_stream i st0 st r w :
  streams r !! i = Some st0 -> sync_but w r ->
  (w <> WFlush i -> flight st = flight st0) -> (w <> WText i -> sending st = sending st0) ->
  (w = WFlush i -> flight st = None) -> (w = WText i -> sending st = None) ->
  (w = WFlush i \/ w = WText i \/ w = WTyping) -> sync (set_stream i st r).
Proof.
  intros Hi H Hf Ht Hf' Ht' Hw. eapply (sync_rest w r); [done | done | simpl; lia | |].
  - intros u Hu _. eapply waiting_set_stream; [done | |]; intros ->; [apply Hf | apply Ht]; congruence.
  - intros _. unfold set_stream. destruct Hw as [->|[->| ->]]; simpl; [| |done];
      rewrite list_lookup_insert_eq by (by eapply lookup_lt_Some); simpl; auto.
Qed.

Lemma sync_finish_run r w :
  sync_but w r -> (w = WStreamDone /\ (exists k, finish r = Some (FStreamDone k)) \/
    w = WTypingOff /\ (exists k, finish r = Some (FTypingOff k)) \/ w = WTyping /\ (exists l, finish r = Some (FStreams l))) ->
  sync (finish_run r).
Proof.
  intros H Hw. unfold finish_run. destruct (run_frames r).
  - eapply (sync_suspend w WRunEnd); [exact H | done | simpl; lia | | done | | ].
    all: destruct Hw as [[-> [k Hk]]|[[-> [k Hk]]|[-> [k Hk]]]]; intros; try (destruct u); try done; simpl; by rewrite Hk.
  - eapply (sync_rest w r); [exact H | done | simpl; lia | |].
    all: destruct Hw as [[-> [k Hk]]|[[-> [k Hk]]|[-> [k Hk]]]]; intros; try (destruct u); try done; simpl; by rewrite Hk.
Qed.

Lemma sync_finish_genui env r w :
  sync_but w r -> (w = WTypingOff /\ (exists k, finish r = Some (FTypingOff k)) \/ w = WTyping /\ (exists l, finish r = Some (FStreams l))) ->
  sync (finish_genui env r).
Proof.
  intros H Hw. unfold finish_genui, streamId, nextChunkId. destruct (genuiOpen r); [|by eapply sync_finish_run; [|right]].
  eapply (sync_suspend w WStreamDone); [exact H | done | simpl; lia | | done | |].
  all: destruct Hw as [[-> [k Hk]]|[-> [k Hk]]]; intros; try (destruct u); try done; simpl; by rewrite Hk.
Qed.

Lemma sync_set_ask w a q q0 r :
  sync_but w r -> asks r !! a = Some q0 -> (w <> WInterrupt a -> interrupting q = interrupting q0) ->
  (w <> WResolving a -> resolving q = resolving q0) ->
  (w = WInterrupt a -> interrupting q = None) -> (w = WResolving a -> resolving q = None) ->
  (w = WInterrupt a \/ w = WResolving a \/ w = WTyping) -> sync (set_ask a q r).
Proof.
  intros H Hi Hf Ht Hf' Ht' Hw. eapply (sync_rest w r); [done | done | simpl; lia | |].
  - intros u Hu _. eapply waiting_set_ask; [done | |]; intros ->; [apply Hf | apply Ht]; congruence.
  - intros _. unfold set_ask. destruct Hw as [->|[->| ->]]; simpl; [| |done];
      rewrite list_lookup_insert_eq by (by eapply lookup_lt_Some); simpl; auto.
Qed.

(** [answered] goes on from the [interrupt] or from the wait for the answer. *)
Lemma sync_answered w a k q0 r :
  sync_but w r -> asks r !! a = Some q0 -> a_phase k = a_phase q0 ->
  (w = WInterrupt a /\ (exists n, a_phase q0 = AInterrupt n) \/ w = WTyping /\ a_phase q0 = AWaiting) -> sync (answered a k r).
Proof.
  intros H Hq Hp Hw. unfold answered.
  assert (Hset : forall q, interrupting q = None -> resolving q = None -> sync (set_ask a q r)).
  { intros q H1 H2. eapply sync_set_ask; [exact H | exact Hq | | | done | done |]; rewrite ?H1, ?H2; unfold interrupting, resolving;
      destruct Hw as [[-> [n E]]|[-> E]]; rewrite ?E; naive_solver. }
  destruct (a_answer k) as [[v|e]|].
  - eapply (sync_suspend w (WResolving a) r); [exact H | done | simpl; lia | | | |].
    + intros u Hu1 Hu2 _. transitivity (waiting (set_ask a (k <| a_phase := AResolving (nextSend r) v |>) r) u).
      { by destruct u. }
      eapply waiting_set_ask; [exact Hq | intros -> | by intros ->].
      unfold interrupting; simpl. by destruct Hw as [[-> _]|[-> ->]].
    + intros _. simpl. by rewrite list_lookup_insert_eq by (by eapply lookup_lt_Some).
    + intros _ _. simpl. rewrite Hq. simpl. by destruct Hw as [[_ [n ->]]|[_ ->]].
    + intros _ Ht. destruct Hw as [[-> _]|[-> _]]; [|done]. simpl.
      by rewrite list_lookup_insert_eq by (by eapply lookup_lt_Some).
  - by apply sync_say, Hset.
  - by apply Hset.
Qed.

Lemma sync_end_stream i r : sync r -> sync (end_stream i r).
Proof.
  intros H. unfold end_stream. destruct (streams r !! i) as [st|] eqn:Hi; [|done]. destruct (ending st) eqn:He; try done.
  eapply sync_set_stream; [exact Hi | exact H | done | | done | done | by auto]. intros _. unfold sending; simpl. by rewrite He.
Qed.

Lemma sync_end_streams l r : sync r -> sync (fold_left (fun r i => end_stream i r) l r).
Proof. revert r. induction l; intros r H; simpl; [done|]. by apply IHl, sync_end_stream. Qed.

Lemma finish_end_streams l r : finish (fold_left (fun r i => end_stream i r) l r) = finish r.
Proof.
  revert r. induction l as [|i l IH]; intros r; simpl; [done|]. rewrite IH. unfold end_stream.
  destruct (streams r !! i) as [st|]; [|done]. by destruct (ending st).
Qed.

Lemma sync_resume env w k e r :
  sync_but w r -> (w <> WTyping -> waiting r w = Some k) -> sync (resume env w k e r).
Proof.
  intros H Hk. destruct w; cbn [resume].
  - specialize (Hk ltac:(done)). unfold flush_done. simpl in Hk. destruct (streams r !! stream) as [st|] eqn:Hi; [|done].
    eapply sync_set_stream; [exact Hi | exact H | done | by intros | done | done | by auto].
  - specialize (Hk ltac:(done)). unfold stream_sent, stream_ended. simpl in Hk. destruct (streams r !! stream) as [st|] eqn:Hi; [|done].
    eapply (sync_rest WTyping); [eapply (sync_set_stream stream st (st <| ending := SEnded (Some k) |>) r (WText stream));
      [exact Hi | exact H | done | done | done | done | by auto] | done | done | by destruct u | done].
  - apply sync_finish_genui with WTypingOff; [done|]. left. split; [done|]. specialize (Hk ltac:(done)). simpl in Hk.
    destruct (finish r) as [[]|]; simplify_eq; eauto.
  - apply sync_finish_run with WStreamDone; [done|]. left. split; [done|]. specialize (Hk ltac:(done)). simpl in Hk.
    destruct (finish r) as [[]|]; simplify_eq; eauto.
  - specialize (Hk ltac:(done)). simpl in Hk. destruct (finish r) as [[]|] eqn:Hf; simplify_eq.
    eapply sync_rest; [exact H | done | done | | done]. intros u Hu _. destruct u; try done; simpl; by rewrite Hf.
  - unfold typing_sent. destruct e; [by eapply (sync_rest WTyping r)|].
    destruct (Z.ltb _ _); [|done]. eapply (sync_rest WTyping r); try done; same_waiting.
  - specialize (Hk ltac:(done)). unfold interrupt_sent. simpl in Hk. destruct (asks r !! ask) as [q|] eqn:Hi; [|done]. simpl in Hk.
    destruct (a_phase q) eqn:Hp; simplify_eq. destruct e as [e|].
    + apply sync_say. eapply sync_set_ask; [exact H | exact Hi | done | | done | done | by auto].
      intros _. unfold resolving; simpl. by rewrite Hp.
    + destruct (run_frames r); (eapply (sync_answered (WInterrupt ask)); [| |reflexivity|left; split; [done | by eexists]]); try done.
      destruct H as [H1 H2 H3]. split; [|done|done]. intros k' u Hk'. simpl in Hk' |- *. apply H1 in Hk'. lia.
  - specialize (Hk ltac:(done)). unfold interrupt_resolved. simpl in Hk. destruct (asks r !! ask) as [q|] eqn:Hi; [|done]. simpl in Hk.
    destruct (a_phase q) eqn:Hp; simplify_eq.
    assert (Hset : sync (set_ask ask (q <| a_phase := ASettled |>) r)).
    { eapply sync_set_ask; [exact H | exact Hi | | done | done | done | by auto]. intros _. unfold interrupting; simpl. by rewrite Hp. }
    destruct e as [e|]; [by apply sync_say|]. apply sync_say. destruct (_ && _); [by apply sync_post | done].
Qed.

Lemma sync_settled env k e r : sync r -> sync (settled env k e r).
Proof.
  intros H. unfold settled. destruct (waits r !! k) as [w|] eqn:Hk; [|done]. apply sync_resume.
  - by apply sync_resumed.
  - intros Hw. change (waiting (r <| waits ::= delete k |>) w) with (waiting r w). by apply H.
Qed.

Lemma sync_suspend_new v f r r' :
  sync r -> waiting r v = None -> v <> WTyping -> waits r' = waits r -> nextSend r' = nextSend r ->
  (forall u, u <> v -> u <> WTyping -> waiting r' u = waiting r u) -> waiting r' v = Some (nextSend r) ->
  sync (post_await f v r').
Proof.
  intros H Hv Ht Hw Hn Hu Hv'. eapply (sync_suspend WTyping v r); [done | | | | | done | done].
  - unfold post_await, post, say; simpl. by rewrite Hw, Hn.
  - unfold post_await, post, say; simpl. rewrite Hn. lia.
  - intros u ? _ ?. rewrite <- Hu by done. by destruct u.
  - intros _. rewrite <- Hv'. by destruct v.
Qed.

Lemma waiting_new_ask q r u :
  u <> WInterrupt (length (asks r)) -> resolving q = None -> waiting (r <| asks ::= fun l => l ++ [q] |>) u = waiting r u.
Proof.
  intros Hu Hq. destruct u; try done; simpl; (destruct (asks r !! ask) eqn:E;
    [by rewrite (lookup_app_l_Some _ _ _ _ E)|]; destruct ((asks r ++ _) !! ask) as [y|] eqn:E'; [|done]);
    apply lookup_snoc_case in E' as [[-> ->]|E']; simpl; try congruence; done.
Qed.

Lemma sync_message env t d o r : sync r -> sync (message env t d o r).
Proof.
  intros H. unfold message. destruct (valid_type _); [|by apply sync_say]. apply sync_post.
  apply (sync_stop _ WTyping) in H. destruct H as [H1 H2 H3]. by split.
Qed.

Lemma sync_stream m r : sync r -> sync (Reply.stream m r).
Proof.
  intros H. eapply (sync_rest WTyping r); [done | done | done | | done]. intros u _ _. destruct u as [j|j| | | | |j|j]; try done; unfold Reply.stream; simpl.
  + destruct (streams r !! j) eqn:E; [by rewrite (lookup_app_l_Some _ _ _ _ E)|].
    destruct ((streams r ++ _) !! j) as [y|] eqn:E'; [|done].
    apply lookup_snoc_case in E' as [[_ ->]|E']; [done | congruence].
  + destruct (streams r !! j) eqn:E; [by rewrite (lookup_app_l_Some _ _ _ _ E)|].
    destruct ((streams r ++ _) !! j) as [y|] eqn:E'; [|done].
    apply lookup_snoc_case in E' as [[_ ->]|E']; [done | congruence].
Qed.

Lemma sync_write i delta r : sync r -> sync (write i delta r).
Proof.
  intros H. unfold write. destruct (streams r !! i) as [st|] eqn:Hi; [|done]. destruct (ending st) eqn:He; try by apply sync_say.
  destruct (String.eqb delta ""); [done|]. destruct (bool_decide _);
    (eapply sync_set_stream; [exact Hi | exact H | done | done | done | done | by auto]).
Qed.

Lemma sync_toolCall env id st o r : sync r -> sync (toolCall env id st o r).
Proof.
  intros H. unfold toolCall. destruct (String.eqb _ _); [by apply sync_say|]. apply sync_post. by eapply (sync_rest WTyping r).
Qed.

Lemma sync_ui env c p id r : sync r -> sync (ui env c p id r).
Proof.
  intros H. unfold ui, nextChunkId, sendChunk, streamId. destruct id; apply sync_say, sync_post; by eapply (sync_rest WTyping r).
Qed.

Lemma sync_ask env p o r : sync r -> sync (ask env p o r).
Proof.
  intros H. unfold ask. set (r1 := stopTypingTimer _).
  assert (Ha : asks r1 = asks r) by (unfold r1, stopTypingTimer; by destruct (typing _)).
  assert (Hs : sync r1) by (by apply sync_stop, sync_say). rewrite <- Ha. clearbody r1.
  eapply (sync_suspend_new _ _ r1); [done | | done | done | done | | ].
  + simpl. by rewrite lookup_ge_None_2 by lia.
  + intros u Hu _. by apply waiting_new_ask.
  + simpl. rewrite lookup_app_r by lia. by rewrite Nat.sub_diag.
Qed.

Lemma sync_typing_call on r : sync r -> sync (typing_call on r).
Proof.
  intros H. unfold typing_call. set (r1 := stopTypingTimer r).
  assert (Hs : sync r1) by (by apply sync_stop). clearbody r1. destruct on; [|by apply sync_post, (sync_rest WTyping r1)].
  eapply (sync_suspend WTyping WTyping r1); try done; simpl; lia.
Qed.

Lemma sync_end_reply r : sync r -> sync (end_reply r).
Proof.
  intros H. unfold end_reply. destruct (finish r) as [f|] eqn:Hf; [done|].
  set (r1 := fold_left _ _ _). assert (Hs : sync r1) by (by apply sync_end_streams, sync_stop).
  assert (Hf1 : finish r1 = None). { unfold r1. rewrite finish_end_streams. unfold stopTypingTimer. by destruct (typing r). }
  clearbody r1. eapply (sync_rest WTyping r1); try done. intros u _ _. destruct u; try done; simpl; by rewrite Hf1.
Qed.

Lemma sync_flush_fired i r : sync r -> sync (flush_fired i r).
Proof.
  intros H. unfold flush_fired. destruct (streams r !! i) as [st|] eqn:Hi; [|done]. destruct (timer st); [|done].
  eapply sync_set_stream; [exact Hi | exact H | done | done | done | done | by auto].
Qed.

Lemma sync_typing_fired h r : sync r -> sync (typing_fired h r).
Proof.
  intros H. unfold typing_fired. destruct (bool_decide _); [by apply sync_post | done].
Qed.

Lemma sync_answer a res r : sync r -> sync (answer a res r).
Proof.
  intros H. unfold answer. destruct (asks r !! a) as [q|] eqn:Hi; [|done].
  destruct (a_answer q) eqn:Ea, (a_phase q) eqn:Hp; try done.
  + eapply sync_set_ask; [exact H | exact Hi | done | done | done | done | by auto].
  + eapply (sync_answered WTyping a _ q); [done | done | done | right; done].
Qed.

Lemma sync_flush_next env i r : sync r -> sync (flush_next env i r).
Proof.
  intros H. unfold flush_next. destruct (streams r !! i) as [st|] eqn:Hi; [|done].
  destruct (queued st) as [|n] eqn:Hq, (flight st) eqn:Hfl; try done.
  destruct (String.eqb (buffer st) ""); [eapply sync_set_stream; [exact Hi | exact H | done | done | done | done | by auto]|].
  set (g := match chunkId st with Some c => (c, r) | None => nextChunkId r end).
  assert (Hg : streams g.2 = streams r /\ waits g.2 = waits r /\ nextSend g.2 = nextSend r /\ forall u, waiting g.2 u = waiting r u).
  { unfold g, nextChunkId. destruct (chunkId st); split_and!; try done; by intros []. }
  destruct g as [c r1]. simpl in Hg. destruct Hg as (G1 & G2 & G3 & G4). unfold sendChunk, streamId.
  eapply (sync_suspend_new (WFlush i) _ r); [done | | done | done | simpl; congruence | |].
  + simpl. by rewrite Hi.
  + intros u Hu Ht. rewrite <- G4. transitivity (waiting (set_stream i
      (st <| queued := n |> <| buffer := "" |> <| chunkId := Some c |> <| flight := Some (nextSend r1) |>) r1) u); [by destruct u|].
    eapply waiting_set_stream; [by rewrite G1 | by intros -> | done].
  + simpl. rewrite G1, list_lookup_insert_eq by (by eapply lookup_lt_Some). simpl. by rewrite G3.
Qed.

Lemma sync_stream_flushed env i r : sync r -> sync (stream_flushed env i r).
Proof.
  intros H. unfold stream_flushed. destruct (streams r !! i) as [st|] eqn:Hi; [|done].
  destruct (ending st) eqn:He, (queued st), (flight st) eqn:Hfl; try done. destruct (_ && _).
  + unfold text_await. set (r1 := set_stream _ _ _).
    eapply (sync_suspend_new (WText i) _ r); [done | | done | | | |].
    * simpl. rewrite Hi. unfold sending; simpl. by rewrite He.
    * unfold stopTypingTimer. by destruct (typing r1).
    * unfold stopTypingTimer. by destruct (typing r1).
    * intros u Hu Ht. transitivity (waiting r1 u); [rewrite <- (waiting_stop r1 u); by destruct u|].
      eapply waiting_set_stream; [exact Hi | by intros -> | by intros ->].
    * transitivity (waiting r1 (WText i)); [rewrite <- (waiting_stop r1 (WText i)); done|].
      unfold r1, set_stream; simpl. by rewrite list_lookup_insert_eq by (by eapply lookup_lt_Some).
  + unfold stream_ended. eapply (sync_rest WTyping (set_stream i (st <| ending := SEnded None |>) r)); try done.
    eapply sync_set_stream; [exact Hi | exact H | done | | done | done | by auto]. intros _. unfold sending; simpl. by rewrite He.
Qed.

Lemma sync_streams_ended env r : sync r -> sync (streams_ended env r).
Proof.
  intros H. unfold streams_ended. destruct (finish r) as [[]|] eqn:Hf; try done. destruct (all_ended _ _); [|done].
  destruct (typingOn r); [|apply sync_finish_genui with WTyping; [done|right; eauto]].
  eapply (sync_suspend_new WTypingOff _ r); try done; [simpl; by rewrite Hf|].
  intros u Hu _. destruct u; try done; simpl; by rewrite Hf.
Qed.

Lemma sync_step r x : sync r -> sync (step r x).
Proof.
  destruct x as [env i]. intros H. destruct i; cbn [step].
  - by apply sync_message.
  - by apply sync_message.
  - by apply sync_stream.
  - by apply sync_write.
  - by apply sync_end_stream.
  - by apply sync_toolCall.
  - by apply sync_ui.
  - by apply sync_ask.
  - by apply sync_typing_call.
  - by apply sync_post.
  - by apply sync_end_reply.
  - by eapply (sync_rest WTyping r).
  - by apply sync_flush_fired.
  - by apply sync_typing_fired.
  - by apply sync_answer.
  - by apply sync_settled.
  - by apply sync_flush_next.
  - by apply sync_stream_flushed.
  - by apply sync_streams_ended.
Qed.

Lemma sync_new cid c b sig : sync (new_reply cid c b sig).
Proof.
  assert (H : forall n l, sync (mkReply cid c b sig ∅ [] [] None 0 false None false None "finished" [] [] 0 n ∅ l)).
  { intros n l. split; simpl; [done | | done]. intros k u _ _. rewrite lookup_empty. by destruct u. }
  unfold new_reply. destruct b; apply H.
Qed.

Lemma sync_run r l : sync r -> sync (run r l).
Proof. revert r. induction l as [|x l IH]; intros r H; [done|]. by apply IH, sync_step. Qed.
