(* ===== verification/ReplyDone.v ===== *)
(** * ReplyDone: [end] terminates, and what it has sent then
    ([packages/agent-ts/src/reply.ts]). *)

From stdpp Require Import base gmap sets list strings.
From Stdlib Require Import ZArith QArith Lia.
From S2P Require Import Prelude JsMap AgentFrames Reply ReplyStreams ReplyEnd.

Open Scope string_scope.
Open Scope list_scope.
Open Scope nat_scope.

(** ** How one stream changes *)

(** The message a stream sends in the [text] modes. *)
Definition text_sent (st : StreamImpl) (k : nat) (lg : list output) : Prop :=
  exists cid, OSend k (FMessage "text" cid (JObj [("text", JStr (text st))]) no_options) ∈ lg.

Inductive stream_move (lg : list output) : StreamImpl -> StreamImpl -> Prop :=
| MOpen st st' : ending st = SOpen -> ending st' = SOpen -> stream_move lg st st'
| MTimer st : timer st = true -> stream_move lg st (st <| timer := false |> <| queued ::= S |>)
| MFlush st st' n : queued st = S n -> flight st = None -> queued st' = n -> buffer st' = "" -> ending st' = ending st ->
  timer st' = timer st -> text st' = text st -> mode st' = mode st -> stream_move lg st st'
| MFlight st : stream_move lg st (st <| flight := None |>)
| MEnd st : ending st = SOpen -> stream_move lg st (st <| timer := false |> <| queued ::= S |> <| ending := SFlushing |>)
| MSend st k : ending st = SFlushing -> queued st = 0 -> flight st = None -> mode st <> Genui -> text st <> "" ->
  text_sent st k lg -> stream_move lg st (st <| ending := SSending k |>)
| MNow st : ending st = SFlushing -> queued st = 0 -> flight st = None -> (mode st = Genui \/ text st = "") ->
  stream_move lg st (st <| ending := SEnded None |>)
| MSent st k : ending st = SSending k -> stream_move lg st (st <| ending := SEnded (Some k) |>).

(** Streams only move, and new ones are open; the log only grows. *)
Record evolves (r r' : ReplyImpl) : Prop := {
  ev_old : forall i st, streams r !! i = Some st ->
    exists st', streams r' !! i = Some st' /\ rtc (stream_move (log r')) st st';
  ev_new : forall i st, streams r' !! i = Some st -> streams r !! i = None ->
    exists m, rtc (stream_move (log r')) (mkStream m None "" "" false 0 None SOpen) st;
  ev_log : log r `suffix_of` log r';
}.

Lemma text_sent_suffix st k lg lg' : lg `suffix_of` lg' -> text_sent st k lg -> text_sent st k lg'.
Proof. intros [l ->] [cid H]. exists cid. set_solver. Qed.

Lemma stream_move_suffix lg lg' st st' : lg `suffix_of` lg' -> stream_move lg st st' -> stream_move lg' st st'.
Proof.
  intros Hl []; [by apply MOpen | by apply MTimer | by eapply MFlush | apply MFlight | by apply MEnd
    | apply MSend; eauto using text_sent_suffix | by apply MNow | by apply MSent].
Qed.

Lemma moves_suffix lg lg' st st' : lg `suffix_of` lg' -> rtc (stream_move lg) st st' -> rtc (stream_move lg') st st'.
Proof. intros Hl. apply (rtc_congruence id). intros x y. by apply stream_move_suffix. Qed.

#[export] Instance evolves_preorder : PreOrder evolves.
Proof.
  split.
  - intros r. split; [eauto using rtc_refl | congruence | done].
  - intros a b c [A1 A2 A3] [B1 B2 B3]. split; [| |by etransitivity].
    + intros i st (st' & H & Hm)%A1. destruct (B1 _ _ H) as (st'' & H' & Hm'). exists st''. split; [done|].
      etransitivity; [|exact Hm']. by eapply moves_suffix.
    + intros i st H Hn. destruct (streams b !! i) as [stb|] eqn:Hb; [|by eapply B2].
      destruct (A2 _ _ Hb Hn) as [m Hm]. destruct (B1 _ _ Hb) as (st'' & H' & Hm'). exists m.
      rewrite H in H'. injection H' as <-. etransitivity; [|exact Hm']. by eapply moves_suffix.
Qed.

Lemma evolves_same r r' : streams r' = streams r -> log r `suffix_of` log r' -> evolves r r'.
Proof. intros Hs Hl. split; rewrite ?Hs; [eauto using rtc_refl | congruence | done]. Qed.

Lemma evolves_set r r' i st st' :
  streams r !! i = Some st -> streams r' = <[i := st']> (streams r) -> log r `suffix_of` log r' ->
  stream_move (log r') st st' -> evolves r r'.
Proof.
  intros Hi Hs Hl Hm. split; rewrite ?Hs; [| |done].
  - intros j x Hj. destruct (decide (i = j)) as [<-|Hne].
    + rewrite list_lookup_insert_eq by (by eapply lookup_lt_Some). exists st'. split; [done|].
      rewrite Hi in Hj. injection Hj as <-. by apply rtc_once.
    + rewrite list_lookup_insert_ne by done. exists x. split; [done | apply rtc_refl].
  - intros j x [[-> _]|[_ H]]%lookup_insert_case Hn; congruence.
Qed.

(** The log after a few more outputs. *)
Ltac suffix := simpl; repeat first [reflexivity | apply suffix_cons_r].

Ltac same := solve [apply evolves_same; [reflexivity | suffix]].

Lemma evolves_stop r : evolves r (stopTypingTimer r).
Proof. unfold stopTypingTimer. destruct (typing r); same. Qed.

Lemma evolves_end_stream i r : evolves r (end_stream i r).
Proof.
  unfold end_stream. destruct (streams r !! i) as [st|] eqn:Hi; [|done]. destruct (ending st) eqn:He; try done.
  eapply evolves_set; [exact Hi | done | suffix | by apply MEnd].
Qed.

Lemma evolves_end_streams l r : evolves r (fold_left (fun r i => end_stream i r) l r).
Proof. revert r. induction l as [|i l IH]; intros r; simpl; [done|]. etransitivity; [apply evolves_end_stream | apply IH]. Qed.

Lemma evolves_finish_run r : evolves r (finish_run r).
Proof. unfold finish_run. destruct (run_frames r); same. Qed.

Lemma evolves_finish_genui env r : evolves r (finish_genui env r).
Proof. unfold finish_genui, streamId, nextChunkId. destruct (genuiOpen r); [same | apply evolves_finish_run]. Qed.

Lemma evolves_answered a k r : evolves r (answered a k r).
Proof. unfold answered. destruct (a_answer k) as [[v|e]|]; same. Qed.

Lemma evolves_resume env w k e r : (w <> WTyping -> waiting r w = Some k) -> evolves r (resume env w k e r).
Proof.
  intros Hk. destruct w; cbn [resume].
  - unfold flush_done. destruct (streams r !! stream) as [st|] eqn:Hi; [|done].
    eapply evolves_set; [exact Hi | done | suffix | apply MFlight].
  - specialize (Hk ltac:(done)). unfold stream_sent, stream_ended. simpl in Hk. destruct (streams r !! stream) as [st|] eqn:Hi; [|done].
    eapply evolves_set; [exact Hi | done | suffix |]. apply MSent. simpl in Hk. unfold sending in Hk.
    destruct (ending st); simplify_eq; done.
  - apply evolves_finish_genui.
  - apply evolves_finish_run.
  - same.
  - unfold typing_sent. destruct e; [done|]. destruct (Z.ltb _ _); same.
  - unfold interrupt_sent. destruct (asks r !! ask); [|done]. destruct e; [same|].
    destruct (run_frames r); [transitivity (sendRun "interrupted" r); [same|]|]; apply evolves_answered.
  - unfold interrupt_resolved. destruct (asks r !! ask) as [q|]; [|done].
    destruct e, (a_phase q); try same. destruct (_ && _); same.
Qed.

Lemma evolves_flush_next env i r : evolves r (flush_next env i r).
Proof.
  unfold flush_next. destruct (streams r !! i) as [st|] eqn:Hi; [|done].
  destruct (queued st) as [|n] eqn:Hq, (flight st) eqn:Hf; try done.
  destruct (String.eqb (buffer st) "") eqn:Hb; bools.
  - eapply evolves_set; [exact Hi | done | suffix | by eapply MFlush].
  - destruct (chunkId st); unfold nextChunkId, sendChunk, streamId; simpl;
      (eapply evolves_set; [exact Hi | done | suffix | by eapply MFlush]).
Qed.

Lemma evolves_stream_flushed env i r : evolves r (stream_flushed env i r).
Proof.
  unfold stream_flushed. destruct (streams r !! i) as [st|] eqn:Hi; [|done].
  destruct (ending st) eqn:He, (queued st) eqn:Hq, (flight st) eqn:Hf; try done.
  destruct (negb (bool_decide (mode st = Genui)) && negb (String.eqb (text st) "")) eqn:Hc; bools.
  - unfold text_await. set (r1 := set_stream _ _ _).
    assert (H1 : streams (stopTypingTimer r1) = streams r1 /\ log (stopTypingTimer r1) = log r1 /\ nextSend (stopTypingTimer r1) = nextSend r).
    { unfold stopTypingTimer. by destruct (typing r1). }
    destruct H1 as (S1 & L1 & N1). eapply evolves_set; [exact Hi | | |].
    + unfold post_await, post, say; simpl. exact S1.
    + unfold post_await, post, say; simpl. rewrite L1. apply suffix_cons_r. done.
    + apply MSend; try done. exists (clientId env). unfold post_await, post, say; simpl. rewrite N1. set_solver.
  - unfold stream_ended. eapply evolves_set; [exact Hi | done | suffix |]. apply MNow; try done.
    apply andb_false_iff in Hc as [Hc|Hc]; bools; auto.
Qed.

Lemma step_evolves r x : sync r -> evolves r (step r x).
Proof.
  destruct x as [env i]. intros H. destruct i; cbn [step].
  1, 2: unfold text_message, message; destruct (valid_type _); [|same];
    (transitivity (stopTypingTimer r); [apply evolves_stop | same]).
  - split; [| |done]; unfold Reply.stream; simpl.
    + intros i st Hi. exists st. split; [by apply lookup_app_l_Some | apply rtc_refl].
    + intros i st [[_ ->]|Hi]%lookup_snoc_case Hn; [eexists; apply rtc_refl | congruence].
  - unfold write. destruct (streams r !! i) as [st|] eqn:Hi; [|done]. destruct (ending st) eqn:He; try same.
    destruct (String.eqb delta ""); [done|]. destruct (bool_decide _);
      (eapply evolves_set; [exact Hi | done | suffix | by apply MOpen]).
  - apply evolves_end_stream.
  - unfold toolCall. destruct (String.eqb _ _); same.
  - unfold ui, nextChunkId, sendChunk, streamId. destruct id; same.
  - unfold ask. set (r1 := say _ r). transitivity (stopTypingTimer r1); [|same].
    transitivity r1; [same | apply evolves_stop].
  - unfold typing_call. transitivity (stopTypingTimer r); [apply evolves_stop|]. destruct on; same.
  - same.
  - unfold end_reply. destruct (finish r); [done|]. transitivity (stopTypingTimer r); [apply evolves_stop|].
    etransitivity; [apply evolves_end_streams|]. same.
  - same.
  - unfold flush_fired. destruct (streams r !! i) as [st|] eqn:Hi; [|done]. destruct (timer st) eqn:Ht; [|done].
    eapply evolves_set; [exact Hi | done | suffix | by apply MTimer].
  - unfold typing_fired. destruct (bool_decide _); same.
  - unfold answer. destruct (asks r !! a) as [q|]; [|done].
    destruct (a_answer q), (a_phase q); try same. apply evolves_answered.
  - unfold settled. destruct (waits r !! k) as [w|] eqn:Hk; [|done].
    etransitivity; [|apply evolves_resume]; [same|].
    intros Hw. change (waiting (r <| waits ::= delete k |>) w) with (waiting r w). by apply H.
  - apply evolves_flush_next.
  - apply evolves_stream_flushed.
  - unfold streams_ended. destruct (finish r) as [[]|]; try done.
    destruct (all_ended _ _); [|done]. destruct (typingOn r); [same | apply evolves_finish_genui].
Qed.

(** ** What holds of a stream *)

Definition stream_ok (lg : list output) (st : StreamImpl) : Prop :=
  match ending st with
  | SOpen => True
  | SFlushing => timer st = false /\ (queued st = 0 -> buffer st = "")
  | SSending k =>
      timer st = false /\ queued st = 0 /\ flight st = None /\ buffer st = "" /\ mode st <> Genui /\ text st <> "" /\ text_sent st k lg
  | SEnded (Some k) =>
      timer st = false /\ queued st = 0 /\ flight st = None /\ buffer st = "" /\ mode st <> Genui /\ text st <> "" /\ text_sent st k lg
  | SEnded None =>
      timer st = false /\ queued st = 0 /\ flight st = None /\ buffer st = "" /\ (mode st = Genui \/ text st = "")
  end.

Lemma stream_ok_move lg st st' : stream_move lg st st' -> stream_ok lg st -> stream_ok lg st'.
Proof.
  intros Hm. unfold stream_ok, text_sent. destruct Hm as
    [st st' E E'|st Ht|st st' n E1 E2 E3 E4 E5 E6 E7 E8|st|st E|st k E E1 E2 E3 E4 E5|st E E1 E2 E3|st k E]; intros Hok;
    cbn [upd ending queued timer buffer flight mode text].
  - by rewrite E'.
  - destruct (ending st) as [| |k|[k|]]; naive_solver congruence.
  - rewrite E5, E6, E7, E8, E4. destruct (ending st) as [| |k|[k|]]; naive_solver congruence.
  - destruct (ending st) as [| |k|[k|]]; naive_solver.
  - split; [done|]. intros; lia.
  - rewrite E in Hok. destruct Hok as [? Hb]. unfold text_sent in E5. auto 10.
  - rewrite E in Hok. destruct Hok as [? Hb]. auto 10.
  - rewrite E in Hok. done.
Qed.

Lemma stream_ok_suffix lg lg' st : lg `suffix_of` lg' -> stream_ok lg st -> stream_ok lg' st.
Proof. intros Hl. unfold stream_ok. destruct (ending st) as [| |k|[k|]]; naive_solver eauto using text_sent_suffix. Qed.

(** A stream whose [end] was called never opens again. *)
Lemma closed_moves lg st st' : rtc (stream_move lg) st st' -> ending st <> SOpen -> ending st' <> SOpen.
Proof. induction 1 as [|x y z Hm _ IH]; [done|]. intros Hx. apply IH. destruct Hm; simpl; congruence. Qed.

(** The streams [#finish] waits for have been told to end. *)
Record reply_ok (r : ReplyImpl) : Prop := {
  rk_sync : sync r;
  rk_stream : forall i st, streams r !! i = Some st -> stream_ok (log r) st;
  rk_live : forall i, i ∈ live r -> i < length (streams r);
  rk_closing : forall l i, finish r = Some (FStreams l) -> i ∈ l -> exists st, streams r !! i = Some st /\ ending st <> SOpen;
}.

Lemma evolves_length r r' : evolves r r' -> length (streams r) <= length (streams r').
Proof.
  intros [H1 _ _]. destruct (decide (length (streams r) <= length (streams r'))); [done|].
  destruct (lookup_lt_is_Some_2 (streams r) (length (streams r'))) as [st Hst]; [lia|].
  destruct (H1 _ _ Hst) as (st' & H & _). apply lookup_lt_Some in H. lia.
Qed.

Lemma live_settled env k e r i : i ∈ live (settled env k e r) -> i ∈ live r.
Proof.
  unfold settled. destruct (waits r !! k) as [w|]; [|done]. destruct w; cbn [resume].
  - unfold flush_done. by destruct (_ !! stream).
  - unfold stream_sent, stream_ended. destruct (_ !! stream); [|done]. simpl. rewrite list_elem_of_filter. tauto.
  - unfold finish_genui, finish_run, streamId, nextChunkId. simpl. by destruct (genuiOpen r), (run_frames r).
  - unfold finish_run. simpl. by destruct (run_frames r).
  - done.
  - unfold typing_sent. destruct e; [done|]. by destruct (Z.ltb _ _).
  - unfold interrupt_sent, answered. destruct (_ !! ask) as [q|]; [|done]. destruct e; [done|].
    by destruct (run_frames _), (a_answer q) as [[]|].
  - unfold interrupt_resolved. destruct (_ !! ask) as [q|]; [|done]. destruct e, (a_phase q); try done. by destruct (_ && _).
Qed.

Lemma live_stop r : live (stopTypingTimer r) = live r.
Proof. unfold stopTypingTimer. by destruct (typing r). Qed.

Lemma live_end_streams l r : live (fold_left (fun r i => end_stream i r) l r) = live r.
Proof.
  revert r. induction l as [|i l IH]; intros r; simpl; [done|]. rewrite IH. unfold end_stream.
  destruct (streams r !! i) as [st|]; [|done]. by destruct (ending st).
Qed.

Lemma live_step r x i : i ∈ live (step r x) -> i ∈ live r \/ i < length (streams (step r x)).
Proof.
  destruct x as [env y]. destruct y; cbn [step].
  1, 2: unfold text_message, message; destruct (valid_type _); [|auto]; simpl; rewrite live_stop; auto.
  - simpl. rewrite length_app. intros [H|H]%elem_of_app; [by left|]. right. simpl. set_solver by lia.
  - unfold write. destruct (streams r !! i0) as [st|]; [|auto]. destruct (ending st); auto.
    destruct (String.eqb delta ""); [auto|]. destruct (bool_decide _); auto.
  - unfold end_stream. destruct (streams r !! i0) as [st|]; [|auto]. destruct (ending st); auto.
  - unfold toolCall. destruct (String.eqb _ _); auto.
  - unfold ui, nextChunkId, sendChunk, streamId. destruct id; auto.
  - unfold ask. simpl. rewrite live_stop. auto.
  - unfold typing_call. destruct on; simpl; rewrite live_stop; auto.
  - auto.
  - unfold end_reply. destruct (finish r); [auto|]. simpl. rewrite live_end_streams, live_stop. auto.
  - auto.
  - unfold flush_fired. destruct (streams r !! i0) as [st|]; [|auto]. destruct (timer st); auto.
  - unfold typing_fired. destruct (bool_decide _); auto.
  - unfold answer, answered. destruct (asks r !! a) as [q|]; [|auto].
    destruct (a_answer q) as [[]|], (a_phase q); auto. simpl. destruct res; auto.
  - intros H%live_settled. auto.
  - unfold flush_next, nextChunkId, sendChunk, streamId. destruct (streams r !! i0) as [st|]; [|auto].
    destruct (queued st), (flight st); auto. destruct (String.eqb _ _), (chunkId st); auto.
  - unfold stream_flushed, stream_ended, text_await. destruct (streams r !! i0) as [st|]; [|auto].
    destruct (ending st), (queued st), (flight st); auto. destruct (_ && _); simpl.
    + rewrite live_stop. auto.
    + rewrite list_elem_of_filter. tauto.
  - unfold streams_ended, finish_genui, finish_run, streamId, nextChunkId. destruct (finish r) as [[]|]; auto.
    destruct (all_ended _ _); [|auto]. by destruct (typingOn r), (genuiOpen r), (run_frames r); auto.
Qed.

(** Only [end] starts to wait for streams, and tells them to end. *)
Lemma closing_settled env k e r l : finish (settled env k e r) = Some (FStreams l) -> finish r = Some (FStreams l).
Proof.
  unfold settled. destruct (waits r !! k) as [w|]; [|done]. destruct w; cbn [resume].
  - unfold flush_done. by destruct (_ !! stream).
  - unfold stream_sent, stream_ended. by destruct (_ !! stream).
  - unfold finish_genui, finish_run, streamId, nextChunkId. simpl. by destruct (genuiOpen r), (run_frames r).
  - unfold finish_run. simpl. by destruct (run_frames r).
  - done.
  - unfold typing_sent. destruct e; [done|]. by destruct (Z.ltb _ _).
  - unfold interrupt_sent, answered. destruct (_ !! ask) as [q|]; [|done]. destruct e; [done|].
    by destruct (run_frames _), (a_answer q) as [[]|].
  - unfold interrupt_resolved. destruct (_ !! ask) as [q|]; [|done]. destruct e, (a_phase q); try done. by destruct (_ && _).
Qed.

Lemma finish_stop r : finish (stopTypingTimer r) = finish r.
Proof. unfold stopTypingTimer. by destruct (typing r). Qed.

Lemma closing_step r x l :
  finish (step r x) = Some (FStreams l) -> finish r = Some (FStreams l) \/ snd x = End /\ finish r = None /\ l = live r.
Proof.
  destruct x as [env y]. destruct y; cbn [step snd].
  1, 2: unfold text_message, message; destruct (valid_type _); [|auto]; simpl; rewrite finish_stop; auto.
  - auto.
  - unfold write. destruct (streams r !! i) as [st|]; [|auto]. destruct (ending st); auto.
    destruct (String.eqb delta ""); [auto|]. destruct (bool_decide _); auto.
  - unfold end_stream. destruct (streams r !! i) as [st|]; [|auto]. destruct (ending st); auto.
  - unfold toolCall. destruct (String.eqb _ _); auto.
  - unfold ui, nextChunkId, sendChunk, streamId. destruct id; auto.
  - unfold ask. simpl. rewrite finish_stop. auto.
  - unfold typing_call. destruct on; simpl; rewrite finish_stop; auto.
  - auto.
  - unfold end_reply. destruct (finish r) eqn:Hf; [rewrite Hf; auto|]. simpl. intros [= <-]. right. by rewrite live_stop.
  - auto.
  - unfold flush_fired. destruct (streams r !! i) as [st|]; [|auto]. destruct (timer st); auto.
  - unfold typing_fired. destruct (bool_decide _); auto.
  - unfold answer, answered. destruct (asks r !! a) as [q|]; [|auto].
    destruct (a_answer q) as [[]|], (a_phase q); auto. simpl. destruct res; auto.
  - intros H%closing_settled. auto.
  - unfold flush_next, nextChunkId, sendChunk, streamId. destruct (streams r !! i) as [st|]; [|auto].
    destruct (queued st), (flight st); auto. destruct (String.eqb _ _), (chunkId st); auto.
  - unfold stream_flushed, stream_ended, text_await. destruct (streams r !! i) as [st|]; [|auto].
    destruct (ending st), (queued st), (flight st); auto. destruct (_ && _); simpl; rewrite ?finish_stop; auto.
  - unfold streams_ended, finish_genui, finish_run, streamId, nextChunkId. destruct (finish r) as [[]|] eqn:Hf; rewrite ?Hf; auto.
    destruct (all_ended _ _); [|rewrite Hf; auto]. by destruct (typingOn r), (genuiOpen r), (run_frames r).
Qed.

Lemma end_streams_close l r i :
  i ∈ l -> i < length (streams r) ->
  exists st, streams (fold_left (fun r i => end_stream i r) l r) !! i = Some st /\ ending st <> SOpen.
Proof.
  intros Hi Hlen. apply list_elem_of_split in Hi as (l1 & l2 & ->). rewrite fold_left_app. simpl.
  set (r1 := fold_left _ l1 r).
  assert (H1 : i < length (streams r1)) by (pose proof (evolves_length _ _ (evolves_end_streams l1 r)); unfold r1; lia).
  apply lookup_lt_is_Some_2 in H1 as [st Hst].
  assert (H2 : exists st', streams (end_stream i r1) !! i = Some st' /\ ending st' <> SOpen).
  { unfold end_stream. rewrite Hst. destruct (ending st) eqn:He; [|exists st; split; congruence ..].
    eexists. split; [by apply list_lookup_insert_eq; eapply lookup_lt_Some | done]. }
  destruct H2 as (st' & Hst' & Hc). destruct (evolves_end_streams l2 (end_stream i r1)) as [Ho _ _].
  destruct (Ho _ _ Hst') as (st'' & ? & Hm). exists st''. split; [done|]. by eapply closed_moves.
Qed.

Lemma reply_ok_step r x : reply_ok r -> reply_ok (step r x).
Proof.
  intros [Hs Hst Hl Hc]. pose proof (step_evolves r x Hs) as He. pose proof (evolves_length _ _ He) as Hlen. split.
  - by apply sync_step.
  - intros i st' Hi. destruct He as [H1 H2 H3].
    assert (Hmoves : forall st0, stream_ok (log (step r x)) st0 -> rtc (stream_move (log (step r x))) st0 st' -> stream_ok (log (step r x)) st').
    { intros st0 H0. induction 1; eauto using stream_ok_move. }
    destruct (streams r !! i) as [st|] eqn:Hi0.
    + destruct (H1 _ _ Hi0) as (st'' & Hi' & Hm). rewrite Hi in Hi'. injection Hi' as <-.
      eapply Hmoves; [|exact Hm]. eapply stream_ok_suffix; eauto.
    + destruct (H2 _ _ Hi Hi0) as [m Hm]. by eapply Hmoves; [|exact Hm].
  - intros i [Hi|Hi]%live_step; [|done]. apply Hl in Hi. lia.
  - intros l i [Hf|(Hx & Hn & ->)]%closing_step Hi.
    + destruct (Hc _ _ Hf Hi) as (st & Hst0 & Hne). destruct He as [H1 _ _].
      destruct (H1 _ _ Hst0) as (st' & ? & Hm). exists st'. split; [done|]. by eapply closed_moves.
    + destruct x as [env y]. simpl in Hx. subst y. cbn [step]. unfold end_reply. rewrite Hn. simpl.
      apply end_streams_close; [by rewrite live_stop|]. unfold stopTypingTimer. destruct (typing r); simpl; auto.
Qed.

Lemma reply_ok_run r l : reply_ok r -> reply_ok (run r l).
Proof. revert r. induction l as [|x l IH]; intros r H; [done|]. by apply IH, reply_ok_step. Qed.

Lemma reply_ok_new cid c b sig : reply_ok (new_reply cid c b sig).
Proof. split; [apply sync_new | | |]; unfold new_reply; destruct b; simpl; try done; set_solver. Qed.

(** C11. When the promise of a stream's [end] has settled, all of its text is
    on its way: no write is left in the buffer or waiting for a flush, in the
    [genui] modes the chunks under its id spell the text, and in the [text]
    modes the whole text was sent as one [text] message. *)
Theorem ended_stream_sent_all (cid : string) (c : ReplyCore) (b : bool) (sig : option nat) (l : list (Env * input))
    (i : nat) (st : StreamImpl) (k : option nat) :
  let r := run (new_reply cid c b sig) l in
  streams r !! i = Some st -> ending st = SEnded k ->
  queued st = 0 /\ flight st = None /\
  (mode st <> Text -> text st = default "" ((fun id => chunk_text id (log r)) <$> chunkId st)) /\
  (mode st <> Genui -> text st <> "" -> exists n, k = Some n /\ text_sent st n (log r)) /\
  (mode st = Genui -> k = None).
Proof.
  cbv zeta. intros Hi He. pose proof (rk_stream _ (reply_ok_run _ l (reply_ok_new cid c b sig)) _ _ Hi) as Hok.
  pose proof (texts_ok_run _ l (texts_ok_new cid c b sig)) as Ht.
  assert (Hv : views (run (new_reply cid c b sig) l) !! i = Some (text_view st)) by (unfold views; by rewrite list_lookup_fmap, Hi).
  apply (to_text _ Ht) in Hv. unfold stream_ok in Hok. rewrite He in Hok.
  assert (Hb : buffer st = "") by (destruct k; naive_solver). rewrite Hb, append_empty_r in Hv.
  split_and!; [destruct k; naive_solver | destruct k; naive_solver | | | destruct k; naive_solver].
  - intros Hm. by rewrite bool_decide_eq_false_2 in Hv.
  - intros Hm Hx. destruct k as [n|]; [exists n; naive_solver | naive_solver].
Qed.

(** ** Termination *)

(** The continuations the event loop can run: a settled send, the next flush
    of a chain, the end of a chain, the end of the streams. *)
Definition internal (r : ReplyImpl) (i : input) : bool :=
  match i with
  | Settled k _ => match waits r !! k with Some _ => true | None => false end
  | FlushNext i => match streams r !! i with Some st => (0 <? queued st)%nat && bool_decide (flight st = None) | None => false end
  | StreamFlushed i =>
      match streams r !! i with
      | Some st => match ending st with SFlushing => (queued st =? 0)%nat && bool_decide (flight st = None) | _ => false end
      | None => false
      end
  | StreamsEnded => match finish r with Some (FStreams l) => all_ended l r | _ => false end
  | _ => false
  end.

Definition stream_weight (st : StreamImpl) : nat := 2 * queued st + match ending st with SFlushing => 2 | _ => 0 end.
Definition finish_weight (f : option finish_phase) : nat :=
  match f with Some (FStreams _) => 4 | Some (FTypingOff _) => 2 | Some (FStreamDone _) => 1 | _ => 0 end.
Definition ask_weight (q : Ask) : nat := match a_phase q with AInterrupt _ => 1 | _ => 0 end.

Definition measure (r : ReplyImpl) : nat :=
  sum_list (stream_weight <$> streams r) + finish_weight (finish r) + sum_list (ask_weight <$> asks r) + size (waits r).

Lemma sum_insert {A} (f : A -> nat) l i x y :
  l !! i = Some x -> sum_list (f <$> <[i := y]> l) + f x = sum_list (f <$> l) + f y.
Proof.
  revert i. induction l as [|z l IH]; intros [|i] H; simplify_eq/=; [lia|]. specialize (IH _ H). lia.
Qed.

Lemma size_suspend w r : sync r -> size (<[nextSend r := w]> (waits r)) = S (size (waits r)).
Proof.
  intros H. apply map_size_insert_None. destruct (waits r !! nextSend r) as [u|] eqn:E; [|done]. apply H in E. lia.
Qed.

Definition fresh (r : ReplyImpl) : Prop := waits r !! nextSend r = None.

Lemma sync_fresh w r : sync_but w r -> fresh r.
Proof. intros H. unfold fresh. destruct (waits r !! nextSend r) as [u|] eqn:E; [|done]. apply H in E. lia. Qed.

Lemma measure_finish_run r : fresh r -> measure (finish_run r) + finish_weight (finish r) <= measure r + 1.
Proof.
  intros H. unfold finish_run, measure. destruct (run_frames r); simpl; [rewrite map_size_insert_None by done|]; lia.
Qed.

Lemma measure_finish_genui env r : fresh r -> measure (finish_genui env r) + finish_weight (finish r) <= measure r + 2.
Proof.
  intros H. unfold finish_genui, streamId, nextChunkId. destruct (genuiOpen r); [|pose proof (measure_finish_run r H); lia].
  unfold measure; simpl. rewrite map_size_insert_None by done. lia.
Qed.

Lemma measure_set_stream i st st' r d :
  streams r !! i = Some st -> stream_weight st' + d = stream_weight st -> measure (set_stream i st' r) + d = measure r.
Proof. intros Hi Hw. unfold measure, set_stream; simpl. pose proof (sum_insert stream_weight _ _ _ st' Hi). lia. Qed.

Lemma measure_set_ask a q q' r :
  asks r !! a = Some q -> measure (set_ask a q' r) + ask_weight q = measure r + ask_weight q'.
Proof. intros Hi. unfold measure, set_ask; simpl. pose proof (sum_insert ask_weight _ _ _ q' Hi). lia. Qed.

Lemma measure_answered a q q0 r :
  fresh r -> asks r !! a = Some q0 -> measure (answered a q r) + ask_weight q0 <= measure r + 1.
Proof.
  intros Hf Hq. unfold answered.
  assert (H : forall q', ask_weight q' = 0 -> measure (set_ask a q' r) + ask_weight q0 = measure r).
  { intros q' H. pose proof (measure_set_ask a q0 q' r Hq). lia. }
  destruct (a_answer q) as [[v|e]|].
  - specialize (H (q <| a_phase := AResolving (nextSend r) v |>) eq_refl).
    unfold measure in H |- *. simpl in H |- *. rewrite map_size_insert_None by done. lia.
  - specialize (H (q <| a_phase := ASettled |>) eq_refl). unfold measure in H |- *. simpl in H |- *. lia.
  - specialize (H (q <| a_phase := AWaiting |>) eq_refl). unfold measure in H |- *. simpl in H |- *. lia.
Qed.

Lemma measure_resume env w k e r :
  sync_but w r -> (w <> WTyping -> waiting r w = Some k) -> measure (resume env w k e r) <= measure r.
Proof.
  intros Hs Hk. pose proof (sync_fresh _ _ Hs) as Hf. destruct w; cbn [resume].
  - unfold flush_done. destruct (streams r !! stream) as [st|] eqn:Hi; [|done].
    rewrite <- (Nat.add_0_r (measure _)). apply Nat.eq_le_incl. eapply measure_set_stream; [exact Hi | apply Nat.add_0_r].
  - specialize (Hk ltac:(done)). unfold stream_sent, stream_ended. simpl in Hk. destruct (streams r !! stream) as [st|] eqn:Hi; [|done].
    assert (Hw : stream_weight (st <| ending := SEnded (Some k) |>) + 0 = stream_weight st).
    { unfold stream_weight; simpl. simpl in Hk. unfold sending in Hk. destruct (ending st); done || lia. }
    pose proof (measure_set_stream _ _ _ _ 0 Hi Hw) as H. unfold measure in H |- *. simpl in H |- *. lia.
  - specialize (Hk ltac:(done)). simpl in Hk. pose proof (measure_finish_genui env r Hf).
    destruct (finish r) as [[]|]; simplify_eq. simpl in H. lia.
  - specialize (Hk ltac:(done)). simpl in Hk. pose proof (measure_finish_run r Hf).
    destruct (finish r) as [[]|]; simplify_eq. simpl in H. lia.
  - unfold measure; simpl. lia.
  - unfold typing_sent. destruct e; [done|]. by destruct (Z.ltb _ _).
  - specialize (Hk ltac:(done)). unfold interrupt_sent. simpl in Hk. destruct (asks r !! ask) as [q|] eqn:Hi; [|done]. simpl in Hk.
    destruct (a_phase q) eqn:Hp; simplify_eq. destruct e as [e|].
    + pose proof (measure_set_ask _ _ (q <| a_phase := ASettled |>) _ Hi) as H.
      change (ask_weight (q <| a_phase := ASettled |>)) with 0 in H. unfold measure in H |- *. simpl in H |- *. lia.
    + assert (Hw : ask_weight q = 1) by (unfold ask_weight; by rewrite Hp).
      destruct (run_frames r); [|pose proof (measure_answered ask q q r Hf Hi); lia].
      assert (Hf' : fresh (sendRun "interrupted" r)).
      { unfold fresh. simpl. destruct (waits r !! S (nextSend r)) as [u|] eqn:E; [|done]. apply Hs in E. lia. }
      pose proof (measure_answered ask q q (sendRun "interrupted" r) Hf' Hi).
      change (measure (sendRun "interrupted" r)) with (measure r) in H. lia.
  - unfold interrupt_resolved. destruct (asks r !! ask) as [q|] eqn:Hi; [|done].
    assert (Hm : measure (set_ask ask (q <| a_phase := ASettled |>) r) <= measure r).
    { pose proof (measure_set_ask _ _ (q <| a_phase := ASettled |>) _ Hi) as H.
      change (ask_weight (q <| a_phase := ASettled |>)) with 0 in H. lia. }
    destruct e, (a_phase q); try done. by destruct (_ && _).
Qed.

Lemma internal_decreases env i r : sync r -> internal r i = true -> measure (step r (env, i)) < measure r.
Proof.
  intros Hs. pose proof (sync_fresh _ _ Hs) as Hf. destruct i; cbn [internal step]; try done.
  - destruct (waits r !! k) as [w|] eqn:Hk; [|done]. intros _. unfold settled. rewrite Hk.
    pose proof (measure_resume env w k e (r <| waits ::= delete k |>) (sync_resumed _ _ _ Hs Hk)) as H.
    assert (Hw : w <> WTyping -> waiting (r <| waits ::= delete k |>) w = Some k).
    { intros Hw. change (waiting (r <| waits ::= delete k |>) w) with (waiting r w). by apply Hs. }
    eapply Nat.le_lt_trans; [exact (H Hw)|]. unfold measure; simpl. rewrite map_size_delete_Some by eauto.
    assert (size (waits r) <> 0) by (intros E%map_size_empty_iff; by rewrite E in Hk). lia.
  - unfold flush_next. destruct (streams r !! i) as [st|] eqn:Hi; [|done].
    intros [Hq Hfl]%andb_prop. apply bool_decide_eq_true in Hfl. apply Nat.ltb_lt in Hq. rewrite Hfl.
    destruct (queued st) as [|n] eqn:Hn; [lia|]. destruct (String.eqb _ _).
    + assert (Hw : stream_weight (st <| queued := n |>) + 2 = stream_weight st) by (unfold stream_weight; simpl; lia).
      pose proof (measure_set_stream _ _ _ _ 2 Hi Hw). lia.
    + set (st' := fun c => st <| queued := n |> <| buffer := "" |> <| chunkId := Some c |> <| flight := Some (nextSend r) |>).
      assert (H : forall c, measure (set_stream i (st' c) r) + 2 = measure r).
      { intros c. apply measure_set_stream with st; [done|]. unfold stream_weight; simpl. lia. }
      destruct (chunkId st) as [c|]; unfold nextChunkId, sendChunk, streamId; simpl.
      * specialize (H c). unfold st', measure in H. unfold measure. simpl in H |- *. rewrite map_size_insert_None by done. lia.
      * specialize (H (chunkCount r + 1)%Z). unfold st', measure in H. unfold measure. simpl in H |- *. rewrite map_size_insert_None by done. lia.
  - unfold stream_flushed. destruct (streams r !! i) as [st|] eqn:Hi; [|done].
    destruct (ending st) eqn:He; try done. intros [Hq Hfl]%andb_prop. apply bool_decide_eq_true in Hfl. apply Nat.eqb_eq in Hq.
    rewrite Hq, Hfl.
    assert (H : forall en, en <> SFlushing -> measure (set_stream i (st <| ending := en |>) r) + 2 = measure r).
    { intros en Hen. apply measure_set_stream with st; [done|]. unfold stream_weight; simpl. rewrite He, Hq. destruct en; done || lia. }
    destruct (_ && _).
    + specialize (H (SSending (nextSend r)) ltac:(done)). unfold text_await. set (r1 := set_stream _ _ _) in *.
      assert (Hm : measure (stopTypingTimer r1) = measure r1) by (unfold stopTypingTimer; by destruct (typing r1)).
      assert (Hf1 : fresh (stopTypingTimer r1)) by (unfold stopTypingTimer; by destruct (typing r1)).
      unfold measure in H, Hm |- *. simpl. rewrite map_size_insert_None by done. lia.
    + specialize (H (SEnded None) ltac:(done)). unfold stream_ended. unfold measure in H |- *. simpl in H |- *. lia.
  - unfold streams_ended. destruct (finish r) as [[l|n|n|n|]|] eqn:Hfi; try done. intros ->.
    destruct (typingOn r); [|pose proof (measure_finish_genui env r Hf) as H; rewrite Hfi in H; simpl in H; lia].
    unfold measure; simpl. rewrite Hfi, map_size_insert_None by done. simpl. lia.
Qed.

(** While [end] has not settled, some continuation can run. *)
Lemma internal_progress r f :
  reply_ok r -> finish r = Some f -> f <> FEnded -> exists i, internal r i = true.
Proof.
  intros [Hs _ _ Hc] Hf Hne.
  assert (Hwait : forall w k, w <> WTyping -> waiting r w = Some k -> exists i, internal r i = true).
  { intros w k Hw Hk. exists (Settled k None). cbn. apply Hs in Hk; [|done|done]. by rewrite Hk. }
  destruct f as [l|k|k|k|]; [|by eapply (Hwait WTypingOff); [|simpl; rewrite Hf] | by eapply (Hwait WStreamDone); [|simpl; rewrite Hf]
    | by eapply (Hwait WRunEnd); [|simpl; rewrite Hf] | done].
  destruct (all_ended l r) eqn:Ha; [by exists StreamsEnded; cbn; rewrite Hf|].
  unfold all_ended in Ha.
  assert (Hex : exists i, i ∈ l /\ exists st, streams r !! i = Some st /\ is_ended st = false).
  { clear -Ha. induction l as [|i l IH]; [done|]. simpl in Ha. apply andb_false_iff in Ha as [Ha|Ha].
    - exists i. split; [set_solver|]. destruct (streams r !! i) as [st|]; [by exists st | done].
    - destruct (IH Ha) as (j & ? & ?). exists j. split; [set_solver | done]. }
  destruct Hex as (i & Hil & st & Hi & Hend). destruct (Hc _ _ Hf Hil) as (st' & Hi' & Hopen). rewrite Hi in Hi'. injection Hi' as <-.
  unfold is_ended in Hend. destruct (ending st) as [| |k|k] eqn:He; try done.
  - destruct (flight st) as [k|] eqn:Hfl; [eapply (Hwait (WFlush i) k); [done | simpl; by rewrite Hi]|].
    destruct (queued st) as [|n] eqn:Hq.
    + exists (StreamFlushed i). cbn. rewrite Hi, He, Hq. by rewrite bool_decide_eq_true_2.
    + exists (FlushNext i). cbn. rewrite Hi, Hq. by rewrite bool_decide_eq_true_2.
  - eapply (Hwait (WText i) k); [done|]. simpl. rewrite Hi. simpl. unfold sending. by rewrite He.
Qed.

#[export] Instance finish_phase_eq_dec : EqDecision finish_phase.
Proof. solve_decision. Defined.

Fixpoint internal_run (r : ReplyImpl) (l : list (Env * input)) : Prop :=
  match l with
  | [] => True
  | (env, i) :: l' => internal r i = true /\ internal_run (step r (env, i)) l'
  end.

Lemma finish_stays env i r : internal r i = true -> finish r <> None -> finish (step r (env, i)) <> None.
Proof.
  destruct i; cbn [internal step]; try done; intros _ Hn.
  - unfold settled. destruct (waits r !! k) as [w|]; [|done]. destruct w; cbn [resume];
      unfold flush_done, stream_sent, stream_ended, finish_genui, finish_run, streamId, nextChunkId, typing_sent, interrupt_sent,
        interrupt_resolved, answered; simpl.
    + by destruct (streams r !! stream).
    + by destruct (streams r !! stream).
    + by destruct (genuiOpen r), (run_frames r).
    + by destruct (run_frames r).
    + done.
    + destruct e; [done|]. by destruct (Z.ltb _ _).
    + destruct (asks r !! ask) as [q|]; [|done]. by destruct e, (run_frames r), (a_answer q) as [[]|].
    + destruct (asks r !! ask) as [q|]; [|done]. destruct e, (a_phase q); try done. by destruct (_ && _).
  - unfold flush_next, nextChunkId, sendChunk, streamId. destruct (streams r !! i) as [st|]; [|done].
    destruct (queued st), (flight st); try done. by destruct (String.eqb _ _), (chunkId st).
  - unfold stream_flushed, stream_ended, text_await. destruct (streams r !! i) as [st|]; [|done].
    destruct (ending st), (queued st), (flight st); try done. destruct (_ && _); simpl; rewrite ?finish_stop; done.
  - unfold streams_ended, finish_genui, finish_run, streamId, nextChunkId. destruct (finish r) as [[]|] eqn:Hf; try congruence.
    destruct (all_ended _ _); [|congruence]. by destruct (typingOn r), (genuiOpen r), (run_frames r).
Qed.

Lemma internal_run_ok r l :
  reply_ok r -> internal_run r l ->
  reply_ok (run r l) /\ measure (run r l) + length l <= measure r /\ (finish r <> None -> finish (run r l) <> None).
Proof.
  revert r. induction l as [|[env i] l IH]; intros r Hok Hr; [split_and!; [done | simpl; lia | done]|].
  destruct Hr as [Hi Hr]. destruct (IH _ (reply_ok_step r (env, i) Hok) Hr) as (H1 & H2 & H3).
  pose proof (internal_decreases env i r (rk_sync _ Hok) Hi). change (run r ((env, i) :: l)) with (run (step r (env, i)) l).
  split_and!; [done | cbn [length]; lia |].
  intros Hn. apply H3. by apply finish_stays.
Qed.

(** C38. [end] terminates: once it was called, the continuations the event loop
    can run are at most [measure] many, in any order and with any sends
    failing; as long as [end] has not settled one of them can run, so when none
    is left it has; and such a completion exists. *)
Theorem end_completes (cid : string) (c : ReplyCore) (b : bool) (sig : option nat) (l : list (Env * input)) (env : Env) :
  let r := run (new_reply cid c b sig) l in
  ended r = true ->
  (forall more, internal_run r more ->
     length more <= measure r /\
     ((forall i, internal (run r more) i = false) -> finish (run r more) = Some FEnded)) /\
  (exists more, internal_run r more /\ finish (run r more) = Some FEnded).
Proof.
  cbv zeta. set (r := run _ l). assert (Hok : reply_ok r) by apply reply_ok_run, reply_ok_new. clearbody r. intros He.
  assert (Hn : finish r <> None) by (unfold ended in He; by destruct (finish r)). split.
  - intros more Hm. destruct (internal_run_ok _ _ Hok Hm) as (Hok' & Hl & Hf). split; [lia|]. intros Hstuck.
    destruct (finish (run r more)) as [f|] eqn:E; [|by destruct (Hf Hn)].
    destruct f; try done; (destruct (internal_progress _ _ Hok' E) as [i Hi]; [done|]; by rewrite Hstuck in Hi).
  - clear He. remember (measure r) as n eqn:Hn0. revert r Hok Hn Hn0. induction n as [n IH] using lt_wf_ind. intros r Hok Hn ->.
    destruct (finish r) as [f|] eqn:Hf; [|done].
    destruct (decide (f = FEnded)) as [->|Hne]; [by exists []|].
    destruct (internal_progress _ _ Hok Hf Hne) as [i Hi].
    pose proof (internal_decreases env i r (rk_sync _ Hok) Hi) as Hd.
    destruct (IH _ Hd (step r (env, i)) (reply_ok_step _ _ Hok)) as (more & Hm & Hend); [by apply finish_stays; [|rewrite Hf] | done |].
    by exists ((env, i) :: more).
Qed.

(** ** Tool calls *)

Definition tool_frame (o : output) : option reply_frame :=
  match o with OSend _ (FToolCall i n s t e opts) => Some (FToolCall i n s t e opts) | _ => None end.

Definition tool_frames (r : ReplyImpl) : list reply_frame := omap tool_frame (log r).

Definition tools_kept (r r' : ReplyImpl) : Prop := tools r' = tools r /\ tool_frames r' = tool_frames r.

Lemma tools_end_streams l r : tools_kept r (fold_left (fun r i => end_stream i r) l r).
Proof.
  revert r. induction l as [|i l IH]; intros r; simpl; [done|].
  assert (H : tools_kept r (end_stream i r)). { unfold end_stream. destruct (streams r !! i) as [st|]; [|done]. by destruct (ending st). }
  destruct H as [H1 H2], (IH (end_stream i r)) as [H3 H4]. split; congruence.
Qed.

Lemma tools_stop r : tools_kept r (stopTypingTimer r).
Proof. unfold stopTypingTimer. by destruct (typing r). Qed.

Lemma tools_settled env k e r : tools_kept r (settled env k e r).
Proof.
  unfold settled. destruct (waits r !! k) as [w|]; [|done]. destruct w; cbn [resume].
  - unfold flush_done. simpl. by destruct (streams r !! stream).
  - unfold stream_sent, stream_ended. simpl. by destruct (streams r !! stream).
  - unfold finish_genui, finish_run, streamId, nextChunkId. simpl. by destruct (genuiOpen r), (run_frames r).
  - unfold finish_run. simpl. by destruct (run_frames r).
  - done.
  - unfold typing_sent. destruct e; [done|]. by destruct (Z.ltb _ _).
  - unfold interrupt_sent, answered. simpl. destruct (asks r !! ask) as [q|]; [|done]. destruct e; [done|].
    by destruct (run_frames _), (a_answer q) as [[]|].
  - unfold interrupt_resolved. simpl. destruct (asks r !! ask) as [q|]; [|done]. destruct e, (a_phase q); try done. by destruct (_ && _).
Qed.

Lemma tools_step r env i : (forall id st o, i <> ToolCall id st o) -> tools_kept r (step r (env, i)).
Proof.
  intros Hi. destruct i; cbn [step].
  1, 2: unfold text_message, message; destruct (valid_type _); [|done]; exact (tools_stop r).
  - done.
  - unfold write. destruct (streams r !! i) as [st|]; [|done]. destruct (ending st); try done.
    destruct (String.eqb delta ""); [done|]. by destruct (bool_decide _).
  - unfold end_stream. destruct (streams r !! i) as [st|]; [|done]. by destruct (ending st).
  - by destruct (Hi id st o).
  - unfold ui, nextChunkId, sendChunk, streamId. by destruct id.
  - unfold ask. match goal with |- tools_kept _ (post_await _ _ (stopTypingTimer ?r1 <| asks ::= _ |>)) => exact (tools_stop r1) end.
  - unfold typing_call. destruct on; exact (tools_stop r).
  - done.
  - unfold end_reply. destruct (finish r); [done|]. destruct (tools_stop r) as [S1 S2].
    destruct (tools_end_streams (live (stopTypingTimer r)) (stopTypingTimer r)) as [E1 E2]. split.
    + simpl. congruence.
    + etransitivity; [exact E2 | exact S2].
  - done.
  - unfold flush_fired. destruct (streams r !! i) as [st|]; [|done]. by destruct (timer st).
  - unfold typing_fired. by destruct (bool_decide _).
  - unfold answer, answered. destruct (asks r !! a) as [q|]; [|done].
    destruct (a_answer q), (a_phase q); try done. simpl. by destruct res.
  - apply tools_settled.
  - unfold flush_next, nextChunkId, sendChunk, streamId. destruct (streams r !! i) as [st|]; [|done].
    destruct (queued st), (flight st); try done. by destruct (String.eqb _ _), (chunkId st).
  - unfold stream_flushed, stream_ended, text_await. destruct (streams r !! i) as [st|]; [|done].
    destruct (ending st), (queued st), (flight st); try done. destruct (_ && _); [|done].
    exact (tools_stop (set_stream i (st <| ending := SSending (nextSend r) |>) r)).
  - unfold streams_ended, finish_genui, finish_run, streamId, nextChunkId. destruct (finish r) as [[]|]; try done.
    destruct (all_ended _ _); [|done]. by destruct (typingOn r), (genuiOpen r), (run_frames r).
Qed.

(** What the [tool_call] frames sent so far say of a tool call. *)
Definition tools_ok (r : ReplyImpl) : Prop :=
  forall id name st t e o, FToolCall id name st t e o ∈ tool_frames r ->
    snd <$> tools r !! id = Some t /\ name <> "" /\ (st = "running" <-> e = None).

Lemma tools_ok_step r x : tools_ok r -> tools_ok (step r x).
Proof.
  destruct x as [env i]. intros H.
  assert (Hi : (exists id st o, i = ToolCall id st o) \/ forall id st o, i <> ToolCall id st o) by (destruct i; naive_solver).
  destruct Hi as [(id & st & o & ->)|Hno]; [|destruct (tools_step r env i Hno) as [H1 H2]; unfold tools_ok; by rewrite H1, H2].
  cbn [step]. unfold toolCall. destruct (String.eqb _ _) eqn:Hn; bools; [exact H|].
  intros id' name st' t e o'. unfold tool_frames. simpl. intros [[= -> -> -> -> -> ->]|Hin]%elem_of_cons.
  - rewrite lookup_insert_eq. simpl. split_and!; [done | done |].
    destruct (String.eqb st "running") eqn:Hs; bools; naive_solver.
  - specialize (H _ _ _ _ _ _ Hin) as (H1 & H2). split; [|done].
    destruct (decide (id = id')) as [->|Hne]; [|by rewrite lookup_insert_ne].
    rewrite lookup_insert_eq. simpl. by destruct (tools r !! id') as [[n0 t0]|].
Qed.

(** Every [tool_call] frame of one id carries the same [startedAt], and a
    name; it carries [endedAt] exactly when the call is no longer running. *)
Theorem tool_call_frames (cid : string) (c : ReplyCore) (b : bool) (sig : option nat) (l : list (Env * input))
    (k k' : nat) (id name name' st st' : string) (t t' : Z) (e e' : option Z) (o o' : ToolCallOptions) :
  let r := run (new_reply cid c b sig) l in
  OSend k (FToolCall id name st t e o) ∈ log r -> OSend k' (FToolCall id name' st' t' e' o') ∈ log r ->
  t = t' /\ name <> "" /\ (st = "running" <-> e = None).
Proof.
  cbv zeta. assert (H : forall r, tools_ok r -> tools_ok (run r l)).
  { induction l as [|x l' IH]; intros r H; [done|]. by apply IH, tools_ok_step. }
  specialize (H (new_reply cid c b sig)).
  assert (H0 : tools_ok (new_reply cid c b sig)). { unfold tools_ok, new_reply. destruct b; simpl; set_solver. }
  specialize (H H0). intros H1 H2.
  assert (Hin : forall k0 f, OSend k0 f ∈ log (run (new_reply cid c b sig) l) -> tool_frame (OSend k0 f) = Some f ->
    f ∈ tool_frames (run (new_reply cid c b sig) l)) by (intros k0 f ? ?; apply list_elem_of_omap; eauto).
  apply Hin in H1; [|done]. apply Hin in H2; [|done]. apply H in H1 as (T1 & N1 & E1). apply H in H2 as (T2 & _).
  split_and!; [congruence | done | done].
Qed.

(** ** A reply, run *)

Definition ex_core : ReplyCore := mkCore GenuiText 50 4000.
Definition ex_env (t : Z) : Env := mkEnv t (fun prefix => prefix +:+ "-1") "agent-1".
Definition at_ (t : Z) (i : input) : Env * input := (ex_env t, i).
Definition ex_tool : ToolCallOptions := mkToolOptions (Some "search") None None None None.
Definition ex_tool_again : ToolCallOptions := mkToolOptions None None None None None.

(** A tool call, then a stream written to twice while its first chunk is on the wire. *)
Definition ex_calls : list (Env * input) :=
  [at_ 10 (ToolCall "t" "running" ex_tool); at_ 20 (ToolCall "t" "done" ex_tool_again);
   at_ 30 (Stream None); at_ 30 (Write 0 "Hel"); at_ 80 (FlushTimer 0); at_ 80 (FlushNext 0); at_ 90 (Write 0 "lo"); at_ 95 End].

(** Send 3 is the chunk; the rest runs until [end] settles. *)
Definition ex_ending : list (Env * input) :=
  [at_ 96 (Settled 3 None); at_ 96 (FlushNext 0); at_ 97 (Settled 4 None); at_ 97 (StreamFlushed 0); at_ 98 (Settled 5 None);
   at_ 98 StreamsEnded; at_ 99 (Settled 6 None); at_ 99 (Settled 7 None)].

Definition ex_reply (l : list (Env * input)) : ReplyImpl := run (new_reply "c" ex_core true None) l.

(** The frames of the whole turn, in order. *)
Example ex_frames :
  rev (omap (fun o => match o with OSend _ f => Some f | _ => None end) (log (ex_reply (ex_calls ++ ex_ending)))) =
  [FRun "started"; FToolCall "t" "search" "running" 10 None ex_tool; FToolCall "t" "search" "done" 10 (Some 20%Z) ex_tool_again;
   FGenui "stream-1" false (TextChunk "Hel" 1); FGenui "stream-1" false (TextChunk "lo" 1);
   FMessage "text" "agent-1" (JObj [("text", JStr "Hello")]) no_options;
   FGenui "stream-1" true (DoneChunk 2); FRun "finished"].
Proof. vm_compute. reflexivity. Qed.

Lemma stream_chunks_are_text_witness :
  let r := run (new_reply "c" ex_core true None) ex_calls in
  let st := mkStream GenuiText (Some 1%Z) "lo" "Hello" false 1 (Some 3) SFlushing in
  streams r !! 0 = Some st /\
  (mode st = Text -> chunkId st = None) /\
  (mode st <> Text -> text st = default "" ((fun c => chunk_text c (log r)) <$> chunkId st) +:+ buffer st) /\
  (forall j st', j <> 0 -> streams r !! j = Some st' -> is_Some (chunkId st) -> chunkId st' <> chunkId st).
Proof.
  split; [vm_compute; reflexivity|].
  exact (stream_chunks_are_text "c" ex_core true None ex_calls 0
    (mkStream GenuiText (Some 1%Z) "lo" "Hello" false 1 (Some 3) SFlushing) ltac:(vm_compute; reflexivity)).
Defined.

Lemma ended_stream_sent_all_witness :
  let r := run (new_reply "c" ex_core true None) (ex_calls ++ ex_ending) in
  let st := mkStream GenuiText (Some 1%Z) "" "Hello" false 0 None (SEnded (Some 5)) in
  streams r !! 0 = Some st /\
  (mode st <> Text -> text st = default "" ((fun id => chunk_text id (log r)) <$> chunkId st)) /\
  (mode st <> Genui -> text st <> "" -> exists n, Some 5 = Some n /\ text_sent st n (log r)).
Proof.
  split; [vm_compute; reflexivity|].
  destruct (ended_stream_sent_all "c" ex_core true None (ex_calls ++ ex_ending) 0
    (mkStream GenuiText (Some 1%Z) "" "Hello" false 0 None (SEnded (Some 5))) (Some 5)
    ltac:(vm_compute; reflexivity) ltac:(vm_compute; reflexivity)) as (_ & _ & H1 & H2 & _).
  exact (conj H1 H2).
Defined.

Lemma end_completes_witness :
  let r := run (new_reply "c" ex_core true None) ex_calls in
  ended r = true /\ measure r = 9 /\
  exists more, internal_run r more /\ finish (run r more) = Some FEnded.
Proof.
  split; [vm_compute; reflexivity|]. split; [vm_compute; reflexivity|].
  exact (proj2 (end_completes "c" ex_core true None ex_calls (ex_env 96) ltac:(vm_compute; reflexivity))).
Defined.

Lemma tool_call_frames_witness :
  let r := run (new_reply "c" ex_core true None) ex_calls in
  OSend 2 (FToolCall "t" "search" "done" 10 (Some 20%Z) ex_tool_again) ∈ log r /\
  (10%Z = 10%Z /\ "search" <> "" /\ ("done" = "running" <-> Some 20%Z = None)).
Proof.
  split; [vm_compute; set_solver|].
  exact (tool_call_frames "c" ex_core true None ex_calls 2 1 "t" "search" "search" "done" "running" 10 10 (Some 20%Z) None
    ex_tool_again ex_tool ltac:(vm_compute; set_solver) ltac:(vm_compute; set_solver)).
Defined.

(** [typing(true)] called again before the first call's frame was accepted
    sets two intervals and keeps the handle of one: the other is still running
    when the reply has ended. *)
Example typing_twice_leaks :
  let r := ex_reply [at_ 1 (Typing true); at_ 2 (Typing true); at_ 3 (Settled 1 None); at_ 4 (Settled 2 None); at_ 5 End;
                     at_ 6 StreamsEnded; at_ 7 (Settled 3 None); at_ 8 (Settled 4 None)] in
  finish r = Some FEnded /\ typing r = None /\ intervals r = [0].
Proof. vm_compute. auto. Qed.
