(* ===== verification/Agent.v ===== *)
(** * Agent: the channel-scoped agent connection
    ([packages/agent-ts/src/agent.ts], class [Agent]).

    The private fields are the record [Agent]; methods and callbacks are
    functions on it that take the moment's [Env].  An [await] ends a function:
    the rest is a [task], or a phase of the lane whose turn is running, resumed
    by the input that settles its promise.  Objects the program compares by
    identity (timers, sockets, abort controllers, collectors) are numbers drawn
    from one counter, the promises of sends from another.  What the agent does to the outside is
    appended to [log], newest first.

    Not modelled: the logger, the registered [onFrame] callbacks (a
    notification is an output), listeners that call back into the agent while
    it emits, and a [getToken] that throws instead of rejecting. *)

From stdpp Require Import base gmap sets list strings sorting pretty.
From Stdlib Require Import ZArith QArith Qminmax Qround Lia Ascii.
From S2P Require Import Prelude Backoff Frames Tracker JsMap AgentFrames.

Open Scope string_scope.
Open Scope list_scope.
Open Scope Z_scope.

(** ** Options *)

(* @src packages/agent-ts/src/agent.ts 52-103 AgentOptions *)
Record AgentOptions := mkOptions {
  opt_token : option string;
  opt_getToken : bool;
  opt_group : option string;
  opt_userId : option string;
  opt_webSocket : bool;
  opt_reconnect : reconnect_arg;
  opt_watermarks : list (string * Z);
  opt_maxTrackedConversations : option Z;
  opt_maxInFlight : option Z;
  opt_maxFramesPerSecond : option Q;
  opt_ackTimeoutMs : option Z;
  opt_sendTimeoutMs : option Z;
  opt_maxConcurrentTurns : option Z;
  opt_includeBotTurns : bool;
  opt_clientPrefix : string;
}.

(** The fields the constructor derives from the options. *)
Record AgentConfig := mkConfig {
  options : AgentOptions;
  reconnect : ResolvedReconnect;
  maxInFlight : Z;
  fps : Q;
  ackTimeoutMs : Z;
  sendTimeoutMs : Z;
  maxConcurrent : Z;
}.

(* @src packages/agent-ts/src/agent.ts 229-238 constructor *)
Definition configure (o : AgentOptions) : AgentConfig := {|
                                                          options := o;
                                                          reconnect := agent_resolveReconnect (opt_reconnect o);
                                                          maxInFlight := Z.max 1 (opt_maxInFlight o ?? 32);
                                                          fps := Qmax 1 (opt_maxFramesPerSecond o ?? 15)%Q;
                                                          ackTimeoutMs := opt_ackTimeoutMs o ?? 10000;
                                                          sendTimeoutMs := opt_sendTimeoutMs o ?? 120000;
                                                          maxConcurrent := Z.max 1 (opt_maxConcurrentTurns o ?? 64);
|}.

(** ** Data *)

(* @src packages/agent-ts/src/agent.ts 111-119 DisconnectInfo *)
Record DisconnectInfo := mkDisconnect { di_code : Z; di_reason : string; di_willReconnect : bool; di_retryInMs : option Z }.

(* @src packages/agent-ts/src/agent.ts 121-127 ResumeInfo *)
Record ResumeInfo := mkResumeInfo { ri_conversationId : string; ri_answers : list (string * json); ri_matched : list string }.

(* @src packages/agent-ts/src/agent.ts 129-140 AgentEvents *)
Inductive event :=
| EConnected (welcome : json)
| EDisconnected (info : DisconnectInfo)
| EError (e : AgentError)
| EResume (info : ResumeInfo).

(** A send; [o_id] is the promise it settles. *)
(* @src packages/agent-ts/src/agent.ts 142-151 Outgoing *)
Record Outgoing := mkOutgoing {
  o_id : nat;
  o_conversationId : string;
  o_frame : list (string * json);
  o_clientId : option string;
  o_deadline : Z;
  o_sentAt : Z;
  o_attempts : Z;
}.

#[export] Instance eta_outgoing : Eta Outgoing :=
  fun e => mkOutgoing (o_id e) (o_conversationId e) (o_frame e) (o_clientId e) (o_deadline e) (o_sentAt e) (o_attempts e).

(** How far the [#runTurn] at the head of a lane's promise chain has come:
    waiting for a slot, granted one, inside the handler, inside [reply.end()]. *)
Inductive job :=
| JWaiting (envelope : json)
| JAcquired (envelope : json)
| JHandler (envelope : json) (controller : nat)
| JEnding.

(** [tail] is the chain itself: the turn in progress and those behind it. *)
(* @src packages/agent-ts/src/agent.ts 153-157 Lane *)
Record Lane := mkLane {
  l_job : option job;
  l_behind : list json;
  l_queued : Z;
  l_controller : option nat;
}.

#[export] Instance eta_lane : Eta Lane := fun l => mkLane (l_job l) (l_behind l) (l_queued l) (l_controller l).

(* @src packages/agent-ts/src/agent.ts 159-162 PendingAsk *)
Record PendingAsk := mkAsk { ak_id : nat; ak_signal : option nat; ak_timer : option nat }.

(* @src packages/agent-ts/src/agent.ts 164-169 HistoryCollector *)
Record HistoryCollector := mkCollector { hc_id : nat; hc_until : Z; hc_frames : list json; hc_timer : nat }.

#[export] Instance eta_collector : Eta HistoryCollector :=
  fun h => mkCollector (hc_id h) (hc_until h) (hc_frames h) (hc_timer h).

(* @src packages/agent-ts/src/agent.ts 171-171 TRANSIENT *)
Definition TRANSIENT : list string := ["typing"; "run"; "read"; "sync"; "error"; "genui_components"; "skills"].
(* @src packages/agent-ts/src/agent.ts 172-172 RESEND_CODES *)
Definition RESEND_CODES : list string := ["rate_limited"; "too_many_in_flight"; "unavailable"; "internal"].
(* @src packages/agent-ts/src/agent.ts 173-173 MAX_SEND_ATTEMPTS *)
Definition MAX_SEND_ATTEMPTS : Z := 6.

(* @src packages/agent-ts/src/socket.ts 29-37 SocketClose *)
Record SocketClose := mkClose { sc_code : Z; sc_reason : string; sc_opened : bool; sc_retryAfterMs : option Z }.

(** The agent's view of its [AgentSocket]: its identity and [welcomed]. *)
Record SocketRef := mkSocketRef { sk_id : nat; sk_welcomed : bool }.

(* @src packages/agent-ts/src/token.ts 22-30 TokenRequest *)
Inductive token_reason := RConnect | RRefresh | RRejected.

(* @src packages/agent-ts/src/frames.ts 179-180 HelloFrame *)
Record HelloFrame := mkHello {
  h_token : string;
  h_group : option string;
  h_userId : option string;
  h_watermarks : option (list (string * Z));
}.

(** The callbacks given to [setTimeout] and [setInterval].  The timer of a send
    to be retried is kept apart, in [retries]: the program drops its handle, so
    nothing can clear it. *)
Inductive timer_action :=
| TConnect (reason : token_reason)
| TRefresh
| TTick
| TPump
| TSync (conversationId : string) (watermark : Z)
| THistory (conversationId : string) (collector : nat)
| TAsk (key : string) (ask : nat) (e : AgentError)
| TDrain (deadline : Z).

(** The rest of an async function, waiting for a promise. *)
Inductive task :=
| KToken (reason : token_reason)
| KRefresh
| KStopTails (timeoutMs : Z)
| KHistorySync (conversationId : string) (collector : nat).

(** How a promise settles; a rejection with [None] is not an [AgentError]. *)
Inductive outcome := OkToken (token : string) | OkDone | Failed (e : option AgentError).

(** How a handler ends; a throw carries the [AgentError], if it is one, and its message. *)
Inductive handler_result := HReturned | HThrew (cause : option AgentError) (message : string).

(** How the promise of a send settles. *)
Inductive send_result := SAcked (ack : json) | SWritten | SFailed (e : AgentError).

Inductive output :=
| OEmit (e : event)
| ONotify (frame : json) (conversationId : option string)
| OGetToken (reason : token_reason)
| OConnect (socket : nat) (hello : HelloFrame)
| OCloseSocket (socket : nat) (code : Z) (reason : string)
| OAuth (socket : nat) (token : string)
| OWrite (socket : nat) (entry : Outgoing)
| OSettle (send : nat) (r : send_result)
| OStarted
| OStartFailed (e : AgentError)
| OHandler (turn : Turn) (controller : nat)
| OStatus (conversationId : string) (status : string)
| OReplyEnd (conversationId : string)
| OHistory (collector : nat) (frames : list json)
| OAnswer (ask : nat) (value : json)
| OAskFailed (ask : nat) (e : AgentError)
| OStopped.

(** [#start]: not created, created, or settled (settling again does nothing). *)
Inductive start_state := NoStart | StartPending | StartSettled.

#[export] Instance start_state_eq_dec : EqDecision start_state.
Proof. solve_decision. Defined.

(* @src packages/agent-ts/src/agent.ts 187-224 Agent *)
Record Agent := mkAgent {
  tracker : WatermarkTracker;
  lanes : list (string * Lane);
  asks : list (string * PendingAsk);
  histories : list (string * HistoryCollector);
  queue : list Outgoing;
  inflight : list (string * Outgoing);
  handler : bool;
  socket : option SocketRef;
  welcome : option json;
  running : bool;
  stopping : bool;
  everConnected : bool;
  attempt : Z;
  clientCounter : Z;
  reconnectTimer : option nat;
  refreshTimer : option nat;
  tickTimer : option nat;
  pumpTimer : option nat;
  tokens : Q;
  tokensAt : Z;
  pausedUntil : Z;
  active : Z;
  waiters : list string;
  start_promise : start_state;
  rejected : bool;
  controllers : gmap nat (option AgentError);
  timers : gmap nat (timer_action * Q);
  retries : list (nat * Outgoing * Q);
  tasks : gmap nat task;
  nextId : nat;
  nextSend : nat;
  log : list output;
}.

#[export] Instance eta_agent : Eta Agent :=
  fun s => mkAgent (tracker s) (lanes s) (asks s) (histories s) (queue s) (inflight s) (handler s) (socket s) (welcome s)
    (running s) (stopping s) (everConnected s) (attempt s) (clientCounter s) (reconnectTimer s) (refreshTimer s)
    (tickTimer s) (pumpTimer s) (tokens s) (tokensAt s) (pausedUntil s) (active s) (waiters s) (start_promise s)
    (rejected s) (controllers s) (timers s) (retries s) (tasks s) (nextId s) (nextSend s) (log s).

(** The moment a callback runs: [Date.now()], one draw of [Math.random()], and
    whether the socket's [send] writes. *)
Record Env := mkEnv { now : Z; random : Q; accepts : nat -> bool }.

(** [`${conversationId}\u0000${id}`]. *)
Definition key_of (conversationId id : string) : string := conversationId +:+ String Ascii.zero id.

(** The key of a send in [#inflight]. *)
Definition entry_key (e : Outgoing) : string := key_of (o_conversationId e) (o_clientId e ?? "").

Definition frame_type (frame : list (string * json)) : string := str (assoc "type" frame) ?? "undefined".

(** ** The runtime *)

Definition say (o : output) (s : Agent) : Agent := s <| log ::= cons o |>.
Definition emit (e : event) (s : Agent) : Agent := say (OEmit e) s.

Definition setTimeout (a : timer_action) (delay : Q) (s : Agent) : nat * Agent :=
  (nextId s, s <| timers ::= <[nextId s := (a, delay)]> |> <| nextId ::= S |>).

(** [if (handle) clearTimeout(handle)]. *)
Definition clearTimeout (handle : option nat) (s : Agent) : Agent :=
  match handle with
  | Some h => s <| timers ::= delete h |>
  | None => s
  end.

(** Suspend at an [await]. *)
Definition await (k : task) (s : Agent) : Agent := s <| tasks ::= <[nextId s := k]> |> <| nextId ::= S |>.

(** [this.#start?.resolve()] and [reject]. *)
Definition resolve_start (s : Agent) : Agent :=
  match start_promise s with StartPending => say OStarted (s <| start_promise := StartSettled |>) | _ => s end.
Definition reject_start (e : AgentError) (s : Agent) : Agent :=
  match start_promise s with StartPending => say (OStartFailed e) (s <| start_promise := StartSettled |>) | _ => s end.

(** The retry a timer was set for, and the others. *)
Fixpoint take_retry (h : nat) (l : list (nat * Outgoing * Q)) : option (Outgoing * list (nat * Outgoing * Q)) :=
  match l with
  | [] => None
  | (h', entry, delay) :: l' =>
      if Nat.eqb h' h then Some (entry, l')
      else match take_retry h l' with
           | Some (e, rest) => Some (e, (h', entry, delay) :: rest)
           | None => None
           end
  end.

(** Settle the promises of several sends, in order. *)
Definition settle_all (r : Outgoing -> send_result) (l : list Outgoing) (s : Agent) : Agent :=
  fold_left (fun s e => say (OSettle (o_id e) (r e)) s) l s.

Definition is_transient (e : Outgoing) : bool := bool_decide (frame_type (o_frame e) ∈ TRANSIENT).

(* @src packages/agent-ts/src/agent.ts 908-911 emitError *)
Definition emitError (e : AgentError) (s : Agent) : Agent := emit (EError e) s.

(* @src packages/agent-ts/src/agent.ts 263-266 connected *)
Definition connected (s : Agent) : bool :=
  bool_decide (is_Some (welcome s)) && match socket s with Some k => sk_welcomed k | None => false end.

(* @src packages/agent-ts/src/agent.ts 268-271 channelId *)
Definition channelId (s : Agent) : option string :=
  match welcome s with Some w => str_at "channelId" (data_of w) | None => None end.

(* @src packages/agent-ts/src/agent.ts 278-281 watermarks *)
Definition watermarks (s : Agent) : list (string * Z) := Tracker.snapshot (tracker s).

Section Methods.
Context (cfg : AgentConfig).

(** ** Outbound *)

(* @src packages/agent-ts/src/agent.ts 755-758 nextClientId *)
Definition nextClientId (s : Agent) : string * Agent :=
  let s := s <| clientCounter ::= Z.succ |> in
  (opt_clientPrefix (options cfg) +:+ "-" +:+ pretty (clientCounter s), s).

(** The [while] loop of [#pump], as many rounds as there are sends. *)
(* @src packages/agent-ts/src/agent.ts 839-861 pump *)
Fixpoint pump_loop (rounds : nat) (env : Env) (sk : nat) (s : Agent) : Agent :=
  match rounds, queue s with
  | S rounds, head :: rest =>
      if truthy (o_clientId head) && (maxInFlight cfg <=? Z.of_nat (length (inflight s))) then s
      else if Qlt_le_dec (tokens s) 1 then
        let wait := Qceiling ((1 - tokens s) / fps cfg * 1000) in
        let '(h, s) := setTimeout TPump (inject_Z wait) s in
        s <| pumpTimer := Some h |>
      else
        let s := s <| queue := rest |> in
        if negb (accepts env sk) then s <| queue ::= cons head |>
        else
          let s := say (OWrite sk head) s in
          let s := s <| tokens ::= fun t => (t - 1)%Q |> in
          let head := head <| o_attempts ::= Z.succ |> <| o_sentAt := now env |> in
          let s := if truthy (o_clientId head)
                     then s <| inflight ::= map_set (entry_key head) head |>
                   else say (OSettle (o_id head) SWritten) s in
          pump_loop rounds env sk s
  | _, _ => s
  end.

(* @src packages/agent-ts/src/agent.ts 836-838 pump *)
Definition refill (env : Env) (s : Agent) : Agent :=
  s <| tokens ::= fun t => Qmin (fps cfg) (t + inject_Z (now env - tokensAt s) / 1000 * fps cfg) |>
  <| tokensAt := now env |>.

(* @src packages/agent-ts/src/agent.ts 824-862 pump *)
Definition pump (env : Env) (s : Agent) : Agent :=
  match pumpTimer s, socket s with
  | None, Some sk =>
      if negb (connected s) then s
      else if now env <? pausedUntil s then
        let '(h, s) := setTimeout TPump (inject_Z (pausedUntil s - now env)) s in
        s <| pumpTimer := Some h |>
      else
        let s := refill env s in
        pump_loop (length (queue s)) env (sk_id sk) s
  | _, _ => s
  end.

Definition closed_error (message : string) (conversationId : option string) : AgentError :=
  agent_error "closed" message (Some false) conversationId None.

(** The id of a send, from its frame or generated. *)
Definition client_id_of (frame : list (string * json)) (s : Agent) : string * Agent :=
  match str (assoc "clientId" frame) with
  | Some c => (c, s)
  | None => match str (assoc "id" frame) with Some c => (c, s) | None => nextClientId s end
  end.

(** [#enqueue]: the promise returned, which may have settled already. *)
(* @src packages/agent-ts/src/agent.ts 803-822 enqueue *)
Definition enqueue (env : Env) (conversationId : string) (frame : list (string * json)) (s : Agent) : nat * Agent :=
  let id := nextSend s in
  let s := s <| nextSend ::= S |> in
  if negb (running s) && bool_decide (start_promise s = NoStart) then
    (id, say (OSettle id (SFailed (closed_error "the agent is not started" (Some conversationId)))) s)
  else if negb (running s) then
    (id, say (OSettle id (SFailed (closed_error "the agent was stopped" (Some conversationId)))) s)
  else
    let type := frame_type frame in
    if bool_decide (type ∈ TRANSIENT) && negb (String.eqb type "sync") && negb (connected s)
      then (id, say (OSettle id SWritten) s)
    else
      let acked := negb (bool_decide (type ∈ UNACKED_TYPES)) in
      let '(clientId, frame, s) :=
        if acked then
          let '(c, s) := client_id_of frame s in
          (Some c,
           match assoc "clientId" frame, assoc "id" frame with
           | None, None => frame ++ [("clientId", JStr c)]
           | _, _ => frame
           end, s)
        else (None, frame, s) in
      let s := s <| queue ::= fun q =>
        q ++ [mkOutgoing id conversationId frame clientId (now env + sendTimeoutMs cfg) 0 0] |> in
      let s := s <| tracker ::= Tracker.touch conversationId |> in
      (id, pump env s).

(* @src packages/agent-ts/src/agent.ts 359-366 send *)
Definition send (env : Env) (conversationId : string) (frame : list (string * json)) (s : Agent) : nat * Agent :=
  enqueue env conversationId frame s.

(* @src packages/agent-ts/src/agent.ts 864-884 onSendError *)
Definition onSendError (env : Env) (e : AgentError) (s : Agent) : Agent :=
  let key := key_of (ae_conversationId e ?? "") (ae_clientId e ?? "") in
  match assoc key (inflight s) with
  | None => emitError e s
  | Some entry =>
      let s := s <| inflight ::= map_delete key |> in
      let s :=
        if ae_retryable e && bool_decide (ae_code e ∈ RESEND_CODES) && (o_attempts entry <? MAX_SEND_ATTEMPTS) then
          let delay := ae_retryAfterMs e ?? backoffDelay (o_attempts entry) (reconnect cfg) None (random env) in
          s <| retries ::= fun l => l ++ [(nextId s, entry, inject_Z delay)] |> <| nextId ::= S |>
        else say (OSettle (o_id entry) (SFailed e)) s in
      pump env s
  end.

(* @src packages/agent-ts/src/agent.ts 875-879 onSendError *)
Definition retry_fired (env : Env) (entry : Outgoing) (s : Agent) : Agent :=
  if negb (running s) then s else pump env (s <| queue ::= cons entry |>).

Definition timeout_error (message : string) (e : Outgoing) : AgentError :=
  agent_error "timeout" message (Some true) (Some (o_conversationId e)) (o_clientId e).

(** The [for] loop of [#tick] over the in-flight sends: a [Map] is iterated
live, so an entry is read when its key is reached. *)
(* @src packages/agent-ts/src/agent.ts 895-904 tick *)
Definition tick_inflight (t : Z) (s : Agent) : Agent :=
  fold_left (fun s key =>
             match assoc key (inflight s) with
             | None => s
             | Some entry =>
                 if o_deadline entry <? t then
                   say (OSettle (o_id entry) (SFailed (timeout_error "no ack in time" entry))) (s <| inflight ::= map_delete key |>)
                 else if connected s && (ackTimeoutMs cfg <? t - o_sentAt entry) then
                   s <| inflight ::= map_delete key |> <| queue ::= cons entry |>
                 else s
             end) (map fst (inflight s)) s.

(* @src packages/agent-ts/src/agent.ts 886-906 tick *)
Definition tick (env : Env) (s : Agent) : Agent :=
  let late := fun e => (o_deadline e <? now env) = true in
  let expired := filter late (queue s) in
  let s := s <| queue ::= filter (fun e => ~ late e) |> in
  let s := settle_all (fun e => SFailed (timeout_error "the send was not delivered in time" e)) (rev expired) s in
  pump env (tick_inflight (now env) s).

(** ** Histories *)

Definition seq_le (a b : json) : Prop := int_at "seq" a ?? 0 <= int_at "seq" b ?? 0.

#[export] Instance seq_le_dec : RelDecision seq_le.
Proof. intros a b. unfold seq_le. apply _. Defined.

(** [collector.done()]: [finish], which does nothing once settled. *)
(* @src packages/agent-ts/src/agent.ts 735-745 history *)
Definition collector_done (conversationId : string) (collector : nat) (s : Agent) : Agent :=
  match assoc conversationId (histories s) with
  | Some h =>
      if Nat.eqb (hc_id h) collector then
        let s := clearTimeout (Some (hc_timer h)) s in
        let s := s <| histories ::= map_delete conversationId |> in
        say (OHistory collector (merge_sort seq_le (hc_frames h))) s
      else s
  | None => s
  end.

(** [slice(frames)], applied to what the collector's promise resolves to. *)
(* @src packages/agent-ts/src/agent.ts 723-724 history *)
Definition history_slice {A} (limit : option Z) (frames : list A) : list A :=
  match limit with
  | Some l => if 0 <=? l then (if l =? 0 then frames else drop (length frames - Z.to_nat l) frames) else frames
  | None => frames
  end.

(** What [#history] returns: frames at once, or the promise of a collector. *)
(* @src packages/agent-ts/src/agent.ts 721-749 history *)
Definition history (env : Env) (conversationId : string) (since timeoutMs : option Z) (s : Agent) : option nat * Agent :=
  match assoc conversationId (histories s) with
  | Some h => (Some (hc_id h), s)
  | None =>
      let until := Tracker.get conversationId (tracker s) in
      if until =? 0 then (None, s)
      else
        let collector := nextId s in
        let s := s <| nextId ::= S |> in
        let '(timer, s) := setTimeout (THistory conversationId collector) (inject_Z (timeoutMs ?? 5000)) s in
        let s := s <| histories ::= map_set conversationId (mkCollector collector until [] timer) |> in
        let '(_, s) := enqueue env conversationId
          [("type", JStr "sync"); ("watermark", JNum (inject_Z (Z.max 0 (since ?? 0))))] s in
        (Some collector, await (KHistorySync conversationId collector) s)
  end.

(** ** Asks *)

(** [cleanup] and the rejection of a pending ask. *)
Definition ask_failed (ask : PendingAsk) (e : AgentError) (s : Agent) : Agent :=
  say (OAskFailed (ak_id ask) e) (clearTimeout (ak_timer ask) s).

(** [for (const [key, ask] of this.#asks)]: delete and reject those [which] selects. *)
Definition reject_asks (which : string -> PendingAsk -> bool) (e : AgentError) (s : Agent) : Agent :=
  fold_left (fun s '(key, ask) =>
             if which key ask then ask_failed ask e (s <| asks ::= map_delete key |>) else s) (asks s) s.

(** [controller.abort(reason)]: aborting again does nothing; each pending ask
listening on the signal runs its [onAbort]. *)
(* @src packages/agent-ts/src/agent.ts 768-774 waitForAnswer *)
Definition abort_controller (controller : option nat) (reason : AgentError) (s : Agent) : Agent :=
  match controller with
  | None => s
  | Some c =>
      match controllers s !! c with
      | Some None =>
          let s := s <| controllers ::= <[c := Some reason]> |> in
          reject_asks (fun _ ask => bool_decide (ak_signal ask = Some c)) reason s
      | _ => s
      end
  end.

Definition aborted (controller : nat) (s : Agent) : option AgentError :=
  match controllers s !! controller with Some r => r | None => None end.

(* @src packages/agent-ts/src/agent.ts 760-801 waitForAnswer *)
Definition waitForAnswer (conversationId interruptId : string) (signal : option nat) (timeoutMs : option Z)
  (s : Agent) : nat * Agent :=
  let ask := nextId s in
  let s := s <| nextId ::= S |> in
  match signal ≫= fun c => aborted c s with
  | Some reason => (ask, say (OAskFailed ask reason) s)
  | None =>
      let key := key_of conversationId interruptId in
      let '(timer, s) :=
        match timeoutMs with
        | Some t =>
            let e := agent_error "timeout" ("no answer to " +:+ interruptId +:+ " within " +:+ pretty t +:+ " ms")
              (Some false) (Some conversationId) None in
            let '(h, s) := setTimeout (TAsk key ask e) (inject_Z t) s in (Some h, s)
        | None => (None, s)
        end in
      (ask, s <| asks ::= map_set key (mkAsk ask signal timer) |>)
  end.

(* @src packages/agent-ts/src/agent.ts 793-798 waitForAnswer *)
Definition ask_timed_out (key : string) (ask : nat) (e : AgentError) (s : Agent) : Agent :=
  match assoc key (asks s) with
  | Some a => if Nat.eqb (ak_id a) ask then ask_failed a e (s <| asks ::= map_delete key |>) else s
  | None => s
  end.

(* @src packages/agent-ts/src/agent.ts 628-642 onResume *)
Definition onResume (conversationId : string) (frame : json) (s : Agent) : Agent :=
  let answers := record_of (member "answers" frame) ?? [] in
  let '(matched, s) := fold_left (fun '(matched, s) '(id, value) =>
                                  match assoc (key_of conversationId id) (asks s) with
                                  | Some ask =>
                                      let s := s <| asks ::= map_delete (key_of conversationId id) |> in
                                      (matched ++ [id], say (OAnswer (ak_id ask) value) (clearTimeout (ak_timer ask) s))
                                  | None => (matched, s)
                                  end) answers ([], s) in
  emit (EResume (mkResumeInfo conversationId answers matched)) s.

(** ** Turns *)

Definition new_lane : Lane := mkLane None [] 0 None.

Definition set_lane (conversationId : string) (l : Lane) (s : Agent) : Agent :=
  s <| lanes ::= map_set conversationId l |>.

(** [dispatch] appends a turn to the promise chain of the conversation's lane. *)
(* @src packages/agent-ts/src/agent.ts 648-664 dispatch *)
Definition dispatch (conversationId : string) (frame : json) (s : Agent) : Agent :=
  let lane := assoc conversationId (lanes s) ?? new_lane in
  set_lane conversationId (lane <| l_queued ::= Z.succ |> <| l_behind ::= fun l => l ++ [frame] |>) s.

(** The [finally] of the chain: a lane with no turn left is dropped.  A lane
object leaves [#lanes] only here, so the one a turn captured is the one
[#lanes] holds. *)
(* @src packages/agent-ts/src/agent.ts 660-663 dispatch *)
Definition turn_done (conversationId : string) (s : Agent) : Agent :=
  match assoc conversationId (lanes s) with
  | None => s
  | Some lane =>
      let lane := lane <| l_queued ::= Z.pred |> <| l_job := None |> in
      if l_queued lane =? 0 then s <| lanes ::= map_delete conversationId |> else set_lane conversationId lane s
  end.

(* @src packages/agent-ts/src/agent.ts 707-713 acquire *)
Definition acquire (conversationId : string) (s : Agent) : bool * Agent :=
  if active s <? maxConcurrent cfg then (true, s <| active ::= Z.succ |>)
  else (false, s <| waiters ::= fun l => l ++ [conversationId] |>).

(** Calling a waiter resolves the [#acquire] of the lane that waits. *)
Definition granted (lane : Lane) : Lane :=
  match l_job lane with
  | Some (JWaiting envelope) => lane <| l_job := Some (JAcquired envelope) |>
  | _ => lane
  end.

(* @src packages/agent-ts/src/agent.ts 715-719 release *)
Definition release (s : Agent) : Agent :=
  match waiters s with
  | next :: rest =>
      let s := s <| waiters := rest |> in
      match assoc next (lanes s) with Some lane => set_lane next (granted lane) s | None => s end
  | [] => s <| active ::= Z.pred |>
  end.

(** The next turn of a lane's chain begins: [#runTurn] up to [#acquire]. *)
(* @src packages/agent-ts/src/agent.ts 666-669 runTurn *)
Definition runTurn (conversationId : string) (s : Agent) : Agent :=
  match assoc conversationId (lanes s) with
  | Some (mkLane None (envelope :: behind) queued controller) =>
      let lane := mkLane None behind queued controller in
      if negb (handler s) || negb (running s) || stopping s then turn_done conversationId (set_lane conversationId lane s)
      else
        let '(now, s) := acquire conversationId s in
        set_lane conversationId (lane <| l_job := Some (if now then JAcquired envelope else JWaiting envelope) |>) s
  | _ => s
  end.

(** [#runTurn] from the slot to the handler. *)
(* @src packages/agent-ts/src/agent.ts 669-676 runTurn *)
Definition turn_acquired (conversationId : string) (s : Agent) : Agent :=
  match assoc conversationId (lanes s) with
  | Some lane =>
      match l_job lane with
      | Some (JAcquired envelope) =>
          let controller := nextId s in
          let s := s <| nextId ::= S |> <| controllers ::= <[controller := None]> |> in
          let s := set_lane conversationId
            (lane <| l_controller := Some controller |> <| l_job := Some (JHandler envelope controller) |>) s in
          say (OHandler (buildTurn conversationId envelope) controller) s
      | _ => s
      end
  | None => s
  end.

(** The status of the reply and the error, when the handler ended. *)
(* @src packages/agent-ts/src/agent.ts 676-692 runTurn *)
Definition handler_outcome (conversationId : string) (controller : nat) (r : handler_result) (s : Agent) : Agent :=
  match aborted controller s, r with
  | Some _, _ => say (OStatus conversationId "aborted") s
  | None, HReturned => s
  | None, HThrew cause message =>
      let s := say (OStatus conversationId "error") s in
      let wrapped := agent_error "handler_error" ("onTurn handler failed: " +:+ message)
        (Some false) (Some conversationId) None in
      emitError (match cause with
                 | Some e => if String.eqb (ae_code e) "handler_error" then wrapped else e
                 | None => wrapped
                 end) s
  end.

(** [#runTurn] once the handler ended, up to [reply.end()]. *)
(* @src packages/agent-ts/src/agent.ts 693-702 runTurn *)
Definition handler_done (conversationId : string) (r : handler_result) (s : Agent) : Agent :=
  match assoc conversationId (lanes s) with
  | Some lane =>
      match l_job lane with
      | Some (JHandler envelope controller) =>
          let s := handler_outcome conversationId controller r s in
          let s := set_lane conversationId (lane <| l_controller := None |> <| l_job := Some JEnding |>) s in
          let s := reject_asks (fun key _ => String.prefix (key_of conversationId "") key)
            (agent_error "aborted" "the turn ended" (Some false) (Some conversationId) None) s in
          say (OReplyEnd conversationId) s
      | _ => s
      end
  | None => s
  end.

(** [reply.end()] settled, either way. *)
(* @src packages/agent-ts/src/agent.ts 702-704 runTurn *)
Definition reply_ended (conversationId : string) (s : Agent) : Agent :=
  match assoc conversationId (lanes s) with
  | Some lane =>
      match l_job lane with
      | Some JEnding => turn_done conversationId (release s)
      | _ => s
      end
  | None => s
  end.

(** ** Connection *)

(* @src packages/agent-ts/src/agent.ts 479-493 scheduleReconnect *)
Definition scheduleReconnect (env : Env) (close : SocketClose) (retryAfterMs : option Z) (s : Agent) : Agent :=
  if negb (running s) then s
  else if match maxAttempts (reconnect cfg) with Some m => m <=? attempt s | None => false end then
    let e := agent_error "connect_failed" ("gave up after " +:+ pretty (attempt s) +:+ " attempts") (Some false) None None in
    let s := s <| running := false |> in
    let s := emit (EDisconnected (mkDisconnect (sc_code close) (sc_reason close) false None)) s in
    reject_start e s
  else
    let delay := backoffDelay (Z.max 1 (attempt s)) (reconnect cfg) (inject_Z <$> retryAfterMs) (random env) in
    let s := emit (EDisconnected (mkDisconnect (sc_code close) (sc_reason close) true (Some delay))) s in
    let reason := if sc_code close =? 4401 then RRejected else RConnect in
    let '(h, s) := setTimeout (TConnect reason) (inject_Z delay) s in
    s <| reconnectTimer := Some h |>.

(* @src packages/agent-ts/src/agent.ts 495-509 scheduleRefresh *)
Definition scheduleRefresh (env : Env) (expiresAt : option Z) (s : Agent) : Agent :=
  let s := clearTimeout (refreshTimer s) s in
  match expiresAt with
  | Some expiry =>
      if negb (opt_getToken (options cfg)) then s
      else
        let remaining := expiry - now env in
        let delay := Qmax 1000 (Qmin (inject_Z (remaining - 60000)) (inject_Z remaining / 2)) in
        let '(h, s) := setTimeout TRefresh delay s in
        s <| refreshTimer := Some h |>
  | None => s
  end.

(* @src packages/agent-ts/src/agent.ts 501-504 scheduleRefresh *)
Definition refresh_fired (s : Agent) : Agent :=
  if negb (opt_getToken (options cfg)) || negb (connected s) then s
  else await KRefresh (say (OGetToken RRefresh) s).

(* @src packages/agent-ts/src/agent.ts 504-507 scheduleRefresh *)
Definition refresh_settled (env : Env) (r : AgentError + string) (s : Agent) : Agent :=
  match r with
  | inl e => emitError e s
  | inr token =>
      match socket s with
      | Some sk => if accepts env (sk_id sk) then say (OAuth (sk_id sk) token) s else s
      | None => s
      end
  end.

(** [#connect] once it has a token. *)
(* @src packages/agent-ts/src/agent.ts 391-425 connect *)
Definition connect_with (token : string) (s : Agent) : Agent :=
  if negb (running s) then s
  else if negb (opt_webSocket (options cfg)) then
    let e := agent_error "connect_failed" "no WebSocket implementation: use Node 22+, or pass `WebSocket` from the `ws` package"
      (Some false) None None in
    reject_start e (s <| running := false |>)
  else
    let watermarks := Tracker.snapshot (tracker s) in
    let hello := mkHello token
      (if truthy (opt_group (options cfg)) then opt_group (options cfg) else None)
      (if truthy (opt_userId (options cfg)) then opt_userId (options cfg) else None)
      (match watermarks with [] => None | _ => Some watermarks end) in
    let sk := nextId s in
    say (OConnect sk hello) (s <| nextId ::= S |> <| socket := Some (mkSocketRef sk false) |>).

(** [#connect] when [getToken] rejects. *)
(* @src packages/agent-ts/src/agent.ts 378-390 connect *)
Definition token_failed (env : Env) (cause : option AgentError) (s : Agent) : Agent :=
  let e := cause ?? agent_error "token_error" "getToken failed" (Some true) None None in
  let s := emitError e s in
  if negb (ae_retryable e) && negb (everConnected s) then
    reject_start e (clearTimeout (tickTimer s) (s <| running := false |>))
  else scheduleReconnect env (mkClose 1006 "token_error" false None) (ae_retryAfterMs e) s.

(* @src packages/agent-ts/src/agent.ts 372-377 connect *)
Definition connect (reason : token_reason) (s : Agent) : Agent :=
  if negb (running s) then s
  else
    let s := s <| attempt ::= Z.succ |> in
    if opt_getToken (options cfg) then await (KToken reason) (say (OGetToken reason) s)
    else connect_with (opt_token (options cfg) ?? "") s.

Definition sent_before (a b : Outgoing) : Prop := o_sentAt a <= o_sentAt b.

#[local] Instance sent_before_dec : RelDecision sent_before.
Proof. intros a b. unfold sent_before. apply _. Defined.

(* @src packages/agent-ts/src/agent.ts 427-441 onWelcome *)
Definition onWelcome (env : Env) (w : json) (s : Agent) : Agent :=
  let s := s <| welcome := Some w |> <| attempt := 0 |> <| everConnected := true |> <| rejected := false |> in
  let resend := merge_sort sent_before (map snd (inflight s)) in
  let s := s <| inflight := [] |> <| queue ::= app resend |> in
  let s := scheduleRefresh env (int_at "expiresAt" (data_of w)) s in
  let s := emit (EConnected w) s in
  let s := resolve_start s in
  pump env s.

(* @src packages/agent-ts/src/agent.ts 457-461 onClose *)
Definition fatal_close (code : Z) (s : Agent) : bool :=
  (code =? 4400) || ((code =? 4401) && negb (opt_getToken (options cfg))) || ((code =? 4401) && rejected s)
  || (((code =? 4403) || (code =? 1008)) && negb (everConnected s)).

(* @src packages/agent-ts/src/agent.ts 463-465 onClose *)
Definition close_error (close : SocketClose) : AgentError :=
  let code := sc_code close in
  agent_error (if code =? 4401 then "unauthorized" else if code =? 4400 then "unsupported_protocol"
                                                        else if code =? 4403 then "forbidden" else "connect_failed")
  ("connection closed (" +:+ pretty code +:+ " " +:+ sc_reason close +:+ ")")
  (Some false) None None.

(** [#onClose] up to [if (!this.#running) return]. *)
(* @src packages/agent-ts/src/agent.ts 443-454 onClose *)
Definition detach (s : Agent) : Agent :=
  let s := s <| socket := None |> <| welcome := None |> in
  let s := clearTimeout (refreshTimer s) s in
  let dropped := rev (filter (fun e => is_transient e = true) (queue s)) in
  settle_all (fun _ => SWritten) dropped (s <| queue ::= filter (fun e => is_transient e = false) |>).

(** Reject every send the agent holds, and forget them. *)
(* @src packages/agent-ts/src/agent.ts 471-472 onClose *)
Definition reject_sends (e : AgentError) (s : Agent) : Agent :=
  settle_all (fun _ => SFailed e) (queue s ++ map snd (inflight s)) (s <| queue := [] |> <| inflight := [] |>).

(* @src packages/agent-ts/src/agent.ts 443-477 onClose *)
Definition onClose (env : Env) (close : SocketClose) (s : Agent) : Agent :=
  let s := detach s in
  if negb (running s) then s
  else if fatal_close (sc_code close) s || negb (enabled (reconnect cfg)) then
    let e := close_error close in
    let s := s <| running := false |> in
    let s := clearTimeout (tickTimer s) s in
    let s := emit (EDisconnected (mkDisconnect (sc_code close) (sc_reason close) false None)) s in
    let s := if everConnected s then emitError e s else s in
    let s := reject_start e s in
    reject_sends e s
  else
    let s := if sc_code close =? 4401 then s <| rejected := true |> else s in
    scheduleReconnect env close (sc_retryAfterMs close) s.

(* @src packages/agent-ts/src/agent.ts 288-301 start *)
Definition start (s : Agent) : Agent :=
  match start_promise s with
  | NoStart =>
      let s := s <| start_promise := StartPending |> <| running := true |> in
      let '(h, s) := setTimeout TTick 1000 s in
      connect RConnect (s <| tickTimer := Some h |>)
  | _ => s
  end.

(** ** Inbound *)

(* @src packages/agent-ts/src/agent.ts 537-562 onBare *)
Definition onBare (env : Env) (type : string) (frame : json) (s : Agent) : Agent :=
  let s := say (ONotify frame None) s in
  if String.eqb type "welcome" then onWelcome env frame s
  else if String.eqb type "tokenRefreshed" then
    match int_at "expiresAt" (data_of frame) with Some e => scheduleRefresh env (Some e) s | None => s end
  else if String.eqb type "error" then
    let e := fromFrame (error_data frame) None in
    let s := if String.eqb (ae_code e) "rate_limited"
               then s <| pausedUntil := now env + (ae_retryAfterMs e ?? 1000) |> else s in
    if truthy (ae_clientId e) then onSendError env e s else emitError e s
  else s.

(* @src packages/agent-ts/src/agent.ts 568-578 onEnveloped *)
Definition onAck (env : Env) (conversationId : string) (frame : json) (s : Agent) : Agent :=
  let s := match int_at "seq" frame with
           | Some seq => s <| tracker ::= fun t => (Tracker.record conversationId seq t).2 |>
           | None => s
           end in
  let key := key_of conversationId (str_at "clientId" frame ?? "undefined") in
  match assoc key (inflight s) with
  | Some entry => pump env (say (OSettle (o_id entry) (SAcked frame)) (s <| inflight ::= map_delete key |>))
  | None => s
  end.

(* @src packages/agent-ts/src/agent.ts 579-588 onEnveloped *)
Definition onErrorFrame (env : Env) (conversationId : string) (frame : json) (s : Agent) : Agent :=
  let e := fromFrame (error_data frame) (Some conversationId) in
  let s :=
    if String.eqb (ae_code e) "replay_unavailable" then
      let watermark := match ae_details e with
                       | Some l => int_at "watermark" (JObj l)
                       | None => None
                       end ?? Tracker.get conversationId (tracker s) in
      (setTimeout (TSync conversationId watermark) (inject_Z (ae_retryAfterMs e ?? 1000)) s).2
    else s in
  if truthy (ae_clientId e)
    && bool_decide (is_Some (assoc (key_of conversationId (ae_clientId e ?? "")) (inflight s)))
    then onSendError env e s else emitError e s.

Definition sync_frame (watermark : Z) : list (string * json) :=
  [("type", JStr "sync"); ("watermark", JNum (inject_Z watermark))].

(* @src packages/agent-ts/src/agent.ts 589-595 onEnveloped *)
Definition onReplayTruncated (env : Env) (conversationId : string) (frame : json) (s : Agent) : Agent :=
  match assoc conversationId (histories s), int_at "watermark" (data_of frame) with
  | Some h, _ => collector_done conversationId (hc_id h) s
  | None, Some watermark => (enqueue env conversationId (sync_frame watermark) s).2
  | None, None => s
  end.

(** A frame with a seq: collected for a history, or recorded; [true] when the
frame goes on to be a turn. *)
(* @src packages/agent-ts/src/agent.ts 608-619 onEnveloped *)
Definition onSeq (conversationId : string) (frame : json) (s : Agent) : bool * Agent :=
  match int_at "seq" frame with
  | None => (true, s)
  | Some seq =>
      match assoc conversationId (histories s) with
      | Some h =>
          if seq <=? hc_until h then
            let s := s <| histories ::= map_set conversationId (h <| hc_frames ::= fun l => l ++ [frame] |>) |> in
            let s := s <| tracker ::= fun t => (Tracker.record conversationId seq t).2 |> in
            (false, if hc_until h <=? seq then collector_done conversationId (hc_id h) s else s)
          else
            let '(fresh, t) := Tracker.record conversationId seq (tracker s) in (fresh, s <| tracker := t |>)
      | None => let '(fresh, t) := Tracker.record conversationId seq (tracker s) in (fresh, s <| tracker := t |>)
      end
  end.

(** [from === "user" || (from === "bot" && includeBotTurns)]. *)
Definition from_peer (frame : json) : bool :=
  match str_at "from" frame with
  | Some f => String.eqb f "user" || (String.eqb f "bot" && opt_includeBotTurns (options cfg))
  | None => false
  end.

(* @src packages/agent-ts/src/agent.ts 564-626 onEnveloped *)
Definition onEnveloped (env : Env) (conversationId type : string) (frame : json) (s : Agent) : Agent :=
  let s := say (ONotify frame (Some conversationId)) s in
  if String.eqb type "ack" then onAck env conversationId frame s
  else if String.eqb type "error" then onErrorFrame env conversationId frame s
  else if String.eqb type "replayTruncated" then onReplayTruncated env conversationId frame s
  else if String.eqb type "resume" then onResume conversationId frame s
  else if String.eqb type "abort" then
    match assoc conversationId (lanes s) with
    | Some lane => abort_controller (l_controller lane)
        (agent_error "aborted" "the end user aborted the run" (Some false) (Some conversationId) None) s
    | None => s
    end
  else
    let '(go, s) := onSeq conversationId frame s in
    if go && isMessageFrame (member "type" frame) (member "data" frame) && from_peer frame
      then dispatch conversationId frame s else s.

(* @src packages/agent-ts/src/agent.ts 515-525 onMessage *)
Definition onMessage (env : Env) (message : json) (s : Agent) : Agent :=
  match str_at "type" message with
  | Some type => onBare env type message s
  | None =>
      match str_at "conversationId" message, member "frame" message with
      | Some conversationId, Some frame =>
          match str_at "type" frame with
          | Some type => onEnveloped env conversationId type frame s
          | None => s
          end
      | _, _ => s
      end
  end.

(** [AgentSocket] marks itself welcomed before it hands the frame on. *)
(* @src packages/agent-ts/src/socket.ts 113-123 onmessage *)
Definition socket_message (env : Env) (sk : SocketRef) (message : json) (s : Agent) : Agent :=
  let s := if bool_decide (str_at "type" message = Some "welcome")
             then s <| socket := Some (mkSocketRef (sk_id sk) true) |> else s in
  onMessage env message s.

(** ** Stopping *)

Definition agent_stopped : AgentError := closed_error "the agent was stopped" None.

(** [stop] up to its wait for the lanes. *)
(* @src packages/agent-ts/src/agent.ts 308-326 stop *)
Definition stop (timeoutMs : option Z) (s : Agent) : Agent :=
  if negb (running s) || stopping s then s
  else
    let s := s <| stopping := true |> in
    let s := fold_left (fun s '(_, lane) => abort_controller (l_controller lane) agent_stopped s) (lanes s) s in
    let s := reject_asks (fun _ _ => true) agent_stopped s in
    let s := fold_left (fun s '(c, h) => collector_done c (hc_id h) s) (histories s) s in
    await (KStopTails (timeoutMs ?? 5000)) s.

(** [stop] after [#drain].  Closing the socket runs [#onClose] synchronously. *)
(* @src packages/agent-ts/src/agent.ts 329-340 stop *)
Definition stop_finish (env : Env) (s : Agent) : Agent :=
  let s := s <| running := false |> in
  let s := clearTimeout (pumpTimer s) (clearTimeout (tickTimer s) (clearTimeout (refreshTimer s)
                                                                   (clearTimeout (reconnectTimer s) s))) in
  let s := s <| pumpTimer := None |> in
  let s := reject_sends agent_stopped s in
  let s := match socket s with
           | Some sk => say (OCloseSocket (sk_id sk) 1000 "agent stopped")
               (onClose env (mkClose 1000 "agent stopped" true None) s)
           | None => s
           end in
  let s := s <| socket := None |> <| welcome := None |> in
  say OStopped (reject_start agent_stopped s).

(* @src packages/agent-ts/src/agent.ts 343-349 drain *)
Definition drain (env : Env) (deadline : Z) (s : Agent) : Agent :=
  if ((0 <? Z.of_nat (length (queue s))) || (0 <? Z.of_nat (length (inflight s)))) && connected s && (now env <? deadline)
    then (setTimeout (TDrain deadline) 20 s).2
  else stop_finish env s.

(** ** Timers and promises *)

(** A timer fires: a [setTimeout] is gone before its callback runs. *)
Definition run_timer (env : Env) (h : nat) (s : Agent) : Agent :=
  match timers s !! h with
  | None =>
      match take_retry h (retries s) with
      | Some (entry, rest) => retry_fired env entry (s <| retries := rest |>)
      | None => s
      end
  | Some (TTick, _) => tick env s
  | Some (a, _) =>
      let s := s <| timers ::= delete h |> in
      match a with
      | TConnect reason => connect reason s
      | TRefresh => refresh_fired s
      | TTick => s
      | TPump => pump env (s <| pumpTimer := None |>)
      | TSync conversationId watermark => (enqueue env conversationId (sync_frame watermark) s).2
      | THistory conversationId collector => collector_done conversationId collector s
      | TAsk key ask e => ask_timed_out key ask e s
      | TDrain deadline => drain env deadline s
      end
  end.

(** The continuation of each suspended call.  [None]: the outcome is not one
the awaited promise has. *)
Definition resume_task (env : Env) (k : task) (o : outcome) (s : Agent) : option Agent :=
  match k, o with
  | KToken _, OkToken token => Some (connect_with token s)
  | KToken _, Failed e => Some (token_failed env e s)
  | KRefresh, OkToken token => Some (refresh_settled env (inr token) s)
  | KRefresh, Failed _ =>
      Some (refresh_settled env (inl (agent_error "token_error" "getToken failed during refresh" (Some true) None None)) s)
  | KStopTails timeoutMs, OkDone => Some (drain env (now env + timeoutMs) s)
  | KHistorySync _ _, OkDone => Some s
  | KHistorySync conversationId collector, Failed _ => Some (collector_done conversationId collector s)
  | _, _ => None
  end.

Definition run_task (env : Env) (t : nat) (o : outcome) (s : Agent) : Agent :=
  match tasks s !! t with
  | None => s
  | Some k => resume_task env k o (s <| tasks ::= delete t |>) ?? s
  end.
End Methods.

(** ** The agent as a state machine *)

(** What can happen to an agent: a call of its API or of a turn's [reply], a
    callback of a socket (guarded by its identity), a timer, a settled promise,
    or the next step of a lane. *)
Inductive input :=
| IOnTurn
| IStart
| IStop (timeoutMs : option Z)
| ISend (conversationId : string) (frame : list (string * json))
| INextClientId
| IHistory (conversationId : string) (since timeoutMs : option Z)
| IAsk (conversationId interruptId : string) (signal : option nat) (timeoutMs : option Z)
| IMessage (socket : nat) (message : json)
| IClose (socket : nat) (close : SocketClose)
| ITimer (handle : nat)
| ITask (t : nat) (o : outcome)
| IRunTurn (conversationId : string)
| IAcquired (conversationId : string)
| IHandlerDone (conversationId : string) (r : handler_result)
| IReplyEnded (conversationId : string).

(* @src packages/agent-ts/src/agent.ts 405-424 connect *)
Definition step (cfg : AgentConfig) (env : Env) (i : input) (s : Agent) : Agent :=
  match i with
  | IOnTurn => s <| handler := true |>
  | IStart => start cfg s
  | IStop timeoutMs => stop timeoutMs s
  | ISend conversationId frame => (send cfg env conversationId frame s).2
  | INextClientId => (nextClientId cfg s).2
  | IHistory conversationId since timeoutMs => (history cfg env conversationId since timeoutMs s).2
  | IAsk conversationId interruptId signal timeoutMs => (waitForAnswer conversationId interruptId signal timeoutMs s).2
  | IMessage sk message =>
      match socket s with
      | Some k => if Nat.eqb (sk_id k) sk then socket_message cfg env k message s else s
      | None => s
      end
  | IClose sk close =>
      match socket s with
      | Some k => if Nat.eqb (sk_id k) sk then onClose cfg env close s else s
      | None => s
      end
  | ITimer h => run_timer cfg env h s
  | ITask t o => run_task cfg env t o s
  | IRunTurn conversationId => runTurn cfg conversationId s
  | IAcquired conversationId => turn_acquired conversationId s
  | IHandlerDone conversationId r => handler_done conversationId r s
  | IReplyEnded conversationId => reply_ended conversationId s
  end.

Definition run (cfg : AgentConfig) (l : list (Env * input)) (s : Agent) : Agent :=
  fold_left (fun s '(env, i) => step cfg env i s) l s.

(** The fields as declared. *)
(* @src packages/agent-ts/src/agent.ts 189-224 Agent *)
Definition fresh_agent (o : AgentOptions) (t : Z) : Agent :=
  mkAgent (new_tracker (opt_maxTrackedConversations o ?? 1000) (opt_watermarks o)) [] [] [] [] [] false None None
    false false false 0 0 None None None None (fps (configure o)) t 0 0 [] NoStart false ∅ ∅ [] ∅ 0 0 [].

(** [new Agent(options)] at time [t]. *)
(* @src packages/agent-ts/src/agent.ts 226-249 constructor *)
Definition new_agent (o : AgentOptions) (t : Z) : AgentError + Agent :=
  if negb (truthy (opt_token o)) && negb (opt_getToken o) then
    inl (agent_error "token_error" "createAgent needs `token` or `getToken`" (Some false) None None)
  else inr (fresh_agent o t).
