(* ===== verification/AgentExample.v ===== *)
(** * AgentExample: a small agent the witnesses run. *)

From stdpp Require Import base gmap list strings.
From Stdlib Require Import ZArith QArith.
From S2P Require Import Prelude Backoff Frames AgentFrames Agent.

Open Scope string_scope.
Open Scope list_scope.
Open Scope Z_scope.

(** A channel token, every other option at its default. *)
Definition ex_options : AgentOptions :=
  mkOptions (Some "token") false None None true RUndefined [] None None None None None None false "ag".

Definition ex_config : AgentConfig := configure ex_options.

(** At [t] the random draw is 0 and every open socket writes. *)
Definition ex_at (t : Z) : Env := mkEnv t 0 (fun _ => true).

Definition ex_agent : Agent := fresh_agent ex_options 0.

Lemma ex_new : new_agent ex_options 0 = inr ex_agent.
Proof. reflexivity. Qed.

Definition ex_welcome : json := JObj [("type", JStr "welcome"); ("data", JObj [("channelId", JStr "ch")])].

(** [start] takes handle 0 for its interval and 1 for the socket. *)
Definition ex_connect : list (Env * input) :=
  [(ex_at 0, IOnTurn); (ex_at 0, IStart); (ex_at 10, IMessage 1 ex_welcome)].

Definition ex_text (id : string) : list (string * json) :=
  [("type", JStr "text"); ("data", JObj [("text", JStr "hi")]); ("clientId", JStr id)].

Definition ex_tool : list (string * json) := [("type", JStr "tool_call"); ("data", JObj [])].

Definition ex_envelope (conversationId : string) (frame : json) : json :=
  JObj [("conversationId", JStr conversationId); ("frame", frame)].

Definition ex_ack (id : string) (seq : Z) : json :=
  JObj [("type", JStr "ack"); ("clientId", JStr id); ("seq", JNum (inject_Z seq))].

Definition ex_turn (seq : Z) : json :=
  JObj [("type", JStr "text"); ("from", JStr "user"); ("seq", JNum (inject_Z seq)); ("data", JObj [("text", JStr "hello")])].

Definition ex_error (code : string) (id : string) (after : Z) : json :=
  JObj [("type", JStr "error");
        ("data", JObj [("code", JStr code); ("clientId", JStr id); ("retryAfterMs", JNum (inject_Z after))])].

Definition ex_connected : Agent := run ex_config ex_connect ex_agent.

Example ex_is_connected : connected ex_connected = true.
Proof. vm_compute. reflexivity. Qed.
