(* ===== verification/AgentSteps.v ===== *)
(** * AgentSteps: the handlers of the agent as sequences of atomic actions.

    As [Session] does for the client: every input of [Agent.step] is a sequence
    of the atoms below ([agent_step_atoms]), and the theorems about runs look at
    atoms only. *)

From stdpp Require Import base gmap sets list strings sorting relations.
From Stdlib Require Import ZArith QArith Qminmax Lia Lqa.
From S2P Require Import Prelude Backoff Frames Tracker JsMap AgentFrames Agent.

Open Scope string_scope.
Open Scope list_scope.
Open Scope Z_scope.

#[global] Arguments upd {R E} getter {Setter} f r : simpl nomatch.

(** The sends whose promise the agent still has to settle. *)
Definition retrying (s : Agent) : list Outgoing := map (fun x => x.1.2) (retries s).
Definition held (s : Agent) : list Outgoing := queue s ++ map snd (inflight s) ++ retrying s.

(** Outputs no theorem below counts. *)
Definition neutral (o : output) : bool :=
  match o with OWrite _ _ | OSettle _ _ | OHandler _ _ | ONotify _ (Some _) => false | _ => true end.

(** The fields, other than those of [held], that the atoms account for. *)
Definition frozen (s : Agent) :=
  (tokens s, tokensAt s, running s, start_promise s, nextSend s, tracker s, lanes s, active s, waiters s).

(** A step that only touches the rest of the state, and says what nobody counts. *)
Definition still (s s' : Agent) : Prop :=
  frozen s = frozen s' /\ queue s = queue s' /\ inflight s = inflight s' /\ retries s = retries s' /\
  exists outs, log s' = outs ++ log s /\ forallb neutral outs = true.

(** What [pump_loop] does with a send the socket accepted. *)
Definition written (env : Env) (sk : nat) (head : Outgoing) (rest : list Outgoing) (s : Agent) : Agent :=
  let s := say (OWrite sk head) (s <| queue := rest |>) <| tokens ::= fun t => (t - 1)%Q |> in
  let head := head <| o_attempts ::= Z.succ |> <| o_sentAt := now env |> in
  if truthy (o_clientId head) then s <| inflight ::= map_set (entry_key head) head |>
  else say (OSettle (o_id head) SWritten) s.

(** [dispatch] of a frame that was just notified; [t] is the tracker it left. *)
Definition delivered (conversationId : string) (frame : json) (t : WatermarkTracker) (s : Agent) : Agent :=
  dispatch conversationId frame (say (ONotify frame (Some conversationId)) s <| tracker := t |>).

(** The ack frame [f], which was received, names the send [e] in flight. *)
Definition acked_by (f : json) (e : Outgoing) (s : Agent) : Prop :=
  exists c, ONotify f (Some c) ∈ log s /\ str_at "type" f = Some "ack" /\
            assoc (key_of c (str_at "clientId" f ?? "undefined")) (inflight s) = Some e.

(** The id a frame is known by, and an entry that goes by it. *)
Definition frame_key (frame : list (string * json)) : option string :=
  match str (assoc "clientId" frame) with Some c => Some c | None => str (assoc "id" frame) end.

Definition named (e : Outgoing) : Prop :=
  forall x, frame_type (o_frame e) ∉ UNACKED_TYPES -> frame_key (o_frame e) = Some x -> o_clientId e = Some x.

(** [inbox]: the enveloped frame the step was given, if any. *)
Section Atoms.
Context (cfg : AgentConfig) (env : Env) (inbox : string -> json -> Prop).

(** Changes of the outbound side: the queue, what is in flight, the rate. *)
Inductive change : Agent -> Agent -> Prop :=
| a_bounce r s : (forall f, r <> SAcked f) -> change s (say (OSettle (nextSend s) r) (s <| nextSend ::= S |>))
| a_enqueue e s :
  running s = true -> o_id e = nextSend s -> named e ->
  change s (s <| nextSend ::= S |> <| queue ::= fun q => q ++ [e] |>)
| a_refill s : change s (refill cfg env s)
| a_write sk head rest s :
  queue s = head :: rest -> (1 <= tokens s)%Q -> tokensAt s = now env ->
  (truthy (o_clientId head) = true -> Z.of_nat (length (inflight s)) < maxInFlight cfg) ->
  change s (written env sk head rest s)
| a_move s s' :
  frozen s = frozen s' -> held s ≡ₚ held s' -> inflight s' `sublist_of` inflight s -> log s' = log s -> change s s'
| a_settle e r s s' :
  frozen s = frozen s' -> held s ≡ₚ e :: held s' -> inflight s' `sublist_of` inflight s ->
  log s' = OSettle (o_id e) r :: log s -> (forall f, r = SAcked f -> acked_by f e s) -> change s s'
| a_lose e s s' :
  running s = false -> frozen s = frozen s' -> held s ≡ₚ e :: held s' -> inflight s' `sublist_of` inflight s ->
  log s' = log s -> change s s'
| a_halt s : change s (s <| running := false |>)
| a_begin s :
  start_promise s = NoStart -> change s (s <| start_promise := StartPending |> <| running := true |>)
| a_started s : start_promise s = StartPending -> change s (s <| start_promise := StartSettled |>).

(** Changes of the inbound side: the tracker and the lanes; and changes nobody counts. *)
Inductive side : Agent -> Agent -> Prop :=
| a_still s s' : still s s' -> side s s'
| a_note conversationId frame s : inbox conversationId frame -> side s (say (ONotify frame (Some conversationId)) s)
| a_record conversationId seq s :
  (exists f, ONotify f (Some conversationId) ∈ log s /\ int_at "seq" f = Some seq) ->
  side s (s <| tracker ::= fun t => (Tracker.record conversationId seq t).2 |>)
| a_touch conversationId s : side s (s <| tracker ::= Tracker.touch conversationId |>)
| a_deliver conversationId frame t s :
  match int_at "seq" frame with
  | Some seq => Tracker.record conversationId seq (tracker s) = (true, t)
  | None => t = tracker s
  end -> inbox conversationId frame -> str_at "type" frame <> Some "ack" -> side s (delivered conversationId frame t s)
| a_run conversationId s : side s (runTurn cfg conversationId s)
| a_handle conversationId lane envelope c s :
  assoc conversationId (lanes s) = Some lane -> l_job lane = Some (JAcquired envelope) ->
  side s (say (OHandler (buildTurn conversationId envelope) c)
          (set_lane conversationId (lane <| l_controller := Some c |> <| l_job := Some (JHandler envelope c) |>) s))
| a_handled conversationId lane envelope c s :
  assoc conversationId (lanes s) = Some lane -> l_job lane = Some (JHandler envelope c) ->
  side s (set_lane conversationId (lane <| l_controller := None |> <| l_job := Some JEnding |>) s)
| a_ended conversationId s : side s (reply_ended conversationId s).

Definition atom (s s' : Agent) : Prop := change s s' \/ side s s'.
Definition atoms : Agent -> Agent -> Prop := rtc atom.
End Atoms.

Ltac bind :=
  lazymatch goal with
| |- atoms ?r ?i ?s0 (let x := ?e in @?b x) =>
    let Ty := type of e in
    lazymatch Ty with
| Agent =>
    change (atoms r i s0 (b e)); apply (rtc_trans s0 e (b e));
    [change (atoms r i s0 e)
|change (atoms r i e (b e)); let s' := fresh "s" in generalize e as s'; intros s'; cbv beta]
| _ => change (atoms r i s0 (b e)); cbv beta
  end
  end.
  Tactic Notation "enter" reference(f) := cbv beta delta [f].
Ltac plumb := first [apply rtc_refl | apply rtc_once, or_intror, a_still; repeat (split; [reflexivity|]); exists []; split; reflexivity].

(** The enveloped frame an input brings. *)
Definition inbox_of (i : input) (c : string) (f : json) : Prop :=
  match i with
  | IMessage _ m => str_at "type" m = None /\ str_at "conversationId" m = Some c /\ member "frame" m = Some f
  | _ => False
  end.

Section Steps.
Context (cfg : AgentConfig) (env : Env) (inbox : string -> json -> Prop).
Notation "s ~> s'" := (atoms cfg env inbox s s') (at level 70).

Lemma agent_atoms_trans s s0 s' : s ~> s0 -> s0 ~> s' -> s ~> s'.
Proof. apply rtc_trans. Qed.

Lemma agent_atoms_id s : s ~> s.
Proof. apply rtc_refl. Qed.

Lemma agent_atoms_1 s s' : atom cfg env inbox s s' -> s ~> s'.
Proof. apply rtc_once. Qed.

Lemma out_1 s s' : change cfg env s s' -> s ~> s'.
Proof. intros H. by apply agent_atoms_1; left. Qed.

Lemma side_1 s s' : side cfg inbox s s' -> s ~> s'.
Proof. intros H. by apply agent_atoms_1; right. Qed.

Lemma still_atoms s s' : still s s' -> s ~> s'.
Proof. intros H. by apply side_1, a_still. Qed.

Lemma still_refl s : still s s.
Proof. repeat split. by exists []. Qed.

Lemma still_trans s s0 s' : still s s0 -> still s0 s' -> still s s'.
Proof.
  intros (F1 & Q1 & I1 & R1 & o1 & L1 & N1) (F2 & Q2 & I2 & R2 & o2 & L2 & N2).
  repeat split; [congruence..|]. exists (o2 ++ o1). rewrite L2, L1, app_assoc. split; [done|]. by rewrite forallb_app, N2, N1.
Qed.

Lemma still_say o s : neutral o = true -> still s (say o s).
Proof. intros Ho. repeat split. exists [o]. split; [done|]. simpl. by rewrite Ho. Qed.

Lemma agent_say_atoms o s : neutral o = true -> s ~> say o s.
Proof. intros Ho. by apply still_atoms, still_say. Qed.

Lemma clearTimeout_still h s : still s (clearTimeout h s).
Proof. destruct h; [|apply still_refl]. repeat split. by exists []. Qed.

Lemma await_still k s : still s (await k s).
Proof. repeat split. by exists []. Qed.

(** A fold of still steps is still. *)
Lemma fold_still {B} (f : Agent -> B -> Agent) l s : (forall b s, still s (f s b)) -> still s (fold_left f l s).
Proof.
  intros Hf. revert s. induction l as [|b l IH]; intros s; simpl; [apply still_refl|].
  eapply still_trans; [apply Hf|apply IH].
Qed.

Lemma fold_atoms {B} (f : Agent -> B -> Agent) l s : (forall b s, s ~> f s b) -> s ~> fold_left f l s.
Proof.
  intros Hf. revert s. induction l as [|b l IH]; intros s; simpl; [apply agent_atoms_id|].
  eapply agent_atoms_trans; [apply Hf|apply IH].
Qed.

Lemma resolve_start_atoms s : s ~> resolve_start s.
Proof.
  unfold resolve_start. destruct (start_promise s) eqn:E; try apply agent_atoms_id.
  eapply agent_atoms_trans; [by apply out_1, a_started|by apply agent_say_atoms].
Qed.

Lemma reject_start_atoms e s : s ~> reject_start e s.
Proof.
  unfold reject_start. destruct (start_promise s) eqn:E; try apply agent_atoms_id.
  eapply agent_atoms_trans; [by apply out_1, a_started|by apply agent_say_atoms].
Qed.
(** ** Outbound *)

Lemma held_inflight key e s :
  assoc key (inflight s) = Some e ->
  map snd (inflight s) ≡ₚ e :: map snd (map_delete key (inflight s)).
Proof. intros He. by rewrite (delete_Permutation key e (inflight s) He) at 1. Qed.

Lemma sublist_delete key (s : Agent) : map_delete key (inflight s) `sublist_of` inflight s.
Proof. apply delete_sublist. Qed.

Lemma settle_one e r s s' :
  (forall f, r <> SAcked f) -> frozen s = frozen s' -> held s ≡ₚ e :: held s' -> inflight s' `sublist_of` inflight s -> log s' = log s ->
  s ~> say (OSettle (o_id e) r) s'.
Proof. intros Hr Hf Hh Hi Hl. apply out_1, (a_settle _ _ e r); try done; [simpl; by rewrite Hl|]. intros f Hf'. by destruct (Hr f). Qed.

Lemma settle_all_atoms r l s s1 :
  (forall e f, r e <> SAcked f) -> frozen s = frozen s1 -> held s ≡ₚ l ++ held s1 -> inflight s1 `sublist_of` inflight s -> log s1 = log s ->
  s ~> settle_all r l s1.
Proof.
  intros Hr. revert s s1. induction l as [|e l IH]; intros s s1 Hf Hh Hi Hl; simpl.
  - apply out_1, a_move; [done|by rewrite Hh|done|done].
  - eapply agent_atoms_trans.
    + apply (settle_one e (r e) s (s1 <| queue ::= app l |>)); [done|done| |done|done].
      rewrite Hh. unfold held. simpl. by rewrite <- app_assoc.
    + apply IH; [done| |done|done]. unfold held. simpl. by rewrite <- app_assoc.
Qed.

Lemma pump_loop_atoms rounds sk s : tokensAt s = now env -> s ~> pump_loop cfg rounds env sk s.
Proof.
  revert s. induction rounds as [|n IH]; intros s Hat; simpl; [destruct (queue s); apply agent_atoms_id|].
  destruct (queue s) as [|head rest] eqn:Hq; [apply agent_atoms_id|].
  destruct (truthy (o_clientId head) && (maxInFlight cfg <=? _)) eqn:Hfull; [apply agent_atoms_id|].
  destruct (Qlt_le_dec (tokens s) 1) as [_|Htok]; [plumb|].
  destruct (negb (accepts env sk)).
  - apply out_1, a_move; [done|unfold held; simpl; by rewrite Hq|done|done].
  - eapply agent_atoms_trans; [|apply IH; by destruct (truthy _)]. apply out_1, (a_write _ _ sk head rest s); [done|done|done|].
    intros Ht. rewrite Ht in Hfull. simpl in Hfull. lia.
Qed.

Lemma pump_atoms s : s ~> pump cfg env s.
Proof.
  unfold pump. destruct (pumpTimer s); [apply agent_atoms_id|]. destruct (socket s) as [sk|]; [|apply agent_atoms_id].
  destruct (negb (connected s)); [apply agent_atoms_id|]. destruct (now env <? pausedUntil s); [plumb|].
  cbv zeta. eapply agent_atoms_trans; [apply out_1, a_refill|by apply pump_loop_atoms].
Qed.

Lemma client_id_still frame s : still s (client_id_of cfg frame s).2.
Proof.
  unfold client_id_of, nextClientId. repeat case_match; simpl; repeat split; by exists [].
Qed.

Lemma client_id_named n c frame m s :
  named (mkOutgoing n c
         match assoc "clientId" frame, assoc "id" frame with
         | None, None => frame ++ [("clientId", JStr (client_id_of cfg frame s).1)]
         | _, _ => frame
         end (Some (client_id_of cfg frame s).1) m 0 0).
Proof.
  unfold named, frame_key, client_id_of. intros x _. cbn [o_frame o_clientId].
  destruct (assoc "clientId" frame) as [v|] eqn:H1; [|destruct (assoc "id" frame) as [v|] eqn:H2].
  - rewrite H1. destruct (str (Some v)); [by intros [= ->]|]. by destruct (str (assoc "id" frame)); [intros [= ->]|].
  - rewrite H1, H2. change (str None) with (@None string). by destruct (str (Some v)); [intros [= ->]|].
  - rewrite assoc_app, H1. cbn [str assoc String.eqb]. by intros [= <-].
Qed.

Lemma enqueue_atoms conversationId frame s : s ~> (enqueue cfg env conversationId frame s).2.
Proof.
  unfold enqueue. cbv zeta. simpl running. simpl start_promise.
  destruct (negb (running s) && _) eqn:H1; [by apply out_1, (a_bounce cfg env _ s)|].
  destruct (negb (running s)) eqn:H2; [by apply out_1, (a_bounce cfg env _ s)|]. apply negb_false_iff in H2.
  match goal with |- context [if ?c then (_, say _ _) else _] => destruct c end; [by apply out_1, (a_bounce cfg env _ s)|].
  assert (forall c f (s0 : Agent) m, still s s0 -> named (mkOutgoing (nextSend s) conversationId f c m 0 0) ->
    s ~> pump cfg env (s0 <| nextSend ::= S |> <| queue ::= fun q => q ++ [mkOutgoing (nextSend s) conversationId f c m 0 0] |>
    <| tracker ::= touch conversationId |>)) as Hgo.
  { intros c f s0 m Hs Hnm. eapply agent_atoms_trans; [by apply still_atoms|].
    destruct Hs as (Hf & _). assert (nextSend s = nextSend s0 /\ running s0 = true) as [-> Hr].
    { unfold frozen in Hf. injection Hf. intros. by rewrite <- H2. }
    eapply agent_atoms_trans; [|apply pump_atoms]. eapply agent_atoms_trans; [|apply side_1, a_touch].
    by apply out_1, (a_enqueue _ _ (mkOutgoing (nextSend s0) conversationId f c m 0 0) s0); [| |exact Hnm]. }
  destruct (bool_decide_reflect (frame_type frame ∈ UNACKED_TYPES)) as [Hty|_]; cbn [negb]; cbv iota;
    [by apply Hgo; [apply still_refl|intros x Hx]|].
  pose proof (client_id_still frame s) as Hc.
  assert (client_id_of cfg frame (s <| nextSend ::= S |>)
    = ((client_id_of cfg frame s).1, (client_id_of cfg frame s).2 <| nextSend ::= S |>)) as ->.
  { unfold client_id_of, nextClientId. repeat case_match; done. }
  pose proof (fun n m => client_id_named n conversationId frame m s) as Hnm. destruct (client_id_of cfg frame s) as [c s0]. simpl in Hc.
  by apply Hgo.
Qed.

Lemma emitError_still e s : still s (emitError e s).
Proof. by apply still_say. Qed.

Lemma take_retry_Permutation h l e rest :
  take_retry h l = Some (e, rest) -> map (fun x => x.1.2) l ≡ₚ e :: map (fun x => x.1.2) rest.
Proof.
  revert rest. induction l as [|[[h' e'] d] l IH]; intros rest; simpl; [done|].
  destruct (Nat.eqb h' h); [by intros [= -> ->]|]. destruct (take_retry h l) as [[e0 r0]|]; [|done].
  intros [= -> <-]. simpl. rewrite (IH r0 eq_refl). apply Permutation_swap.
Qed.

Lemma agent_onSendError_atoms e s : s ~> onSendError cfg env e s.
Proof.
  unfold onSendError. set (key := key_of _ _).
  destruct (assoc key (inflight s)) as [entry|] eqn:He; [|apply still_atoms, emitError_still].
  cbv zeta. eapply agent_atoms_trans; [|apply pump_atoms]. destruct (_ && _).
  - apply out_1, a_move; [done| |apply sublist_delete|done]. unfold held, retrying. simpl. rewrite map_app.
    rewrite (held_inflight key entry s He). simpl. solve_Permutation.
  - apply settle_one; [done|done| |apply sublist_delete|done]. unfold held, retrying. simpl.
    rewrite (held_inflight key entry s He). simpl. solve_Permutation.
Qed.

Lemma retry_fired_atoms h e rest s :
  take_retry h (retries s) = Some (e, rest) -> s ~> retry_fired cfg env e (s <| retries := rest |>).
Proof.
  intros He%take_retry_Permutation. unfold retry_fired. simpl running.
  destruct (running s) eqn:Hr; simpl negb; cbv iota.
  - eapply agent_atoms_trans; [|apply pump_atoms]. apply out_1, a_move; [done| |done|done].
    unfold held, retrying. rewrite He. simpl. solve_Permutation.
  - apply out_1, (a_lose _ _ e); [done|done| |done|done].
    unfold held, retrying. rewrite He. simpl. solve_Permutation.
Qed.

Lemma tick_inflight_atoms t s : s ~> tick_inflight cfg t s.
Proof.
  unfold tick_inflight. apply fold_atoms. clear s. intros key s.
  destruct (assoc key (inflight s)) as [entry|] eqn:He; [|apply agent_atoms_id].
  destruct (o_deadline entry <? t).
  - apply settle_one; [done|done| |apply sublist_delete|done]. unfold held, retrying. simpl.
    rewrite (held_inflight key entry s He). simpl. solve_Permutation.
  - destruct (_ && _); [|apply agent_atoms_id]. apply out_1, a_move; [done| |apply sublist_delete|done].
    unfold held, retrying. simpl. rewrite (held_inflight key entry s He). simpl. solve_Permutation.
Qed.

Lemma filter_not_Permutation {A} (P : A -> Prop) `{!forall x, Decision (P x)} (l : list A) :
  l ≡ₚ filter P l ++ filter (fun x => ~ P x) l.
Proof.
  induction l as [|x l IH]; [done|]. destruct (decide (P x)) as [Hx|Hx].
  - rewrite (filter_cons_True P) by done. rewrite (filter_cons_False (fun x => ~ P x)) by auto. simpl. by rewrite <- IH.
  - rewrite (filter_cons_False P) by done. rewrite (filter_cons_True (fun x => ~ P x)) by done.
    by rewrite <- Permutation_middle, <- IH.
Qed.

Lemma tick_atoms s : s ~> tick cfg env s.
Proof.
  unfold tick. cbv zeta. eapply agent_atoms_trans; [|apply pump_atoms]. eapply agent_atoms_trans; [|apply tick_inflight_atoms].
  apply settle_all_atoms; [done|done| |done|done]. unfold held. simpl.
  rewrite (filter_not_Permutation (fun e => (o_deadline e <? now env) = true) (queue s)) at 1.
  rewrite <- app_assoc. apply Permutation_app_tail. apply Permutation_rev.
Qed.

(** ** Histories and asks *)

Lemma collector_done_still c h s : still s (collector_done c h s).
Proof.
  unfold collector_done. destruct (assoc c (histories s)); [|apply still_refl]. destruct (Nat.eqb _ _); [|apply still_refl].
  repeat split. by exists [OHistory h (merge_sort seq_le (hc_frames h0))].
Qed.

Lemma ask_failed_still a e s : still s (ask_failed a e s).
Proof. eapply still_trans; [apply clearTimeout_still|by apply still_say]. Qed.

Lemma reject_asks_still which e s : still s (reject_asks which e s).
Proof.
  unfold reject_asks. apply fold_still. clear s. intros [k a] s. destruct (which k a); [|apply still_refl].
  eapply still_trans; [|apply ask_failed_still]. repeat split. by exists [].
Qed.

Lemma abort_controller_still c e s : still s (abort_controller c e s).
Proof.
  unfold abort_controller. destruct c as [c|]; [|apply still_refl]. destruct (controllers s !! c) as [[r|]|]; try apply still_refl.
  eapply still_trans; [|apply reject_asks_still]. repeat split. by exists [].
Qed.

Lemma waitForAnswer_still c i sig t s : still s (waitForAnswer c i sig t s).2.
Proof.
  unfold waitForAnswer. cbv zeta. destruct (_ ≫= _).
  - repeat split. by exists [OAskFailed (nextId s) a].
  - destruct t; repeat split; by exists [].
Qed.

Lemma ask_timed_out_still k a e s : still s (ask_timed_out k a e s).
Proof.
  unfold ask_timed_out. destruct (assoc k (asks s)); [|apply still_refl]. destruct (Nat.eqb _ _); [|apply still_refl].
  eapply still_trans; [|apply ask_failed_still]. repeat split. by exists [].
Qed.

Lemma onResume_still c f s : still s (onResume c f s).
Proof.
  unfold onResume. cbv zeta. generalize (record_of (member "answers" f) ?? []) as answers. intros answers.
  generalize answers at 1 as l. intros l.
  assert (forall m s0, still s0 (fold_left (fun '(matched, s) '(id, value) =>
    match assoc (key_of c id) (asks s) with
    | Some ask => (matched ++ [id], say (OAnswer (ak_id ask) value)
    (clearTimeout (ak_timer ask) (s <| asks ::= map_delete (key_of c id) |>)))
    | None => (matched, s)
    end) l (m, s0)).2) as Hl.
  { induction l as [|[id v] l IH]; intros m s0; simpl; [apply still_refl|].
    destruct (assoc _ (asks s0)); [|apply IH]. eapply still_trans; [|apply IH].
    eapply still_trans; [|by apply still_say]. eapply still_trans; [|apply clearTimeout_still]. repeat split. by exists []. }
  specialize (Hl [] s). destruct (fold_left _ l ([], s)) as [m s0]. eapply still_trans; [exact Hl|by apply still_say].
Qed.

Lemma history_atoms c since t s : s ~> (history cfg env c since t s).2.
Proof.
  unfold history. destruct (assoc c (histories s)); [apply agent_atoms_id|]. destruct (_ =? 0); [apply agent_atoms_id|].
  cbv zeta. cbn [setTimeout]. 
  match goal with |- context [enqueue cfg env c ?f ?s0] =>
    pose proof (enqueue_atoms c f s0) as He; destruct (enqueue cfg env c f s0) as [n s1] end.
  simpl in He. eapply agent_atoms_trans; [|eapply agent_atoms_trans; [exact He|]]; plumb.
Qed.

(** ** Turns *)

Lemma turn_acquired_atoms c s : s ~> turn_acquired c s.
Proof.
  unfold turn_acquired. destruct (assoc c (lanes s)) as [lane|] eqn:Hl; [|apply agent_atoms_id].
  destruct (l_job lane) as [[| | |]|] eqn:Hj; try apply agent_atoms_id. cbv zeta.
  eapply agent_atoms_trans; [|by eapply side_1, (a_handle _ _ c lane envelope (nextId s)
    (s <| nextId ::= S |> <| controllers ::= <[nextId s := None]> |>))].
  plumb.
Qed.

Lemma handler_outcome_still c k r s : still s (handler_outcome c k r s).
Proof.
  unfold handler_outcome. destruct (aborted k s); [by apply still_say|]. destruct r; [apply still_refl|]. cbv zeta.
  eapply still_trans; [|apply emitError_still]. by apply still_say.
Qed.

Lemma handler_done_atoms c r s : s ~> handler_done c r s.
Proof.
  unfold handler_done. destruct (assoc c (lanes s)) as [lane|] eqn:Hl; [|apply agent_atoms_id].
  destruct (l_job lane) as [[| | |]|] eqn:Hj; try apply agent_atoms_id.
  pose proof (handler_outcome_still c controller r s) as Hs. set (s1 := handler_outcome c controller r s) in *.
  assert (lanes s1 = lanes s) as Hl1 by (destruct Hs as (Hf & _); unfold frozen in Hf; congruence).
  clearbody s1. cbv zeta. rewrite <- Hl1 in Hl.
  eapply agent_atoms_trans; [apply still_atoms, Hs|]. eapply agent_atoms_trans; [by eapply side_1, (a_handled _ _ c lane envelope controller s1)|].
  eapply agent_atoms_trans; [|by apply agent_say_atoms]. apply still_atoms, reject_asks_still.
Qed.

(** ** Connection *)

Lemma agent_scheduleReconnect_atoms close r s : s ~> scheduleReconnect cfg env close r s.
Proof.
  unfold scheduleReconnect. destruct (negb (running s)); [apply agent_atoms_id|]. lazymatch goal with |- context [if ?b then _ else _] => destruct b end.
  - cbv zeta. eapply agent_atoms_trans; [|apply reject_start_atoms]. eapply agent_atoms_trans; [|by apply agent_say_atoms].
    apply out_1, (a_halt _ _ s).
  - cbv zeta. eapply (agent_atoms_trans _ (emit (EDisconnected _) s)); [by apply agent_say_atoms|]. plumb.
Qed.

Lemma agent_scheduleRefresh_atoms e s : s ~> scheduleRefresh cfg env e s.
Proof.
  unfold scheduleRefresh. cbv zeta. eapply agent_atoms_trans; [apply still_atoms, (clearTimeout_still (refreshTimer s))|].
  generalize (clearTimeout (refreshTimer s) s) as s1. intros s1. destruct e; [|apply agent_atoms_id].
  destruct (negb _); [apply agent_atoms_id|plumb].
Qed.

Lemma refresh_fired_atoms s : s ~> refresh_fired cfg s.
Proof.
  unfold refresh_fired. destruct (_ || _); [apply agent_atoms_id|]. eapply agent_atoms_trans; [by apply (agent_say_atoms (OGetToken RRefresh))|plumb].
Qed.

Lemma agent_refresh_settled_atoms r s : s ~> refresh_settled env r s.
Proof.
  unfold refresh_settled. destruct r; [apply still_atoms, emitError_still|]. destruct (socket s); [|apply agent_atoms_id].
  destruct (accepts env _); [by apply agent_say_atoms|apply agent_atoms_id].
Qed.

Lemma connect_with_atoms token s : s ~> connect_with cfg token s.
Proof.
  unfold connect_with. destruct (negb (running s)); [apply agent_atoms_id|]. destruct (negb _); cbv zeta.
  - eapply agent_atoms_trans; [apply out_1, a_halt|apply reject_start_atoms].
  - eapply agent_atoms_trans; [|by apply agent_say_atoms]. plumb.
Qed.

Lemma token_failed_atoms cause s : s ~> token_failed cfg env cause s.
Proof.
  unfold token_failed. cbv zeta. set (e := cause ?? _).
  apply (agent_atoms_trans _ (emitError e s)); [apply still_atoms, emitError_still|]. generalize (emitError e s) as s1. intros s1.
  destruct (_ && _); [|apply agent_scheduleReconnect_atoms]. eapply agent_atoms_trans; [|apply reject_start_atoms].
  eapply agent_atoms_trans; [apply out_1, a_halt|apply still_atoms, clearTimeout_still].
Qed.

Lemma agent_connect_atoms reason s : s ~> connect cfg reason s.
Proof.
  unfold connect. destruct (negb (running s)); [apply agent_atoms_id|]. cbv zeta. destruct (opt_getToken _).
  - eapply agent_atoms_trans; [|apply still_atoms, await_still]. eapply agent_atoms_trans; [|by apply agent_say_atoms]. plumb.
  - eapply agent_atoms_trans; [|apply connect_with_atoms]. plumb.
Qed.

Lemma agent_onWelcome_atoms w s : s ~> onWelcome cfg env w s.
Proof.
  unfold onWelcome. cbv zeta. eapply agent_atoms_trans; [|apply pump_atoms]. eapply agent_atoms_trans; [|apply resolve_start_atoms].
  eapply agent_atoms_trans; [|by apply agent_say_atoms]. eapply agent_atoms_trans; [|apply agent_scheduleRefresh_atoms].
  apply out_1, a_move; [done| |apply sublist_nil_l|done]. unfold held, retrying. simpl.
  rewrite merge_sort_Permutation. solve_Permutation.
Qed.

Lemma detach_atoms s : s ~> detach s.
Proof.
  unfold detach. cbv zeta. eapply agent_atoms_trans; [apply still_atoms, (clearTimeout_still (refreshTimer s))|].
  set (s1 := clearTimeout _ (s <| socket := None |> <| welcome := None |>)).
  assert (s1 = clearTimeout (refreshTimer s) s <| socket := None |> <| welcome := None |>) as ->.
  { subst s1. simpl. by destruct (refreshTimer s). }
  generalize (clearTimeout (refreshTimer s) s) as s2. intros s2. simpl queue.
  apply settle_all_atoms; [done|done| |done|done]. unfold held, retrying. simpl.
  rewrite <- (Permutation_rev (filter (fun e => is_transient e = true) (queue s2))).
  rewrite (app_assoc (filter _ (queue s2)) (filter _ (queue s2))).
  apply Permutation_app_tail. induction (queue s2) as [|e q IH]; [done|]. rewrite !filter_cons.
  destruct (is_transient e); simpl; [by rewrite <- IH|]. by rewrite <- Permutation_middle, <- IH.
Qed.

Lemma reject_sends_atoms e s : s ~> reject_sends e s.
Proof.
  apply settle_all_atoms; [done|done| |apply sublist_nil_l|done]. unfold held, retrying. simpl. solve_Permutation.
Qed.

Lemma agent_onClose_atoms close s : s ~> onClose cfg env close s.
Proof.
  unfold onClose. cbv zeta. eapply agent_atoms_trans; [apply detach_atoms|]. generalize (detach s) as s1. intros s1.
  destruct (negb (running s1)); [apply agent_atoms_id|]. destruct (_ || negb (enabled _)).
  - eapply agent_atoms_trans; [|apply reject_sends_atoms]. eapply agent_atoms_trans; [|apply reject_start_atoms].
    set (s2 := emit _ _). eapply agent_atoms_trans; [|destruct (everConnected s2); [apply still_atoms, emitError_still|apply agent_atoms_id]].
    eapply agent_atoms_trans; [|by apply agent_say_atoms]. eapply agent_atoms_trans; [apply out_1, a_halt|apply still_atoms, clearTimeout_still].
  - eapply agent_atoms_trans; [|apply agent_scheduleReconnect_atoms]. destruct (_ =? 4401); plumb.
Qed.

Lemma start_atoms s : s ~> start cfg s.
Proof.
  unfold start. destruct (start_promise s) eqn:Hs; try apply agent_atoms_id. cbv zeta. cbn [setTimeout].
  eapply agent_atoms_trans; [by apply out_1, (a_begin _ _ s)|]. eapply agent_atoms_trans; [|apply agent_connect_atoms]. plumb.
Qed.

(** ** Inbound *)

Lemma onBare_atoms type frame s : s ~> onBare cfg env type frame s.
Proof.
  unfold onBare. cbv zeta. apply (agent_atoms_trans _ (say (ONotify frame None) s)); [by apply agent_say_atoms|].
  generalize (say (ONotify frame None) s) as s1. intros s1. destruct (String.eqb type "welcome"); [apply agent_onWelcome_atoms|].
  destruct (String.eqb type "tokenRefreshed").
  { destruct (int_at _ _); [apply agent_scheduleRefresh_atoms|apply agent_atoms_id]. }
  destruct (String.eqb type "error"); [|apply agent_atoms_id].
  set (e := fromFrame _ _).
  match goal with |- context [onSendError cfg env e ?x] => set (s2 := x) end.
  apply (agent_atoms_trans _ s2); [subst s2; destruct (String.eqb _ _); plumb|].
  destruct (truthy _); [apply agent_onSendError_atoms|apply still_atoms, emitError_still].
Qed.

Lemma agent_onAck_atoms c frame s :
  ONotify frame (Some c) ∈ log s -> str_at "type" frame = Some "ack" -> s ~> onAck cfg env c frame s.
Proof.
  intros Hn Hty. unfold onAck. cbv zeta. set (s1 := match int_at "seq" frame with Some _ => _ | None => _ end).
  assert (log s1 = log s) as Hl1 by (subst s1; by destruct (int_at "seq" frame)).
  apply (agent_atoms_trans _ s1); [subst s1; destruct (int_at "seq" frame) eqn:Hq; [apply side_1, a_record; by exists frame|apply agent_atoms_id]|].
  clearbody s1. rewrite <- Hl1 in Hn. set (key := key_of _ _). destruct (assoc key (inflight s1)) as [entry|] eqn:He; [|apply agent_atoms_id].
  eapply agent_atoms_trans; [|apply pump_atoms]. apply out_1, (a_settle _ _ entry (SAcked frame)); [done| |apply sublist_delete|done|intros f [= <-]; by exists c].
  unfold held, retrying. simpl. rewrite (held_inflight key entry s1 He). simpl. solve_Permutation.
Qed.

Lemma onErrorFrame_atoms c frame s : s ~> onErrorFrame cfg env c frame s.
Proof.
  unfold onErrorFrame. cbv zeta. set (e := fromFrame _ _).
  match goal with |- context [onSendError cfg env e ?x] => set (s1 := x) end.
  apply (agent_atoms_trans _ s1); [subst s1; destruct (String.eqb _ _); plumb|]. clearbody s1.
  destruct (_ && _); [apply agent_onSendError_atoms|apply still_atoms, emitError_still].
Qed.

Lemma onReplayTruncated_atoms c frame s : s ~> onReplayTruncated cfg env c frame s.
Proof.
  unfold onReplayTruncated. destruct (assoc c (histories s)); [apply still_atoms, collector_done_still|].
  destruct (int_at _ _); [apply enqueue_atoms|apply agent_atoms_id].
Qed.

(** What a frame with a seq does before it may become a turn. *)
Lemma onSeq_cases c frame s go s' :
  ONotify frame (Some c) ∈ log s -> onSeq c frame s = (go, s') ->
  (go = true /\ exists t, s' = s <| tracker := t |> /\
   match int_at "seq" frame with
   | Some seq => Tracker.record c seq (tracker s) = (true, t)
   | None => t = tracker s
   end) \/ (go = false /\ s ~> s').
Proof.
  intros Hin. unfold onSeq. destruct (int_at "seq" frame) as [seq|] eqn:Hq.
  - assert (exists f, ONotify f (Some c) ∈ log s /\ int_at "seq" f = Some seq) as Hn by (by exists frame).
    assert (forall go s', (let '(fresh, t) := Tracker.record c seq (tracker s) in (fresh, s <| tracker := t |>)) = (go, s') ->
      (go = true /\ exists t, s' = s <| tracker := t |> /\ Tracker.record c seq (tracker s) = (true, t)) \/ (go = false /\ s ~> s')) as Hr.
    { clear - Hn. intros go s'. destruct (Tracker.record c seq (tracker s)) as [fresh t] eqn:E. intros [= <- <-].
      destruct fresh; [left; eauto|right; split; [done|]].
      replace t with (Tracker.record c seq (tracker s)).2 by (by rewrite E). exact (side_1 _ _ (a_record cfg inbox c seq s Hn)). }
    destruct (assoc c (histories s)) as [h|]; [|apply Hr]. destruct (seq <=? hc_until h); [|apply Hr].
    intros [= <- <-]. right. split; [done|].
    set (s1 := s <| histories ::= _ |>). apply (agent_atoms_trans _ (s1 <| tracker ::= fun t => (Tracker.record c seq t).2 |>)).
    + eapply agent_atoms_trans; [|by apply side_1, a_record]. plumb.
    + destruct (hc_until h <=? seq); [apply still_atoms, collector_done_still|apply agent_atoms_id].
  - intros [= <- <-]. left. split; [done|]. exists (tracker s). by destruct s.
Qed.

Lemma onEnveloped_atoms c type frame s :
  inbox c frame -> str_at "type" frame = Some type -> s ~> onEnveloped cfg env c type frame s.
Proof.
  intros Hin Hty. unfold onEnveloped. cbv zeta. set (s1 := say (ONotify frame (Some c)) s).
  assert (s ~> s1) as H1 by (by apply side_1, a_note).
  assert (ONotify frame (Some c) ∈ log s1) as Hf by apply list_elem_of_here.
  destruct (String.eqb_spec type "ack") as [->|Hack]; [eapply agent_atoms_trans; [exact H1|by apply agent_onAck_atoms]|].
  destruct (String.eqb type "error"); [eapply agent_atoms_trans; [exact H1|apply onErrorFrame_atoms]|].
  destruct (String.eqb type "replayTruncated"); [eapply agent_atoms_trans; [exact H1|apply onReplayTruncated_atoms]|].
  destruct (String.eqb type "resume"); [eapply agent_atoms_trans; [exact H1|apply still_atoms, onResume_still]|].
  destruct (String.eqb type "abort").
  { eapply agent_atoms_trans; [exact H1|]. destruct (assoc c (lanes s1)); [apply still_atoms, abort_controller_still|apply agent_atoms_id]. }
  destruct (onSeq c frame s1) as [go s2] eqn:Hq. apply onSeq_cases in Hq as [(-> & t & -> & Ht)|(-> & Hs)]; [| |exact Hf].
  - destruct (_ && _); [apply side_1, a_deliver; [done|done|congruence]|]. eapply agent_atoms_trans; [exact H1|].
    destruct (int_at "seq" frame) as [seq|] eqn:Hq; [|subst t; by destruct s1; apply agent_atoms_id].
    assert (exists f, ONotify f (Some c) ∈ log s1 /\ int_at "seq" f = Some seq) as Hn by (by exists frame).
    replace t with (Tracker.record c seq (tracker s1)).2 by (by rewrite Ht). exact (side_1 _ _ (a_record cfg inbox c seq s1 Hn)).
  - simpl. by eapply agent_atoms_trans.
Qed.

Lemma onMessage_atoms sk message s :
  (forall c f, inbox_of (IMessage sk message) c f -> inbox c f) -> s ~> onMessage cfg env message s.
Proof.
  intros Hin. unfold onMessage. destruct (str_at "type" message) eqn:Ht; [apply onBare_atoms|].
  repeat case_match; try apply agent_atoms_id. apply onEnveloped_atoms; [by apply Hin|done].
Qed.

Lemma socket_message_atoms sk k message s :
  (forall c f, inbox_of (IMessage k message) c f -> inbox c f) -> s ~> socket_message cfg env sk message s.
Proof.
  intros Hin. unfold socket_message. cbv zeta. eapply agent_atoms_trans; [|exact (onMessage_atoms k message _ Hin)]. destruct (bool_decide _); plumb.
Qed.

(** ** Stopping *)

Lemma stop_still t s : still s (stop t s).
Proof.
  unfold stop. destruct (_ || _); [apply still_refl|]. cbv zeta.
  eapply still_trans; [|apply await_still]. eapply still_trans; [|apply fold_still; intros [? ?] ?; apply collector_done_still].
  eapply still_trans; [|apply reject_asks_still]. eapply still_trans; [|apply fold_still; intros [? ?] ?; apply abort_controller_still].
  repeat split. by exists [].
Qed.

Lemma stop_finish_atoms s : s ~> stop_finish cfg env s.
Proof.
  unfold stop_finish. cbv zeta. eapply agent_atoms_trans; [|by apply (agent_say_atoms OStopped)].
  eapply agent_atoms_trans; [|apply reject_start_atoms].
  set (s1 := clearTimeout _ (clearTimeout _ _)).
  assert (s ~> s1) as H1.
  { subst s1. apply (agent_atoms_trans _ (s <| running := false |>)); [apply out_1, a_halt|]. apply still_atoms.
    do 4 (eapply still_trans; [|apply clearTimeout_still]). apply still_refl. }
  clearbody s1. set (s2 := reject_sends _ _).
  assert (s ~> s2) as H2.
  { eapply agent_atoms_trans; [exact H1|]. eapply agent_atoms_trans; [|apply reject_sends_atoms]. plumb. }
  clearbody s2. apply (agent_atoms_trans _ s2); [exact H2|].
  match goal with |- context [?x <| socket := None |>] => apply (agent_atoms_trans _ x); [|plumb] end.
  destruct (socket s2); [|apply agent_atoms_id]. eapply agent_atoms_trans; [apply agent_onClose_atoms|by apply agent_say_atoms].
Qed.

Lemma drain_atoms d s : s ~> drain cfg env d s.
Proof. unfold drain. destruct (_ && _); [plumb|apply stop_finish_atoms]. Qed.

(** ** Every input *)

Lemma agent_run_timer_atoms h s : s ~> run_timer cfg env h s.
Proof.
  unfold run_timer. destruct (timers s !! h) as [[a d]|]; [|].
  - assert (s ~> s <| timers ::= delete h |>) as H1 by plumb.
    destruct a; cbv zeta; lazymatch goal with |- _ ~> tick _ _ _ => idtac | _ => eapply agent_atoms_trans; [exact H1|] end.
    + apply agent_connect_atoms.
    + apply refresh_fired_atoms.
    + apply tick_atoms.
    + eapply agent_atoms_trans; [|apply pump_atoms]. plumb.
    + apply enqueue_atoms.
    + apply still_atoms, collector_done_still.
    + apply still_atoms, ask_timed_out_still.
    + apply drain_atoms.
  - destruct (take_retry h (retries s)) as [[e rest]|] eqn:E; [by eapply retry_fired_atoms|apply agent_atoms_id].
Qed.

Lemma agent_run_task_atoms t o s : s ~> run_task cfg env t o s.
Proof.
  unfold run_task. destruct (tasks s !! t) as [k|]; [|apply agent_atoms_id].
  destruct (resume_task cfg env k o (s <| tasks ::= delete t |>)) as [s'|] eqn:E; [|apply agent_atoms_id]. simpl.
  eapply (agent_atoms_trans _ (s <| tasks ::= delete t |>)); [plumb|]. revert E. generalize (s <| tasks ::= delete t |>) as s1. intros s1.
  destruct k, o; simpl; intros [= <-].
  - apply connect_with_atoms.
  - apply token_failed_atoms.
  - apply (agent_refresh_settled_atoms (inr token)).
  - by apply (agent_say_atoms (OEmit (EError _))).
  - apply drain_atoms.
  - apply agent_atoms_id.
  - apply still_atoms, collector_done_still.
Qed.

Theorem agent_step_atoms i s : (forall c f, inbox_of i c f -> inbox c f) -> s ~> step cfg env i s.
Proof.
  intros Hin. destruct i; simpl.
  - plumb.
  - apply start_atoms.
  - apply still_atoms, stop_still.
  - apply enqueue_atoms.
  - plumb.
  - apply history_atoms.
  - apply still_atoms, waitForAnswer_still.
  - destruct (Agent.socket s) as [k|]; [|apply agent_atoms_id]. destruct (Nat.eqb _ _); [by eapply socket_message_atoms|apply agent_atoms_id].
  - destruct (Agent.socket s) as [k|]; [|apply agent_atoms_id]. destruct (Nat.eqb _ _); [apply agent_onClose_atoms|apply agent_atoms_id].
  - apply agent_run_timer_atoms.
  - apply agent_run_task_atoms.
  - apply side_1, a_run.
  - apply turn_acquired_atoms.
  - apply handler_done_atoms.
  - apply side_1, a_ended.
Qed.
End Steps.

(** An invariant of the atoms is one of every run. *)
Lemma run_invariant cfg (P : Agent -> Prop) l s :
  (forall env inbox s s', atom cfg env inbox s s' -> P s -> P s') -> P s -> P (run cfg l s).
Proof.
  intros HP. revert s. unfold run. induction l as [|[env i] l IH]; intros s Hs; simpl; [done|]. apply IH.
  pose proof (agent_step_atoms cfg env (inbox_of i) i s (fun _ _ H => H)) as Ha. unfold atoms in Ha.
  induction Ha as [s|s s0 s' Ha _ IHa]; [done|]. apply IHa. by eapply HP.
Qed.
