(* ===== verification/AgentOutbound.v ===== *)
(** * AgentOutbound: what the agent writes, and how its sends settle. *)

From stdpp Require Import base gmap sets list strings sorting.
From Stdlib Require Import ZArith QArith Qminmax Lia Lqa.
From S2P Require Import Prelude Backoff Frames Tracker JsMap AgentFrames Agent AgentExample AgentSteps.

Open Scope string_scope.
Open Scope list_scope.
Open Scope Z_scope.

(** ** The in-flight limit *)

(** The lane operations touch nothing of the outbound side. *)
Definition outbound (s : Agent) :=
  (tokens s, tokensAt s, running s, start_promise s, nextSend s, queue s, inflight s, retries s).

Lemma runTurn_outbound cfg c s : outbound (runTurn cfg c s) = outbound s /\ log (runTurn cfg c s) = log s.
Proof. unfold runTurn, turn_done, acquire, set_lane. repeat (case_match; simplify_eq/=); done. Qed.

Lemma reply_ended_outbound c s : outbound (reply_ended c s) = outbound s /\ log (reply_ended c s) = log s.
Proof. unfold reply_ended, turn_done, release, set_lane. repeat (case_match; simplify_eq/=); done. Qed.

Definition counted (o : output) : bool := match o with OWrite _ _ | OSettle _ _ => true | _ => false end.

(** A step that leaves the outbound side alone. *)
Definition same_out (s s' : Agent) : Prop :=
  outbound s' = outbound s /\ exists outs, log s' = outs ++ log s /\ Forall (fun o => counted o = false) outs.

Lemma side_same_out cfg inbox s s' : side cfg inbox s s' -> same_out s s'.
Proof.
  intros H. destruct H.
  - destruct H as (Hf & Hq & Hi & Hr & outs & Hl & Hn). unfold same_out, outbound. unfold frozen in Hf. split; [congruence|].
    exists outs. split; [done|]. clear - Hn. induction outs as [|o outs IH]; simpl in *; [constructor|].
    apply andb_prop in Hn as [Ho Hn]. constructor; [by destruct o|auto].
  - split; [done|]. exists [ONotify frame (Some conversationId)]. split; [done|]. by repeat constructor.
  - split; [done|]. by exists [].
  - split; [done|]. by exists [].
  - split; [done|]. exists [ONotify frame (Some conversationId)]. split; [done|]. by repeat constructor.
  - destruct (runTurn_outbound cfg conversationId s) as [Ho Hl]. split; [done|]. exists []. by rewrite Hl.
  - split; [done|]. eexists [_]. split; [done|]. by repeat constructor.
  - split; [done|]. by exists [].
  - destruct (reply_ended_outbound conversationId s) as [Ho Hl]. split; [done|]. exists []. by rewrite Hl.
Qed.

(** An invariant of the outbound side. *)
Lemma outbound_invariant cfg (P : Agent -> Prop) l s :
  (forall env s s', (exists i, (env, i) ∈ l) -> change cfg env s s' -> P s -> P s') ->
  (forall s s', same_out s s' -> P s -> P s') -> P s -> P (run cfg l s).
Proof.
  intros Hc Hs. revert s Hc. unfold run. induction l as [|[env i] l IH]; intros s Hc HP; simpl; [done|]. apply IH.
  { intros env' s0 s' [j Hj]. apply Hc. exists j. by right. }
  pose proof (agent_step_atoms cfg env (inbox_of i) i s (fun _ _ H => H)) as Ha. unfold atoms in Ha.
  induction Ha as [s|s s0 s' [Ha|Ha] _ IHa]; [done| |]; apply IHa.
  - eapply Hc; [|done|done]. exists i. by left.
  - eapply Hs; [|done]. by eapply side_same_out.
Qed.

Lemma written_fields env sk head rest s :
  let head' := head <| o_attempts ::= Z.succ |> <| o_sentAt := now env |> in
  let s' := written env sk head rest s in
  tokens s' = (tokens s - 1)%Q /\ tokensAt s' = tokensAt s /\ running s' = running s /\
  start_promise s' = start_promise s /\ nextSend s' = nextSend s /\ queue s' = rest /\ retries s' = retries s /\
  (if truthy (o_clientId head)
   then inflight s' = map_set (entry_key head) head' (inflight s) /\ log s' = OWrite sk head :: log s
   else inflight s' = inflight s /\ log s' = OSettle (o_id head) SWritten :: OWrite sk head :: log s).
Proof. unfold written. destruct (truthy (o_clientId head)) eqn:E; simpl; rewrite E; done. Qed.

(** ** The in-flight limit *)

(** C25. However acks, errors, reconnects and timeouts interleave, the agent
    never has more than [maxInFlight] acknowledged sends unacknowledged. *)
Theorem inflight_bounded (o : AgentOptions) (t : Z) (s : Agent) (l : list (Env * input)) :
  new_agent o t = inr s ->
  Z.of_nat (length (inflight (run (configure o) l s))) <= maxInFlight (configure o).
Proof.
  intros Hs. apply (outbound_invariant _ (fun s => Z.of_nat (length (inflight s)) <= maxInFlight (configure o))).
  - clear. intros env s s' _ Hc HP. destruct Hc; try done.
    + destruct (written_fields env sk head rest s) as (_ & _ & _ & _ & _ & _ & _ & Hw). cbv zeta in Hw.
      destruct (truthy (o_clientId head)); destruct Hw as [-> _]; [|done]. specialize (H2 eq_refl).
      pose proof (length_set (entry_key head) (head <| o_attempts ::= Z.succ |> <| o_sentAt := now env |>) (inflight s)). lia.
    + apply sublist_length in H1. lia.
    + apply sublist_length in H1. lia.
    + apply sublist_length in H2. lia.
  - intros s0 s' [Ho _] HP. unfold outbound in Ho. by replace (inflight s') with (inflight s0) by congruence.
  - unfold new_agent in Hs. destruct (_ && _); [done|]. injection Hs as <-. simpl. lia.
Qed.

(** ** The rate limit *)

(** The frames of sends written so far. *)
Definition is_write (o : output) : bool := match o with OWrite _ _ => true | _ => false end.
Definition writes (s : Agent) : nat := length (filter (fun o => is_write o = true) (log s)).

Lemma same_out_writes s s' : same_out s s' -> writes s' = writes s.
Proof.
  intros (_ & outs & Hl & Hn). unfold writes. rewrite Hl, filter_app, length_app.
  replace (filter (fun o => is_write o = true) outs) with (@nil output); [done|].
  clear Hl. symmetry. induction Hn as [|x outs Hx Hn IH]; [done|].
  rewrite filter_cons_False by (destruct x; simpl in *; congruence). exact IH.
Qed.

(** A change writes at most one frame, and only [written] writes. *)
Lemma change_counts cfg env s s' :
  change cfg env s s' ->
  (writes s' = writes s /\ (tokens s' = tokens s /\ tokensAt s' = tokensAt s \/ s' = refill cfg env s)) \/
  (writes s' = S (writes s) /\ tokens s' = (tokens s - 1)%Q /\ tokensAt s' = now env /\ (1 <= tokens s)%Q /\ tokensAt s = now env).
Proof.
  intros Hc. destruct Hc; try (left; split; [done|]; by left).
  - left. split; [done|]. by right.
  - right. destruct (written_fields env sk head rest s) as (Ht & Ha & _ & _ & _ & _ & _ & Hw). cbv zeta in Hw.
    rewrite Ht, Ha. split; [|done]. unfold writes.
    destruct (truthy (o_clientId head)); destruct Hw as [_ ->].
    + by rewrite filter_cons_True by done.
    + by rewrite filter_cons_False, filter_cons_True by done.
  - left. unfold frozen in H. assert (tokens s' = tokens s /\ tokensAt s' = tokensAt s) as [-> ->] by (split; congruence).
    unfold writes. rewrite H2. auto.
  - left. unfold frozen in H. assert (tokens s' = tokens s /\ tokensAt s' = tokensAt s) as [-> ->] by (split; congruence).
    unfold writes. rewrite H2, filter_cons_False by done. auto.
  - left. unfold frozen in H0. assert (tokens s' = tokens s /\ tokensAt s' = tokensAt s) as [-> ->] by (split; congruence).
    unfold writes. rewrite H3. auto.
Qed.

(** The bucket never holds more than a second's worth. *)
Lemma tokens_capped cfg l s : (tokens s <= fps cfg)%Q -> (tokens (run cfg l s) <= fps cfg)%Q.
Proof.
  apply (outbound_invariant cfg (fun s => tokens s <= fps cfg)%Q).
  - intros env s0 s' _ Hc HP. destruct (change_counts _ _ _ _ Hc) as [[_ [[-> _]| ->]]|(_ & -> & _)]; [done| |lra].
    simpl. apply Q.le_min_l.
  - intros s0 s' [Ho _] HP. unfold outbound in Ho. by replace (tokens s') with (tokens s0) by congruence.
Qed.

Lemma new_tokens o t s : new_agent o t = inr s -> tokens s = fps (configure o) /\ log s = [] /\ tokensAt s = t.
Proof. unfold new_agent. destruct (_ && _); [done|]. by intros [= <-]. Qed.

Lemma fps_pos o : (1 <= fps (configure o))%Q.
Proof. apply Q.le_max_l. Qed.

(** [rate]: the frames the bucket allows in [ms] milliseconds. *)
Definition allowance (cfg : AgentConfig) (ms : Z) : Q := (fps cfg + inject_Z ms / 1000 * fps cfg)%Q.

Lemma allowance_split cfg a b : (allowance cfg (a + b) == allowance cfg a + inject_Z b / 1000 * fps cfg)%Q.
Proof. unfold allowance. rewrite inject_Z_plus. field. Qed.

Lemma allowance_mono cfg a b : (0 <= fps cfg)%Q -> a <= b -> (allowance cfg a <= allowance cfg b)%Q.
Proof.
  intros Hf Hab. replace b with (a + (b - a)) by lia. rewrite allowance_split.
  assert (0 <= inject_Z (b - a) / 1000 * fps cfg)%Q; [|lra].
  apply Qmult_le_0_compat; [|done]. apply Qle_shift_div_l; [lra|]. rewrite Qmult_0_l. change 0%Q with (inject_Z 0).
  rewrite <- Zle_Qle. lia.
Qed.

Lemma allowance_burst cfg ms : (0 <= fps cfg)%Q -> 0 <= ms -> (fps cfg <= allowance cfg ms)%Q.
Proof.
  intros Hf Hms. pose proof (allowance_mono cfg 0 ms Hf Hms) as Hm.
  assert (allowance cfg 0 == fps cfg)%Q as H0 by (unfold allowance; field). lra.
Qed.

(** What holds since the start of a window at [t0]. *)
Definition paced (cfg : AgentConfig) (t0 t1 : Z) (w0 : nat) (s : Agent) : Prop :=
  (tokens s <= fps cfg)%Q /\
  exists n, writes s = (w0 + n)%nat /\ (inject_Z (Z.of_nat n) <= allowance cfg (t1 - t0))%Q /\
    (n = 0%nat \/ (inject_Z (Z.of_nat n) + tokens s <= allowance cfg (tokensAt s - t0))%Q).

Lemma inject_S n : (inject_Z (Z.of_nat (S n)) == inject_Z (Z.of_nat n) + 1)%Q.
Proof. rewrite Nat2Z.inj_succ. unfold Z.succ. by rewrite inject_Z_plus. Qed.

Lemma paced_change cfg env t0 t1 w0 s s' :
  (0 <= fps cfg)%Q -> t0 <= now env <= t1 -> change cfg env s s' -> paced cfg t0 t1 w0 s -> paced cfg t0 t1 w0 s'.
Proof.
  intros Hfps Hnow Hc [Hcap (n & Hw & Hn & Hpot)].
  destruct (change_counts _ _ _ _ Hc) as [[Hw' [[Ht Ha]| ->]]|(Hw' & Ht & Ha & H1 & Hat)].
  - unfold paced. rewrite Ht, Ha, Hw'. eauto.
  - split; [apply Q.le_min_l|]. exists n. split; [done|]. split; [done|].
    destruct Hpot as [->|Hpot]; [by left|right]. simpl.
    replace (now env - t0) with (tokensAt s - t0 + (now env - tokensAt s)) by lia. rewrite allowance_split.
    pose proof (Q.le_min_r (fps cfg) (tokens s + inject_Z (now env - tokensAt s) / 1000 * fps cfg)). lra.
  - assert (inject_Z (Z.of_nat (S n)) + tokens s' <= allowance cfg (now env - t0))%Q as Hpot'.
    { rewrite inject_S, Ht. destruct Hpot as [->|Hpot].
      - pose proof (allowance_burst cfg (now env - t0) Hfps ltac:(lia)). change (inject_Z (Z.of_nat 0)) with 0%Q. lra.
      - rewrite Hat in Hpot. lra. }
    split; [rewrite Ht; lra|]. exists (S n). split; [rewrite Hw', Hw; lia|]. split; [|right; by rewrite Ha].
    pose proof (allowance_mono cfg (now env - t0) (t1 - t0) Hfps ltac:(lia)). rewrite Ht in Hpot'. lra.
Qed.

(** C24. Sends are paced: whatever happened before, in any stretch of a run
    whose clock readings lie between [t0] and [t1] the agent writes at most
    [fps] frames plus [fps] per second of the stretch (a full bucket, then the
    refill), even if the clock jumps within it. *)
Theorem writes_paced (o : AgentOptions) (t : Z) (s0 : Agent) (before l : list (Env * input)) (t0 t1 : Z) :
  new_agent o t = inr s0 -> t0 <= t1 -> Forall (fun x => t0 <= now x.1 <= t1) l ->
  let s := run (configure o) before s0 in
  (inject_Z (Z.of_nat (writes (run (configure o) l s) - writes s)) <= allowance (configure o) (t1 - t0))%Q.
Proof.
  intros Hs Ht Hl s.
  assert (0 <= fps (configure o))%Q as Hfps by (pose proof (fps_pos o); lra).
  assert (paced (configure o) t0 t1 (writes s) s) as Hp.
  { split; [apply tokens_capped; rewrite (proj1 (new_tokens _ _ _ Hs)); lra|]. exists 0%nat. split; [lia|]. split; [|by left].
    pose proof (allowance_burst (configure o) (t1 - t0) Hfps ltac:(lia)). change (inject_Z (Z.of_nat 0)) with 0%Q. lra. }
  assert (paced (configure o) t0 t1 (writes s) (run (configure o) l s)) as [_ (n & Hn & Hb & _)].
  { apply (outbound_invariant _ (paced (configure o) t0 t1 (writes s))); [| |exact Hp].
    - intros env s1 s' [i Hi] Hc HP. eapply paced_change; [done| |done|done].
      rewrite Forall_forall in Hl. exact (Hl _ Hi).
    - intros s1 s' Hso [Hcap (n & Hw & Hr)]. pose proof (same_out_writes _ _ Hso) as Hws. destruct Hso as [Ho _]. unfold outbound in Ho.
      assert (tokens s' = tokens s1 /\ tokensAt s' = tokensAt s1) as [Ht1 Ht2] by (split; congruence).
      unfold paced. rewrite Ht1, Ht2, Hws. eauto. }
  rewrite Hn. by replace (writes s + n - writes s)%nat with n by lia.
Qed.

Lemma inflight_bounded_witness :
  let l := ex_connect ++ [(ex_at 20, ISend "c" (ex_text "a")); (ex_at 30, ISend "c" (ex_text "b"))] in
  length (inflight (run (configure ex_options) l ex_agent)) = 2%nat /\
  Z.of_nat (length (inflight (run (configure ex_options) l ex_agent))) <= maxInFlight (configure ex_options).
Proof.
  split; [vm_compute; reflexivity|].
  exact (inflight_bounded ex_options 0 ex_agent _ eq_refl).
Defined.

Definition ex_burst : list (Env * input) :=
  map (fun _ => (ex_at 20, ISend "c" ex_tool)) (seq 0 21) ++ [(ex_at 420, ITimer 2)].

Lemma writes_paced_witness :
  (inject_Z (Z.of_nat (writes (run ex_config ex_burst ex_connected) - writes ex_connected)) <= allowance ex_config 400)%Q.
Proof.
  exact (writes_paced ex_options 0 ex_agent ex_connect ex_burst 20 420 eq_refl ltac:(lia)
    ltac:(repeat (constructor; [simpl; lia|]); constructor)).
Defined.

(** The pacing does not keep below the server's limit of 20 frames per
    1000 ms: with every option at its default, a full bucket followed by its
    refill lets 21 frames go out within 400 ms. *)
Theorem burst_exceeds_limit :
  exists l, Forall (fun x => 20 <= now x.1 <= 420) l /\
            writes (run ex_config l ex_connected) = (writes ex_connected + 21)%nat.
Proof.
  exists ex_burst. split; [|vm_compute; reflexivity].
  unfold ex_burst. apply Forall_app. split; [|repeat constructor; simpl; lia].
  apply Forall_map, Forall_true. simpl. lia.
Qed.

(** ** Sends settle once *)

(** The sends whose promise has settled, newest first. *)
Definition settled (s : Agent) : list nat :=
  omap (fun o => match o with OSettle id _ => Some id | _ => None end) (log s).
Definition held_ids (s : Agent) : list nat := map o_id (held s).

Lemma same_out_settled s s' : same_out s s' -> settled s' = settled s /\ held s' = held s.
Proof.
  intros (Ho & outs & Hl & Hn). unfold outbound in Ho. split.
  - unfold settled. rewrite Hl. clear Hl. induction Hn as [|x outs Hx Hn IH]; [done|]. destruct x; simpl in *; try done.
  - unfold held, retrying. congruence.
Qed.

(** The send a change settles, and the sends held after it. *)
Definition once (s : Agent) : Prop :=
  NoDup (settled s ++ held_ids s) /\ Forall (fun id => (id < nextSend s)%nat) (settled s ++ held_ids s).

Lemma held_map s s' : held s ≡ₚ held s' -> held_ids s ≡ₚ held_ids s'.
Proof. intros H. unfold held_ids. by rewrite H. Qed.

(** Removing held sends keeps [once]. *)
Lemma once_sub S S' n n' :
  S' ⊆+ S -> (n <= n')%nat ->
  NoDup S /\ Forall (fun id => (id < n)%nat) S -> NoDup S' /\ Forall (fun id => (id < n')%nat) S'.
Proof.
  intros Hsub Hn [Hnd Hall]. split.
  - apply submseteq_Permutation in Hsub as [k Hk]. rewrite Hk in Hnd. by apply NoDup_app in Hnd as [? _].
  - rewrite Forall_forall in *. intros x Hx. eapply elem_of_submseteq in Hx; [|done]. specialize (Hall x Hx). simpl in *. lia.
Qed.

(** What is held after a write: the send it settles aside, no more than before. *)
Lemma written_held env sk head rest s :
  queue s = head :: rest ->
  settled (written env sk head rest s) ++ held_ids (written env sk head rest s) ⊆+ settled s ++ held_ids s.
Proof.
  intros Hq. destruct (written_fields env sk head rest s) as (_ & _ & _ & _ & _ & Hq' & Hr' & Hw). cbv zeta in Hw.
  unfold settled, held_ids, held, retrying. rewrite Hq, Hq', Hr'.
  set (head' := head <| o_attempts ::= Z.succ |> <| o_sentAt := now env |>) in *.
  destruct (truthy (o_clientId head)); destruct Hw as [-> ->]; simpl.
  - apply submseteq_app; [done|]. rewrite !map_app.
    assert (map o_id (map snd (map_set (entry_key head) head' (inflight s))) ⊆+ o_id head :: map o_id (map snd (inflight s))) as Hm.
    { destruct (assoc (entry_key head) (inflight s)) as [w|] eqn:Ha.
      - destruct (set_replaces _ head' _ _ Ha) as (m1 & m2 & -> & ->). rewrite !map_app. simpl.
        rewrite <- (Permutation_middle _ (map o_id (map snd m2)) (o_id head)).
        apply submseteq_skip, submseteq_app; [done|]. by apply submseteq_cons.
      - rewrite (set_Permutation _ _ _ Ha), !map_app. simpl. by rewrite Permutation_app_comm. }
    rewrite (Permutation_middle (map o_id rest) _ (o_id head)). apply submseteq_app; [done|].
    rewrite app_comm_cons. by apply submseteq_app.
  - by rewrite <- Permutation_middle.
Qed.

Lemma once_change cfg env s s' : change cfg env s s' -> once s -> once s'.
Proof.
  intros Hc Hs. destruct Hc; try done.
  - (* bounced at once *)
    destruct Hs as [Hnd Hall]. unfold once, settled. simpl. fold (settled s). change (held_ids _) with (held_ids s).
    split.
    + constructor; [|done]. intros Hin. rewrite Forall_forall in Hall. specialize (Hall _ Hin). simpl in Hall. lia.
    + constructor; [lia|]. eapply Forall_impl; [exact Hall|]. simpl. lia.
  - destruct Hs as [Hnd Hall]. unfold once. change (settled _) with (settled s).
    assert (held_ids (s <| nextSend ::= S |> <| queue ::= fun q => q ++ [e] |>) ≡ₚ nextSend s :: held_ids s) as Hh.
    { unfold held_ids, held, retrying. simpl. rewrite !map_app. simpl. rewrite H0. solve_Permutation. }
    simpl nextSend. rewrite Hh, <- Permutation_middle. split.
    + constructor; [|done]. intros Hin. rewrite Forall_forall in Hall. specialize (Hall _ Hin). simpl in Hall. lia.
    + constructor; [lia|]. eapply Forall_impl; [exact Hall|]. simpl. lia.
  - eapply once_sub; [by apply written_held| |exact Hs].
    by destruct (written_fields env sk head rest s) as (_ & _ & _ & _ & -> & _).
  - unfold once in *. unfold frozen in H. replace (nextSend s') with (nextSend s) by congruence.
    unfold settled in *. rewrite H2. by rewrite <- (held_map _ _ H0).
  - unfold once in *. unfold frozen in H. replace (nextSend s') with (nextSend s) by congruence.
    unfold settled in *. rewrite H2. simpl. unfold held_ids in *. rewrite H0 in Hs. simpl in Hs.
    by rewrite <- Permutation_middle in Hs.
  - eapply once_sub; [| |exact Hs]; [|unfold frozen in H0; replace (nextSend s') with (nextSend s) by congruence; done].
    unfold settled, held_ids. rewrite H3, H1. simpl. apply submseteq_app; [done|]. by apply submseteq_cons.
Qed.

Lemma once_run cfg l s : once s -> once (run cfg l s).
Proof.
  apply outbound_invariant.
  - intros env s0 s' _. apply once_change.
  - intros s0 s' Hso. destruct (same_out_settled _ _ Hso) as [Hs Hh]. destruct Hso as [Ho _]. unfold outbound in Ho.
    unfold once, held_ids. rewrite Hs, Hh. by replace (nextSend s') with (nextSend s0) by congruence.
Qed.

Lemma once_fresh o t : once (fresh_agent o t).
Proof. split; constructor. Qed.

(** C23. However acks, errors, timeouts, reconnects, retries and stops
    interleave, the promise of a send settles at most once, and a send the
    agent still holds (queued, in flight or waiting for its retry) is held in
    one place only and has not settled. *)
Theorem send_settles_once (o : AgentOptions) (t : Z) (l : list (Env * input)) :
  let s := run (configure o) l (fresh_agent o t) in NoDup (settled s ++ held_ids s).
Proof. apply (once_run (configure o) l (fresh_agent o t)), once_fresh. Qed.

(** ** Sends are not lost while the agent runs *)

(** Another send was written under the same conversation and clientId: it took
    this one's place in [#inflight]. *)
Definition displaced (id : nat) (s : Agent) : Prop :=
  exists sk sk' e e', OWrite sk e ∈ log s /\ OWrite sk' e' ∈ log s /\ o_id e = id /\ o_id e' <> id /\
    truthy (o_clientId e') = true /\ entry_key e = entry_key e'.

Record kept (s : Agent) : Prop := {
  kept_once : once s;
  kept_all : running s = true \/ start_promise s = NoStart ->
             forall id, (id < nextSend s)%nat -> id ∈ settled s \/ id ∈ held_ids s \/ displaced id s;
  kept_written : forall k e, (k, e) ∈ inflight s ->
                 entry_key e = k /\ exists sk e', OWrite sk e' ∈ log s /\ o_id e' = o_id e /\ entry_key e' = k /\
                 truthy (o_clientId e') = true;
  kept_unstarted : start_promise s = NoStart -> held s = [] /\ running s = false;
}.

Lemma displaced_mono id s s' : log s ⊆ log s' -> displaced id s -> displaced id s'.
Proof. intros Hl (sk & sk' & e & e' & H1 & H2 & H). exists sk, sk', e, e'. auto. Qed.

(** The log grows, nothing else of [kept] moves. *)
Lemma kept_log s s' :
  nextSend s' = nextSend s -> running s' = running s -> start_promise s' = start_promise s ->
  held s' ≡ₚ held s -> inflight s' ⊆ inflight s -> settled s' = settled s -> log s ⊆ log s' -> kept s -> kept s'.
Proof.
  intros Hn Hr Hp Hh Hi Hs Hl [Ho Ha Hw Hu]. pose proof (held_map _ _ Hh) as Hid. split.
  - unfold once in *. by rewrite Hn, Hs, Hid.
  - intros Hrun id Hlt. rewrite Hr, Hp in Hrun. rewrite Hn in Hlt. rewrite Hs, Hid.
    destruct (Ha Hrun id Hlt) as [?|[?|Hd]]; auto. right; right. by eapply displaced_mono.
  - intros k e He. destruct (Hw k e) as [Hk (sk & e' & H1 & H2)]; [by apply Hi|]. split; [done|]. exists sk, e'. auto.
  - intros Hns. rewrite Hp in Hns. destruct (Hu Hns) as [H1 H2]. rewrite H1 in Hh. rewrite Hr. split; [|done].
    by apply Permutation_nil_r.
Qed.

(** A send settles: it leaves what is held and joins what is settled. *)
Lemma kept_settle id s s' :
  once s' -> nextSend s' = nextSend s -> running s' = running s -> start_promise s' = start_promise s ->
  held_ids s ≡ₚ id :: held_ids s' -> inflight s' ⊆ inflight s -> settled s' = id :: settled s -> log s ⊆ log s' ->
  kept s -> kept s'.
Proof.
  intros Ho Hn Hr Hp Hh Hi Hs Hl [_ Ha Hw Hu]. split; [done| | |].
  - intros Hrun x Hlt. rewrite Hr, Hp in Hrun. rewrite Hn in Hlt. rewrite Hs, elem_of_cons.
    destruct (Ha Hrun x Hlt) as [?|[Hx|Hd]]; [auto| |right; right; by eapply displaced_mono].
    rewrite Hh in Hx. apply elem_of_cons in Hx as [->|Hx]; auto.
  - intros k e He. destruct (Hw k e) as [Hk (sk & e' & H1 & H2)]; [by apply Hi|]. split; [done|]. exists sk, e'. auto.
  - intros Hns. rewrite Hp in Hns. destruct (Hu Hns) as [H1 _]. unfold held_ids in Hh. rewrite H1 in Hh.
    by apply Permutation_nil_l in Hh.
Qed.

Lemma kept_write cfg env sk head rest s :
  change cfg env s (written env sk head rest s) -> queue s = head :: rest -> kept s -> kept (written env sk head rest s).
Proof.
  intros Hc Hq Hk. pose proof (once_change _ _ _ _ Hc (kept_once _ Hk)) as Ho.
  destruct (written_fields env sk head rest s) as (_ & _ & Hr & Hp & Hn & Hq' & Hr' & Hw). cbv zeta in Hw.
  set (s' := written env sk head rest s) in *. set (head' := head <| o_attempts ::= Z.succ |> <| o_sentAt := now env |>) in *.
  clearbody s'. destruct Hk as [Ho0 Ha Hwr Hu].
  assert (start_promise s' = NoStart -> False) as Hstarted.
  { intros Hns. rewrite Hp in Hns. destruct (Hu Hns) as [H1 _]. unfold held in H1. by rewrite Hq in H1. }
  destruct (truthy (o_clientId head)) eqn:Ht; destruct Hw as [Hi Hl].
  - assert (settled s' = settled s) as Hs by (unfold settled; by rewrite Hl).
    assert (log s ⊆ log s') as Hsub by (rewrite Hl; set_solver).
    split; [done| | |by intros Hns%Hstarted].
    + intros [Hrun|Hns%Hstarted] id Hlt; [|done]. rewrite Hr in Hrun. rewrite Hn in Hlt. rewrite Hs.
      destruct (Ha (or_introl Hrun) id Hlt) as [?|[Hid|Hd]]; [auto| |right; right; by eapply displaced_mono].
      right. unfold held_ids, held in Hid. rewrite Hq, !map_app, !elem_of_app in Hid. simpl in Hid.
      unfold held_ids, held. rewrite Hi, Hq', !map_app, !elem_of_app. unfold retrying in *. rewrite Hr'.
      destruct (assoc (entry_key head) (inflight s)) as [w|] eqn:Hass.
      * destruct (set_replaces _ head' _ _ Hass) as (m1 & m2 & Hm & ->). rewrite Hm in Hid.
        rewrite !map_app in Hid |- *. simpl in Hid |- *. rewrite !elem_of_app, !elem_of_cons in *.
        destruct (decide (id = o_id head)) as [|Hne]; [auto 10|]. destruct (decide (id = o_id w)) as [->|Hnw]; [|naive_solver].
        right. destruct (Hwr (entry_key head) w) as [_ (sk0 & e0 & H1 & H2 & H3 & _)]; [rewrite Hm; set_solver|].
        exists sk0, sk, e0, head. rewrite Hl. repeat split; [set_solver|set_solver|done|done|done|done].
      * rewrite (set_Permutation _ _ _ Hass), !map_app, !elem_of_app. simpl. rewrite list_elem_of_singleton.
        rewrite elem_of_cons in Hid. simpl. naive_solver.
    + intros k e He. rewrite Hi in He. apply elem_of_set in He as [[= -> ->]|He].
      * split; [done|]. exists sk, head. rewrite Hl. split; [set_solver|done].
      * destruct (Hwr k e He) as [Hk (sk0 & e0 & H1 & H2)]. split; [done|]. exists sk0, e0. split; [auto|done].
  - eapply (kept_settle (o_id head) s s'); try done.
    + unfold held_ids, held, retrying. by rewrite Hq, Hq', Hi, Hr'.
    + by rewrite Hi.
    + unfold settled. by rewrite Hl.
    + rewrite Hl. set_solver.
Qed.

Lemma kept_change cfg env s s' : change cfg env s s' -> kept s -> kept s'.
Proof.
  intros Hc Hk. pose proof Hc as Hc0. pose proof (once_change _ _ _ _ Hc (kept_once _ Hk)) as Ho. destruct Hc.
  - destruct Hk as [_ Ha Hw Hu]. split; [done| | |done].
    + intros Hrun id Hlt. simpl in Hlt. unfold settled. simpl. fold (settled s). rewrite elem_of_cons.
      destruct (decide (id = nextSend s)) as [->|Hne]; [auto|].
      destruct (Ha Hrun id ltac:(lia)) as [?|[?|Hd]]; auto. right; right. eapply displaced_mono, Hd. simpl. set_solver.
    + intros k e He. destruct (Hw k e He) as [H1 (sk & e' & H2 & H3)]. split; [done|]. exists sk, e'. split; [simpl; set_solver|done].
  - destruct Hk as [_ Ha Hw Hu].
    assert (forall x, x ∈ held_ids (s <| nextSend ::= S |> <| queue ::= fun q => q ++ [e] |>) <-> x ∈ held_ids s \/ x = nextSend s) as Hh.
    { intros x. unfold held_ids, held, retrying. simpl. rewrite !map_app, !elem_of_app. simpl. rewrite list_elem_of_singleton.
      rewrite H0. naive_solver. }
    split; [done| |done|].
    + intros Hrun id Hlt. simpl in Hlt. change (settled _) with (settled s). rewrite Hh.
      destruct (decide (id = nextSend s)) as [->|Hne]; [auto|].
      destruct (Ha Hrun id ltac:(lia)) as [?|[?|?]]; auto.
    + intros Hns. simpl in Hns. destruct (Hu Hns). congruence.
  - by apply (kept_log s).
  - by eapply kept_write.
  - unfold frozen in H. apply (kept_log s); first [congruence|done|by rewrite H0|by apply sublist_subseteq|unfold settled; by rewrite H2|idtac].
  - unfold frozen in H. apply (kept_settle (o_id e) s); try congruence.
    + unfold held_ids. by rewrite H0.
    + by apply sublist_subseteq.
    + unfold settled. by rewrite H2.
    + rewrite H2. set_solver.
  - destruct Hk as [_ Ha Hw Hu]. unfold frozen in H0.
    assert (running s' = running s /\ start_promise s' = start_promise s) as [Hr Hp] by (split; congruence).
    assert (start_promise s = NoStart -> False) as Hstarted.
    { intros Hns. destruct (Hu Hns) as [Hn _]. rewrite Hn in H1. by apply Permutation_nil_l in H1. }
    split; [done| | |].
    + rewrite Hr, Hp. intros [?|Hns%Hstarted]; [congruence|done].
    + intros k x Hx. rewrite H3. apply Hw. by eapply sublist_subseteq.
    + rewrite Hp. by intros Hns%Hstarted.
  - destruct Hk as [_ Ha Hw Hu]. split; [done| |done|].
    + intros [?|Hns]; [done|]. apply Ha. by right.
    + intros Hns. destruct (Hu Hns). done.
  - destruct Hk as [_ Ha Hw Hu]. split; [done| |done|done]. intros _. apply Ha. by right.
  - destruct Hk as [_ Ha Hw Hu]. split; [done| |done|done]. intros [Hr|?]; [|done]. apply Ha. by left.
Qed.

Lemma kept_same_out s0 s' : same_out s0 s' -> kept s0 -> kept s'.
Proof.
  intros Hso. destruct (same_out_settled _ _ Hso) as [Hs Hh]. destruct Hso as [Ho (outs & Hl & _)]. unfold outbound in Ho.
  assert (inflight s' = inflight s0) as Hi by congruence.
  apply kept_log; first [congruence|by rewrite Hh|by rewrite Hi|rewrite Hl; set_solver].
Qed.

Lemma kept_run cfg l s : kept s -> kept (run cfg l s).
Proof. apply outbound_invariant; [intros env s0 s' _; apply kept_change|exact kept_same_out]. Qed.

Lemma kept_fresh o t : kept (fresh_agent o t).
Proof.
  split; [apply once_fresh| | |done].
  - intros _ id Hid. simpl in Hid. lia.
  - intros k e He. simpl in He. set_solver.
Qed.

(** C5. While the agent runs no send is lost: every send it accepted has
    settled, or is queued, in flight or waiting for its retry, unless another
    send of the same conversation was written under the same clientId. *)
Theorem send_not_lost (o : AgentOptions) (t : Z) (l : list (Env * input)) (id : nat) :
  let s := run (configure o) l (fresh_agent o t) in
  running s = true -> (id < nextSend s)%nat -> id ∈ settled s \/ id ∈ held_ids s \/ displaced id s.
Proof.
  intros s Hr Hid. apply (kept_all s); [|by left|done]. apply kept_run, kept_fresh.
Qed.

(** Two sends, the first acknowledged. *)
Definition ex_two : list (Env * input) :=
  ex_connect ++ [(ex_at 20, ISend "c" (ex_text "a")); (ex_at 30, ISend "c" (ex_text "b"));
                 (ex_at 40, IMessage 1 (ex_envelope "c" (ex_ack "a" 7)))].

Lemma send_not_lost_witness :
  let s := run (configure ex_options) ex_two (fresh_agent ex_options 0) in
  settled s = [0%nat] /\ held_ids s = [1%nat] /\ (1%nat ∈ settled s \/ 1%nat ∈ held_ids s \/ displaced 1 s).
Proof.
  intros s. split; [vm_compute; reflexivity|]. split; [vm_compute; reflexivity|].
  exact (send_not_lost ex_options 0 ex_two 1 ltac:(vm_compute; reflexivity) ltac:(apply Nat.ltb_lt; vm_compute; reflexivity)).
Defined.

(** ** Promises that never settle *)

(** A send that is neither settled nor held stays so for ever. *)
Lemma unsettled_run cfg id l s :
  (id < nextSend s)%nat -> id ∉ settled s -> id ∉ held_ids s -> id ∉ settled (run cfg l s).
Proof.
  intros Hid Hs Hh. enough ((id < nextSend (run cfg l s))%nat /\ id ∉ settled (run cfg l s) /\ id ∉ held_ids (run cfg l s)) by tauto.
  apply (outbound_invariant cfg (fun s => (id < nextSend s)%nat /\ id ∉ settled s /\ id ∉ held_ids s)); [| |done]; clear.
  - intros env s s' _ Hc (Hid & Hs & Hh). destruct Hc; try done.
    + simpl. split; [lia|]. split; [|done]. unfold settled. simpl. fold (settled s). rewrite not_elem_of_cons. split; [lia|done].
    + simpl. split; [lia|]. split; [done|]. revert Hh. unfold held_ids, held, retrying. simpl.
      rewrite !map_app, !elem_of_app. simpl. rewrite list_elem_of_singleton. intros Hh [[?| ->]|?]; [tauto|lia|tauto].
    + pose proof (written_held env sk head rest s H) as Hw.
      destruct (written_fields env sk head rest s) as (_ & _ & _ & _ & Hn & _). rewrite Hn. split; [done|].
      assert (id ∉ settled (written env sk head rest s) ++ held_ids (written env sk head rest s)) as Hx; [|set_solver].
      intros Hin. eapply elem_of_submseteq in Hin; [|exact Hw]. set_solver.
    + unfold frozen in H. replace (nextSend s') with (nextSend s) by congruence. unfold settled in *. rewrite H2.
      by rewrite <- (held_map _ _ H0).
    + unfold frozen in H. replace (nextSend s') with (nextSend s) by congruence. unfold settled in *. rewrite H2. simpl.
      unfold held_ids in *. rewrite H0 in Hh. simpl in Hh. set_solver.
    + unfold frozen in H0. replace (nextSend s') with (nextSend s) by congruence. unfold settled in *. rewrite H3.
      unfold held_ids in *. rewrite H1 in Hh. simpl in Hh. set_solver.
  - intros s s' Hso (Hid & Hs & Hh). destruct (same_out_settled _ _ Hso) as [-> Hh']. destruct Hso as [Ho _]. unfold outbound in Ho.
    unfold held_ids in *. rewrite Hh'. by replace (nextSend s') with (nextSend s) by congruence.
Qed.

(** [onSendError] keeps a retryable send in a [setTimeout] only.  When the
    agent stops or is refused meanwhile, the timer fires on an agent that no
    longer runs and drops the send: its promise never settles. *)
Theorem stopped_retry_hangs (o : AgentOptions) (t : Z) (l later : list (Env * input)) (env : Env) (h : nat)
    (entry : Outgoing) (rest : list (nat * Outgoing * Q)) :
  let s := run (configure o) l (fresh_agent o t) in
  running s = false -> timers s !! h = None -> take_retry h (retries s) = Some (entry, rest) ->
  o_id entry ∉ settled (run (configure o) later (step (configure o) env (ITimer h) s)).
Proof.
  intros s Hr Ht He.
  assert (step (configure o) env (ITimer h) s = s <| retries := rest |>) as ->.
  { cbn [step]. unfold run_timer. rewrite Ht, He. unfold retry_fired. cbn [running]. simpl. by rewrite Hr. }
  destruct (once_run (configure o) l _ (once_fresh o t)) as [Hnd Hall]. fold s in Hnd, Hall.
  assert (held s ≡ₚ entry :: held (s <| retries := rest |>)) as Hh.
  { unfold held, retrying. rewrite (take_retry_Permutation _ _ _ _ He). simpl. solve_Permutation. }
  unfold held_ids in Hnd, Hall. rewrite Hh in Hnd, Hall. simpl in Hnd, Hall. rewrite <- Permutation_middle in Hnd, Hall.
  inversion_clear Hnd as [|? ? Hnin _]. inversion_clear Hall as [|? ? Hlt _].
  apply unsettled_run; [exact Hlt| |]; intros Hin; apply Hnin, elem_of_app; [by left|by right].
Qed.

(** A send is refused with [retryAfterMs]; the agent stops before the retry. *)
Definition ex_retry : list (Env * input) :=
  ex_connect ++ [(ex_at 20, ISend "c" (ex_text "a"));
                 (ex_at 30, IMessage 1 (ex_envelope "c" (ex_error "rate_limited" "a" 500)));
                 (ex_at 40, IStop None); (ex_at 40, ITask 3 OkDone)].

Definition ex_refused : Outgoing := mkOutgoing 0 "c" (ex_text "a") (Some "a") 120020 20 1.

Lemma stopped_retry_hangs_witness :
  0%nat ∉ settled (run (configure ex_options) []
    (step (configure ex_options) (ex_at 530) (ITimer 2) (run (configure ex_options) ex_retry (fresh_agent ex_options 0)))).
Proof.
  exact (stopped_retry_hangs ex_options 0 ex_retry [] (ex_at 530) 2 ex_refused []
    ltac:(vm_compute; reflexivity) ltac:(vm_compute; reflexivity) ltac:(vm_compute; reflexivity)).
Defined.

(** Two sends of one conversation under one clientId, then the ack. *)
Definition ex_twice : list (Env * input) :=
  ex_connect ++ [(ex_at 20, ISend "c" (ex_text "a")); (ex_at 30, ISend "c" (ex_text "a"));
                 (ex_at 40, IMessage 1 (ex_envelope "c" (ex_ack "a" 7)))].

(** Nothing refuses a [clientId] that is already in flight: the second
    send replaces the first in [#inflight], the ack settles the second, and
    the promise of the first never settles. *)
Theorem reused_clientId_hangs (later : list (Env * input)) :
  0%nat ∉ settled (run ex_config later (run ex_config ex_twice ex_agent)) /\
  settled (run ex_config ex_twice ex_agent) = [1%nat].
Proof.
  split; [|vm_compute; reflexivity]. apply unsettled_run.
  - apply Nat.ltb_lt. vm_compute. reflexivity.
  - refine (bool_decide_eq_true_1 _ _). vm_compute. reflexivity.
  - refine (bool_decide_eq_true_1 _ _). vm_compute. reflexivity.
Qed.

(** ** Ticks and closes *)

Lemma tick_requeues cfg t m s :
  inflight s = m -> NoDup (map fst m) -> connected s = true ->
  Forall (fun kv => t <= o_deadline kv.2 /\ ackTimeoutMs cfg < t - o_sentAt kv.2) m ->
  let s' := fold_left (fun s key =>
    match assoc key (inflight s) with
    | None => s
    | Some entry =>
        if o_deadline entry <? t then
          say (OSettle (o_id entry) (SFailed (timeout_error "no ack in time" entry))) (s <| inflight ::= map_delete key |>)
        else if connected s && (ackTimeoutMs cfg <? t - o_sentAt entry) then
          s <| inflight ::= map_delete key |> <| queue ::= cons entry |>
        else s
    end) (map fst m) s in
  queue s' = rev (map snd m) ++ queue s /\ inflight s' = [] /\ log s' = log s.
Proof.
  revert s. induction m as [|[k e] m IH]; intros s Hi Hnd Hc Hall; simpl; [done|].
  inversion_clear Hnd as [|? ? Hk Hnd']. inversion_clear Hall as [|? ? [Hd Hs] Hall']. simpl in Hd, Hs.
  rewrite Hi. simpl. rewrite String.eqb_refl, (proj2 (Z.ltb_ge _ _) Hd), Hc, (proj2 (Z.ltb_lt _ _) Hs). simpl.
  destruct (IH (s <| inflight ::= map_delete k |> <| queue ::= cons e |>)) as (Hq & Hi' & Hl); [|done|done|done|].
  - simpl. rewrite Hi. simpl. by rewrite String.eqb_refl.
  - rewrite Hq, Hi', Hl. simpl. by rewrite <- app_assoc.
Qed.

(** When several acknowledged sends time out in the same tick, the tick
    puts them back at the head of the queue in the opposite of their sending
    order ([onWelcome], after a reconnect, keeps it). *)
Theorem tick_reverses (cfg : AgentConfig) (t : Z) (s : Agent) :
  NoDup (map fst (inflight s)) -> connected s = true ->
  Forall (fun kv => t <= o_deadline kv.2 /\ ackTimeoutMs cfg < t - o_sentAt kv.2) (inflight s) ->
  queue (tick_inflight cfg t s) = rev (map snd (inflight s)) ++ queue s /\ inflight (tick_inflight cfg t s) = [].
Proof. intros Hnd Hc Hall. destruct (tick_requeues cfg t (inflight s) s eq_refl Hnd Hc Hall) as (Hq & Hi & _). done. Qed.

(** Two sends in flight, unacknowledged for 10 s. *)
Definition ex_waiting : list (Env * input) :=
  ex_connect ++ [(ex_at 20, ISend "c" (ex_text "a")); (ex_at 30, ISend "c" (ex_text "b"))].

Lemma tick_reverses_witness :
  map o_clientId (queue (tick_inflight ex_config 10100 (run ex_config ex_waiting ex_agent))) = [Some "b"; Some "a"] /\
  inflight (tick_inflight ex_config 10100 (run ex_config ex_waiting ex_agent)) = [].
Proof.
  split; [vm_compute; reflexivity|].
  refine (proj2 (tick_reverses ex_config 10100 (run ex_config ex_waiting ex_agent) _ _ _)).
  - refine (bool_decide_eq_true_1 _ _). vm_compute. reflexivity.
  - vm_compute. reflexivity.
  - vm_compute. repeat constructor; discriminate.
Defined.

Lemma settle_all_settled r l s : settled (settle_all r l s) = rev (map o_id l) ++ settled s /\
  queue (settle_all r l s) = queue s /\ inflight (settle_all r l s) = inflight s /\ running (settle_all r l s) = running s.
Proof.
  revert s. induction l as [|e l IH]; intros s; simpl; [done|]. unfold settle_all in *. simpl.
  destruct (IH (say (OSettle (o_id e) (r e)) s)) as (-> & -> & -> & ->). unfold settled. simpl. by rewrite <- app_assoc.
Qed.

Lemma detach_settled s :
  let s' := detach s in
  settled s' = map o_id (filter (fun e => is_transient e = true) (queue s)) ++ settled s /\
  queue s' = filter (fun e => is_transient e = false) (queue s) /\ inflight s' = inflight s /\ running s' = running s.
Proof.
  unfold detach. cbv zeta.
  match goal with |- context [settle_all ?r ?l ?x] => destruct (settle_all_settled r l x) as (-> & -> & -> & ->) end.
  rewrite map_rev, rev_involutive. simpl. by destruct (refreshTimer s).
Qed.

Lemma settle_all_flags r l s :
  rejected (settle_all r l s) = rejected s /\ everConnected (settle_all r l s) = everConnected s.
Proof. unfold settle_all. revert s. induction l as [|e l IH]; intros s; simpl; [done|]. by rewrite !(proj1 (IH _)), !(proj2 (IH _)). Qed.

Lemma detach_flags cfg code s : fatal_close cfg code (detach s) = fatal_close cfg code s.
Proof.
  unfold detach, fatal_close. cbv zeta. rewrite !(proj1 (settle_all_flags _ _ _)), !(proj2 (settle_all_flags _ _ _)).
  simpl. by destruct (refreshTimer s).
Qed.

Lemma reject_start_fields e s :
  settled (reject_start e s) = settled s /\ queue (reject_start e s) = queue s /\
  inflight (reject_start e s) = inflight s /\ running (reject_start e s) = running s.
Proof. unfold reject_start. by destruct (start_promise s). Qed.

Lemma scheduleReconnect_fields cfg env close r s :
  let s' := scheduleReconnect cfg env close r s in
  settled s' = settled s /\ queue s' = queue s /\ inflight s' = inflight s /\
  (running s' = true -> is_Some (reconnectTimer s') /\ exists a d, timers s' !! (reconnectTimer s' ?? 0%nat) = Some (TConnect a, d)) \/ running s = false.
Proof.
  unfold scheduleReconnect. destruct (running s) eqn:Hr; [left|by right]. simpl negb. cbv iota.
  lazymatch goal with |- context [if ?b then _ else _] => destruct b end; cbv zeta.
  - match goal with |- context [reject_start ?e ?x] => destruct (reject_start_fields e x) as (-> & -> & -> & ->) end. simpl.
    repeat split; done.
  - simpl. repeat split; [eauto|]. eexists _, _. by rewrite lookup_insert_eq.
Qed.

(** What becomes of the sends when the connection closes.  Typing, run
    status and the other transient frames are resolved and dropped.  If the
    close is final (a rejected protocol or token, a channel refused at the
    first attempt, reconnecting disabled) every other queued or in-flight send
    settles too and none is held back; otherwise they all stay, and while the
    agent keeps running the next attempt is on a timer. *)
Theorem onClose_sends (cfg : AgentConfig) (env : Env) (close : SocketClose) (s : Agent) :
  running s = true ->
  let s' := onClose cfg env close s in
  (forall e, e ∈ queue s -> is_transient e = true -> o_id e ∈ settled s') /\
  if fatal_close cfg (sc_code close) s || negb (enabled (reconnect cfg))
  then running s' = false /\ queue s' = [] /\ inflight s' = [] /\
       forall e, e ∈ queue s ++ map snd (inflight s) -> o_id e ∈ settled s'
  else queue s' = filter (fun e => is_transient e = false) (queue s) /\ inflight s' = inflight s /\
       (running s' = true -> exists h a d, reconnectTimer s' = Some h /\ timers s' !! h = Some (TConnect a, d)).
Proof.
  intros Hrun s'. subst s'. unfold onClose. cbv zeta. rewrite detach_flags.
  destruct (detach_settled s) as (Hs & Hq & Hi & Hr). cbv zeta in *. set (s1 := detach s) in *. clearbody s1.
  rewrite Hr, Hrun. cbn [negb].
  assert (forall e, e ∈ queue s -> is_transient e = true -> o_id e ∈ settled s1) as Htr.
  { intros e He Ht. rewrite Hs. apply elem_of_app. left. apply list_elem_of_fmap. exists e. split; [done|]. by apply list_elem_of_filter. }
  destruct (_ || negb (enabled (reconnect cfg))).
  - set (s2 := reject_start _ _).
    assert (settled s2 = settled s1 /\ queue s2 = queue s1 /\ inflight s2 = inflight s1 /\ running s2 = false) as (Hs2 & Hq2 & Hi2 & Hr2).
    { subst s2. match goal with |- context [reject_start ?e ?x] => destruct (reject_start_fields e x) as (-> & -> & -> & ->) end.
      simpl. destruct (tickTimer s1); simpl; destruct (everConnected s1); done. }
    clearbody s2. unfold reject_sends.
    match goal with |- context [settle_all ?r ?l ?x] => destruct (settle_all_settled r l x) as (-> & -> & -> & ->) end.
    change (settled (s2 <| queue := [] |> <| inflight := [] |>)) with (settled s2). simpl.
    rewrite Hs2, Hq2, Hi2, Hq, Hi. split; [intros e He Ht; apply elem_of_app; right; auto|]. repeat split; [done|].
    intros e He. rewrite elem_of_app. destruct (is_transient e) eqn:Ht.
    + apply elem_of_app in He as [He|He]; [right; auto|left]. apply list_elem_of_In, in_rev.
      rewrite rev_involutive. apply list_elem_of_In, list_elem_of_fmap. exists e. split; [done|]. apply elem_of_app. by right.
    + left. apply list_elem_of_In. rewrite <- in_rev. apply list_elem_of_In, list_elem_of_fmap. exists e. split; [done|].
      apply elem_of_app in He as [He|He]; apply elem_of_app; [left|by right]. by apply list_elem_of_filter.
  - set (s2 := if sc_code close =? 4401 then _ else _).
    assert (settled s2 = settled s1 /\ queue s2 = queue s1 /\ inflight s2 = inflight s1 /\ running s2 = true) as (Hs2 & Hq2 & Hi2 & Hr2).
    { subst s2. rewrite <- Hrun, <- Hr. by destruct (_ =? 4401). }
    clearbody s2. destruct (scheduleReconnect_fields cfg env close (sc_retryAfterMs close) s2) as [(-> & -> & -> & Ht)|Hx]; [|congruence].
    rewrite Hs2, Hq2, Hi2, Hi, Hq. split; [done|]. split; [done|]. split; [done|]. intros Hr'.
    destruct (Ht Hr') as [[h Hh] (a & d & Htm)]. rewrite Hh in Htm. eauto.
Qed.

Lemma onClose_sends_witness :
  let s := run ex_config ex_waiting ex_agent in
  let s' := onClose ex_config (ex_at 50) (mkClose 4401 "expired" true None) s in
  settled s' = [1%nat; 0%nat] /\ running s' = false /\
  forall e, e ∈ queue s ++ map snd (inflight s) -> o_id e ∈ settled s'.
Proof.
  intros s s'. split; [vm_compute; reflexivity|]. split; [vm_compute; reflexivity|].
  exact (proj2 (proj2 (proj2 (proj2 (onClose_sends ex_config (ex_at 50) (mkClose 4401 "expired" true None) s ltac:(vm_compute; reflexivity)))))).
Defined.
