(* ===== verification/AgentTurns.v ===== *)
(** * AgentTurns: from the frames an agent receives to the handlers it runs. *)

From stdpp Require Import base gmap sets list strings sorting.
From Stdlib Require Import ZArith QArith Lia.
From S2P Require Import Prelude Backoff Frames Tracker JsMap AgentFrames Agent AgentExample AgentSteps.

Open Scope string_scope.
Open Scope list_scope.
Open Scope Z_scope.

(** ** The inbound side of a step *)

Definition inbound (s : Agent) := (tracker s, lanes s, active s, waiters s).

(** Outputs about turns. *)
Definition turn_output (o : output) : bool := match o with OHandler _ _ => true | _ => false end.

(** The log grows by outputs that start no handler. *)
Definition grows (s s' : Agent) : Prop :=
  exists outs, log s' = outs ++ log s /\ Forall (fun o => turn_output o = false) outs.

Lemma grows_say o s : turn_output o = false -> grows s (say o s).
Proof. intros Ho. exists [o]. split; [done|]. by repeat constructor. Qed.

Lemma change_inbound cfg env s s' : change cfg env s s' -> inbound s' = inbound s /\ grows s s'.
Proof.
  intros Hc. destruct Hc; try (split; [done|]; by exists []).
  - split; [done|]. eexists [_]. split; [done|]. by repeat constructor.
  - unfold written, grows. destruct (truthy (o_clientId head)) eqn:E; simpl; rewrite E; (split; [done|]).
    + eexists [_]. split; [done|]. by repeat constructor.
    + eexists [_; _]. split; [done|]. by repeat constructor.
  - unfold frozen in H. unfold inbound. split; [congruence|]. exists []. by rewrite H2.
  - unfold frozen in H. unfold inbound. split; [congruence|]. eexists [_]. split; [exact H2|]. by repeat constructor.
  - unfold frozen in H0. unfold inbound. split; [congruence|]. exists []. by rewrite H3.
Qed.

Lemma still_inbound s s' : still s s' -> inbound s' = inbound s /\ grows s s'.
Proof.
  intros (Hf & _ & _ & _ & outs & Hl & Hn). unfold frozen in Hf. unfold inbound. split; [congruence|]. exists outs. split; [done|].
  clear - Hn. induction outs as [|o outs IH]; simpl in *; [constructor|].
  apply andb_prop in Hn as [Ho Hn]. constructor; [by destruct o|auto].
Qed.

(** ** Slots *)

(** Whether a job holds one of the [maxConcurrentTurns] slots, or waits for one. *)
Definition holds_slot (l : Lane) : bool :=
  match l_job l with Some (JAcquired _) | Some (JHandler _ _) | Some JEnding => true | _ => false end.
Definition awaits_slot (l : Lane) : bool :=
  match l_job l with Some (JWaiting _) => true | _ => false end.

(** The lanes whose job satisfies [P], by conversation. *)
Definition sel (P : Lane -> bool) (m : list (string * Lane)) : list string := map fst (filter (fun kv => P kv.2 = true) m).

Lemma sel_cons P k l m : sel P ((k, l) :: m) = (if P l then [k] else []) ++ sel P m.
Proof.
  unfold sel. destruct (P l) eqn:E.
  - by rewrite filter_cons_True.
  - rewrite filter_cons_False by (simpl; congruence). done.
Qed.

#[export] Instance sel_proper P : Proper ((≡ₚ) ==> (≡ₚ)) (sel P).
Proof. intros m m' H. unfold sel. by rewrite H. Qed.

Lemma sel_set P k v m : sel P (map_set k v m) ≡ₚ (if P v then [k] else []) ++ sel P (map_delete k m).
Proof. rewrite set_delete_Permutation. by rewrite sel_cons. Qed.

Lemma sel_present P k w m : assoc k m = Some w -> sel P m ≡ₚ (if P w then [k] else []) ++ sel P (map_delete k m).
Proof. intros H. rewrite (delete_Permutation _ _ _ H) at 1. by rewrite sel_cons. Qed.

(** Replacing a lane by one that [P] judges alike. *)
Lemma sel_replace P k v m :
  P v = match assoc k m with Some w => P w | None => false end -> sel P (map_set k v m) ≡ₚ sel P m.
Proof.
  intros H. rewrite sel_set, H. destruct (assoc k m) as [w|] eqn:E; [by rewrite (sel_present _ _ _ _ E)|].
  by rewrite (delete_none _ _ E).
Qed.

Lemma sel_elem P k m : NoDup (map fst m) -> k ∈ sel P m -> exists l, assoc k m = Some l /\ P l = true.
Proof.
  intros Hnd Hk. apply list_elem_of_fmap in Hk as ([k' l] & -> & Hin). apply list_elem_of_filter in Hin as [HP Hin].
  exists l. split; [by apply assoc_elem|done].
Qed.

(** Lanes whose queue counter tells how many turns they hold. *)
Definition lane_ok (l : Lane) : Prop :=
  l_queued l = Z.of_nat (length (l_behind l)) + (if l_job l then 1 else 0) /\ 0 < l_queued l.
Definition lanes_ok (m : list (string * Lane)) : Prop := forall c l, assoc c m = Some l -> lane_ok l.

Lemma lanes_ok_set c l m : lane_ok l -> lanes_ok m -> lanes_ok (map_set c l m).
Proof. intros Hl Hm k l'. rewrite assoc_set. destruct (c =? k)%string; [by intros [= <-]|apply Hm]. Qed.

Lemma lanes_ok_delete c m : NoDup (map fst m) -> lanes_ok m -> lanes_ok (map_delete c m).
Proof. intros Hnd Hm k l'. rewrite assoc_delete by done. destruct (c =? k)%string; [done|apply Hm]. Qed.

(** What [turn_done] leaves of the lanes. *)
Definition finish_lane (c : string) (l : Lane) (m : list (string * Lane)) : list (string * Lane) :=
  let l := l <| l_queued ::= Z.pred |> <| l_job := None |> in
  if l_queued l =? 0 then map_delete c m else map_set c l m.

Lemma turn_done_lanes c l s :
  assoc c (lanes s) = Some l ->
  inbound (turn_done c s) = (tracker s, finish_lane c l (lanes s), active s, waiters s) /\ log (turn_done c s) = log s.
Proof. intros Hl. unfold turn_done, finish_lane. rewrite Hl. cbv zeta. destruct (_ =? 0); done. Qed.

Lemma finish_sel P c l m :
  (forall l, l_job l = None -> P l = false) -> sel P (finish_lane c l m) ≡ₚ sel P (map_delete c m).
Proof.
  intros HP. unfold finish_lane. cbv zeta. destruct (_ =? 0); [done|]. rewrite sel_set. by rewrite HP.
Qed.

Lemma finish_keys c l m : NoDup (map fst m) -> NoDup (map fst (finish_lane c l m)).
Proof. intros H. unfold finish_lane. cbv zeta. destruct (_ =? 0); [by apply nodup_delete|by apply nodup_set]. Qed.

Definition others_ok (c : string) (m : list (string * Lane)) : Prop := forall k l, k <> c -> assoc k m = Some l -> lane_ok l.

(** The turn that ends was counted: at the head, or taken from those behind. *)
Lemma finish_ok c l m :
  NoDup (map fst m) -> others_ok c m -> l_queued l = Z.of_nat (length (l_behind l)) + 1 -> lanes_ok (finish_lane c l m).
Proof.
  intros Hnd Hm Hl k l'. unfold finish_lane. cbv zeta.
  destruct (Z.eqb_spec (l_queued (l <| l_queued ::= Z.pred |> <| l_job := None |>)) 0) as [H0|H0].
  - rewrite assoc_delete by done. destruct (String.eqb_spec c k) as [->|Hne]; [done|]. by apply Hm.
  - rewrite assoc_set. destruct (String.eqb_spec c k) as [->|Hne]; [|by apply Hm]. intros [= <-].
    unfold lane_ok. simpl in *. lia.
Qed.

Lemma others_ok_set c v m : lanes_ok m -> others_ok c (map_set c v m).
Proof. intros Hm k l Hne. rewrite assoc_set, (proj2 (String.eqb_neq c k)) by done. apply Hm. Qed.

Record slots_ok (cfg : AgentConfig) (s : Agent) : Prop := {
  slots_keys : NoDup (map fst (lanes s));
  slots_active : active s = Z.of_nat (length (sel holds_slot (lanes s)));
  slots_bound : active s <= maxConcurrent cfg;
  slots_waiters : waiters s ≡ₚ sel awaits_slot (lanes s);
  slots_full : waiters s <> [] -> active s = maxConcurrent cfg;
  slots_lanes : lanes_ok (lanes s);
}.

Lemma slots_same cfg s s' : inbound s' = inbound s -> slots_ok cfg s -> slots_ok cfg s'.
Proof.
  unfold inbound. intros H [H1 H2 H3 H4 H5 H6].
  assert (lanes s' = lanes s /\ active s' = active s /\ waiters s' = waiters s) as (Hl & Ha & Hw) by (repeat split; congruence).
  split; rewrite ?Hl, ?Ha, ?Hw; done.
Qed.

(** A lane replaced by one with the same claim on a slot. *)
Lemma slots_set cfg c v s :
  slots_ok cfg s -> lane_ok v ->
  holds_slot v = match assoc c (lanes s) with Some w => holds_slot w | None => false end ->
  awaits_slot v = match assoc c (lanes s) with Some w => awaits_slot w | None => false end ->
  slots_ok cfg (set_lane c v s).
Proof.
  intros [H1 H2 H3 H4 H5 H6] Hv Hh Ha. split; simpl; try done.
  - by apply nodup_set.
  - by rewrite (sel_replace _ _ _ _ Hh).
  - by rewrite (sel_replace _ _ _ _ Ha).
  - by apply lanes_ok_set.
Qed.

(** A turn ends that neither holds nor awaits a slot. *)
Lemma slots_turn_done cfg c l s :
  NoDup (map fst (lanes s)) -> others_ok c (lanes s) -> assoc c (lanes s) = Some l ->
  l_queued l = Z.of_nat (length (l_behind l)) + 1 -> active s <= maxConcurrent cfg ->
  active s = Z.of_nat (length (sel holds_slot (map_delete c (lanes s)))) ->
  waiters s ≡ₚ sel awaits_slot (map_delete c (lanes s)) -> (waiters s <> [] -> active s = maxConcurrent cfg) ->
  slots_ok cfg (turn_done c s).
Proof.
  intros Hnd Hok Hl Hq Hb Ha Hw Hf. destruct (turn_done_lanes c l s Hl) as [Hi _]. unfold inbound in Hi. injection Hi as Ht Hl' Ha' Hw'.
  split; rewrite ?Hl', ?Ha', ?Hw'; try done.
  - by apply finish_keys.
  - by rewrite finish_sel by (by intros [? ? ? ?]; simpl; intros ->).
  - by rewrite finish_sel by (by intros [? ? ? ?]; simpl; intros ->).
  - by apply finish_ok.
Qed.

Lemma slots_runTurn cfg c s : slots_ok cfg s -> slots_ok cfg (runTurn cfg c s).
Proof.
  intros Hs. pose proof Hs as [H1 H2 H3 H4 H5 H6]. unfold runTurn.
  destruct (assoc c (lanes s)) as [[[j|] [|e behind] q k]|] eqn:Hl; try done. cbv zeta.
  destruct (H6 _ _ Hl) as [Hq Hpos]. simpl in Hq, Hpos.
  pose proof (sel_present holds_slot _ _ _ Hl) as Hh. pose proof (sel_present awaits_slot _ _ _ Hl) as Hw. simpl in Hh, Hw.
  destruct (_ || stopping s).
  - assert (map_delete c (map_set c (mkLane None behind q k) (lanes s)) ≡ₚ map_delete c (lanes s)) as Hd.
    { pose proof (delete_Permutation c (mkLane None behind q k) (map_set c (mkLane None behind q k) (lanes s))) as Hd.
      rewrite assoc_set, String.eqb_refl in Hd. specialize (Hd eq_refl). rewrite set_delete_Permutation in Hd at 1.
      by apply Permutation_cons_inv in Hd. }
    apply (slots_turn_done _ _ (mkLane None behind q k)); simpl; try done; try lia.
    + by apply nodup_set.
    + by apply others_ok_set.
    + by rewrite assoc_set, String.eqb_refl.
    + by rewrite Hd, <- Hh.
    + by rewrite Hd, <- Hw.
  - unfold acquire. destruct (Z.ltb_spec (active s) (maxConcurrent cfg)) as [Hlt|Hge].
    + split; simpl; try done.
      * by apply nodup_set.
      * rewrite sel_set. simpl. rewrite H2, Hh. lia.
      * lia.
      * rewrite sel_set. simpl. by rewrite H4, Hw.
      * intros Hne. specialize (H5 Hne). lia.
      * apply lanes_ok_set; [|done]. unfold lane_ok. simpl. lia.
    + split; simpl; try done.
      * by apply nodup_set.
      * rewrite sel_set. simpl. by rewrite H2, Hh.
      * rewrite sel_set. simpl. rewrite H4, Hw. by rewrite Permutation_app_comm.
      * intros _. lia.
      * apply lanes_ok_set; [|done]. unfold lane_ok. simpl. lia.
Qed.

Lemma slots_reply_ended cfg c s : slots_ok cfg s -> slots_ok cfg (reply_ended c s).
Proof.
  intros Hs. pose proof Hs as [H1 H2 H3 H4 H5 H6]. unfold reply_ended.
  destruct (assoc c (lanes s)) as [[[[| | |]|] behind q k]|] eqn:Hl; try done. simpl l_job. cbv iota.
  destruct (H6 _ _ Hl) as [Hq Hpos]. simpl in Hq, Hpos.
  pose proof (sel_present holds_slot _ _ _ Hl) as Hh. pose proof (sel_present awaits_slot _ _ _ Hl) as Hw. simpl in Hh, Hw.
  unfold release. destruct (waiters s) as [|next rest] eqn:Hws.
  - apply (slots_turn_done _ _ (mkLane (Some JEnding) behind q k)); simpl; try done; try lia.
    + intros x lx _. apply H6.
    + rewrite H2, Hh. simpl. lia.
    + by rewrite Hws, H4, Hw.
  - assert (next ∈ sel awaits_slot (lanes s)) as Hin by (rewrite <- H4; apply list_elem_of_here).
    destruct (sel_elem _ _ _ H1 Hin) as (ln & Hn & Hwait). cbn [lanes]. simpl. rewrite Hn.
    assert (next <> c) as Hne by (intros ->; rewrite Hl in Hn; injection Hn as <-; done).
    unfold awaits_slot in Hwait. destruct (l_job ln) as [[e| | |]|] eqn:Hj; try done.
    assert (granted ln = ln <| l_job := Some (JAcquired e) |>) as -> by (unfold granted; by rewrite Hj).
    set (v := ln <| l_job := Some (JAcquired e) |>).
    assert (assoc c (map_set next v (lanes s)) = Some (mkLane (Some JEnding) behind q k)) as Hc.
    { rewrite assoc_set. by rewrite (proj2 (String.eqb_neq next c) Hne). }
    pose proof (sel_present holds_slot _ _ _ Hc) as Hh2. pose proof (sel_present awaits_slot _ _ _ Hc) as Hw2. simpl in Hh2, Hw2.
    pose proof (sel_set holds_slot next v (lanes s)) as Hh3. pose proof (sel_set awaits_slot next v (lanes s)) as Hw3. simpl in Hh3, Hw3.
    pose proof (sel_present holds_slot _ _ _ Hn) as Hh4. pose proof (sel_present awaits_slot _ _ _ Hn) as Hw4.
    unfold holds_slot at 2 in Hh4. unfold awaits_slot at 2 in Hw4. rewrite Hj in Hh4, Hw4. simpl in Hh4, Hw4.
    apply (slots_turn_done _ _ (mkLane (Some JEnding) behind q k)); simpl; try done; try lia.
    + by apply nodup_set.
    + intros x lx _. apply lanes_ok_set; [|done]. destruct (H6 _ _ Hn) as [Hq' Hp']. rewrite Hj in Hq'. unfold lane_ok. simpl. lia.
    + apply Permutation_length in Hh2. apply Permutation_length in Hh3. apply Permutation_length in Hh4. simpl in *. lia.
    + rewrite <- Hw2, Hw3. rewrite Hw4 in H4. by apply Permutation_cons_inv in H4.
    + intros _. by apply H5.
Qed.

Lemma slots_side cfg inbox s s' : side cfg inbox s s' -> slots_ok cfg s -> slots_ok cfg s'.
Proof.
  intros Hs Hok. destruct Hs.
  - apply (slots_same _ s); [by apply still_inbound|done].
  - by destruct Hok.
  - by destruct Hok.
  - by destruct Hok.
  - unfold delivered, dispatch. set (s1 := say _ s <| tracker := t |>).
    assert (slots_ok cfg s1) as Hs1 by (by destruct Hok). change (lanes s) with (lanes s1). clearbody s1. clear H H0 H1 Hok.
    pose proof (slots_lanes _ _ Hs1) as Hl.
    destruct (assoc conversationId (lanes s1)) as [l|] eqn:E; simpl default.
    + destruct (Hl _ _ E) as [Hq Hp]. apply slots_set; [done| |by rewrite E|by rewrite E]. unfold lane_ok. simpl. rewrite length_app. simpl. lia.
    + apply slots_set; [done| |by rewrite E|by rewrite E]. unfold lane_ok. simpl. lia.
  - by apply slots_runTurn.
  - pose proof (slots_lanes _ _ Hok _ _ H) as [Hq Hp]. rewrite H0 in Hq.
    apply (slots_same _ (set_lane conversationId (lane <| l_controller := Some c |> <| l_job := Some (JHandler envelope c) |>) s)); [done|].
    apply slots_set; [done| |rewrite H; unfold holds_slot; by rewrite H0|rewrite H; unfold awaits_slot; by rewrite H0].
    unfold lane_ok. simpl. lia.
  - pose proof (slots_lanes _ _ Hok _ _ H) as [Hq Hp]. rewrite H0 in Hq.
    apply slots_set; [done| |rewrite H; unfold holds_slot; by rewrite H0|rewrite H; unfold awaits_slot; by rewrite H0].
    unfold lane_ok. simpl. lia.
  - by apply slots_reply_ended.
Qed.

Lemma slots_run cfg l s : slots_ok cfg s -> slots_ok cfg (run cfg l s).
Proof.
  apply run_invariant. intros env inbox s0 s' [Hc|Hs]; [|by eapply slots_side]. apply slots_same. by eapply change_inbound.
Qed.

Lemma slots_fresh o t : slots_ok (configure o) (fresh_agent o t).
Proof. split; simpl; try done; [apply NoDup_nil_2|lia]. Qed.

(** C22. However turns arrive, end, throw or are aborted, the turns between
    [#acquire] and [#release] are at most [maxConcurrentTurns], the counter
    agrees with them, and a turn waits for a slot only while every slot is
    taken: none is leaked or lost. *)
Theorem turn_slots (o : AgentOptions) (t : Z) (l : list (Env * input)) :
  let s := run (configure o) l (fresh_agent o t) in
  active s = Z.of_nat (length (sel holds_slot (lanes s))) /\
  active s <= maxConcurrent (configure o) /\
  waiters s ≡ₚ sel awaits_slot (lanes s) /\
  (waiters s <> [] -> active s = maxConcurrent (configure o)).
Proof. destruct (slots_run (configure o) l _ (slots_fresh o t)) as [_ ? ? ? ? _]. done. Qed.

(** ** The pipeline of a conversation *)

(** The frames of a conversation given to the handler, and those the agent was
    notified of, oldest first. *)
Definition handled (c : string) (s : Agent) : list json :=
  rev (omap (fun o => match o with
                      | OHandler turn _ => if String.eqb (t_conversationId turn) c then Some (t_message turn) else None
                      | _ => None
                      end) (log s)).
Definition notified (c : string) (s : Agent) : list json :=
  rev (omap (fun o => match o with
                      | ONotify f (Some c') => if String.eqb c' c then Some f else None
                      | _ => None
                      end) (log s)).

Definition job_frame (j : option job) : list json :=
  match j with Some (JWaiting e) | Some (JAcquired e) => [e] | _ => [] end.

(** The turns of a lane whose handler has not started. *)
Definition pending (c : string) (s : Agent) : list json :=
  match assoc c (lanes s) with Some l => job_frame (l_job l) ++ l_behind l | None => [] end.

Definition pipeline (c : string) (s : Agent) : list json := handled c s ++ pending c s.

Lemma grows_pipeline s s' c :
  lanes s' = lanes s -> grows s s' -> pipeline c s' = pipeline c s /\ notified c s `sublist_of` notified c s'.
Proof.
  intros Hl (outs & Hlog & Hn). unfold pipeline, pending, handled, notified. rewrite Hl, Hlog, !omap_app, !rev_app_distr.
  split.
  - replace (omap _ outs) with (@nil json); [simpl; by rewrite app_nil_r|]. symmetry. clear Hlog.
    induction Hn as [|x outs Hx Hn IH]; [done|]. destruct x; simpl in *; done.
  - by apply sublist_inserts_r.
Qed.

Lemma finish_pending c l m k :
  NoDup (map fst m) -> assoc c m = Some l -> l_queued l = Z.of_nat (length (l_behind l)) + 1 ->
  match assoc k (finish_lane c l m) with Some l => job_frame (l_job l) ++ l_behind l | None => [] end
  = if String.eqb c k then l_behind l else match assoc k m with Some l => job_frame (l_job l) ++ l_behind l | None => [] end.
Proof.
  intros Hnd Hl Hq. unfold finish_lane. cbv zeta.
  destruct (Z.eqb_spec (l_queued (l <| l_queued ::= Z.pred |> <| l_job := None |>)) 0) as [H0|H0].
  - rewrite assoc_delete by done. destruct (String.eqb_spec c k) as [->|Hne]; [|done]. simpl in H0.
    destruct (l_behind l); [done|]. simpl in Hq. lia.
  - rewrite assoc_set. by destruct (String.eqb_spec c k) as [->|Hne].
Qed.

Lemma notified_log c s s' : log s' = log s -> notified c s' = notified c s /\ handled c s' = handled c s.
Proof. intros H. unfold notified, handled. by rewrite H. Qed.

Lemma runTurn_pipeline cfg c k s :
  slots_ok cfg s -> pipeline k (runTurn cfg c s) `sublist_of` pipeline k s /\ log (runTurn cfg c s) = log s.
Proof.
  intros [Hnd _ _ _ _ Hok]. unfold runTurn.
  destruct (assoc c (lanes s)) as [[[j|] [|e behind] q ctl]|] eqn:Hl; try done. cbv zeta.
  destruct (Hok _ _ Hl) as [Hq Hpos]. simpl in Hq, Hpos.
  destruct (_ || stopping s).
  - set (v := mkLane None behind q ctl).
    destruct (turn_done_lanes c v (set_lane c v s)) as [Hi Hlog]; [simpl; by rewrite assoc_set, String.eqb_refl|].
    split; [|done]. unfold pipeline. rewrite (proj2 (notified_log k s _ Hlog)). apply sublist_app; [done|].
    unfold inbound in Hi. injection Hi as _ Hl' _ _. unfold pending. rewrite Hl'. simpl lanes.
    rewrite finish_pending; [|by apply nodup_set|by rewrite assoc_set, String.eqb_refl|simpl; lia].
    rewrite assoc_set. destruct (String.eqb_spec c k) as [->|Hne]; [|done]. rewrite Hl. simpl. by constructor.
  - unfold acquire. destruct (active s <? maxConcurrent cfg); (split; [|done]); unfold pipeline, pending; simpl;
      (apply sublist_app; [done|]); rewrite assoc_set; (destruct (String.eqb_spec c k) as [->|Hne]; [|done]); by rewrite Hl.
Qed.

Lemma reply_ended_pipeline cfg c k s :
  slots_ok cfg s -> pipeline k (reply_ended c s) = pipeline k s /\ log (reply_ended c s) = log s.
Proof.
  intros [Hnd _ _ Hw _ Hok]. unfold reply_ended.
  destruct (assoc c (lanes s)) as [[[[| | |]|] behind q ctl]|] eqn:Hl; try done. simpl l_job. cbv iota.
  destruct (Hok _ _ Hl) as [Hq Hpos]. simpl in Hq, Hpos.
  set (s1 := release s).
  assert (NoDup (map fst (lanes s1)) /\ assoc c (lanes s1) = Some (mkLane (Some JEnding) behind q ctl) /\ log s1 = log s /\
          forall k, pending k s1 = pending k s) as (Hnd1 & Hl1 & Hlog1 & Hp1).
  { subst s1. unfold release. destruct (waiters s) as [|next rest] eqn:Hws; [done|].
    assert (next ∈ sel awaits_slot (lanes s)) as Hin by (rewrite <- Hw; apply list_elem_of_here).
    destruct (sel_elem _ _ _ Hnd Hin) as (ln & Hn & Hwait). simpl. rewrite Hn.
    assert (next <> c) as Hne by (intros ->; rewrite Hl in Hn; injection Hn as <-; done).
    unfold awaits_slot in Hwait. destruct (l_job ln) as [[e| | |]|] eqn:Hj; try done. unfold granted. rewrite Hj.
    split; [by apply nodup_set|]. split; [simpl; by rewrite assoc_set, (proj2 (String.eqb_neq next c) Hne)|]. split; [done|].
    intros x. unfold pending. simpl. rewrite assoc_set. destruct (String.eqb_spec next x) as [->|]; [|done].
    by rewrite Hn, Hj. }
  clearbody s1. destruct (turn_done_lanes c _ s1 Hl1) as [Hi Hlog]. rewrite Hlog, Hlog1. split; [|done].
  unfold pipeline. rewrite (proj2 (notified_log k s1 _ Hlog)), (proj2 (notified_log k s _ Hlog1)), <- Hp1. f_equal.
  unfold inbound in Hi. injection Hi as _ Hl' _ _. unfold pending. rewrite Hl'.
  rewrite finish_pending; [|done|done|simpl; lia]. destruct (String.eqb_spec c k) as [->|Hne]; [|done]. by rewrite Hl1.
Qed.

(** What each side change does to a conversation's pipeline. *)
Lemma side_pipeline cfg inbox s s' k :
  slots_ok cfg s -> side cfg inbox s s' ->
  (pipeline k s' `sublist_of` pipeline k s /\ notified k s `sublist_of` notified k s') \/
  (exists frame t, s' = delivered k frame t s /\ str_at "type" frame <> Some "ack" /\
     match int_at "seq" frame with
     | Some seq => Tracker.record k seq (tracker s) = (true, t)
     | None => t = tracker s
     end /\ pipeline k s' = pipeline k s ++ [frame] /\ notified k s' = notified k s ++ [frame]).
Proof.
  intros Hok Hs. destruct Hs.
  - left. destruct (still_inbound _ _ H) as [Hi Hg]. unfold inbound in Hi.
    destruct (grows_pipeline s s' k) as [-> ?]; [congruence|done|done].
  - left. by destruct (grows_pipeline s (say _ s) k eq_refl (grows_say (ONotify frame (Some conversationId)) s eq_refl)) as [-> ?].
  - by left.
  - by left.
  - unfold delivered, dispatch, pipeline, pending, handled, notified. simpl. rewrite assoc_set.
    destruct (String.eqb_spec conversationId k) as [->|Hne].
    + right. exists frame, t. split; [done|]. split; [done|]. split; [done|]. simpl.
      destruct (assoc k (lanes s)) as [l|]; simpl; by rewrite <- ?app_assoc.
    + by left.
  - left. destruct (runTurn_pipeline cfg conversationId k s Hok) as [Hp Hl]. by rewrite (proj1 (notified_log k s _ Hl)).
  - left. unfold pipeline, pending, handled, notified. simpl. rewrite assoc_set.
    destruct (String.eqb_spec conversationId k) as [->|Hne]; [|done]. rewrite H, H0. simpl. by rewrite <- app_assoc.
  - left. unfold pipeline, pending, handled, notified. simpl. rewrite assoc_set.
    destruct (String.eqb_spec conversationId k) as [->|Hne]; [|done]. by rewrite H, H0.
  - left. destruct (reply_ended_pipeline cfg conversationId k s Hok) as [Hp Hl]. by rewrite Hp, (proj1 (notified_log k s _ Hl)).
Qed.

Record in_order (cfg : AgentConfig) (s : Agent) : Prop := {
  io_slots : slots_ok cfg s;
  io_sublist : forall c, pipeline c s `sublist_of` notified c s;
  io_turns : forall c f, f ∈ pipeline c s -> str_at "type" f <> Some "ack";
}.

Lemma in_order_atom cfg env inbox s s' : atom cfg env inbox s s' -> in_order cfg s -> in_order cfg s'.
Proof.
  intros Ha [Hok Hin Hty].
  assert (Hp : forall c, (pipeline c s' `sublist_of` pipeline c s /\ notified c s `sublist_of` notified c s') \/
                         (exists f, str_at "type" f <> Some "ack" /\ pipeline c s' = pipeline c s ++ [f] /\ notified c s' = notified c s ++ [f])).
  { intros c. destruct Ha as [Hc|Hs].
    - left. destruct (change_inbound _ _ _ _ Hc) as [Hi Hg]. unfold inbound in Hi.
      destruct (grows_pipeline s s' c) as [-> Hn]; [congruence|done|done].
    - destruct (side_pipeline _ _ _ _ c Hok Hs) as [?|(f & t' & _ & ? & _ & ? & ?)]; [by left|right; eauto]. }
  split.
  - destruct Ha as [Hc|Hs]; [|by eapply slots_side]. apply (slots_same _ s); [by eapply change_inbound|done].
  - intros c. destruct (Hp c) as [[H1 H2]|(f & _ & -> & ->)]; [|by apply sublist_app].
    etrans; [exact H1|]. etrans; [apply Hin|exact H2].
  - intros c f. destruct (Hp c) as [[H1 _]|(g & Hg & -> & _)].
    + intros Hf. apply (Hty c). by eapply sublist_subseteq.
    + intros [Hf| ->%list_elem_of_singleton]%elem_of_app; [by apply (Hty c)|done].
Qed.

Lemma in_order_run o t l : in_order (configure o) (run (configure o) l (fresh_agent o t)).
Proof.
  apply run_invariant; [intros env inbox s s'; apply in_order_atom|].
  split; [apply slots_fresh|intros c; apply sublist_nil_l|intros c f; change (pipeline c _) with (@nil json); set_solver].
Qed.

(** C21. The turns of a conversation are handled in the order their frames
    arrived, each from a frame that did arrive: the frames given to the
    handler, followed by those waiting in the conversation's lane, are a
    subsequence of the frames received for it. *)
Theorem turns_in_order (o : AgentOptions) (t : Z) (l : list (Env * input)) (c : string) :
  let s := run (configure o) l (fresh_agent o t) in
  handled c s ++ pending c s `sublist_of` notified c s.
Proof.
  apply in_order_run.
Qed.

(** ** No turn is handled twice *)

(** The conversations frames were received for. *)
Definition convs (s : Agent) : list string :=
  remove_dups (omap (fun o => match o with ONotify _ c => c | _ => None end) (log s)).

(** The seqs of persistent frames. *)
Definition seqs (l : list json) : list Z :=
  omap (fun f => match int_at "seq" f with Some q => if 1 <=? q then Some q else None | None => None end) l.

Record tracked (s : Agent) (ops : list (string * Z)) : Prop := {
  tracked_follows : follows (convs s) ops (tracker s);
  tracked_ops : forall c q, q ∈ seqs (pipeline c s) -> (c, q) ∈ ops;
  tracked_once : forall c, NoDup (seqs (pipeline c s));
}.

Definition dedup (cfg : AgentConfig) (s : Agent) : Prop :=
  slots_ok cfg s /\ (Z.of_nat (length (convs s)) <= capacity (tracker s) -> exists ops, tracked s ops).

Lemma seqs_app l k : seqs (l ++ k) = seqs l ++ seqs k.
Proof. apply omap_app. Qed.

Lemma seqs_sublist l k : l `sublist_of` k -> seqs l `sublist_of` seqs k.
Proof.
  unfold seqs. induction 1 as [|x l k _ IH|x l k _ IH]; simpl; [done| |]; repeat case_match; by try constructor.
Qed.

Lemma convs_mono s s' : log s ⊆ log s' -> convs s ⊆ convs s'.
Proof.
  intros Hl c Hc. unfold convs in *. rewrite elem_of_remove_dups, list_elem_of_omap in *. destruct Hc as (o & Ho & Hs). eauto.
Qed.

Lemma convs_length s s' : log s ⊆ log s' -> (length (convs s) <= length (convs s'))%nat.
Proof.
  intros Hl. apply NoDup_incl_length; [apply NoDup_ListNoDup, NoDup_remove_dups|].
  intros x Hx%list_elem_of_In. apply list_elem_of_In. by apply (convs_mono s s' Hl).
Qed.

Lemma side_log cfg inbox s s' : side cfg inbox s s' -> log s ⊆ log s'.
Proof.
  intros Hs. destruct Hs; try done; try (simpl; set_solver).
  - destruct H as (_ & _ & _ & _ & outs & -> & _). set_solver.
  - unfold runTurn, turn_done, acquire, set_lane. repeat (case_match; simplify_eq/=); set_solver.
  - unfold reply_ended, turn_done, release, set_lane. repeat (case_match; simplify_eq/=); set_solver.
Qed.

(** Nothing about turns changes but the conversations seen. *)
Lemma tracked_weaken s s' ops t :
  log s ⊆ log s' -> (forall c, pipeline c s' `sublist_of` pipeline c s) ->
  (forall K, follows K ops (tracker s) -> follows K ops t) -> tracker s' = t ->
  Z.of_nat (length (convs s')) <= capacity t -> capacity t = capacity (tracker s) ->
  tracked s ops -> tracked s' ops.
Proof.
  intros Hl Hp Hf <- Hcap Hc [H1 H2 H3]. split.
  - apply Hf. eapply follows_mono; [by apply convs_mono|lia|exact H1].
  - intros c q Hq. apply H2. eapply sublist_subseteq, Hq. by apply seqs_sublist.
  - intros c. eapply sublist_NoDup; [apply H3|]. by apply seqs_sublist.
Qed.

Lemma tracked_deliver cfg s c frame t ops :
  slots_ok cfg s -> log s ⊆ log (delivered c frame t s) ->
  match int_at "seq" frame with
  | Some seq => Tracker.record c seq (tracker s) = (true, t)
  | None => t = tracker s
  end ->
  Z.of_nat (length (convs (delivered c frame t s))) <= capacity (tracker s) ->
  (forall k, k <> c -> pipeline k (delivered c frame t s) = pipeline k s) ->
  pipeline c (delivered c frame t s) = pipeline c s ++ [frame] ->
  tracked s ops -> exists ops', tracked (delivered c frame t s) ops'.
Proof.
  intros Hok Hl Ht Hcap Hother Hc [H1 H2 H3].
  assert (follows (convs (delivered c frame t s)) ops (tracker s)) as Hf.
  { eapply follows_mono; [by apply convs_mono|done|exact H1]. }
  assert (c ∈ convs (delivered c frame t s)) as Hin.
  { unfold convs. apply elem_of_remove_dups, list_elem_of_omap. exists (ONotify frame (Some c)). split; [apply list_elem_of_here|done]. }
  assert (tracker (delivered c frame t s) = t) as Htr by done.
  assert (seqs [frame] = match int_at "seq" frame with Some q => if 1 <=? q then [q] else [] | None => [] end) as Hseq.
  { unfold seqs. simpl. destruct (int_at "seq" frame) as [q|]; [|done]. by destruct (1 <=? q). }
  destruct (int_at "seq" frame) as [q|].
  - exists (ops ++ [(c, q)]). pose proof (follows_record _ _ _ c q Hf Hin) as Hf'. rewrite Ht in Hf'. cbn [snd] in Hf'.
    assert (1 <= q -> (c, q) ∉ ops) as Hfresh by (intros Hq; eapply follows_fresh; [exact Hf|done|by rewrite Ht]).
    split; [by rewrite Htr| |].
    + intros k x Hx. rewrite elem_of_app, list_elem_of_singleton. destruct (decide (k = c)) as [->|Hne].
      * rewrite Hc, seqs_app, Hseq in Hx. apply elem_of_app in Hx as [Hx|Hx]; [left; by apply H2|right].
        destruct (1 <=? q); [|set_solver]. by apply list_elem_of_singleton in Hx as ->.
      * rewrite Hother in Hx by done. left. by apply H2.
    + intros k. destruct (decide (k = c)) as [->|Hne]; [|by rewrite Hother]. rewrite Hc, seqs_app, Hseq.
      destruct (Z.leb_spec 1 q) as [Hq|_]; [|by rewrite app_nil_r]. apply NoDup_app. split; [apply H3|]. split; [|apply NoDup_singleton].
      intros x Hx ->%list_elem_of_singleton. by apply (Hfresh Hq), H2.
  - exists ops. subst t. split; [by rewrite Htr| |].
    + intros k x Hx. destruct (decide (k = c)) as [->|Hne]; [|rewrite Hother in Hx by done; by apply H2].
      rewrite Hc, seqs_app, Hseq, app_nil_r in Hx. by apply H2.
    + intros k. destruct (decide (k = c)) as [->|Hne]; [|by rewrite Hother]. by rewrite Hc, seqs_app, Hseq, app_nil_r.
Qed.

Lemma runTurn_tracker cfg c s : tracker (runTurn cfg c s) = tracker s.
Proof. unfold runTurn, turn_done, acquire, set_lane. repeat (case_match; simplify_eq/=); done. Qed.

Lemma reply_ended_tracker c s : tracker (reply_ended c s) = tracker s.
Proof. unfold reply_ended, turn_done, release, set_lane. repeat (case_match; simplify_eq/=); done. Qed.

(** Where the tracker stays, the pipelines shrink or stay. *)
Lemma dedup_same cfg s s' :
  slots_ok cfg s' -> log s ⊆ log s' -> tracker s' = tracker s -> (forall c, pipeline c s' `sublist_of` pipeline c s) ->
  dedup cfg s -> dedup cfg s'.
Proof.
  intros Hok Hl Ht Hp [_ Hd]. split; [done|]. rewrite Ht. intros Hcap. pose proof (convs_length s s' Hl).
  destruct Hd as [ops Hops]; [lia|]. exists ops. by eapply (tracked_weaken s s' ops (tracker s)).
Qed.

Lemma side_shrinks cfg inbox s s' c :
  slots_ok cfg s -> side cfg inbox s s' -> tracker s' = tracker s -> (forall k f t, s' <> delivered k f t s) ->
  pipeline c s' `sublist_of` pipeline c s.
Proof.
  intros Hok Hs _ Hne. destruct (side_pipeline _ _ _ _ c Hok Hs) as [[Hp _]|(f & t & -> & _)]; [done|]. by destruct (Hne c f t).
Qed.

Lemma dedup_side cfg inbox s s' : side cfg inbox s s' -> dedup cfg s -> dedup cfg s'.
Proof.
  intros Hs Hd. pose proof Hd as [Hok Hd0]. pose proof (slots_side _ _ _ _ Hs Hok) as Hok'. pose proof (side_log _ _ _ _ Hs) as Hl.
  assert (forall c, (pipeline c s' `sublist_of` pipeline c s) \/ exists f t, s' = delivered c f t s /\ pipeline c s' = pipeline c s ++ [f]) as Hp.
  { intros c. destruct (side_pipeline _ _ _ _ c Hok Hs) as [[Hp _]|(f & t & Ht & _ & _ & Hp & _)]; [by left|right]. eauto. }
  destruct Hs.
  - destruct (still_inbound _ _ H) as [Hi Hg]. unfold inbound in Hi. apply (dedup_same cfg s); try done; [congruence|].
    intros c. destruct (grows_pipeline s s' c) as [-> _]; [congruence|done|done].
  - by apply (dedup_same cfg s).
  - split; [done|]. simpl. rewrite record_capacity. intros Hcap. change (convs (s <| tracker ::= _ |>)) with (convs s) in Hcap.
    destruct (Hd0 Hcap) as [ops [H1 H2 H3]]. exists (ops ++ [(conversationId, seq)]). split; [|intros c q Hq; apply elem_of_app; left; by apply H2|done].
    simpl. apply follows_record; [exact H1|]. destruct H as (f & Hf & _). unfold convs. apply elem_of_remove_dups, list_elem_of_omap. eauto.
  - split; [done|]. simpl. rewrite touch_capacity. intros Hcap. change (convs (s <| tracker ::= _ |>)) with (convs s) in Hcap.
    destruct (Hd0 Hcap) as [ops [H1 H2 H3]]. exists ops. split; [by apply follows_touch|done|done].
  - split; [done|]. intros Hcap. assert (capacity t = capacity (tracker s)) as Hc.
    { destruct (int_at "seq" frame); [|by subst t]. replace t with (Tracker.record conversationId z (tracker s)).2 by (by rewrite H).
      apply record_capacity. }
    change (tracker (delivered conversationId frame t s)) with t in Hcap. rewrite Hc in Hcap.
    pose proof (convs_length s _ Hl). destruct Hd0 as [ops Hops]; [lia|].
    eapply tracked_deliver; [exact Hok|done|exact H|done| | |exact Hops].
    + intros k Hne. unfold delivered, dispatch, pipeline, pending, handled. simpl. by rewrite assoc_set, (proj2 (String.eqb_neq conversationId k)) by done.
    + unfold delivered, dispatch, pipeline, pending, handled. simpl. rewrite assoc_set, String.eqb_refl.
      destruct (assoc conversationId (lanes s)) as [l|]; simpl; by rewrite <- ?app_assoc.
  - apply (dedup_same cfg s); try done; [apply runTurn_tracker|]. intros c. by apply runTurn_pipeline.
  - apply (dedup_same cfg s); try done. intros c'. unfold pipeline, pending, handled. simpl. rewrite assoc_set.
    destruct (String.eqb_spec conversationId c') as [->|Hne]; [|done]. rewrite H, H0. simpl. by rewrite <- app_assoc.
  - apply (dedup_same cfg s); try done. intros c'. unfold pipeline, pending, handled. simpl. rewrite assoc_set.
    destruct (String.eqb_spec conversationId c') as [->|Hne]; [|done]. by rewrite H, H0.
  - apply (dedup_same cfg s); try done; [apply reply_ended_tracker|]. intros c. by rewrite (proj1 (reply_ended_pipeline cfg conversationId c s Hok)).
Qed.

(** C6. No turn is handled twice.  For an agent that starts from no stored
    positions, while the conversations it hears of fit the tracker's capacity,
    the persistent turns of a conversation handled or waiting to be handled
    have pairwise different seqs, however often replays and reconnects deliver
    them again. *)
Theorem turn_handled_once (o : AgentOptions) (t : Z) (l : list (Env * input)) (c : string) :
  opt_watermarks o = [] ->
  let s := run (configure o) l (fresh_agent o t) in
  Z.of_nat (length (convs s)) <= capacity (tracker s) -> NoDup (seqs (handled c s ++ pending c s)).
Proof.
  intros Ho s Hcap. assert (dedup (configure o) s) as [_ Hd].
  { apply run_invariant.
    - intros env inbox s0 s' [Hc|Hs] Hd; [|by eapply dedup_side]. destruct (change_inbound _ _ _ _ Hc) as [Hi Hg]. unfold inbound in Hi.
      apply (dedup_same _ s0); [|destruct Hg as (outs & -> & _); set_solver|congruence| |done].
      + eapply slots_same; [|exact (proj1 Hd)]. done.
      + intros c'. destruct (grows_pipeline s0 s' c') as [-> _]; [congruence|done|done].
    - split; [apply slots_fresh|]. intros _. exists []. split.
      + unfold fresh_agent. simpl. rewrite Ho. apply follows_new. simpl. lia.
      + intros c' q Hq. change (pipeline c' _) with (@nil json) in Hq. set_solver.
      + intros c'. apply NoDup_nil_2. }
  destruct (Hd Hcap) as [ops Hops]. exact (tracked_once _ _ Hops c).
Qed.

(** A turn delivered live, replayed after a reconnect, and its handler. *)
Definition ex_replayed : list (Env * input) :=
  ex_connect ++ [(ex_at 20, IMessage 1 (ex_envelope "c" (ex_turn 1))); (ex_at 20, IRunTurn "c"); (ex_at 20, IAcquired "c");
                 (ex_at 30, IMessage 1 (ex_envelope "c" (ex_turn 1))); (ex_at 40, IMessage 1 (ex_envelope "c" (ex_turn 2)))].

Lemma turn_handled_once_witness :
  let s := run (configure ex_options) ex_replayed (fresh_agent ex_options 0) in
  length (handled "c" s) = 1%nat /\ length (pending "c" s) = 1%nat /\ NoDup (seqs (handled "c" s ++ pending "c" s)).
Proof.
  intros s. split; [vm_compute; reflexivity|]. split; [vm_compute; reflexivity|].
  exact (turn_handled_once ex_options 0 ex_replayed "c" eq_refl ltac:(vm_compute; discriminate)).
Defined.

(** ** Turns that wait while the agent stops *)

(** [#runTurn] checks [running] and [stopping] before it waits for a slot,
    not after: a turn still waiting when the agent stops is handed to the
    handler as soon as another turn ends, with a signal that is not aborted,
    whether or not [stop] has resolved. *)
Theorem waiting_turn_outlives_stop (cfg : AgentConfig) (env : Env) (s : Agent) (c d : string) (rest : list string)
    (lc ld : Lane) (envelope : json) :
  waiters s = c :: rest -> assoc c (lanes s) = Some lc -> l_job lc = Some (JWaiting envelope) ->
  assoc d (lanes s) = Some ld -> l_job ld = Some JEnding -> NoDup (map fst (lanes s)) ->
  let s' := step cfg env (IAcquired c) (step cfg env (IReplyEnded d) s) in
  exists k, log s' = OHandler (buildTurn c envelope) k :: log s /\ aborted k s' = None /\
            running s' = running s /\ stopping s' = stopping s.
Proof.
  intros Hw Hc Hjc Hd Hjd Hnd s'. subst s'. cbn [step]. unfold reply_ended. rewrite Hd, Hjd. unfold release. rewrite Hw.
  simpl. rewrite Hc. unfold granted. rewrite Hjc.
  assert (d <> c) as Hne by (intros ->; congruence).
  set (v := lc <| l_job := Some (JAcquired envelope) |>).
  set (s1 := set_lane c v _).
  assert (assoc d (lanes s1) = Some ld) as Hd1 by (simpl; by rewrite assoc_set, (proj2 (String.eqb_neq c d)) by done).
  assert (assoc c (lanes s1) = Some v) as Hc1 by (simpl; by rewrite assoc_set, String.eqb_refl).
  assert (NoDup (map fst (lanes s1))) as Hnd1 by (simpl; by apply nodup_set).
  assert (assoc c (lanes (turn_done d s1)) = Some v /\ log (turn_done d s1) = log s /\
          running (turn_done d s1) = running s /\ stopping (turn_done d s1) = stopping s) as (Hc2 & Hl2 & Hr2 & Hs2).
  { unfold turn_done. rewrite Hd1. cbv zeta. destruct (_ =? 0); (split; [|done]); simpl.
    - by rewrite assoc_delete, (proj2 (String.eqb_neq d c)) by done.
    - by rewrite assoc_set, (proj2 (String.eqb_neq d c)) by done. }
  clearbody s1. unfold turn_acquired. rewrite Hc2. simpl l_job. cbv iota zeta.
  exists (nextId (turn_done d s1)). simpl. rewrite Hl2, Hr2, Hs2. repeat split.
  unfold aborted. simpl. by rewrite lookup_insert_eq.
Qed.

(** One slot; "b" waits for it while "a" runs; the agent stops, then "a" ends. *)
Definition ex_one_slot : AgentOptions :=
  mkOptions (Some "token") false None None true RUndefined [] None None None None None (Some 1) false "ag".

Definition ex_stopped : list (Env * input) :=
  ex_connect ++ [(ex_at 20, IMessage 1 (ex_envelope "a" (ex_turn 1))); (ex_at 20, IRunTurn "a"); (ex_at 20, IAcquired "a");
                 (ex_at 30, IMessage 1 (ex_envelope "b" (ex_turn 1))); (ex_at 30, IRunTurn "b");
                 (ex_at 40, IStop (Some 100)); (ex_at 140, ITask 3 OkDone);
                 (ex_at 200, IHandlerDone "a" HReturned)].

Lemma waiting_turn_outlives_stop_witness :
  let s := run (configure ex_one_slot) ex_stopped (fresh_agent ex_one_slot 0) in
  let s' := step (configure ex_one_slot) (ex_at 210) (IAcquired "b") (step (configure ex_one_slot) (ex_at 210) (IReplyEnded "a") s) in
  running s = false /\ existsb (fun o => match o with OStopped => true | _ => false end) (log s) = true /\
  exists k, log s' = OHandler (buildTurn "b" (ex_turn 1)) k :: log s /\ aborted k s' = None /\
            running s' = running s /\ stopping s' = stopping s.
Proof.
  intros s s'. split; [vm_compute; reflexivity|]. split; [vm_compute; reflexivity|].
  refine (waiting_turn_outlives_stop (configure ex_one_slot) (ex_at 210) s "b" "a" []
    (mkLane (Some (JWaiting (ex_turn 1))) [] 1 None) (mkLane (Some JEnding) [] 1 None) (ex_turn 1) _ _ _ _ _ _);
    try (vm_compute; reflexivity).
  refine (bool_decide_eq_true_1 _ _). vm_compute. reflexivity.
Defined.
