(* ===== verification/AgentAcks.v ===== *)
(** * AgentAcks: where the frames the agent was told of, and the acks its sends
    settled with, come from.

    What the agent does depends on the network only through what [Agent] says
    it was notified of; the composition with a server ([Hub]) looks at an agent
    through the lemmas below. *)

From stdpp Require Import base gmap sets list strings sorting.
From Stdlib Require Import ZArith QArith Lia.
From S2P Require Import Prelude Frames Tracker JsMap AgentFrames Agent AgentSteps AgentOutbound AgentTurns.

Open Scope string_scope.
Open Scope list_scope.
Open Scope Z_scope.

(** An output that reports an enveloped frame only if it was [inbox]. *)
Definition reports (inbox : string -> json -> Prop) (o : output) : Prop :=
  match o with ONotify f (Some c) => inbox c f | _ => True end.

Lemma agent_atom_log cfg env inbox s s' :
  atom cfg env inbox s s' -> exists outs, log s' = outs ++ log s /\ Forall (reports inbox) outs.
Proof.
  assert (Hnil : exists outs, log s = outs ++ log s /\ Forall (reports inbox) outs) by (by exists []).
  assert (Hone : forall o, reports inbox o -> exists outs, o :: log s = outs ++ log s /\ Forall (reports inbox) outs).
  { intros o Ho. exists [o]. split; [done|]. by constructor. }
  intros [H|H]; destruct H; try exact Hnil; try (by apply Hone).
  - unfold written. destruct (truthy (o_clientId head)) eqn:E; simpl; rewrite E; [by apply Hone|].
    eexists [_; _]. split; [done|]. by repeat constructor.
  - rewrite H2. exact Hnil.
  - rewrite H2. by apply Hone.
  - rewrite H3. exact Hnil.
  - destruct H as (_ & _ & _ & _ & outs & -> & Hn). exists outs. split; [done|]. clear - Hn.
    induction outs as [|o outs IH]; simpl in *; [constructor|]. apply andb_prop in Hn as [Ho Hn].
    constructor; [by destruct o as [|? [?|]| | | | | | | | | | | | | | |]|auto].
  - rewrite (proj2 (runTurn_outbound cfg conversationId s)). exact Hnil.
  - rewrite (proj2 (reply_ended_outbound conversationId s)). exact Hnil.
Qed.

Lemma agent_step_log cfg env i s :
  exists outs, log (step cfg env i s) = outs ++ log s /\ Forall (reports (inbox_of i)) outs.
Proof.
  pose proof (agent_step_atoms cfg env (inbox_of i) i s (fun _ _ H => H)) as Ha. unfold atoms in Ha.
  induction Ha as [s|s s0 s' Ha _ (o2 & H2 & F2)]; [by exists []|].
  destruct (agent_atom_log _ _ _ _ _ Ha) as (o1 & H1 & F1). exists (o2 ++ o1).
  rewrite H2, H1, app_assoc. split; [done|]. by apply Forall_app.
Qed.

(** ** Every send goes by the id its frame shows *)

Definition all_named (s : Agent) : Prop :=
  (forall e, e ∈ held s -> named e) /\ (forall sk e, OWrite sk e ∈ log s -> named e).

Lemma all_named_sub s s' :
  held s' ⊆ held s -> (forall sk e, OWrite sk e ∈ log s' -> OWrite sk e ∈ log s) -> all_named s -> all_named s'.
Proof. intros Hh Hl [H1 H2]. split; [intros e He; by apply H1, Hh | intros sk e He; by eapply H2, Hl]. Qed.

Lemma all_named_change cfg env s s' : change cfg env s s' -> all_named s -> all_named s'.
Proof.
  intros Hc Ha. destruct Hc; try exact Ha.
  - apply (all_named_sub s); [done| |done]. simpl. intros sk e [?|?]%elem_of_cons; done.
  - destruct Ha as [H2 H3]. split; [|exact H3]. intros x. unfold held, retrying. simpl. rewrite !elem_of_app, list_elem_of_singleton.
    intros [[Hx| ->]|Hx]; [|exact H1|]; apply H2; unfold held, retrying; rewrite !elem_of_app; tauto.
  - destruct Ha as [H3 H4].
    assert (Hh : named head) by (apply H3; unfold held; rewrite H; apply list_elem_of_here).
    destruct (written_fields env sk head rest s) as (_ & _ & _ & _ & _ & Hq & Hr & Hw). cbv zeta in Hw. split.
    + intros e. unfold held, retrying. rewrite Hq, Hr. intros He.
      assert (Hold : e ∈ rest ++ map snd (inflight s) ++ map (fun x => x.1.2) (retries s) -> named e).
      { intros Hin. apply H3. unfold held. rewrite H. simpl. by apply list_elem_of_further. }
      destruct (truthy (o_clientId head)); destruct Hw as [Hi _]; rewrite Hi in He; [|by apply Hold].
      rewrite !elem_of_app in He. destruct He as [He|[He|He]]; [apply Hold; rewrite !elem_of_app; tauto| |apply Hold; rewrite !elem_of_app; tauto].
      apply list_elem_of_fmap in He as ([k x] & -> & He). apply elem_of_set in He as [[= _ ->]|He]; [exact Hh|].
      apply Hold. rewrite !elem_of_app. right. left. by apply (list_elem_of_fmap_2 snd _ (k, x)).
    + intros sk' e He. destruct (truthy (o_clientId head)); destruct Hw as [_ Hl]; rewrite Hl in He.
      * apply elem_of_cons in He as [[= -> ->]|He]; [exact Hh|by eapply H4].
      * apply elem_of_cons in He as [?|He]; [done|]. apply elem_of_cons in He as [[= -> ->]|He]; [exact Hh|by eapply H4].
  - apply (all_named_sub s); [by rewrite H0| |done]. by rewrite H2.
  - apply (all_named_sub s); [rewrite H0; intros x; by apply list_elem_of_further| |done]. rewrite H2. by intros sk x [?|?]%elem_of_cons.
  - apply (all_named_sub s); [rewrite H1; intros x; by apply list_elem_of_further| |done]. by rewrite H3.
Qed.

Lemma not_counted_elem (o : output) outs :
  counted o = true -> Forall (fun o => counted o = false) outs -> o ∉ outs.
Proof. rewrite Forall_forall. intros Ho Hf Hin. specialize (Hf o Hin). simpl in Hf. congruence. Qed.

Lemma all_named_run cfg l s : all_named s -> all_named (run cfg l s).
Proof.
  apply outbound_invariant.
  - intros env s0 s' _. apply all_named_change.
  - intros s0 s' Hso. destruct (same_out_settled _ _ Hso) as [_ Hh]. destruct Hso as [_ (outs & Hl & Hn)].
    apply all_named_sub; [by rewrite Hh|]. intros sk e. rewrite Hl, elem_of_app. intros [He|He]; [|done].
    by destruct (not_counted_elem (OWrite sk e) _ eq_refl Hn).
Qed.

(** ** An ack settles the send it names *)

(** [f] is an ack received in [c] that names the written send [e] of id [id]. *)
Definition acks (id : nat) (f : json) (c : string) (e : Outgoing) (s : Agent) : Prop :=
  ONotify f (Some c) ∈ log s /\ str_at "type" f = Some "ack" /\ (exists sk, OWrite sk e ∈ log s) /\
  o_id e = id /\ truthy (o_clientId e) = true /\ entry_key e = key_of c (str_at "clientId" f ?? "undefined").

Definition acks_ok (s : Agent) : Prop := forall id f, OSettle id (SAcked f) ∈ log s -> exists c e, acks id f c e s.

Lemma acks_grows s s' : log s ⊆ log s' -> (forall id f, OSettle id (SAcked f) ∈ log s' -> OSettle id (SAcked f) ∈ log s) ->
  acks_ok s -> acks_ok s'.
Proof.
  intros Hl Hs Hok id f Hf. destruct (Hok id f (Hs _ _ Hf)) as (c & e & H1 & H2 & (sk & H3) & H4). exists c, e.
  split; [by apply Hl|]. split; [done|]. split; [exists sk; by apply Hl|done].
Qed.

Lemma acks_ok_change cfg env s s' : change cfg env s s' -> kept s -> acks_ok s -> acks_ok s'.
Proof.
  intros Hc Hk Hok. destruct Hc; try exact Hok.
  - apply (acks_grows s); [simpl; set_solver| |done]. intros id f. simpl. rewrite elem_of_cons. intros [[= _ Hr]|?]; [|done].
    by destruct (H f).
  - apply (acks_grows s); [| |done]; destruct (written_fields env sk head rest s) as (_ & _ & _ & _ & _ & _ & _ & Hw);
      cbv zeta in Hw; destruct (truthy (o_clientId head)); destruct Hw as [_ ->]; set_solver.
  - apply (acks_grows s); [by rewrite H2|by rewrite H2|done].
  - intros id f. rewrite H2. intros [[= -> <-]|Hin]%elem_of_cons.
    + destruct (H3 f eq_refl) as (c & Hn & Hty & He). apply assoc_In in He.
      destruct (kept_written s Hk _ _ He) as [_ (sk & e' & Hw & Hid & Hkey & Ht)]. exists c, e'. unfold acks. rewrite H2.
      split; [by apply list_elem_of_further|]. split; [done|]. split; [exists sk; by apply list_elem_of_further|done].
    + destruct (Hok id f Hin) as (c & x & H4 & H5 & (sk & H6) & H7). exists c, x. unfold acks. rewrite H2.
      split; [by apply list_elem_of_further|]. split; [done|]. split; [exists sk; by apply list_elem_of_further|done].
  - apply (acks_grows s); [by rewrite H3|by rewrite H3|done].
Qed.

Lemma acks_run cfg l s : kept s -> acks_ok s -> acks_ok (run cfg l s).
Proof.
  intros Hk Hok. enough (kept (run cfg l s) /\ acks_ok (run cfg l s)) by tauto.
  apply (outbound_invariant cfg (fun s => kept s /\ acks_ok s)); [| |done].
  - intros env s0 s' _ Hc [H1 H2]. split; [by eapply kept_change|by eapply acks_ok_change].
  - intros s0 s' Hso [H1 H2]. split; [by eapply kept_same_out|]. destruct Hso as [_ (outs & Hl & Hn)].
    apply (acks_grows s0); [rewrite Hl; set_solver| |done]. intros id f. rewrite Hl, elem_of_app. intros [He|He]; [|done].
    by destruct (not_counted_elem (OSettle id (SAcked f)) _ eq_refl Hn).
Qed.

(** For an agent from its constructor. *)
Lemma fresh_acks_ok o t l : acks_ok (run (configure o) l (fresh_agent o t)).
Proof. apply acks_run; [apply kept_fresh|]. intros id f Hf. simpl in Hf. set_solver. Qed.

Lemma fresh_named o t l : all_named (run (configure o) l (fresh_agent o t)).
Proof. apply all_named_run. split; intros *; simpl; set_solver. Qed.

(** ** Resume positions were heard of *)

Lemma touch_position_elem id p t kv : kv ∈ positions (touch_position id p t) -> kv ∈ positions t \/ kv = (id, p).
Proof.
  unfold touch_position, evict, drop_key. simpl. intros Hkv.
  apply (sublist_subseteq _ _ (sublist_drop _ _)) in Hkv. apply elem_of_app in Hkv as [Hkv|Hkv].
  - left. by apply list_elem_of_filter in Hkv as [_ ?].
  - right. by apply list_elem_of_singleton.
Qed.

Lemma record_at_high seq p : high (record_at seq p).2 = high p \/ high (record_at seq p).2 = seq.
Proof.
  unfold record_at. destruct (seen_at p seq); [by left|]. cbv zeta.
  set (p1 := p <| seen := _ |> <| high ::= Z.max seq |>).
  assert (Hf : forall l q, high (fold_left forget l q) = high q).
  { intros l. induction l as [|x l IH]; intros q; simpl; [done|]. by rewrite IH. }
  assert (Hm : high p1 = high p \/ high p1 = seq) by (simpl; lia).
  destruct (WINDOW <? size (seen p1))%nat; simpl; [rewrite Hf|]; exact Hm.
Qed.

(** Every position is 0, or the seq of a frame received in its conversation. *)
Definition heard (c : string) (w : Z) (s : Agent) : Prop :=
  w = 0 \/ exists f, ONotify f (Some c) ∈ log s /\ int_at "seq" f = Some w.
Definition all_heard (s : Agent) : Prop := forall c p, (c, p) ∈ positions (tracker s) -> heard c (high p) s.

Lemma heard_grows c w s s' : log s ⊆ log s' -> heard c w s -> heard c w s'.
Proof. intros Hl [->|(f & Hf & Hq)]; [by left|right]. exists f. split; [by apply Hl|done]. Qed.

Lemma all_heard_same s s' : log s ⊆ log s' -> (forall kv, kv ∈ positions (tracker s') -> kv ∈ positions (tracker s)) -> all_heard s -> all_heard s'.
Proof. intros Hl Ht Hh c p Hp. eapply heard_grows; [exact Hl|]. by apply Hh, Ht. Qed.

Lemma all_heard_record c seq s s' :
  log s ⊆ log s' -> tracker s' = (Tracker.record c seq (tracker s)).2 -> heard c seq s' -> all_heard s -> all_heard s'.
Proof.
  intros Hl Ht Hq Hh c' p. rewrite Ht. unfold Tracker.record. destruct (seq <? 1); [intros Hp; eapply heard_grows, Hh, Hp; done|].
  set (p0 := assoc c (positions (tracker s)) ?? no_position).
  destruct (record_at seq p0) as [fresh p1] eqn:Hr. intros [Hp|[= -> ->]]%touch_position_elem; [eapply heard_grows, Hh, Hp; done|].
  pose proof (record_at_high seq p0) as Hhigh. rewrite Hr in Hhigh. destruct Hhigh as [Hp|Hp]; simpl in Hp; rewrite Hp; [|done].
  subst p0. destruct (assoc c (positions (tracker s))) as [p0|] eqn:Ha; [|by left].
  eapply heard_grows, Hh, assoc_In, Ha. done.
Qed.

Lemma all_heard_atom cfg env inbox s s' : atom cfg env inbox s s' -> all_heard s -> all_heard s'.
Proof.
  intros Ha Hh. assert (Hl : log s ⊆ log s').
  { destruct (agent_atom_log _ _ _ _ _ Ha) as (outs & -> & _). intros x. rewrite elem_of_app. by right. }
  destruct Ha as [Hc|Hs].
  - destruct (change_inbound _ _ _ _ Hc) as [Hi _]. unfold inbound in Hi. apply (all_heard_same s); [done| |done].
    by replace (tracker s') with (tracker s) by congruence.
  - destruct Hs; try by apply (all_heard_same s).
    + destruct (still_inbound _ _ H) as [Hi _]. unfold inbound in Hi. apply (all_heard_same s); [done| |done].
      by replace (tracker s') with (tracker s) by congruence.
    + eapply all_heard_record; [done|done| |exact Hh]. right. done.
    + apply (all_heard_same s); [done| |done]. simpl. intros kv. unfold touch.
      destruct (assoc conversationId (positions (tracker s))) as [p|] eqn:E; [|done].
      intros [?| ->]%touch_position_elem; [done|by apply assoc_In].
    + destruct (int_at "seq" frame) as [seq|] eqn:Hq.
      * eapply (all_heard_record conversationId seq); [done|simpl; by rewrite H| |exact Hh].
        right. exists frame. split; [apply list_elem_of_here|done].
      * apply (all_heard_same s); [done| |done]. simpl. by rewrite H.
    + apply (all_heard_same s); [done| |done]. by rewrite runTurn_tracker.
    + apply (all_heard_same s); [done| |done]. by rewrite reply_ended_tracker.
Qed.

Lemma fresh_heard o t l : opt_watermarks o = [] -> all_heard (run (configure o) l (fresh_agent o t)).
Proof.
  intros Ho. apply run_invariant; [intros env inbox s s'; apply all_heard_atom|].
  intros c p. simpl. rewrite Ho. simpl. set_solver.
Qed.
