(* ===== verification/Hub.v ===== *)
(** * Hub: an agent connected to the fake server
    ([packages/agent-ts/src/agent.ts] with [packages/agent-ts/src/testing/index.ts],
    as the SDK's tests run them).

    The two machines run in one state, joined by a link per socket the agent
    opens: two queues of messages, in order, of which a prefix arrives (a close
    loses the rest, at each end at its own time).  The environment chooses when
    a socket opens, when a message is delivered or a close is seen, and
    everything either machine's own environment chooses.  A message is the value
    its JSON text stands for. *)

From Stdlib Require Import Ascii.
From stdpp Require Import base gmap sets list strings pretty.
From Stdlib Require Import ZArith QArith Lia.
From S2P Require Import Prelude JsMap Json Frames Tracker FakeServer FakeServerFacts.
From S2P Require Import AgentFrames Agent AgentExample AgentSteps AgentOutbound AgentTurns AgentAcks.

Open Scope string_scope.
Open Scope list_scope.
Open Scope Z_scope.

(** A socket the agent opened, and the connection the server made of it. *)
Record Link := mkLink {
  k_agent : nat;
  k_hello : HelloFrame;
  k_server : option nat;
  k_up : list json;
  k_down : list json;
}.

#[export] Instance eta_link : Eta Link := fun k => mkLink (k_agent k) (k_hello k) (k_server k) (k_up k) (k_down k).

Record Hub := mkHub { agent : Agent; server : FakeConvergerServer; links : list Link }.

#[export] Instance eta_hub : Eta Hub := fun h => mkHub (agent h) (server h) (links h).

(** The hello the socket sends once open. *)
(* @src packages/agent-ts/src/agent.ts 399-403 connect *)
Definition hello_message (hello : HelloFrame) : json :=
  JObj ([("type", JStr "hello"); ("protocol", JStr AGENT_PROTOCOL_VERSION); ("token", JStr (h_token hello))]
        ++ match h_group hello with Some g => [("group", JStr g)] | None => [] end
        ++ match h_userId hello with Some u => [("userId", JStr u)] | None => [] end
        ++ match h_watermarks hello with
           | Some w => [("watermarks", JObj (map (fun '(c, n) => (c, num n)) w))]
           | None => []
           end).

(** What the agent writes of a send. *)
Definition send_message (e : Outgoing) : json := envelope (o_conversationId e) (o_frame e).

(** ** Links *)

Definition on_socket (sk : nat) (f : Link -> Link) (ks : list Link) : list Link :=
  map (fun k => if Nat.eqb (k_agent k) sk then f k else k) ks.

Definition on_connection (i : nat) (f : Link -> Link) (ks : list Link) : list Link :=
  map (fun k => if bool_decide (k_server k = Some i) then f k else k) ks.

Definition push_up (m : json) (k : Link) : Link := k <| k_up ::= fun q => q ++ [m] |>.
Definition push_down (m : json) (k : Link) : Link := k <| k_down ::= fun q => q ++ [m] |>.

Definition link_of (sk : nat) (ks : list Link) : option Link := find (fun k => Nat.eqb (k_agent k) sk) ks.

(** What an output of the agent, of the server, puts on the links. *)
Definition route_up (ks : list Link) (o : Agent.output) : list Link :=
  match o with
  | OConnect sk hello => ks ++ [mkLink sk hello None [] []]
  | OWrite sk e => on_socket sk (push_up (send_message e)) ks
  | OAuth sk token => on_socket sk (push_up (JObj [("type", JStr "auth"); ("token", JStr token)])) ks
  | _ => ks
  end.

Definition route_down (ks : list Link) (o : FakeServer.output) : list Link :=
  match o with OSend i m => on_connection i (push_down m) ks | _ => ks end.

(** What a step added to a log, newest first. *)
Definition added {A} (before after : list A) : list A := firstn (length after - length before) after.

(** ** Steps *)

Inductive hub_input :=
| HAgent (env : Env) (i : Agent.input)
| HOpen (sk : nat)
| HPing (sk : nat) (nonce : string)
| HUp (sk : nat) (now : Z)
| HDown (sk : nat) (env : Env)
| HUpClosed (sk : nat)
| HDownClosed (sk : nat) (env : Env) (close : SocketClose)
| HServer (x : server_input).

(** The inputs the links bring. *)
Definition from_socket (i : Agent.input) : bool := match i with IMessage _ _ | IClose _ _ => true | _ => false end.
Definition from_agent (x : server_input) : bool :=
  match x with SConnect | SClosed _ | SMessage _ _ _ => true | _ => false end.

Section Steps.
Context (cfg : AgentConfig).

Definition agent_does (env : Env) (i : Agent.input) (h : Hub) : Hub :=
  let a := Agent.step cfg env i (agent h) in
  mkHub a (server h) (fold_left route_up (rev (added (Agent.log (agent h)) (Agent.log a))) (links h)).

Definition server_does (x : server_input) (h : Hub) : Hub :=
  let s := server_step (server h) x in
  mkHub (agent h) s (fold_left route_down (rev (added (FakeServer.log (server h)) (FakeServer.log s))) (links h)).

Definition hub_step (h : Hub) (x : hub_input) : Hub :=
  match x with
  | HAgent env i => if from_socket i then h else agent_does env i h
  | HServer x => if from_agent x then h else server_does x h
  | HOpen sk =>
      match link_of sk (links h) with
      | Some (mkLink _ hello None _ _) =>
          server_does SConnect
          (h <| links ::= on_socket sk (fun k => k <| k_server := Some (connectionCount (server h)) |> <| k_up := [hello_message hello] |>) |>)
      | _ => h
      end
  | HPing sk nonce => h <| links ::= on_socket sk (push_up (JObj [("type", JStr "ping"); ("nonce", JStr nonce)])) |>
  | HUp sk now =>
      match link_of sk (links h) with
      | Some (mkLink _ _ (Some i) (m :: rest) _) =>
          server_does (SMessage now i m) (h <| links ::= on_socket sk (fun k => k <| k_up := rest |>) |>)
      | _ => h
      end
  | HDown sk env =>
      match link_of sk (links h) with
      | Some (mkLink _ _ _ _ (m :: rest)) =>
          agent_does env (IMessage sk m) (h <| links ::= on_socket sk (fun k => k <| k_down := rest |>) |>)
      | _ => h
      end
  | HUpClosed sk =>
      match link_of sk (links h) with
      | Some (mkLink _ _ (Some i) _ _) => server_does (SClosed i) (h <| links ::= on_socket sk (fun k => k <| k_up := [] |>) |>)
      | _ => h
      end
  | HDownClosed sk env close => agent_does env (IClose sk close) (h <| links ::= on_socket sk (fun k => k <| k_down := [] |>) |>)
  end.

Definition hub_run (l : list hub_input) (h : Hub) : Hub := fold_left hub_step l h.
End Steps.

Definition new_hub (o : AgentOptions) (t t' : Z) : Hub := mkHub (fresh_agent o t) (new_server t') [].

(** ** What travels on the links *)

Definition wrote (a : Agent) (e : Outgoing) : Prop := exists sk, OWrite sk e ∈ Agent.log a.

(** A message without an envelope: both ends keep it from the conversations. *)
Definition bare (m : json) : Prop := is_Some (str_at "type" m).

(** The frames a server in state [s] sends the agent [a] in a conversation: of its
    transcript, acks of what it knows by a clientId the agent wrote there, and
    others without a seq. *)
Inductive genuine (a : Agent) (s : FakeConvergerServer) (c : string) : FakeFrame -> Prop :=
| g_stored f : f ∈ transcript_of c s -> genuine a s c f
| g_meta f v : f ∈ transcript_of c s -> genuine a s c (map_set "meta" v f)
| g_ack e y f t d :
  wrote a e -> o_conversationId e = c -> keys s !! dedup_key c y = Some f -> genuine a s c (ack_of t y f d)
| g_other f : str (assoc "type" f) <> Some "ack" -> assoc "seq" f = None -> genuine a s c f.

(** What the test may have the server send: it plays users and services, so no
    acks, no frame with a seq it did not assign, nothing bare that is enveloped. *)
Definition honest (x : hub_input) : Prop :=
  match x with
  | HServer (SUserSays _ _ (SaysFrame f) _ _) => ("type", JStr "ack") ∉ f
  | HServer (SDeliver _ f) => str (assoc "type" f) <> Some "ack" /\ assoc "seq" f = None
  | HServer (SBroadcast f) => is_Some (str (assoc "type" f))
  | _ => True
  end.

Lemma genuine_grows a a' s s' c f :
  (forall e, wrote a e -> wrote a' e) -> extends s s' -> genuine a s c f -> genuine a' s' c f.
Proof.
  intros Ha [Ht Hk] Hf. destruct Hf.
  - apply g_stored. destruct (Ht c) as [k ->]. apply elem_of_app. by left.
  - apply g_meta. destruct (Ht c) as [k ->]. apply elem_of_app. by left.
  - eapply g_ack; [by apply Ha|done|]. by eapply lookup_weaken.
  - by apply g_other.
Qed.

(** The messages under way in each direction. *)
Definition ups (ks : list Link) (m : json) : Prop := exists k, k ∈ ks /\ m ∈ k_up k.
Definition downs (ks : list Link) (m : json) : Prop := exists k, k ∈ ks /\ m ∈ k_down k.

(** Changing some links adds to what travels only what the change adds. *)
Lemma some_links (b : Link -> bool) (f : Link -> Link) (P : Link -> Prop) ks k :
  (forall k, P (f k) -> P k) -> k ∈ map (fun k => if b k then f k else k) ks -> P k -> exists k0, k0 ∈ ks /\ P k0.
Proof.
  intros Hf (k0 & -> & Hk0)%list_elem_of_fmap HP. exists k0. split; [done|]. destruct (b k0); [by apply Hf|done].
Qed.

Lemma fewer_ups (b : Link -> bool) (f : Link -> Link) ks m :
  (forall k, k_up (f k) ⊆ k_up k) -> ups (map (fun k => if b k then f k else k) ks) m -> ups ks m.
Proof. intros Hf (k & Hk & Hm). refine (some_links b f (fun k => m ∈ k_up k) ks k _ Hk Hm). intros k0. apply Hf. Qed.

Lemma fewer_downs (b : Link -> bool) (f : Link -> Link) ks m :
  (forall k, k_down (f k) ⊆ k_down k) -> downs (map (fun k => if b k then f k else k) ks) m -> downs ks m.
Proof. intros Hf (k & Hk & Hm). refine (some_links b f (fun k => m ∈ k_down k) ks k _ Hk Hm). intros k0. apply Hf. Qed.

Lemma pushed_up (b : Link -> bool) m ks m' : ups (map (fun k => if b k then push_up m k else k) ks) m' -> ups ks m' \/ m' = m.
Proof.
  intros (k & (k0 & -> & Hk)%list_elem_of_fmap & Hm). destruct (b k0); [|by left; exists k0]. simpl in Hm.
  apply elem_of_app in Hm as [Hm| ->%list_elem_of_singleton]; [left; by exists k0|by right].
Qed.

Lemma pushed_down (b : Link -> bool) m ks m' : downs (map (fun k => if b k then push_down m k else k) ks) m' -> downs ks m' \/ m' = m.
Proof.
  intros (k & (k0 & -> & Hk)%list_elem_of_fmap & Hm). destruct (b k0); [|by left; exists k0]. simpl in Hm.
  apply elem_of_app in Hm as [Hm| ->%list_elem_of_singleton]; [left; by exists k0|by right].
Qed.

Lemma routed_up ks o m :
  ups (route_up ks o) m -> ups ks m \/ bare m \/ exists sk e, o = OWrite sk e /\ m = send_message e.
Proof.
  destruct o; simpl; auto; intros H.
  - left. destruct H as (k & [Hk| ->%list_elem_of_singleton]%elem_of_app & Hm); [by exists k|]. simpl in Hm. set_solver.
  - apply pushed_up in H as [?| ->]; [by left|]. right. left. by exists "auth".
  - apply pushed_up in H as [?| ->]; [by left|]. right. right. eauto.
Qed.

Lemma routed_up_downs ks o m : downs (route_up ks o) m -> downs ks m.
Proof.
  destruct o; simpl; auto; intros H; try (refine (fewer_downs _ _ _ _ _ H); intros k x Hx; exact Hx).
  destruct H as (k & [Hk| ->%list_elem_of_singleton]%elem_of_app & Hm); [by exists k|]. simpl in Hm. set_solver.
Qed.

Lemma routed_down ks o m : downs (route_down ks o) m -> downs ks m \/ exists i, o = OSend i m.
Proof. destruct o; simpl; auto. intros [?| ->]%pushed_down; eauto. Qed.

Lemma routed_down_ups ks o m : ups (route_down ks o) m -> ups ks m.
Proof. destruct o; simpl; auto. intros H. refine (fewer_ups _ _ _ _ _ H). intros k x Hx; exact Hx. Qed.

(** ** The invariant *)

(** What the server knows by a key, and the frames of type "ack" it keeps,
    were written by the agent. *)
Definition keys_written (a : Agent) (s : FakeConvergerServer) : Prop :=
  forall k g, keys s !! k = Some g ->
  exists e y n t id, wrote a e /\ frame_type (o_frame e) ∉ UNACKED_TYPES /\ client_key (o_frame e) = Some y /\
    k = dedup_key (o_conversationId e) y /\ g = with_seq n (stored_frame t id (o_frame e)) /\
    g ∈ transcript_of (o_conversationId e) s.

Definition acks_written (a : Agent) (s : FakeConvergerServer) : Prop :=
  forall c f, f ∈ transcript_of c s -> str (assoc "type" f) = Some "ack" -> exists e, wrote a e /\ frame_type (o_frame e) = "ack".

Record wired (o : AgentOptions) (t : Z) (h : Hub) : Prop := {
  w_run : exists l, agent h = run (configure o) l (fresh_agent o t);
  w_logs : logs_ok (server h);
  w_keys : keys_written (agent h) (server h);
  w_acks : acks_written (agent h) (server h);
  w_up : forall m, ups (links h) m -> bare m \/ exists e, wrote (agent h) e /\ m = send_message e;
  w_down : forall m, downs (links h) m -> bare m \/ exists c f, m = envelope c f /\ genuine (agent h) (server h) c f;
  w_told : forall c f, ONotify f (Some c) ∈ Agent.log (agent h) -> exists g, f = JObj g /\ genuine (agent h) (server h) c g;
}.

Lemma wrote_grows outs (a a' : Agent) e : Agent.log a' = outs ++ Agent.log a -> wrote a e -> wrote a' e.
Proof. intros Hl [sk H]. exists sk. rewrite Hl. apply elem_of_app. by right. Qed.

Lemma added_app {A} (outs l : list A) : added l (outs ++ l) = outs.
Proof. unfold added. rewrite length_app, Nat.add_sub. by rewrite take_app_length. Qed.

(** Links that carry no more than before, or bare messages. *)
Lemma wired_links o t h ks :
  (forall m, ups ks m -> ups (links h) m \/ bare m) -> (forall m, downs ks m -> downs (links h) m) ->
  wired o t h -> wired o t (h <| links := ks |>).
Proof.
  intros Hu Hd [H1 H2 H3 H4 H5 H6 H7]. split; try done; simpl; [|by intros m Hm%Hd; apply H6].
  intros m [Hm|Hm]%Hu; [by apply H5|by left].
Qed.

(** A property of what each output adds, over all outputs. *)
Lemma routed_ups_all ks outs m :
  ups (fold_left route_up (rev outs) ks) m -> ups ks m \/ bare m \/ exists sk e, OWrite sk e ∈ outs /\ m = send_message e.
Proof.
  induction outs as [|o outs IH]; simpl; [by left|]. rewrite fold_left_app. simpl.
  intros [Hm|[Hm|(sk & e & -> & ->)]]%routed_up; [|by right; left|].
  - destruct (IH Hm) as [?|[?|(sk & e & He & ->)]]; [by left|by right; left|]. right. right. exists sk, e.
    split; [by apply list_elem_of_further|done].
  - right. right. exists sk, e. split; [apply list_elem_of_here|done].
Qed.

Lemma routed_up_downs_all ks l m : downs (fold_left route_up l ks) m -> downs ks m.
Proof. revert ks. induction l as [|o l IH]; intros ks; simpl; [done|]. intros H. by apply IH, routed_up_downs in H. Qed.

Lemma routed_down_ups_all ks l m : ups (fold_left route_down l ks) m -> ups ks m.
Proof. revert ks. induction l as [|o l IH]; intros ks; simpl; [done|]. intros H. by apply IH, routed_down_ups in H. Qed.

Lemma routed_downs_all ks outs m :
  downs (fold_left route_down (rev outs) ks) m -> downs ks m \/ exists i, OSend i m ∈ outs.
Proof.
  induction outs as [|o outs IH]; simpl; [by left|]. rewrite fold_left_app. simpl.
  intros [Hm|[i ->]]%routed_down; [|right; exists i; apply list_elem_of_here].
  destruct (IH Hm) as [?|[i Hi]]; [by left|right; exists i; by apply list_elem_of_further].
Qed.

(** Any input of the agent that brings it only genuine frames. *)
Lemma agent_does_wired o t env i h :
  (forall c f, inbox_of i c f -> exists g, f = JObj g /\ genuine (agent h) (server h) c g) ->
  wired o t h -> wired o t (agent_does (configure o) env i h).
Proof.
  intros Hin [[l Hl] H2 H3 H4 H5 H6 H7].
  destruct (agent_step_log (configure o) env i (agent h)) as (outs & Hout & Hrep).
  pose proof (fun e => wrote_grows outs _ _ e Hout) as Hgrow. unfold agent_does. cbv zeta. rewrite Hout, added_app.
  split; simpl.
  - exists (l ++ [(env, i)]). rewrite Hl. unfold run. by rewrite fold_left_app.
  - done.
  - intros k g Hk. destruct (H3 k g Hk) as (e & y & n & t0 & id & He & Hr). exists e, y, n, t0, id. split; [by apply Hgrow|done].
  - intros c f Hf Ht. destruct (H4 c f Hf Ht) as (e & He & Hty). exists e. split; [by apply Hgrow|done].
  - intros m [Hm|[Hm|(sk & e & He & ->)]]%routed_ups_all; [|by left|].
    + destruct (H5 m Hm) as [?|(e & He & ->)]; [by left|right]. exists e. split; [by apply Hgrow|done].
    + right. exists e. split; [|done]. exists sk. rewrite Hout. apply elem_of_app. by left.
  - intros m Hm%routed_up_downs_all. destruct (H6 m Hm) as [?|(c & f & -> & Hg)]; [by left|right]. exists c, f.
    split; [done|]. by eapply genuine_grows.
  - intros c f. rewrite Hout. intros [Hf|Hf]%elem_of_app.
    + rewrite Forall_forall in Hrep. destruct (Hin _ _ (Hrep _ Hf)) as (g & -> & Hg). exists g. split; [done|]. by eapply genuine_grows.
    + destruct (H7 c f Hf) as (g & -> & Hg). exists g. split; [done|]. by eapply genuine_grows.
Qed.

(** ** The server's side *)

Lemma assoc_spread k v (a b : FakeFrame) : assoc k (spread a b) = Some v -> (k, v) ∈ b \/ assoc k a = Some v.
Proof.
  revert a. induction b as [|[k' v'] b IH]; intros a; simpl; [by right|]. intros [Hin|Ha]%IH.
  - left. by apply list_elem_of_further.
  - rewrite assoc_set in Ha. destruct (String.eqb_spec k' k) as [->|]; [|by right].
    injection Ha as ->. left. apply list_elem_of_here.
Qed.

Lemma assoc_delete_ne {A} k k' (m : list (string * A)) : k <> k' -> assoc k (map_delete k' m) = assoc k m.
Proof.
  intros Hne. induction m as [|[x w] m IH]; simpl; [done|]. destruct (String.eqb_spec x k') as [->|Hx]; simpl.
  - by rewrite (proj2 (String.eqb_neq k' k)) by congruence.
  - by rewrite IH.
Qed.

Lemma assoc_with_seq_ne k n f : k <> "seq" -> assoc k (with_seq n f) = assoc k f.
Proof. intros Hk. unfold with_seq. rewrite assoc_set. by rewrite (proj2 (String.eqb_neq "seq" k)) by congruence. Qed.

Lemma stored_type t id f : assoc "type" (stored_frame t id f) = assoc "type" f.
Proof. unfold stored_frame, spread. simpl. rewrite !assoc_set. simpl. by apply assoc_delete_ne. Qed.

(** What a written send appends. *)
Lemma send_enveloped e c t f :
  enveloped (send_message e) = Some (c, t, f) -> c = o_conversationId e /\ f = o_frame e /\ str (assoc "type" f) = Some t.
Proof. unfold enveloped, send_message. simpl. destruct (str (assoc "type" (o_frame e))) eqn:Ht; [|done]. by intros [= <- <- <-]. Qed.

Lemma bare_enveloped m : bare m -> enveloped m = None.
Proof. intros [t Ht]. unfold enveloped. by rewrite Ht. Qed.

Lemma unacked_server t : t ∈ UNACKED_TYPES -> t = "sync" \/ t ∈ FakeServer.TRANSIENT \/ t ∈ FakeServer.NATIVE.
Proof. unfold UNACKED_TYPES, FakeServer.TRANSIENT, FakeServer.NATIVE. set_solver. Qed.

Lemma native_not_ack t : t ∈ FakeServer.NATIVE -> t <> "ack".
Proof. intros Ht ->. revert Ht. refine (bool_decide_eq_true_1 (_ ∉ _) _). reflexivity. Qed.

(** The entry a written send appends, if any. *)
Lemma send_entry t e s x :
  message_entry t (send_message e) s = Some x ->
  e_conversation x = o_conversationId e /\
  (str (assoc "type" (e_frame x)) = Some "ack" -> frame_type (o_frame e) = "ack") /\
  (forall k, e_key x = Some k -> exists y id, frame_type (o_frame e) ∉ UNACKED_TYPES /\ client_key (o_frame e) = Some y /\
     k = dedup_key (o_conversationId e) y /\ e_frame x = stored_frame t id (o_frame e)).
Proof.
  unfold message_entry. destruct (enveloped (send_message e)) as [[[c ty] f]|] eqn:He; [|done].
  apply send_enveloped in He as (-> & -> & Hty). destruct (String.eqb_spec ty "sync") as [|Hs]; [done|].
  destruct (bool_decide_reflect (ty ∈ FakeServer.TRANSIENT)) as [|Ht]; [done|]. simpl orb. cbv iota.
  assert (Hft : frame_type (o_frame e) = ty) by (unfold frame_type; by rewrite Hty).
  destruct (bool_decide_reflect (ty ∈ FakeServer.NATIVE)) as [Hn|Hn].
  - intros [= <-]. simpl. split; [done|]. split; [|done]. rewrite assoc_delete_ne, Hty by done. intros [= ->].
    by destruct (native_not_ack "ack").
  - destruct (sendErrors s); [|done]. destruct (_ ≫= _); [done|]. intros [= <-]. simpl. split; [done|].
    split; [rewrite stored_type, Hty; by intros [= ->]|]. intros k Hk.
    destruct (client_key (o_frame e)) as [y|]; [|done]. injection Hk as <-. exists y. eexists. rewrite Hft.
    split; [by intros [?|[?|?]]%unacked_server|done].
Qed.

(** Entries of the server's owner have no key, and are no acks. *)
Lemma owner_entry x s e :
  from_agent x = false -> honest (HServer x) -> appended x s = Some e ->
  e_key e = None /\ str (assoc "type" (e_frame e)) <> Some "ack".
Proof.
  destruct x; try done; simpl; intros _ Hh [= <-]; simpl; split; try done.
  rewrite assoc_delete_ne by done. unfold user_frame. destruct message as [txt|f].
  - done.
  - destruct (assoc "type" (spread _ f)) as [v|] eqn:Hv; [|done]. apply assoc_spread in Hv as [Hin|Hv].
    + destruct v; try done. simpl. by intros [= ->].
    + done.
Qed.

(** Where a message the server may get comes from. *)
Definition from_links (h : Hub) (x : server_input) : Prop :=
  match x with SMessage _ _ m => bare m \/ exists e, wrote (agent h) e /\ m = send_message e | _ => True end.

Lemma appended_origin x h e :
  honest (HServer x) -> from_links h x -> appended x (server h) = Some e ->
  (str (assoc "type" (e_frame e)) = Some "ack" -> exists w, wrote (agent h) w /\ frame_type (o_frame w) = "ack") /\
  (forall k, e_key e = Some k -> exists w y t id, wrote (agent h) w /\ frame_type (o_frame w) ∉ UNACKED_TYPES /\
     client_key (o_frame w) = Some y /\ k = dedup_key (o_conversationId w) y /\ e_conversation e = o_conversationId w /\
     e_frame e = stored_frame t id (o_frame w)).
Proof.
  intros Hh Hf Ha. destruct (from_agent x) eqn:Hx.
  - destruct x; try done. simpl in Ha, Hf. destruct Hf as [Hb|(w & Hw & ->)].
    { unfold message_entry in Ha. by rewrite bare_enveloped in Ha. }
    apply send_entry in Ha as (Hc & Hty & Hk). split; [intros Ht; exists w; auto|].
    intros k (y & id & H1 & H2 & H3 & H4)%Hk. exists w, y, now, id. done.
  - destruct (owner_entry x (server h) e Hx Hh Ha) as [Hk Hty]. split; [done|]. intros k. by rewrite Hk.
Qed.

Lemma server_keys x h :
  honest (HServer x) -> from_links h x -> keys_written (agent h) (server h) -> keys_written (agent h) (server_step (server h) x).
Proof.
  intros Hh Hf Hkeys k g Hg. pose proof (server_extends (server h) x) as [Htr _].
  pose proof (step_logs (server h) x) as Hr. destruct (keys (server h) !! k) as [g'|] eqn:Hold.
  - assert (g' = g) as ->.
    { destruct (server_extends (server h) x) as [_ Hk]. pose proof (lookup_weaken _ _ _ _ Hold Hk). congruence. }
    destruct (Hkeys k g Hold) as (w & y & n & t & id & H1 & H2 & H3 & H4 & H5 & H6).
    exists w, y, n, t, id. repeat (split; [done|]). destruct (Htr (o_conversationId w)) as [? ->]. apply elem_of_app. by left.
  - destruct (appended x (server h)) as [e|] eqn:Ha; [|unfold logs in Hr; injection Hr as _ Hk; congruence].
    rewrite (keys_append e _ _ Hr) in Hg. destruct (e_key e) as [k0|] eqn:Hk0; [|congruence].
    apply lookup_insert_Some in Hg as [[-> <-]|[_ Hg]]; [|congruence]. destruct (appended_origin x h e Hh Hf Ha) as [_ Hk].
    destruct (Hk k Hk0) as (w & y & t & id & H1 & H2 & H3 & H4 & H5 & H6). exists w, y. rewrite H6.
    eexists _, t, id. repeat (split; [done|]). rewrite <- H5, <- H6, (transcript_append _ e _ _ Hr), bool_decide_eq_true_2 by done.
    apply elem_of_app. right. by apply list_elem_of_singleton.
Qed.

Lemma server_acks x h :
  honest (HServer x) -> from_links h x -> acks_written (agent h) (server h) -> acks_written (agent h) (server_step (server h) x).
Proof.
  intros Hh Hf Hacks c f. pose proof (step_logs (server h) x) as Hr. destruct (appended x (server h)) as [e|] eqn:Ha.
  - rewrite (transcript_append c e _ _ Hr). case_bool_decide; [|rewrite app_nil_r; apply Hacks].
    intros [Hin| ->%list_elem_of_singleton]%elem_of_app; [by apply (Hacks c)|]. rewrite assoc_with_seq_ne by done.
    by destruct (appended_origin x h e Hh Hf Ha) as [Ht _].
  - unfold logs in Hr. injection Hr as Ht _. unfold transcript_of. rewrite Ht. apply Hacks.
Qed.

(** What the server sends is genuine. *)
Lemma sent_genuine x h s i m :
  honest (HServer x) -> from_links h x -> sent_from s x (OSend i m) ->
  bare m \/ exists c f, m = envelope c f /\ genuine (agent h) s c f.
Proof.
  intros Hh Hf Hs. inversion Hs; subst.
  - left. by eexists.
  - right. exists c, f. split; [done|]. by apply g_stored.
  - right. eexists _, _. split; [done|]. by apply g_meta.
  - right. eexists _, _. split; [done|]. by apply g_other.
  - right. eexists _, _. split; [done|]. destruct x as [| |? ? msg| | | | | | | | | |]; try done.
    lazymatch goal with H : sends _ _ _ |- _ => destruct H as (ty & fr & He & _) end. destruct Hf as [Hb|(e & Hw & ->)]; [by rewrite bare_enveloped in He|].
    apply send_enveloped in He as (-> & _ & _). by eapply g_ack.
  - right. eexists _, _. split; [done|]. destruct Hh. by apply g_other.
  - left. exact Hh.
Qed.

Lemma server_does_wired o t x h :
  honest (HServer x) -> from_links h x -> wired o t h -> wired o t (server_does x h).
Proof.
  intros Hh Hf [H1 H2 H3 H4 H5 H6 H7]. pose proof (server_extends (server h) x) as Hext.
  destruct (server_says (server h) x) as (outs & Hout & Hsent). unfold server_does. cbv zeta. rewrite Hout, added_app.
  split; simpl.
  - done.
  - by apply server_logs_ok.
  - by apply server_keys.
  - by apply server_acks.
  - intros m Hm%routed_down_ups_all. by apply H5.
  - intros m [Hm|[i Hi]]%routed_downs_all.
    + destruct (H6 m Hm) as [?|(c & f & -> & Hg)]; [by left|right]. exists c, f. split; [done|]. by eapply genuine_grows.
    + rewrite Forall_forall in Hsent. eapply sent_genuine; [exact Hh|exact Hf|exact (Hsent _ Hi)].
  - intros c f Hn. destruct (H7 c f Hn) as (g & -> & Hg). exists g. split; [done|]. by eapply genuine_grows.
Qed.

(** ** Every step *)

Lemma link_of_elem sk ks k : link_of sk ks = Some k -> k ∈ ks /\ k_agent k = sk.
Proof. intros H. apply find_some in H as [Hk Ha]. split; [by apply list_elem_of_In|by apply Nat.eqb_eq]. Qed.

(** A change of a socket's links that only moves or drops messages, or adds bare ones. *)
Lemma socket_wired o t h sk f :
  (forall k m, k ∈ links h -> m ∈ k_up (f k) -> ups (links h) m \/ bare m) ->
  (forall k m, k ∈ links h -> m ∈ k_down (f k) -> downs (links h) m) ->
  wired o t h -> wired o t (h <| links ::= on_socket sk f |>).
Proof.
  intros Hu Hd. apply wired_links.
  - intros m (k & (k0 & -> & Hk0)%list_elem_of_fmap & Hm). destruct (Nat.eqb (k_agent k0) sk); [by apply (Hu k0)|left; by exists k0].
  - intros m (k & (k0 & -> & Hk0)%list_elem_of_fmap & Hm). destruct (Nat.eqb (k_agent k0) sk); [by apply (Hd k0)|by exists k0].
Qed.

Lemma hub_step_wired o t x h : honest x -> wired o t h -> wired o t (hub_step (configure o) h x).
Proof.
  intros Hx Hw. destruct x; simpl.
  - destruct (from_socket i) eqn:Hi; [done|]. apply agent_does_wired; [|done]. by destruct i.
  - destruct (link_of sk (links h)) as [[a hello [i|] up down]|] eqn:Hk; try done.
    apply server_does_wired; [done|done|]. apply socket_wired; [| |done].
    + intros k m _ ->%list_elem_of_singleton. right. by exists "hello".
    + intros k m Hk' Hm. by exists k.
  - apply socket_wired; [| |done]; intros k m Hk Hm; [|by exists k]. simpl in Hm.
    apply elem_of_app in Hm as [Hm| ->%list_elem_of_singleton]; [left; by exists k|right; by exists "ping"].
  - destruct (link_of sk (links h)) as [[a hello [i|] [|m rest] down]|] eqn:Hk; try done. apply link_of_elem in Hk as [Hk _].
    apply server_does_wired; [done| |].
    + simpl. apply (w_up _ _ _ Hw). eexists. split; [exact Hk|apply list_elem_of_here].
    + apply socket_wired; [| |done]; intros k m' Hk' Hm; [|by exists k]. left. eexists. split; [exact Hk|by apply list_elem_of_further].
  - destruct (link_of sk (links h)) as [[a hello i up [|m rest]]|] eqn:Hk; try done. apply link_of_elem in Hk as [Hk _].
    apply agent_does_wired.
    + simpl. intros c f (Ht & Hc & Hf). destruct (w_down _ _ _ Hw m) as [[ty Hb]|(c' & g & -> & Hg)].
      * eexists. split; [exact Hk|apply list_elem_of_here].
      * congruence.
      * unfold str_at in Hc. simpl in Hc, Hf. injection Hc as ->. injection Hf as <-. eauto.
    + apply socket_wired; [| |done]; intros k m' Hk' Hm; [left; by exists k|]. eexists. split; [exact Hk|by apply list_elem_of_further].
  - destruct (link_of sk (links h)) as [[a hello [i|] up down]|] eqn:Hk; try done.
    apply server_does_wired; [done|done|]. apply socket_wired; [| |done]; intros k m Hk' Hm; [simpl in Hm; set_solver|by exists k].
  - apply agent_does_wired; [done|]. apply socket_wired; [| |done]; intros k m Hk Hm; [left; by exists k|simpl in Hm; set_solver].
  - destruct (from_agent x) eqn:Hi; [done|]. apply server_does_wired; [done| |done]. by destruct x.
Qed.

Lemma new_hub_wired o t t' : wired o t (new_hub o t t').
Proof.
  split; simpl.
  - by exists [].
  - apply new_logs_ok.
  - intros k g. simpl. by rewrite lookup_empty.
  - intros c f. unfold transcript_of. simpl. rewrite lookup_empty. set_solver.
  - intros m (k & Hk & _). set_solver.
  - intros m (k & Hk & _). set_solver.
  - set_solver.
Qed.

Lemma hub_run_wired o t l h : Forall honest l -> wired o t h -> wired o t (hub_run (configure o) l h).
Proof. intros Hl. revert h. induction Hl as [|x l Hx _ IH]; intros h Hh; simpl; [done|]. by apply IH, hub_step_wired. Qed.

(** ** Properties *)

(** A character that does not occur in an id. *)
Definition lacks (a : Ascii.ascii) (c : string) : Prop := a ∉ String.list_ascii_of_string c.

Lemma split_unique a c c' x x' :
  lacks a c -> lacks a c' -> c +:+ String a x = c' +:+ String a x' -> c = c' /\ x = x'.
Proof.
  unfold lacks. revert c'. induction c as [|b c IH]; intros [|b' c']; simpl; rewrite ?not_elem_of_cons.
  - by intros _ _ [= ->].
  - by intros _ [Hb _] [= -> _].
  - by intros [Hb _] _ [= -> _].
  - intros [_ H1] [_ H2] [= -> H]. by destruct (IH c' H1 H2 H) as [-> ->].
Qed.

(** The seq of an ack, of a frame that is in a transcript. *)
Lemma ack_seq t y f d n : assoc "seq" f = Some (num n) -> int_at "seq" (JObj (ack_of t y f d)) = Some n.
Proof.
  intros Hf. unfold ack_of. rewrite Hf. unfold set_defined. destruct (assoc "id" f); simpl; unfold int_at; simpl;
    unfold is_integer, to_integer, num; simpl; by rewrite ?Z.div_1_r, ?Z.mod_1_r.
Qed.

Lemma ack_client t y f d : str_at "clientId" (JObj (ack_of t y f d)) = Some y.
Proof. unfold ack_of, set_defined. by destruct (assoc "id" f), (assoc "seq" f). Qed.

Lemma ack_type t y f d : str_at "type" (JObj (ack_of t y f d)) = Some "ack".
Proof. unfold ack_of, set_defined. by destruct (assoc "id" f), (assoc "seq" f). Qed.

(** C7. An acknowledged send is in the server's transcript.  However the agent,
    the server and the network interleave, with connections lost, frames resent
    and acks repeated: if the promise of a send resolves with an ack, then the
    agent wrote that send, and the transcript of its conversation holds it at
    the seq the ack gives.  It takes that the test does not forge acks
    ([honest]), that no conversation written to has ":" or NUL in its id, that
    the agent sends no acks itself, and that a clientId names one frame per
    conversation.  With ":" in the ids it is false:
    [FakeServerFacts.colliding_conversations]. *)
Theorem acked_send_stored (o : AgentOptions) (t t' : Z) (l : list hub_input) (id : nat) (f : json) :
  let h := hub_run (configure o) l (new_hub o t t') in
  Forall honest l ->
  (forall e, wrote (agent h) e -> lacks ":"%char (o_conversationId e) /\ lacks Ascii.zero (o_conversationId e) /\ frame_type (o_frame e) <> "ack") ->
  (forall e e', wrote (agent h) e -> wrote (agent h) e' -> o_conversationId e = o_conversationId e' ->
     o_clientId e = o_clientId e' -> o_frame e = o_frame e') ->
  OSettle id (SAcked f) ∈ Agent.log (agent h) ->
  exists e n now mid, wrote (agent h) e /\ o_id e = id /\ int_at "seq" f = Some (Z.of_nat n + 1) /\
    transcript (o_conversationId e) (server h) !! n = Some (with_seq (Z.of_nat n + 1) (stored_frame now mid (o_frame e))).
Proof.
  intros h Hl Hclean Hone Hs. pose proof (hub_run_wired o t l _ Hl (new_hub_wired o t t')) as [[la Ha] H2 H3 H4 _ _ H7].
  fold h in Ha, H2, H3, H4, H7.
  destruct (fresh_acks_ok o t la id f) as (c & e & Hn & Hty & [sk He] & Hid & Htr & Hkey); [by rewrite <- Ha|].
  rewrite <- Ha in Hn, He. destruct (H7 c f Hn) as (g & -> & Hg).
  assert (Hw : wrote (agent h) e) by by exists sk.
  destruct Hg as [g Hg|g v Hg|e1 y g tm d Hw1 Hc1 Hg|g Hg _].
  - destruct (H4 c g Hg Hty) as (e0 & Hw0 & Ht0). by destruct (Hclean e0 Hw0) as (_ & _ & ?).
  - destruct (H4 c g Hg) as (e0 & Hw0 & Ht0); [|by destruct (Hclean e0 Hw0) as (_ & _ & ?)].
    revert Hty. unfold str_at. simpl. by rewrite assoc_set.
  - rewrite ack_client in Hkey. destruct (o_clientId e) as [x|] eqn:Hx; [|done].
    destruct (Hclean e Hw) as (He1 & He2 & _), (Hclean e1 Hw1) as (_ & Hc2 & _). rewrite Hc1 in Hc2. unfold entry_key, key_of in Hkey. rewrite Hx in Hkey.
    destruct (split_unique _ _ _ _ _ He2 Hc2 Hkey) as [Hcc Hxy]. simpl in Hxy. subst x c.
    destruct (H3 _ g Hg) as (e0 & y0 & n & tm0 & mid & Hw0 & Hack & Hy0 & Hk0 & -> & Hin).
    destruct (Hclean e0 Hw0) as (H01 & _ & _). unfold dedup_key in Hk0. rewrite <- Hcc in Hk0. clear Hcc.
    destruct (split_unique _ _ _ _ _ He1 H01 Hk0) as [Hcc <-].
    assert (o_clientId e0 = Some y) as Hx0.
    { destruct (fresh_named o t la) as [_ Hnm]. rewrite <- Ha in Hnm. destruct Hw0 as [sk0 Hw0]. by apply (Hnm sk0). }
    rewrite <- Hcc in Hin. rewrite <- (Hone e e0) in Hin by congruence. apply list_elem_of_lookup in Hin as [i Hi].
    pose proof (lo_seq _ H2 _ _ _ Hi) as Hseq. rewrite (Hone e0 e) in * by congruence.
    exists e, i, tm0, mid. split; [done|]. split; [done|].
    assert (n = Z.of_nat i + 1) as ->.
    { rewrite assoc_with_seq in Hseq. unfold num in Hseq. injection Hseq as Hz. done. }
    split; [by apply ack_seq|done].
  - by destruct Hg.
Qed.

Lemma assoc_set_meta v (f : FakeFrame) : assoc "seq" (map_set "meta" v f) = assoc "seq" f.
Proof. by rewrite assoc_set. Qed.

Lemma int_at_num (f : FakeFrame) n : assoc "seq" f = Some (num n) -> int_at "seq" (JObj f) = Some n.
Proof. intros Hf. unfold int_at. simpl. rewrite Hf. unfold is_integer, to_integer, num. simpl. by rewrite ?Z.div_1_r, ?Z.mod_1_r. Qed.

Lemma notified_elem c f s : f ∈ notified c s -> ONotify f (Some c) ∈ Agent.log s.
Proof.
  unfold notified. rewrite list_elem_of_In, <- in_rev, <- list_elem_of_In, list_elem_of_omap. intros (x & Hx & Hf).
  destruct x as [|g [c'|]| | | | | | | | | | | | | | |]; try done. destruct (String.eqb_spec c' c) as [->|]; [|done]. by injection Hf as ->.
Qed.


(** A frame with a seq the agent heard of is in the transcript, at that seq. *)
Lemma genuine_stored o t h c g q :
  wired o t h -> (forall e, wrote (agent h) e -> lacks ":"%char (o_conversationId e)) ->
  genuine (agent h) (server h) c g -> int_at "seq" (JObj g) = Some q ->
  exists n f, transcript_of c (server h) !! n = Some f /\ q = Z.of_nat n + 1.
Proof.
  intros [_ H2 H3 _ _ _ _] Hclean Hg Hq.
  assert (Hin : forall f, f ∈ transcript_of c (server h) -> int_at "seq" (JObj g) = int_at "seq" (JObj f) ->
                exists n f, transcript_of c (server h) !! n = Some f /\ q = Z.of_nat n + 1).
  { intros f [n Hn]%list_elem_of_lookup Hs. exists n, f. split; [done|].
    rewrite Hs, (int_at_num f _ (lo_seq _ H2 _ _ _ Hn)) in Hq. by injection Hq. }
  destruct Hg as [g Hg|g v Hg|e1 y g tm d Hw1 Hc1 Hg|g Hg Hseq].
  - by apply (Hin g).
  - apply (Hin g); [done|]. unfold int_at. simpl. by rewrite assoc_set_meta.
  - destruct (H3 _ g Hg) as (e0 & y0 & n & tm0 & mid & Hw0 & _ & _ & Hk & -> & Hin0).
    pose proof (Hclean e1 Hw1) as He1. rewrite Hc1 in He1.
    destruct (split_unique _ _ _ _ _ He1 (Hclean e0 Hw0) Hk) as [Hc _]. rewrite <- Hc in Hin0. apply (Hin _ Hin0).
    pose proof (assoc_with_seq n (stored_frame tm0 mid (o_frame e0))) as Hs. by rewrite (ack_seq _ _ _ _ _ Hs), (int_at_num _ _ Hs).
  - unfold int_at in Hq. simpl in Hq. by rewrite Hseq in Hq.
Qed.


(** ** A run *)

(** The agent connects, sends "a", is acked; a user speaks and the turn starts;
    "b" is stored but its connection is lost before the ack: the agent
    reconnects, sends it again and is told it is a duplicate. *)
Definition ex_hub_run : list hub_input :=
  [HAgent (ex_at 0) IOnTurn; HAgent (ex_at 0) IStart; HOpen 1; HUp 1 5; HDown 1 (ex_at 10);
   HAgent (ex_at 20) (ISend "c" (ex_text "a")); HUp 1 25; HDown 1 (ex_at 30);
   HServer (SUserSays 40 "c" (SaysText "hello") true None); HDown 1 (ex_at 45);
   HAgent (ex_at 45) (IRunTurn "c"); HAgent (ex_at 45) (IAcquired "c");
   HAgent (ex_at 50) (ISend "c" (ex_text "b")); HUp 1 55; HUpClosed 1; HDownClosed 1 (ex_at 60) (mkClose 1006 "" true None);
   HAgent (ex_at 560) (ITimer 3); HOpen 4; HUp 4 565; HDown 4 (ex_at 570); HDown 4 (ex_at 571);
   HUp 4 575; HDown 4 (ex_at 580)].

Definition ex_hub : Hub := hub_run (configure ex_options) ex_hub_run (new_hub ex_options 0 0).

Definition hub_writes (h : Hub) : list Outgoing :=
  omap (fun o => match o with OWrite _ e => Some e | _ => None end) (Agent.log (agent h)).

Lemma wrote_writes h e : wrote (agent h) e -> e ∈ hub_writes h.
Proof. intros [sk H]. apply list_elem_of_omap. by exists (OWrite sk e). Qed.

(** The promise of send [id], if it resolved with an ack. *)
Definition ack_for (id : nat) (s : Agent) : option json :=
  head (omap (fun o => match o with OSettle id' (SAcked f) => if Nat.eqb id' id then Some f else None | _ => None end) (Agent.log s)).

Lemma ack_for_elem id s f : ack_for id s = Some f -> OSettle id (SAcked f) ∈ Agent.log s.
Proof.
  unfold ack_for. intros (l & Hl)%head_Some. assert (Hin : f ∈ f :: l) by apply list_elem_of_here. rewrite <- Hl in Hin.
  apply list_elem_of_omap in Hin as (x & Hx & Hf). destruct x as [| | | | | | |id' [f'| |]| | | | | | | | |]; try done.
  destruct (Nat.eqb_spec id' id) as [->|]; [|done]. by injection Hf as ->.
Qed.

Lemma ex_hub_honest : Forall honest ex_hub_run.
Proof. repeat (constructor; [exact I|]). constructor. Qed.

Lemma ex_hub_sends :
  map (fun e => (o_conversationId e, o_clientId e, o_frame e)) (hub_writes ex_hub)
  = [("c", Some "b", ex_text "b"); ("c", Some "b", ex_text "b"); ("c", Some "a", ex_text "a")].
Proof. vm_compute. reflexivity. Qed.

Lemma map_elem {A B} (g : A -> B) l k x : map g l = k -> x ∈ l -> g x ∈ k.
Proof. intros <-. apply list_elem_of_fmap_2. Qed.

Lemma some_map {A B} (g : A -> B) o v x : g <$> o = Some v -> o = Some x -> g x = v.
Proof. intros Hv ->. by injection Hv. Qed.

Lemma ex_hub_runs : hub_run (configure ex_options) ex_hub_run (new_hub ex_options 0 0) = ex_hub.
Proof. unfold ex_hub. exact eq_refl. Qed.

Lemma ex_hub_duplicate : bool_at "duplicate" <$> ack_for 1 (agent ex_hub) = Some (Some true).
Proof. vm_compute. reflexivity. Qed.

Lemma ex_hub_handled : map (int_at "seq") (handled "c" (agent ex_hub)) = [Some 2].
Proof. vm_compute. reflexivity. Qed.

Lemma ex_hub_wrote e :
  wrote (agent ex_hub) e -> o_conversationId e = "c" /\ exists x, o_clientId e = Some x /\ o_frame e = ex_text x.
Proof.
  intros He%wrote_writes%(map_elem _ _ _ _ ex_hub_sends). rewrite !elem_of_cons in He.
  destruct He as [[= -> -> ->]|[[= -> -> ->]|[[= -> -> ->]|He]]]; [eauto..|set_solver].
Qed.

Lemma acked_send_stored_witness :
  exists f, ack_for 1 (agent ex_hub) = Some f /\ bool_at "duplicate" f = Some true /\
  exists e n now mid, wrote (agent ex_hub) e /\ o_id e = 1%nat /\ int_at "seq" f = Some (Z.of_nat n + 1) /\
    transcript (o_conversationId e) (server ex_hub) !! n = Some (with_seq (Z.of_nat n + 1) (stored_frame now mid (o_frame e))).
Proof.
  pose proof ex_hub_duplicate as Hd. destruct (ack_for 1 (agent ex_hub)) as [f|] eqn:Hf; [|done].
  exists f. split; [done|]. split; [by apply (some_map _ _ _ _ Hd)|].
  pose proof (acked_send_stored ex_options 0 0 ex_hub_run 1 f ex_hub_honest) as T. cbv zeta in T. rewrite ex_hub_runs in T.
  apply T; [| |by apply ack_for_elem].
  - intros e (-> & x & _ & ->)%ex_hub_wrote. split; [|split]; [refine (bool_decide_eq_true_1 _ _); reflexivity..|done].
  - intros e e' (_ & x & Hx & ->)%ex_hub_wrote (_ & x' & Hx' & ->)%ex_hub_wrote _. rewrite Hx, Hx'. by intros [= ->].
Defined.


