(* ===== verification/Conversation.v ===== *)
(** * Conversation: one conversation session of the client SDK
    ([packages/client-ts/src/conversation.ts], class [Conversation]).

    The private fields are the record [Conversation]; every method and every
    callback is a function on it that takes the moment's [Env] (the clock, one
    random draw, and what the transports accept).  An [await] ends a function:
    the rest is a [task], run by [run_task] when its promise settles, in any
    order.  [setTimeout] hands out fresh handles; a handle whose timer was
    cleared or has fired is no longer in [timers].  What the session does to
    the outside (frames on the wire, events, settled promises, requests) is
    appended to [log], newest first.

    Not modelled: listeners that call back into the session while it emits.
    Seqs and watermarks are integers, as the protocol has them. *)

From stdpp Require Import base gmap sets list strings.
From Stdlib Require Import ZArith QArith Qminmax Lia Ascii.
From S2P Require Import Prelude Backoff Frames Watermark Storage Outbox Errors Token Receive.

Open Scope string_scope.
Open Scope list_scope.
Open Scope Z_scope.

(** ** Transports, as the session sees them *)

(* @src packages/client-ts/src/transport/types.ts 43-53 TransportCapabilities *)
Record TransportCapabilities := mkCapabilities {
  auth : bool;
  sync : bool;
  signals : bool;
  requiresConversationId : bool;
}.

(* @src packages/client-ts/src/transport/types.ts 33-41 TransportClose *)
Record TransportClose := mkClose {
  close_code : Z;
  close_reason : string;
  close_retryAfterMs : option Z;
  close_opened : bool;
}.

(** A transport object; [tr_id] is its identity. *)
(* @src packages/client-ts/src/transport/types.ts 82-92 Transport *)
Record Transport := mkTransport {
  tr_id : nat;
  tr_name : string;
  capabilities : TransportCapabilities;
}.

(** A factory: its [transportName], and what creating a transport yields (a
    custom factory may throw; [inl None] is not a [ConvergerError]). *)
(* @src packages/client-ts/src/transport/types.ts 94-95 TransportFactory *)
Record TransportFactory := mkFactory {
  transportName : option string;
  make : option ConvergerError + string * TransportCapabilities;
}.

(* @src packages/client-ts/src/transport/types.ts 55-64 TransportConnectParams *)
Record ConnectParams := mkParams {
  cp_token : string;
  cp_conversationId : option string;
  cp_userId : option string;
  cp_watermark : option Z;
}.

(** ** Session data *)

(* @src packages/client-ts/src/conversation.ts 34-35 ConnectionState *)
Inductive ConnectionState := idle | connecting | open | reconnecting | closed.

#[export] Instance ConnectionState_eq_dec : EqDecision ConnectionState.
Proof. solve_decision. Defined.

(* @src packages/client-ts/src/conversation.ts 37-51 ConnectionStateChange *)
Record ConnectionStateChange := mkChange {
  ch_state : ConnectionState;
  ch_previous : ConnectionState;
  ch_attempt : Z;
  ch_delayMs : option Z;
  ch_transport : string;
  ch_close : option TransportClose;
  ch_error : option ConvergerError;
}.

(* @src packages/client-ts/src/conversation.ts 53-62 SendResult *)
Record SendResult := mkResult {
  res_clientId : string;
  res_id : string;
  res_seq : option Z;
  res_timestamp : option Z;
  res_duplicate : bool;
}.

(* @src packages/client-ts/src/conversation.ts 70-93 ConversationEvents *)
Inductive event :=
| EActivity (frame : Frame)
| EDeliveryStatus (data : json)
| ETyping (frame : Frame)
| EPresence (data : json)
| EConnectionState (change : ConnectionStateChange)
| EWelcome (data : WelcomeData)
| ESent (result : SendResult)
| ESendFailed (clientId : string) (error : ConvergerError)
| EReplayTruncated (data : ReplayTruncated)
| EError (error : ConvergerError).

(** What [send] accepts; [s_text = None] is a [text] that is not a string. *)
(* @src packages/client-ts/src/conversation.ts 95-107 SendMessage *)
Record SendMessage := mkSend {
  s_text : option string;
  s_attachments : option (list json);
  s_metadata : option (list (string * json));
  s_meta : option (list (string * json));
  s_replyTo : option string;
  s_clientId : option string;
}.

(** What never changes during a session. *)
(* @src packages/client-ts/src/conversation.ts 109-124 ConversationDeps *)
Record ConversationDeps := mkDeps {
  transports : list TransportFactory;
  fallbackAfterAttempts : Z;
  reconnect : ResolvedReconnect;
  replayWaitMs : Z;
  gapWaitMs : Z;
}.

(* @src packages/client-ts/src/conversation.ts 127-132 FATAL_CLOSE_CODES *)
Definition FATAL_CLOSE_CODES : list Z :=
  [CloseCode.unsupportedProtocol; CloseCode.forbidden; CloseCode.conversationNotFound; 4404].
(* @src packages/client-ts/src/conversation.ts 133-133 MAX_AUTH_REJECTIONS *)
Definition MAX_AUTH_REJECTIONS : Z := 3.

(** The callbacks given to [setTimeout]. *)
Inductive timer_action :=
| TReconnect
| TRefresh
| TReplay
| TGap (highest : Z)
| TSync (from : Z)
| TRetry.

(** The rest of an async function, waiting for a promise.  [token] is the
    [#connectToken] of the attempt, [tr] the transport it created; [loads]
    says whether [attach] waits for a [load]. *)
Inductive task :=
| KResumeLoad (watermark : option Q)
| KBase (token : nat) (tr : Transport)
| KCreate (token : nat) (tr : Transport)
| KCreateAttach (token : nat) (tr : Transport) (loads : bool) (conversation_token : string) (expires_in : Q)
| KConversation (token : nat) (tr : Transport)
| KToken (token : nat) (tr : Transport)
| KRejected
| KRefresh
| KExpired
| KAttach (loads : bool)
| KDisconnect.

(** How a promise settles; a rejection with [None] is not a [ConvergerError]. *)
Inductive outcome :=
| OkToken (t : ActiveToken)
| OkConversation (conversationId token : string) (expires_in : Q)
| OkRead (r : read_result)
| OkDone
| Failed (e : option ConvergerError).

Inductive output :=
| OEmit (e : event)
| OConnect (tr : nat) (params : ConnectParams)
| OWire (tr : nat) (frame : ClientFrame)
| OCloseTransport (tr : nat) (code : Z) (reason : string)
| OResolve (clientId : string) (result : SendResult)
| OReject (clientId : string) (e : ConvergerError)
| OReady (data : WelcomeData)
| OReadyFailed (e : ConvergerError)
| OTokenGet
| OTokenFetch (r : TokenRequestReason)
| OCreateConversation (token : string)
| OGetConversation (token conversationId : string)
| ODispose.

(** [#ready]: not created, created, or settled (settling again does nothing). *)
Inductive ready_state := NoReady | ReadyPending | ReadySettled.

(* @src packages/client-ts/src/conversation.ts 174-212 Conversation *)
Record Conversation (T : Type) := mkConversation {
  store : ConversationStore;
  tokens : T;
  conversationId : option string;
  userId : option string;
  window : Window;
  ownIds : list string;
  state : ConnectionState;
  transport : option Transport;
  transportIndex : nat;
  failuresOnTransport : Z;
  attempt : Z;
  authRejections : Z;
  stopped : bool;
  started : bool;
  welcomed : bool;
  connectToken : nat;
  reconnectTimer : option nat;
  refreshTimer : option nat;
  replayTimer : option nat;
  gapTimer : option nat;
  syncTimer : option nat;
  replaying : bool;
  replayTarget : Z;
  maxInFlight : Z;
  inFlight : gset string;
  retryAt : gmap string Z;
  retryTimer : option nat;
  waiting : list string;
  ready : ready_state;
  lastWelcome : option WelcomeData;
  fatal : option ConvergerError;
  timers : gmap nat (timer_action * Q);
  nextTimer : nat;
  tasks : gmap nat task;
  nextTask : nat;
  nextTransport : nat;
  log : list output;
}.

Arguments mkConversation {T}.
Arguments store {T} _. Arguments tokens {T} _. Arguments conversationId {T} _.
Arguments userId {T} _. Arguments window {T} _. Arguments ownIds {T} _.
Arguments state {T} _. Arguments transport {T} _. Arguments transportIndex {T} _.
Arguments failuresOnTransport {T} _. Arguments attempt {T} _. Arguments authRejections {T} _.
Arguments stopped {T} _. Arguments started {T} _. Arguments welcomed {T} _.
Arguments connectToken {T} _. Arguments reconnectTimer {T} _. Arguments refreshTimer {T} _.
Arguments replayTimer {T} _. Arguments gapTimer {T} _. Arguments syncTimer {T} _.
Arguments replaying {T} _. Arguments replayTarget {T} _. Arguments maxInFlight {T} _.
Arguments inFlight {T} _. Arguments retryAt {T} _. Arguments retryTimer {T} _.
Arguments waiting {T} _. Arguments ready {T} _. Arguments lastWelcome {T} _.
Arguments fatal {T} _. Arguments timers {T} _. Arguments nextTimer {T} _.
Arguments tasks {T} _. Arguments nextTask {T} _. Arguments nextTransport {T} _.
Arguments log {T} _.

#[export] Instance eta_conversation T : Eta (Conversation T) :=
  fun s => mkConversation (store s) (tokens s) (conversationId s) (userId s) (window s) (ownIds s) (state s) (transport s)
        (transportIndex s) (failuresOnTransport s) (attempt s) (authRejections s) (stopped s)
        (started s) (welcomed s) (connectToken s) (reconnectTimer s) (refreshTimer s)
        (replayTimer s) (gapTimer s) (syncTimer s) (replaying s) (replayTarget s)
        (maxInFlight s) (inFlight s) (retryAt s) (retryTimer s) (waiting s) (ready s)
        (lastWelcome s) (fatal s) (timers s) (nextTimer s) (tasks s) (nextTask s)
        (nextTransport s) (log s).

(** The moment a callback runs: [Date.now()], one draw of [Math.random()], and
    which frames a transport's [send] accepts. *)
Record Env := mkEnv { now : Z; random : Q; accepts : nat -> ClientFrame -> bool }.

(** [CLIENT_ID]: 1 to 128 of [A-Za-z0-9._:~-]. *)
Definition client_id_char (c : ascii) : bool :=
  let n := Z.of_N (Ascii.N_of_ascii c) in
  ((65 <=? n) && (n <=? 90)) || ((97 <=? n) && (n <=? 122)) || ((48 <=? n) && (n <=? 57))
  || bool_decide (c ∈ ["."%char; "_"%char; ":"%char; "~"%char; "-"%char]).

(* @src packages/client-ts/src/conversation.ts 126-126 CLIENT_ID *)
Definition CLIENT_ID (id : string) : bool :=
  (1 <=? Z.of_nat (String.length id)) && (Z.of_nat (String.length id) <=? 128)
  && forallb client_id_char (String.list_ascii_of_string id).

(** ** The runtime: timers, promises, the log *)

Section Session.
Context {T : Type} `{TokenSource T} (deps : ConversationDeps).
Notation conv := (Conversation T).

Definition say (o : output) (s : conv) : conv := s <| log ::= cons o |>.
Definition emit (e : event) (s : conv) : conv := say (OEmit e) s.

Definition setTimeout (a : timer_action) (delay : Q) (s : conv) : nat * conv :=
  (nextTimer s, s <| timers ::= <[nextTimer s := (a, delay)]> |> <| nextTimer ::= S |>).

(** [if (handle) clearTimeout(handle)]. *)
Definition clearTimeout (handle : option nat) (s : conv) : conv :=
  match handle with
  | Some h => s <| timers ::= delete h |>
  | None => s
  end.

(** Suspend at an [await]. *)
Definition await (k : task) (s : conv) : conv :=
  s <| tasks ::= <[nextTask s := k]> |> <| nextTask ::= S |>.

(** [this.#transport?.send(frame)]. *)
Definition wire (env : Env) (f : ClientFrame) (s : conv) : bool * conv :=
  match transport s with
  | Some tr => if accepts env (tr_id tr) f then (true, say (OWire (tr_id tr) f) s) else (false, s)
  | None => (false, s)
  end.

(** [this.#ready?.resolve] and [reject]. *)
Definition resolve_ready (d : WelcomeData) (s : conv) : conv :=
  match ready s with ReadyPending => say (OReady d) (s <| ready := ReadySettled |>) | _ => s end.
Definition reject_ready (e : ConvergerError) (s : conv) : conv :=
  match ready s with ReadyPending => say (OReadyFailed e) (s <| ready := ReadySettled |>) | _ => s end.

(** Settle the promise of a send, if the session holds one. *)
Definition settle_wait (id : string) (o : output) (s : conv) : conv :=
  if bool_decide (id ∈ waiting s)
    then say o (s <| waiting ::= filter (fun x => x <> id) |>)
  else s.

(** ** State *)

Definition custom_factory : TransportFactory := mkFactory None (inl None).

(* @src packages/client-ts/src/conversation.ts 400-403 currentFactory *)
Definition currentFactory (s : conv) : TransportFactory :=
  nth (Nat.min (transportIndex s) (length (transports deps) - 1)) (transports deps) custom_factory.

(* @src packages/client-ts/src/conversation.ts 250-252 transport *)
Definition transport_name (s : conv) : string := transportName (currentFactory s) ?? "custom".

(* @src packages/client-ts/src/conversation.ts 568-577 setState *)
Definition setState (st : ConnectionState) (delayMs : option Z) (close : option TransportClose)
  (err : option ConvergerError) (s : conv) : conv :=
  let previous := state s in
  if bool_decide (previous = st) && negb (bool_decide (st = reconnecting)) then s
  else
    let s := s <| state := st |> in
    emit (EConnectionState (mkChange st previous (attempt s) delayMs (transport_name s) close err)) s.

(* @src packages/client-ts/src/conversation.ts 893-901 saveState *)
Definition saveState (s : conv) : conv :=
  match conversationId s with
  | None | Some "" => s
  | Some id =>
      let st := mkResume id (if truthy (userId s) then userId s else None) (watermark (window s)) in
      s <| store ::= Outbox.setState st |>
  end.

(* @src packages/client-ts/src/conversation.ts 579-583 clearTimers *)
Definition clearTimers (s : conv) : conv :=
  fold_left (fun s' handle => clearTimeout handle s')
  [reconnectTimer s; refreshTimer s; replayTimer s; gapTimer s; syncTimer s; retryTimer s] s.

(* @src packages/client-ts/src/conversation.ts 585-588 rejectWaiting *)
Definition rejectWaiting (e : ConvergerError) (s : conv) : conv :=
  fold_left (fun s id => say (OReject id e) s) (waiting s) s <| waiting := [] |>.

(* @src packages/client-ts/src/conversation.ts 555-566 close *)
Definition close (e : ConvergerError) (c : TransportClose) (s : conv) : conv :=
  let s := s <| stopped := true |> <| fatal := Some e |> in
  let s := clearTimers s in
  let tr := transport s in
  let s := s <| transport := None |> in
  let s := match tr with Some t => say (OCloseTransport (tr_id t) CloseCode.normal "closing") s | None => s end in
  let s := setState closed None (Some c) (Some e) s in
  let s := rejectWaiting e s in
  let s := reject_ready e s in
  say ODispose s.

(** ** The outbox on the wire *)

(** One pass over the outbox; [touch] updates the visited entry only. *)
(* @src packages/client-ts/src/conversation.ts 838-847 flush *)
Fixpoint flush_loop (env : Env) (tr : Transport) (l : list OutboxEntry) (s : conv) : conv :=
  match l with
  | [] => s
  | e :: l =>
      let id := clientId e in
      if maxInFlight s <=? Z.of_nat (size (inFlight s)) then s
      else if bool_decide (id ∈ inFlight s) then flush_loop env tr l s
      else if match retryAt s !! id with Some t => now env <? t | None => false end then flush_loop env tr l s
      else
        let s := s <| retryAt ::= delete id |> in
        if accepts env (tr_id tr) (CText (frame e)) then
          let s := say (OWire (tr_id tr) (CText (frame e))) s in
          let s := s <| inFlight ::= union {[id]} |> <| store ::= touch id |> in
          flush_loop env tr l s
        else s
  end.

(* @src packages/client-ts/src/conversation.ts 834-848 flush *)
Definition flush (env : Env) (s : conv) : conv :=
  match transport s with
  | Some tr =>
      if bool_decide (state s = open) && negb (replaying s)
        then flush_loop env tr (entries (store s)) s
      else s
  | None => s
  end.

(** The earliest retry, [None] when there is none ([Infinity]). *)
Definition next_retry (m : gmap string Z) : option Z :=
  map_fold (fun _ t acc => Some (match acc with Some a => Z.min a t | None => t end)) None m.

(* @src packages/client-ts/src/conversation.ts 850-859 scheduleRetry *)
Definition scheduleRetry (env : Env) (s : conv) : conv :=
  let s := clearTimeout (retryTimer s) s in
  match next_retry (retryAt s) with
  | None => s
  | Some next =>
      let '(h, s) := setTimeout TRetry (inject_Z (Z.max 0 (next - now env))) s in
      s <| retryTimer := Some h |>
  end.

(** ** Frames *)

(* @src packages/client-ts/src/conversation.ts 688-694 endReplay *)
Definition endReplay (env : Env) (doFlush : bool) (s : conv) : conv :=
  let s := clearTimeout (replayTimer s) s <| replayTimer := None |> in
  if negb (replaying s) then s
  else
    let s := s <| replaying := false |> in
    if doFlush then flush env s else s.

(* @src packages/client-ts/src/conversation.ts 683-686 armReplayTimer *)
Definition armReplayTimer (s : conv) : conv :=
  let '(h, s) := setTimeout TReplay (inject_Z (replayWaitMs deps)) (clearTimeout (replayTimer s) s) in
  s <| replayTimer := Some h |>.

(* @src packages/client-ts/src/conversation.ts 748-760 markSeen *)
Definition markSeen (seq : Z) (s : conv) : conv :=
  let '(advanced, w) := mark seq (window s) in
  let s := s <| window := w |> in
  if advanced then saveState s else s.

(* @src packages/client-ts/src/conversation.ts 766-775 checkGap *)
Definition checkGap (highest : Z) (s : conv) : conv :=
  if bool_decide (is_Some (gapTimer s)) || replaying s || (0 <? Z.of_nat (size (inFlight s))) then s
  else match transport s with
       | Some tr =>
           if negb (sync (capabilities tr)) then s
           else if highest <=? watermark (window s) then s
           else
             let '(h, s) := setTimeout (TGap highest) (inject_Z (gapWaitMs deps)) s in
             s <| gapTimer := Some h |>
       | None => s
       end.

(** [Set.add] of an own id, keeping the last thousand. *)
Definition add_own_id (id : string) (l : list string) : list string :=
  let l := if bool_decide (id ∈ l) then l else l ++ [id] in
  if 1000 <? Z.of_nat (length l) then tail l else l.

(* @src packages/client-ts/src/conversation.ts 726-746 settle *)
Definition settle (a : AckFrame) (s : conv) : conv :=
  let s := match ack_seq a with
           | Some q => if watermark (window s) <? q
                         then s <| window ::= fun w => w <| ownSeqs ::= union {[q]} |> |> else s
           | None => s
           end in
  let s := s <| ownIds ::= add_own_id (ack_id a) |> in
  let id := ack_clientId a in
  let s := s <| inFlight ::= fun l => l ∖ {[id]} |> <| retryAt ::= delete id |> in
  let '(entry, st) := Outbox.remove id (store s) in
  let s := s <| store := st |> in
  let wait := bool_decide (id ∈ waiting s) in
  if negb (bool_decide (is_Some entry)) && negb wait then s
  else
    let result := mkResult id (ack_id a) (ack_seq a) (ack_timestamp a) (ack_duplicate a ?? false) in
    emit (ESent result) (settle_wait id (OResolve id result) s).

(* @src packages/client-ts/src/conversation.ts 720-724 onAck *)
Definition onAck (env : Env) (a : AckFrame) (s : conv) : conv :=
  let s := match ack_seq a with Some q => markSeen q s | None => s end in
  flush env (settle a s).

(** A replayed own turn whose ack was lost. *)
(* @src packages/client-ts/src/conversation.ts 711-718 ownTurn *)
Definition ownTurn (f : Frame) (s : conv) : bool * conv :=
  match f_clientId f with
  | Some id =>
      if bool_decide (f_from f = Some "user") && bool_decide (is_Some (Outbox.get id (store s)))
        then (true, settle (mkAckFrame id (f_id f ?? "undefined") (Some (seq_of (f_seq f))) None (Some true)) s)
      else (false, s)
  | None => (false, s)
  end.

(* @src packages/client-ts/src/conversation.ts 696-709 onPersistent *)
Definition onPersistent (env : Env) (f : Frame) (s : conv) : conv :=
  let seq := seq_of (f_seq f) in
  let s :=
    if duplicate seq (window s) then s
    else
      let s := markSeen seq s in
      let '(own, s) := ownTurn f s in
      if own || bool_decide (seq ∈ ownSeqs (window s))
        || match f_id f with Some id => bool_decide (id ∈ ownIds s) | None => false end
        then s
      else if String.eqb (f_type f) "typing" then emit (ETyping f) s else emit (EActivity f) s in
  let s := if replaying s && (replayTarget s <=? seq) then endReplay env true s else s in
  if watermark (window s) <? seq then checkGap seq s else s.

(** ** Token refresh *)

(* @src packages/client-ts/src/conversation.ts 865-871 scheduleRefresh *)
Definition scheduleRefresh (env : Env) (s : conv) : conv :=
  let s := clearTimeout (refreshTimer s) s in
  match ts_refreshDelay (inject_Z (now env)) (tokens s) with
  | None => s
  | Some delay =>
      let '(h, s) := setTimeout TRefresh (Qmin delay (inject_Z (2 ^ 31 - 1))) s in
      s <| refreshTimer := Some h |>
  end.

(** [#refresh] up to its [await]. *)
(* @src packages/client-ts/src/conversation.ts 873-875 refresh *)
Definition refresh (s : conv) : conv := await KRefresh (say (OTokenFetch Token.refresh) s).

(* @src packages/client-ts/src/conversation.ts 876-890 refresh *)
Definition refresh_settled (env : Env) (r : option ConvergerError + ActiveToken) (s : conv) : conv :=
  match r with
  | inr fresh =>
      match transport s with
      | Some tr =>
          if auth (capabilities tr) && bool_decide (state s = open)
            then (wire env (CAuth (token fresh)) s).2
          else scheduleRefresh env s
      | None => scheduleRefresh env s
      end
  | inl e =>
      let s := emit (EError (e ?? error "token_provider_failed" "token refresh failed")) s in
      let '(h, s) := setTimeout TRefresh 10000 (clearTimeout (refreshTimer s) s) in
      s <| refreshTimer := Some h |>
  end.

(** ** Reconnects *)

(* @src packages/client-ts/src/conversation.ts 528-553 scheduleReconnect *)
Definition scheduleReconnect (env : Env) (c : TransportClose) (s : conv) : conv :=
  let policy := reconnect deps in
  if negb (enabled policy) then
    close (ConvergerClosedError "disconnected and reconnecting is disabled" "disconnected") c s
  else
    let s := s <| attempt ::= Z.succ |> in
    let limit := maxAttempts policy ?? attempt s in
    if limit <? attempt s then
      close (ConvergerClosedError ("gave up after " +:+ str_of (decimal limit) +:+ " attempts") "reconnect_failed") c s
    else
      let s :=
        if close_opened c then s
        else
          let s := s <| failuresOnTransport ::= Z.succ |> in
          if (fallbackAfterAttempts deps <=? failuresOnTransport s)
            && (transportIndex s <? length (transports deps) - 1)%nat
            then s <| transportIndex ::= S |> <| failuresOnTransport := 0 |>
          else s in
      let delayMs := backoffDelay (attempt s) policy (inject_Z <$> close_retryAfterMs c) (random env) in
      let s := setState reconnecting (Some delayMs) (Some c) None s in
      let '(h, s) := setTimeout TReconnect (inject_Z delayMs) s in
      s <| reconnectTimer := Some h |>.

(** The error code of a fatal close, and [reason || code]. *)
Definition fatal_code (code : Z) : string :=
  if code =? CloseCode.unsupportedProtocol then "unsupported_protocol"
  else if code =? CloseCode.forbidden then "channel_inactive" else "conversation_not_found".

(* @src packages/client-ts/src/conversation.ts 494-526 onClose *)
Definition onClose (env : Env) (c : TransportClose) (s : conv) : conv :=
  let s := s <| transport := None |> <| inFlight := ∅ |> in
  let s := endReplay env false s in
  let s := clearTimeout (refreshTimer s) s in
  let s := clearTimeout (gapTimer s) s in
  let s := clearTimeout (syncTimer s) s in
  if stopped s then s
  else if bool_decide (close_code c ∈ FATAL_CLOSE_CODES) then
    let code := fatal_code (close_code c) in
    close (ConvergerClosedError (if String.eqb (close_reason c) "" then code else close_reason c) code) c s
  else if close_code c =? CloseCode.unauthorized then
    let s := s <| authRejections ::= Z.succ |> in
    if MAX_AUTH_REJECTIONS <? authRejections s then
      close (ConvergerClosedError "the server keeps rejecting fresh tokens" "unauthorized") c s
    else
      scheduleReconnect env c (await KRejected (say (OTokenFetch Token.rejected) s))
  else scheduleReconnect env c s.

(** The [catch] of [#connect]. *)
(* @src packages/client-ts/src/conversation.ts 416-426 connect *)
Definition connect_failed (env : Env) (token : nat) (e : option ConvergerError) (s : conv) : conv :=
  if negb (Nat.eqb token (connectToken s)) || stopped s then s
  else
    let failure := e ?? error "connect_failed" "could not connect" in
    let s := emit (EError failure) s in
    if bool_decide (err_code failure ∈ ["unauthorized"; "forbidden"; "not_found"])
      then close failure (mkClose 4401 (err_message failure) None false) s
    else scheduleReconnect env (mkClose 1006 (err_message failure) None false) s.

(** [(await this.#tokens.get()).token] inside the [try] of [#connect]. *)
Definition get_token (token : nat) (tr : Transport) (s : conv) : conv :=
  await (KToken token tr) (say OTokenGet s).

(** [#connect] up to its first [await]. *)
(* @src packages/client-ts/src/conversation.ts 405-415 connect *)
Definition connect (env : Env) (s : conv) : conv :=
  if stopped s then s
  else
    let s := s <| connectToken ::= S |> in
    let token := connectToken s in
    let s := if bool_decide (state s = reconnecting) then s
             else setState (if welcomed s then reconnecting else connecting) None None None s in
    match make (currentFactory s) with
    | inl e => connect_failed env token e s
    | inr (name, caps) =>
        let tr := mkTransport (nextTransport s) name caps in
        let s := s <| nextTransport ::= S |> in
        if requiresConversationId caps
          then await (KBase token tr) (say OTokenGet s)
        else get_token token tr s
    end.

(** [#connect] once the access token is there: the handshake parameters. *)
(* @src packages/client-ts/src/conversation.ts 427-447 connect *)
Definition connect_transport (token : nat) (tr : Transport) (access_token : string) (s : conv) : conv :=
  if negb (Nat.eqb token (connectToken s)) || stopped s then s
  else
    let s := s <| transport := Some tr |> in
    let id := if truthy (conversationId s) then conversationId s else None in
    let params := mkParams access_token id
      (if truthy (userId s) then userId s else None)
      (match id with Some _ => Some (watermark (window s)) | None => None end) in
    say (OConnect (tr_id tr) params) s.

(** [#ensureConversationToken] once the base token is there. *)
(* @src packages/client-ts/src/conversation.ts 454-468 ensureConversationToken *)
Definition ensureConversationToken (token : nat) (tr : Transport) (base : ActiveToken) (s : conv) : conv :=
  match conversationId s with
  | None | Some "" => await (KCreate token tr) (say (OCreateConversation (Token.token base)) s)
  | Some id =>
      if String.eqb (tr_name tr) "phoenix"
        && negb (bool_decide ((claims base ≫= conversation_id) = Some id))
        && negb (bool_decide ((claims base ≫= scope) = Some "channel"))
        then await (KConversation token tr) (say (OGetConversation (Token.token base) id) s)
      else get_token token tr s
  end.

(** [#useConversationTokens], then the rest of [#connect]. *)
(* @src packages/client-ts/src/conversation.ts 470-483 useConversationTokens *)
Definition useConversationTokens (env : Env) (token : nat) (tr : Transport) (t : string) (expiresIn : Q) (s : conv) : conv :=
  match ts_forConversation t expiresIn (inject_Z (now env)) with
  | inl e => connect_failed env token (Some e) s
  | inr m => get_token token tr (s <| tokens := m |>)
  end.

(** [store.attach(id)] up to its [await]: whether it loads. *)
Definition attach (id : string) (s : conv) : bool * conv :=
  match Outbox.attach_begin id (store s) with
  | Some st => (true, s <| store := st |>)
  | None => (false, s)
  end.

(* @src packages/client-ts/src/conversation.ts 638-681 onWelcome *)
Definition onWelcome (env : Env) (data : WelcomeData) (s : conv) : conv :=
  let asserted := conversationId s in
  let replaced := truthy asserted && negb (String.eqb (w_conversationId data) "")
    && negb (bool_decide (asserted = Some (w_conversationId data))) in
  let s := if replaced
             then s <| window ::= fun w => w <| watermark := 0 |> <| seen := ∅ |> |> else s in
  let s := s <| conversationId := if String.eqb (w_conversationId data) "" then asserted
                                  else Some (w_conversationId data) |> in
  let s := if truthy (w_userId data) then s <| userId := w_userId data |> else s in
  let s := match w_limits data ≫= Frames.maxInFlight with
           | Some n => if 0 <? n then s <| maxInFlight := n |> else s
           | None => s
           end in
  let s := s <| tokens ::= ts_setExpiry (inject_Z <$> w_expiresAt data) |>
    <| lastWelcome := Some data |> <| welcomed := true |> <| attempt := 0 |>
    <| failuresOnTransport := 0 |> <| authRejections := 0 |> in
  let s := scheduleRefresh env (saveState s) in
  let s := match w_watermark data with
           | Some head =>
               if watermark (window s) <? head
                 then armReplayTimer (s <| replaying := true |> <| replayTarget := head |>)
               else s <| replaying := false |>
           | None => s <| replaying := false |>
           end in
  let '(loads, s) := if truthy (conversationId s) then attach (conversationId s ?? "") s else (false, s) in
  let s := setState open None None None s in
  let s := emit (EWelcome data) s in
  let s := resolve_ready data s in
  await (KAttach loads) s.

(** [error.details?.["watermark"]] when it is a number. *)
Definition details_watermark (d : ErrorData) : option Z :=
  match ed_details d ≫= assoc "watermark" with
  | Some (JNum q) => Some (to_integer q)
  | _ => None
  end.

(** An error frame about a send in the outbox. *)
(* @src packages/client-ts/src/conversation.ts 782-797 onError *)
Definition onSendError (env : Env) (d : ErrorData) (id : string) (s : conv) : conv :=
  let s := s <| inFlight ::= fun l => l ∖ {[id]} |> in
  if bool_decide (ed_code d ∈ RETRYABLE_SEND_ERRORS)
    || (protocol_retryable d && negb (String.eqb (ed_code d) "token_expired"))
    then scheduleRetry env (s <| retryAt ::= <[id := now env + (ed_retryAfterMs d ?? 1000)]> |>)
  else
    let e := ConvergerProtocolError d in
    let s := s <| store := (Outbox.remove id (store s)).2 |> <| retryAt ::= delete id |> in
    let s := settle_wait id (OReject id e) s in
    flush env (emit (ESendFailed id e) s).

(** Any other error frame. *)
(* @src packages/client-ts/src/conversation.ts 799-827 onError *)
Definition onSessionError (env : Env) (d : ErrorData) (s : conv) : conv :=
  let s :=
    if String.eqb (ed_code d) "replay_unavailable" then
      let s := endReplay env true s in
      let from := details_watermark d ?? watermark (window s) in
      let '(h, s) := setTimeout (TSync from) (inject_Z (ed_retryAfterMs d ?? 1000)) (clearTimeout (syncTimer s) s) in
      s <| syncTimer := Some h |>
    else if String.eqb (ed_code d) "invalid_watermark" then
      if bool_decide (ed_frameType d ∈ [None; Some "hello"; Some "sync"]) then
        let s := s <| window ::= fun w => w <| watermark := 0 |> <| seen := ∅ |> |> in
        let s := endReplay env true (saveState s) in
        (wire env (CSync 0) s).2
      else s
    else if String.eqb (ed_code d) "token_expired" then await KExpired (say (OTokenFetch Token.refresh) s)
    else s in
  emit (EError (ConvergerProtocolError d)) s.

(* @src packages/client-ts/src/conversation.ts 777-828 onError *)
Definition onError (env : Env) (d : ErrorData) (s : conv) : conv :=
  match ed_clientId d with
  | None | Some "" => onSessionError env d s
  | Some id => if bool_decide (is_Some (Outbox.get id (store s)))
                 then onSendError env d id s else onSessionError env d s
  end.

(* @src packages/client-ts/src/conversation.ts 594-636 onFrame *)
Definition onFrame (env : Env) (frame : ServerFrame) (s : conv) : conv :=
  match frame with
  | SWelcome data => onWelcome env data s
  | SAck a => onAck env a s
  | SError d => onError env d s
  | SDeliveryStatus d => emit (EDeliveryStatus d) s
  | SPresence d => emit (EPresence d) s
  | STokenRefreshed e =>
      let s := match e with
               | Some _ => s <| tokens ::= ts_setExpiry (inject_Z <$> e) |>
               | None => s
               end in
      scheduleRefresh env s
  | SReplayTruncated d =>
      let s := emit (EReplayTruncated d) s in
      let s := armReplayTimer (s <| replaying := true |> <| replayTarget := rt_headSeq d |>) in
      (wire env (CSync (Z.min (watermark (window s)) (rt_watermark d))) s).2
  | SHeartbeat head =>
      match head with
      | Some head => if watermark (window s) <? head then checkGap head s else s
      | None => s
      end
  | SFrame f =>
      if isPersistent (Some (JStr (f_type f))) (f_seq f) then onPersistent env f s
      else if String.eqb (f_type f) "typing" then emit (ETyping f) s else s
  end.

(** ** Timers and promises *)

(** The callbacks of the timers armed above. *)
(* @src packages/client-ts/src/conversation.ts 770-774 checkGap *)
Definition gap_fired (env : Env) (highest : Z) (s : conv) : conv :=
  let s := s <| gapTimer := None |> in
  if (watermark (window s) <? highest) && (Z.of_nat (size (inFlight s)) =? 0) && bool_decide (state s = open)
    then (wire env (CSync (watermark (window s))) s).2
  else s.

(* @src packages/client-ts/src/conversation.ts 804-807 onError *)
Definition sync_fired (env : Env) (from : Z) (s : conv) : conv :=
  let s := s <| syncTimer := None |> in
  if bool_decide (state s = open)
    then (wire env (CSync (Z.min from (watermark (window s)))) s).2
  else s.

(* @src packages/client-ts/src/conversation.ts 854-858 scheduleRetry *)
Definition retry_fired (env : Env) (s : conv) : conv :=
  let s := flush env (s <| retryTimer := None |>) in
  if bool_decide (retryAt s = ∅) then s else scheduleRetry env s.

(** A timer fires: it is gone before its callback runs. *)
Definition run_timer (env : Env) (h : nat) (s : conv) : conv :=
  match timers s !! h with
  | None => s
  | Some (a, _) =>
      let s := s <| timers ::= delete h |> in
      match a with
      | TReconnect => connect env s
      | TRefresh => refresh s
      | TReplay => endReplay env true s
      | TGap highest => gap_fired env highest s
      | TSync from => sync_fired env from s
      | TRetry => retry_fired env s
      end
  end.

(** [#open]. *)
(* @src packages/client-ts/src/conversation.ts 394-398 open *)
Definition open_session (env : Env) (s : conv) : conv := connect env (s <| ready := ReadyPending |>).

(** [resume] once the store has loaded; an error rejects its promise. *)
(* @src packages/client-ts/src/conversation.ts 287-299 resume *)
Definition resume_loaded (env : Env) (r : read_result) (w : option Q) (s : conv) : option ConvergerError * conv :=
  let s := s <| store ::= (match Outbox.load_key (store s) with Some _ => Outbox.load r | None => id end) |> in
  let stored := Outbox.state (store s) in
  let s := match stored with
           | Some st => if truthy (r_userId st) then s <| userId := r_userId st |> else s
           | None => s
           end in
  match w with
  | Some q =>
      if is_integer q && (0 <=? to_integer q)
        then (None, open_session env (s <| window ::= fun v => v <| watermark := to_integer q |> |>))
      else (Some (error "invalid_watermark" "the watermark must be a non-negative integer"), s)
  | None =>
      match stored with
      | Some st =>
          if bool_decide (Some (r_conversationId st) = conversationId s)
            then (None, open_session env (s <| window ::= fun v => v <| watermark := r_watermark st |> |>))
          else (None, open_session env s)
      | None => (None, open_session env s)
      end
  end.

(** [attach] once its [load], if any, has settled. *)
Definition attached (loads : bool) (r : read_result) (s : conv) : conv :=
  if loads then s <| store ::= Outbox.attach_end r |> else s.

(** The continuation of each suspended call.  [None]: the outcome is not one
the awaited promise has. *)
Definition resume_task (env : Env) (k : task) (o : outcome) (s : conv) : option conv :=
  match k, o with
  | KResumeLoad w, OkRead r =>
      Some (match resume_loaded env r w s with
            | (None, s) => s
            | (Some e, s) => say (OReadyFailed e) s
            end)
  | KBase token tr, OkToken t => Some (ensureConversationToken token tr t s)
  | KCreate token tr, OkConversation id t e =>
      let '(loads, s) := attach id (s <| conversationId := Some id |>) in
      Some (await (KCreateAttach token tr loads t e) s)
  | KCreateAttach token tr loads t e, OkRead r =>
      Some (useConversationTokens env token tr t e (attached loads r s))
  | KConversation token tr, OkConversation _ t e => Some (useConversationTokens env token tr t e s)
  | KToken token tr, OkToken t => Some (connect_transport token tr (Token.token t) s)
  | (KBase token _ | KCreate token _ | KConversation token _ | KToken token _), Failed e =>
      Some (connect_failed env token e s)
  | KRejected, OkToken _ => Some s
  | KRejected, Failed e =>
      Some (emit (EError (e ?? error "token_provider_failed" "token refresh failed")) s)
  | KRefresh, OkToken t => Some (refresh_settled env (inr t) s)
  | KRefresh, Failed e => Some (refresh_settled env (inl e) s)
  | KExpired, (OkToken _ | Failed _) => Some s
  | KAttach loads, OkRead r => Some (flush env (saveState (attached loads r s)))
  | KDisconnect, OkDone => Some (say ODispose s)
  | _, _ => None
  end.

Definition run_task (env : Env) (t : nat) (o : outcome) (s : conv) : conv :=
  match tasks s !! t with
  | None => s
  | Some k => resume_task env k o (s <| tasks ::= delete t |>) ?? s
  end.

(** ** The public API *)

(** A call returns its result, or the error its promise rejects with. *)
Definition already_started : ConvergerError :=
  error "already_started" "start() or resume() was already called".

(* @src packages/client-ts/src/conversation.ts 269-274 start *)
Definition start (env : Env) (s : conv) : option ConvergerError * conv :=
  if started s then (Some already_started, s)
  else (None, open_session env (s <| started := true |> <| conversationId := None |>)).

(* @src packages/client-ts/src/conversation.ts 281-286 resume *)
Definition resume (w : option Q) (s : conv) : option ConvergerError * conv :=
  if started s then (Some already_started, s)
  else if negb (truthy (conversationId s)) then
    (Some (error "no_conversation" "resume() needs a conversation id: client.conversation(id)"), s)
  else (None, await (KResumeLoad w) (s <| started := true |>)).

(** [send]: [inr] the clientId of the promise returned. *)
(* @src packages/client-ts/src/conversation.ts 307-331 send *)
Definition send (env : Env) (input : SendMessage) (generated : string) (s : conv) : (ConvergerError + string) * conv :=
  match fatal s with
  | Some e => (inl e, s)
  | None =>
      match s_text input with
      | None => (inl (error "invalid_message" "text must be a string"), s)
      | Some text =>
          let id := s_clientId input ?? generated in
          if negb (CLIENT_ID id) then
            (inl (error "invalid_client_id" "clientId must be 1-128 of A-Z a-z 0-9 . _ : ~ -"), s)
          else if bool_decide (is_Some (Outbox.get id (store s))) || bool_decide (id ∈ waiting s) then
            (inl (error "duplicate_client_id" ("clientId " +:+ id +:+ " is already pending")), s)
          else
            let f := mkClientMessage id text (s_attachments input) (s_metadata input) (s_meta input)
              (if truthy (s_replyTo input) then s_replyTo input else None) in
            let s := s <| waiting ::= fun l => l ++ [id] |> in
            let s := s <| store ::= Outbox.add (mkEntry id f (now env) 0) |> in
            (inr id, flush env s)
      end
  end.

(** [typing] and [markRead] send a frame on an open transport with signals. *)
Definition signal (env : Env) (f : ClientFrame) (s : conv) : bool * conv :=
  match transport s with
  | Some tr => if bool_decide (state s = open) && signals (capabilities tr) then wire env f s else (false, s)
  | None => (false, s)
  end.

(* @src packages/client-ts/src/conversation.ts 334-337 typing *)
Definition typing (env : Env) (isTyping : bool) (s : conv) : bool * conv := signal env (CTyping isTyping) s.

(* @src packages/client-ts/src/conversation.ts 340-343 markRead *)
Definition markRead (env : Env) (seq : option Z) (s : conv) : bool * conv :=
  let seq := seq ?? watermark (window s) in
  if seq <? 1 then (false, s) else signal env (CRead seq) s.

(* @src packages/client-ts/src/conversation.ts 370-381 disconnect *)
Definition disconnect (s : conv) : conv :=
  let s := clearTimers (s <| stopped := true |>) in
  let tr := transport s in
  let s := s <| transport := None |> in
  let s := match tr with
           | Some t => say (OCloseTransport (tr_id t) CloseCode.normal "client disconnect") s
           | None => s
           end in
  let s := setState closed None None None s in
  let s := rejectWaiting (ConvergerClosedError "disconnected; the message stays in the outbox" "disconnected") s in
  let s := reject_ready (ConvergerClosedError "disconnected before the session was established" "disconnected") s in
  await KDisconnect s.

(* @src packages/client-ts/src/conversation.ts 384-388 discardOutbox *)
Definition discardOutbox (s : conv) : conv :=
  let ids := Outbox.ids (store s) in
  let s := s <| store ::= fun st => fold_left (fun st id => (Outbox.remove id st).2) ids st |> in
  rejectWaiting (error "discarded" "the outbox was discarded") s.
End Session.

(** ** The session as a state machine *)

(** What can happen to a session: a call of its API, a callback of a transport
    (guarded by its identity), a timer, a settled promise, or a change of the
    token manager's own (a fetch settled). *)
Inductive input (T : Type) :=
| IStart
| IResume (watermark : option Q)
| ISend (m : SendMessage) (generated : string)
| ITyping (isTyping : bool)
| IMarkRead (seq : option Z)
| IDisconnect
| IDiscardOutbox
| IFrame (tr : nat) (frame : ServerFrame)
| IClose (tr : nat) (c : TransportClose)
| ITimer (handle : nat)
| ITask (t : nat) (o : outcome)
| ITokens (t : T).
Arguments IStart {T}. Arguments IResume {T} _. Arguments ISend {T} _ _. Arguments ITyping {T} _.
Arguments IMarkRead {T} _. Arguments IDisconnect {T}. Arguments IDiscardOutbox {T}.
Arguments IFrame {T} _ _. Arguments IClose {T} _ _. Arguments ITimer {T} _.
Arguments ITask {T} _ _. Arguments ITokens {T} _.

(** [this.#transport === transport]. *)
Definition is_current {T} (tr : nat) (s : Conversation T) : bool :=
  bool_decide (tr_id <$> transport s = Some tr).

(* @src packages/client-ts/src/conversation.ts 439-447 connect *)
Definition step {T} `{TokenSource T} (deps : ConversationDeps) (env : Env) (i : input T) (s : Conversation T) : Conversation T :=
  match i with
  | IStart => (start deps env s).2
  | IResume w => (resume w s).2
  | ISend m generated => (send env m generated s).2
  | ITyping b => (typing env b s).2
  | IMarkRead q => (markRead env q s).2
  | IDisconnect => disconnect deps s
  | IDiscardOutbox => discardOutbox s
  | IFrame tr f => if is_current tr s then onFrame deps env f s else s
  | IClose tr c => if is_current tr s then onClose deps env c s else s
  | ITimer h => run_timer deps env h s
  | ITask t o => run_task deps env t o s
  | ITokens t => s <| tokens := t |>
  end.

Definition run {T} `{TokenSource T} (deps : ConversationDeps) (l : list (Env * input T)) (s : Conversation T) : Conversation T :=
  fold_left (fun s '(env, i) => step deps env i s) l s.

(* @src packages/client-ts/src/conversation.ts 215-224 constructor *)
Definition new_conversation {T} (toks : T) (st : ConversationStore) (id : option string) : Conversation T :=
  mkConversation st toks id None (mkWindow 0 ∅ ∅) [] idle None 0 0 0 0 false false false 0
    None None None None None false 0 32 ∅ ∅ None [] NoReady None None ∅ 0 ∅ 0 0 [].
