(* ===== verification/Sse.v ===== *)
(** * Sse: the Server-Sent Events transport
    ([packages/client-ts/src/transport/sse.ts], class [SseTransport]).

    A transport is a state machine over the session's calls, the answers of
    [fetch], the reads of the stream and the liveness timer.  Frames handed to
    the session are JSON objects; the requests of [post] are outputs, answered
    by their number.  Bytes are characters: [TextDecoder] is the identity on
    the UTF-8 representation of strings.

    [#finish] aborts the requests of the connection: what was pending then
    rejects, unless it had settled just before and only its continuation was
    still to run ([early] in the inputs [FetchDone], [ReadDone] and
    [PostDone]); a [fetch] or [read] begun after the abort rejects at once.

    Not modelled: handlers that throw or call back into the transport, and a
    claim [user_id] that is not a string. *)

From stdpp Require Import base gmap sets list strings pretty.
From Stdlib Require Import ZArith QArith Lia Ascii.
From S2P Require Import Prelude Watermark Json JsMap Frames Errors Rest Token AgentFrames.
From S2P Require Wire Conversation.

Open Scope string_scope.
Open Scope list_scope.
Open Scope Z_scope.

(** ** Splitting the stream into events *)

Definition LF : Z := 10.
Definition CR : Z := 13.

(** [\r?\n] at the start of the text. *)
Definition newline (l : chars) : option chars :=
  match l with
  | c :: r =>
      if code c =? LF then Some r
      else match r with
           | d :: r' => if (code c =? CR) && (code d =? LF) then Some r' else None
           | [] => None
           end
  | [] => None
  end.

(** [\r?\n\r?\n] at the start of the text. *)
Definition boundary (l : chars) : option chars := newline l ≫= newline.

(** The text before the first boundary and the text after it. *)
Fixpoint split_event (l : chars) : option (chars * chars) :=
  match boundary l with
  | Some rest => Some ([], rest)
  | None =>
      match l with
      | c :: l' => '(chunk, rest) ← split_event l'; Some (c :: chunk, rest)
      | [] => None
      end
  end.

(** The [while] loop over a buffer: the complete events, and what is left. *)
(* @src packages/client-ts/src/transport/sse.ts 121-127 run *)
Fixpoint drain (fuel : nat) (buffer : chars) : list chars * chars :=
  match fuel with
  | O => ([], buffer)
  | S fuel =>
      match split_event buffer with
      | Some (chunk, rest) => let '(chunks, left_) := drain fuel rest in (chunk :: chunks, left_)
      | None => ([], buffer)
      end
  end.

(** [chunk.split(/\r?\n/)]. *)
Fixpoint split_lines (l cur : chars) : list chars :=
  match l with
  | [] => [rev cur]
  | c :: l' =>
      if code c =? LF then rev cur :: split_lines l' []
      else match l' with
           | d :: l'' => if (code c =? CR) && (code d =? LF) then rev cur :: split_lines l'' [] else split_lines l' (c :: cur)
           | [] => split_lines l' (c :: cur)
           end
  end.

Definition drop_one_space (l : chars) : chars :=
  match l with c :: r => if code c =? 32 then r else l | [] => [] end.

(** The [data:] lines of an event, joined. *)
(* @src packages/client-ts/src/transport/sse.ts 153-161 event *)
Definition event_data (chunk : chars) : option chars :=
  match omap (fun line => drop_one_space <$> strip_prefix (chars_of "data:") line) (split_lines chunk []) with
  | [] => None
  | l :: ls => Some (fold_left (fun acc x => acc ++ chr LF :: x) ls l)
  end.

(** ** The transport *)

(** How far [#run] has come. *)
Inductive phase := Unstarted | Fetching | Reading | Over.

#[export] Instance phase_eq_dec : EqDecision phase.
Proof. solve_decision. Defined.

Inductive output :=
| OFetch (r : HttpRequest)
| OOpen
| OFrame (frame : json)
| OClose (c : Wire.SocketClose)
| OPost (k : nat) (r : HttpRequest).

(** [aborted]: the state of [#abort]'s signal; [posts]: the turns posted so far. *)
(* @src packages/client-ts/src/transport/sse.ts 42-64 SseTransport *)
Record SseTransport := mkSse {
  params : option Conversation.ConnectParams;
  aborted : bool;
  opened : bool;
  closed : bool;
  userId : option string;
  recent : list (string * Z);
  liveness : bool;
  retryAfterMs : option Q;
  awaiting : list (string * string);
  stage : phase;
  buffer : chars;
  posts : list ClientMessageFrame;
  log : list output;
}.

#[export] Instance eta_sse : Eta SseTransport :=
  fun s => mkSse (params s) (aborted s) (opened s) (closed s) (userId s) (recent s) (liveness s) (retryAfterMs s) (awaiting s) (stage s)
    (buffer s) (posts s) (log s).

Definition new_sse : SseTransport := mkSse None false false false None [] false None [] Unstarted [] [] [].

Definition say (o : output) (s : SseTransport) : SseTransport := s <| log ::= cons o |>.
Definition onFrame (f : json) (s : SseTransport) : SseTransport := say (OFrame f) s.
Definition num (z : Z) : json := JNum (inject_Z z).

(* @src packages/client-ts/src/transport/sse.ts 272-284 finish *)
Definition finish (c : Z) (reason : string) (s : SseTransport) : SseTransport :=
  if closed s then s
  else say (OClose (Wire.mkClose c reason (opened s) (retryAfterMs s))) 
    (s <| closed := true |> <| liveness := false |> <| aborted := true |>).

(* @src packages/client-ts/src/transport/sse.ts 268-270 close *)
Definition close : Z -> string -> SseTransport -> SseTransport := finish.

(* @src packages/client-ts/src/transport/sse.ts 190-193 touch *)
Definition touch (s : SseTransport) : SseTransport := s <| liveness := true |>.

Definition capabilities : json :=
  JObj [("acks", JBool true); ("receipts", JBool true); ("presence", JBool true); ("typing", JBool false)].

(* @src packages/client-ts/src/transport/sse.ts 135-151 emitWelcome *)
Definition emitWelcome (s : SseTransport) : SseTransport :=
  let id := (p ← params s; Conversation.cp_conversationId p) ?? "" in
  let exp := t ← (p ← params s; decodeToken (Conversation.cp_token p)); exp t in
  onFrame (JObj [("type", JStr "welcome");
                 ("data", JObj ([("protocol", JStr PROTOCOL_VERSION); ("scope", JStr "conversation"); ("conversationId", JStr id);
                                 ("watermark", JNull); ("capabilities", capabilities)]
                                ++ match userId s with Some u => [("userId", JStr u)] | None => [] end
                                ++ match exp with Some e => [("expiresAt", JNum (e * 1000))] | None => [] end))]) s.

Definition ack_frame (clientId id : string) (seq : Z) : json :=
  JObj [("type", JStr "ack"); ("clientId", JStr clientId); ("id", JStr id); ("seq", num seq)].

(** [recent.set(id, seq)], forgetting the oldest beyond 500. *)
(* @src packages/client-ts/src/transport/sse.ts 168-171 event *)
Definition remember (id : string) (n : Z) (l : list (string * Z)) : list (string * Z) :=
  let l := map_set id n l in
  if (500 <? length l)%nat then match l with (k, _) :: _ => map_delete k l | [] => [] end else l.

(** A persistent frame: remember it, and ack the send it answers. *)
(* @src packages/client-ts/src/transport/sse.ts 167-177 event *)
Definition on_persistent (frame : json) (s : SseTransport) : SseTransport :=
  match str_at "id" frame with
  | Some id =>
      let n := seq_of (member "seq" frame) in
      let s := s <| recent ::= remember id n |> in
      match assoc id (awaiting s) with
      | Some cid => onFrame (ack_frame cid id n) (s <| awaiting ::= map_delete id |>)
      | None => s
      end
  | None => s
  end.

(** The stream ends after these codes. *)
(* @src packages/client-ts/src/transport/sse.ts 180-184 event *)
Definition closing_code (code : string) : option (Z * string) :=
  if String.eqb code "token_expired" then Some (4401, code)
  else if String.eqb code "channel_inactive" then Some (4403, code)
  else if String.eqb code "unavailable" then Some (1012, code)
  else None.

(** An [error] frame; [true] when reading [frame.data] throws. *)
(* @src packages/client-ts/src/transport/sse.ts 177-186 event *)
Definition on_error (frame : json) (s : SseTransport) : bool * SseTransport :=
  match member "data" frame with
  | None | Some JNull => (true, s)
  | Some data =>
      let s := match Wire.num_at "retryAfterMs" data with Some q => s <| retryAfterMs := Some q |> | None => s end in
      let s := onFrame frame s in
      (false, match str_at "code" data ≫= closing_code with Some (c, r) => close c r s | None => s end)
  end.

(* @src packages/client-ts/src/transport/sse.ts 153-188 event *)
Definition event (chunk : chars) (s : SseTransport) : bool * SseTransport :=
  match event_data chunk ≫= parse_json with
  | Some (JObj _ as frame) =>
      match str_at "type" frame with
      | None => (false, s)
      | Some type =>
          if isPersistent (member "type" frame) (member "seq" frame) then (false, onFrame frame (on_persistent frame s))
          else if String.eqb type "error" then on_error frame s
          else (false, onFrame frame s)
      end
  | _ => (false, s)
  end.

(** What a request of the connection rejects with once it is aborted; the
    message goes no further, [finish] having run. *)
Definition abort_message : string := "This operation was aborted".

(** The read loop calls [reader.read()] again: after an abort that rejects at
    once, and the [catch] finishes a transport that is finished already. *)
(* @src packages/client-ts/src/transport/sse.ts 116-132 run *)
Definition next_read (s : SseTransport) : SseTransport :=
  if aborted s then finish 1006 abort_message (s <| stage := Over |>) else s.

(** Is the environment's [fetch] there; the server's base URL; the message of
    a [TypeError]; [Date.parse] and [Date.now]. *)
Section Transport.
Context (has_fetch : bool) (baseUrl : string) (type_error : string).
Context (date_parse : string -> option Z).

(** The events of a read, until one throws. *)
Fixpoint events (chunks : list chars) (s : SseTransport) : SseTransport :=
  match chunks with
  | [] => s
  | c :: cs =>
      let '(threw, s) := event c s in
      if (threw : bool) then finish 1006 type_error (s <| stage := Over |>) else events cs s
  end.

(** [await this.#post(frame)] up to its request. *)
(* @src packages/client-ts/src/transport/sse.ts 214-234 post *)
Definition post (m : ClientMessageFrame) (s : SseTransport) : SseTransport :=
  match (p ← params s; id ← Conversation.cp_conversationId p; Some (p, id)) with
  | Some (p, id) =>
      if String.eqb id "" || negb has_fetch then s
      else
        let sender := userId s ?? "user" in
        let headers := [("authorization", "Bearer " +:+ Conversation.cp_token p); ("content-type", "application/json");
                        ("accept", "application/json")]
          ++ (if String.eqb (m_clientId m) "" then []
              else [("x-idempotency-key", "ws:" +:+ sender +:+ ":" +:+ m_clientId m)]) in
        let body := JObj ([("type", JStr "message"); ("text", JStr (m_text m)); ("from", JObj [("id", JStr sender)])]
                          ++ match m_attachments m with Some l => [("attachments", JArr l)] | None => [] end
                          ++ match m_metadata m with Some l => [("channelData", JObj l)] | None => [] end
                          ++ match m_replyTo m with Some r => [("replyToId", JStr r)] | None => [] end) in
        say (OPost (length (posts s))
             (mkHttp "POST" (trimBaseUrl baseUrl +:+ "/api/v1/converger/conversations/" +:+ encodeURIComponent id +:+ "/activities")
                headers (Some (BJson body))))
        (s <| posts ::= fun l => l ++ [m] |>)
  | None => s
  end.

(** The answer of a post that is not an error: ack, now or when the frame comes. *)
(* @src packages/client-ts/src/transport/sse.ts 242-250 post *)
Definition post_accepted (m : ClientMessageFrame) (parsed : json) (s : SseTransport) : SseTransport :=
  match str_at "id" parsed with
  | Some id =>
      if String.eqb (m_clientId m) "" then s
      else match assoc id (recent s) with
           | Some n => onFrame (ack_frame (m_clientId m) id n) s
           | None => s <| awaiting ::= map_set id (m_clientId m) |>
           end
  | None => s
  end.

(* @src packages/client-ts/src/transport/sse.ts 251-262 post *)
Definition post_refused (now : Z) (m : ClientMessageFrame) (st : Z) (parsed : json) (retryAfter : option string) (s : SseTransport) :
  SseTransport :=
  let e := apiErrorFrom date_parse st parsed retryAfter now in
  let code := if st =? 409 then "conversation_closed" else if st =? 422 then "invalid_message" else err_code e in
  let '(after, details) := match err_kind e with KApi _ d _ a _ => (a, d) | _ => (None, None) end in
  onFrame (JObj [("type", JStr "error");
                 ("data", JObj ([("code", JStr code); ("message", JStr (err_message e)); ("retryable", JBool (api_retryable st));
                                 ("frameType", JStr "text")]
                                ++ (if String.eqb (m_clientId m) "" then [] else [("clientId", JStr (m_clientId m))])
                                ++ match after with Some ms => [("retryAfterMs", num ms)] | None => [] end
                                ++ match details with Some d => [("details", JObj d)] | None => [] end))]) s.

(** The answer to post [k]: a network failure or an abort, or a response. *)
(* @src packages/client-ts/src/transport/sse.ts 235-265 post *)
Definition post_done (early : bool) (now : Z) (k : nat) (r : option Response) (s : SseTransport) : SseTransport :=
  match posts s !! k, (if aborted s && negb early then None else r) with
  | Some m, Some resp =>
      let parsed := readBody (rs_text resp) in
      if rs_ok resp then post_accepted m parsed s
      else post_refused now m (rs_status resp) parsed (rs_retryAfter resp) s
  | _, _ => s
  end.

(* @src packages/client-ts/src/transport/sse.ts 195-212 send *)
Definition send (frame : ClientFrame) (s : SseTransport) : bool * SseTransport :=
  if negb (opened s) || closed s then (false, s)
  else match frame with
       | CText m => (true, post m s)
       | CSync _ => (true, close 4000 "sync" s)
       | CPing _ | CAuth _ | CHello _ _ _ _ _ => (true, s)
       | CTyping _ | CRead _ => (false, s)
       end.

(** [connect], and [#run] up to its request. *)
(* @src packages/client-ts/src/transport/sse.ts 66-90 connect *)
Definition connect (p : Conversation.ConnectParams) (s : SseTransport) : SseTransport :=
  let uid := t ← decodeToken (Conversation.cp_token p); user_id t in
  let s := s <| params := Some p |> <| userId := or_else uid (Conversation.cp_userId p) |> in
  if negb has_fetch then finish 1006 "no fetch implementation" (s <| stage := Over |>)
  else match Conversation.cp_conversationId p with
       | None | Some "" => finish 4404 "the SSE stream needs a conversation id" (s <| stage := Over |>)
       | Some id =>
           let query := match Conversation.cp_watermark p with Some w => [("watermark", pretty w)] | None => [] end
             ++ match userId s, truthy uid with
                | Some u, false => if String.eqb u "" then [] else [("userId", u)]
                | _, _ => []
                end in
           let qs := query_string query in
           say (OFetch (mkHttp "GET" (trimBaseUrl baseUrl +:+ "/api/v1/converger/conversations/" +:+ encodeURIComponent id +:+ "/events"
                                      +:+ (if String.eqb qs "" then "" else "?" +:+ qs))
                          [("authorization", "Bearer " +:+ Conversation.cp_token p); ("accept", "text/event-stream")] None))
           (s <| stage := if aborted s then Over else Fetching |>)
       end.

(** What [fetch] comes to: it rejects with a message, or answers a status with
a stream or with a body and a [Retry-After]. *)
Inductive fetched :=
| FFailed (message : string)
| FRefused (st : Z) (body : json) (retryAfter : option string)
| FStream.

(* @src packages/client-ts/src/transport/sse.ts 85-115 run *)
Definition fetch_done (early : bool) (now : Z) (r : fetched) (s : SseTransport) : SseTransport :=
  match stage s with
  | Fetching =>
      match (if aborted s && negb early then FFailed abort_message else r) with
      | FFailed message => finish 1006 message (s <| stage := Over |>)
      | FRefused st body retryAfter =>
          let e := apiErrorFrom date_parse st body retryAfter now in
          let s := match err_kind e with
                   | KApi _ _ _ (Some ms) _ => s <| retryAfterMs := Some (inject_Z ms) |>
                   | _ => s
                   end in
          let code := if st =? 401 then 4401 else if st =? 403 then 4403 else if st =? 404 then 1008 else 1013 in
          finish code (err_message e) (s <| stage := Over |>)
      | FStream => next_read (touch (emitWelcome (say OOpen (s <| opened := true |> <| stage := Reading |>))))
      end
  | _ => s
  end.

(* @src packages/client-ts/src/transport/sse.ts 116-133 run *)
Definition read_done (early : bool) (r : chars + option string) (s : SseTransport) : SseTransport :=
  match stage s with
  | Reading =>
      match (if aborted s && negb early then inr (Some abort_message) else r) with
      | inl value =>
          let s := touch s in
          let text := buffer s ++ value in
          let '(chunks, left_) := drain (length text) text in
          next_read (events chunks (s <| buffer := left_ |>))
      | inr None => finish 1006 "stream ended" (s <| stage := Over |>)
      | inr (Some message) => finish 1006 message (s <| stage := Over |>)
      end
  | _ => s
  end.

(** The session's calls, the answers, the reads and the timer. [early]: the
    promise had settled before any abort. *)
Inductive input :=
| Connect (p : Conversation.ConnectParams)
| FetchDone (early : bool) (now : Z) (r : fetched)
| ReadDone (early : bool) (r : chars + option string)
| Liveness
| Send (frame : ClientFrame)
| PostDone (early : bool) (now : Z) (k : nat) (r : option Response)
| Close (code : Z) (reason : string).

Definition step (s : SseTransport) (i : input) : SseTransport :=
  match i with
  | Connect p => match stage s with Unstarted => connect p s | _ => s end
  | FetchDone early now r => fetch_done early now r s
  | ReadDone early r => read_done early r s
  | Liveness => if liveness s then close 4000 "stream silent" (s <| liveness := false |>) else s
  | Send f => (send f s).2
  | PostDone early now k r => post_done early now k r s
  | Close c reason => close c reason s
  end.

Definition run (s : SseTransport) (l : list input) : SseTransport := fold_left step l s.
End Transport.

(** ** Reads and events *)

Lemma newline_app a b r : newline a = Some r -> newline (a ++ b) = Some (r ++ b).
Proof.
  destruct a as [|c [|d a]]; simpl; [done | |].
  - destruct (code c =? LF); [by intros [= <-] | done].
  - destruct (code c =? LF); [by intros [= <-]|]. destruct (_ && _); [by intros [= <-] | done].
Qed.

Lemma boundary_app a b r : boundary a = Some r -> boundary (a ++ b) = Some (r ++ b).
Proof.
  unfold boundary. destruct (newline a) as [x|] eqn:E; [|done]. simpl. intros H. rewrite (newline_app _ _ _ E). simpl. by apply newline_app.
Qed.

Lemma newline_length a r : newline a = Some r -> (length r < length a)%nat.
Proof.
  destruct a as [|c [|d a]]; simpl; [done | |].
  - destruct (code c =? LF); [intros [= <-]; simpl; lia | done].
  - destruct (code c =? LF); [intros [= <-]; simpl; lia|]. destruct (_ && _); [intros [= <-]; simpl; lia | done].
Qed.

Lemma boundary_length a r : boundary a = Some r -> (length r < length a)%nat.
Proof.
  unfold boundary. destruct (newline a) as [x|] eqn:E; [|done]. intros H. apply newline_length in E, H. lia.
Qed.

Lemma split_event_length a c r : split_event a = Some (c, r) -> (length r < length a)%nat.
Proof.
  revert c r. induction a as [|x a IH]; intros c r; [done|]. cbn [split_event]. destruct (boundary (x :: a)) as [rest|] eqn:E.
  - intros [= <- <-]. by apply boundary_length in E.
  - destruct (split_event a) as [[c' r']|]; [|done]. simpl. intros [= <- <-]. specialize (IH _ _ eq_refl). lia.
Qed.

(** More text cannot begin an event earlier than a complete boundary does. *)
Lemma boundary_settled x a c r b :
  boundary (x :: a) = None -> split_event a = Some (c, r) -> boundary (x :: a ++ b) = None.
Proof.
  intros Hb Hs. destruct a as [|y [|z a]]; [done | |].
  - apply split_event_length in Hs as Hl. destruct r; [|simpl in Hl; lia]. exfalso. revert Hs. cbn. unfold boundary. simpl.
    destruct (code y =? LF); simpl; done.
  - destruct a as [|w a].
    + destruct (code y =? LF) eqn:Ey, (code z =? LF) eqn:Ez, (code x =? LF) eqn:Ex, (code x =? CR) eqn:Rx;
        revert Hb Hs; unfold boundary; simpl; rewrite ?Ex, ?Ey, ?Ez, ?Rx; simpl; rewrite ?Ez; simpl; try done;
        unfold boundary; simpl; rewrite ?Ey, ?Ez; simpl; rewrite ?Ez; try done.
      all: destruct (code y =? CR); simpl; rewrite ?Ez; simpl; try done.
      all: destruct (code z =? CR); simpl; try done.
    + revert Hb. clear Hs. unfold boundary. simpl.
      destruct (code x =? LF); simpl; [destruct (code y =? LF); [done|]; by destruct (_ && _)|].
      destruct (_ && _); simpl; [|done]. destruct (code z =? LF); [done|]. by destruct (_ && _).
Qed.

Lemma split_event_app a c r b : split_event a = Some (c, r) -> split_event (a ++ b) = Some (c, r ++ b).
Proof.
  revert c r. induction a as [|x a IH]; intros c r; [done|]. cbn [split_event app]. destruct (boundary (x :: a)) as [rest|] eqn:E.
  - intros [= <- <-]. by rewrite (boundary_app (x :: a) b _ E : boundary (x :: a ++ b) = _).
  - destruct (split_event a) as [[c' r']|] eqn:Es; [|done]. simpl. intros [= <- <-].
    rewrite (boundary_settled _ _ _ _ b E Es). by rewrite (IH _ _ eq_refl).
Qed.

Lemma drain_fuel f f' l : (length l <= f)%nat -> (length l <= f')%nat -> drain f l = drain f' l.
Proof.
  revert f' l. induction f as [|f IH]; intros f' l H H'.
  - destruct l; [|simpl in H; lia]. by destruct f'.
  - destruct f' as [|f']; [destruct l; [done | simpl in H'; lia]|]. cbn [drain].
    destruct (split_event l) as [[c r]|] eqn:E; [|done]. apply split_event_length in E. by rewrite (IH f' r) by lia.
Qed.

Definition drained (l : chars) : list chars * chars := drain (length l) l.

Lemma drained_step l c r : split_event l = Some (c, r) -> drained l = let '(cs, x) := drained r in (c :: cs, x).
Proof.
  intros E. unfold drained. pose proof (split_event_length _ _ _ E). destruct l as [|y l]; [done|]. simpl length in *. cbn [drain].
  rewrite E. by rewrite (drain_fuel (length l) (length r) r) by lia.
Qed.

Lemma drained_none l : split_event l = None -> drained l = ([], l).
Proof. intros E. unfold drained. destruct l; [done|]. simpl length. cbn [drain]. by rewrite E. Qed.

(** Draining a prefix first makes no difference. *)
Lemma drained_app a b : drained (a ++ b) = let '(cs, r) := drained a in let '(ds, x) := drained (r ++ b) in (cs ++ ds, x).
Proof.
  remember (length a) as n eqn:Hn. revert a Hn. induction n as [n IH] using lt_wf_ind. intros a ->.
  destruct (split_event a) as [[c r]|] eqn:E.
  - rewrite (drained_step _ _ _ E), (drained_step _ _ _ (split_event_app _ _ _ b E)).
    rewrite (IH (length r) (split_event_length _ _ _ E) r eq_refl). destruct (drained r) as [cs x]. by destruct (drained (x ++ b)).
  - rewrite (drained_none _ E). by destruct (drained (a ++ b)).
Qed.

(** A state apart from its buffer and the liveness timer. *)
Definition bare (s : SseTransport) : SseTransport := s <| buffer := [] |> <| liveness := false |>.

Lemma finish_bare c r s : finish c r (bare s) = bare (finish c r s).
Proof. unfold finish. simpl. by destruct (closed s). Qed.

Lemma event_bare c s : event c (bare s) = ((event c s).1, bare (event c s).2).
Proof.
  unfold event. destruct (event_data c ≫= parse_json) as [[| | | | |l]|]; try done.
  destruct (str_at "type" (JObj l)) as [t|]; [|done].
  destruct (isPersistent _ _).
  - unfold on_persistent. destruct (str_at "id" (JObj l)) as [id|]; [|done]. simpl. by destruct (assoc id (awaiting s)).
  - destruct (String.eqb t "error"); [|done]. unfold on_error. destruct (member "data" (JObj l)) as [d|]; [|done].
    pose proof (fun code reason x => finish_bare code reason x : close code reason (bare x) = bare (close code reason x)) as H.
    destruct d; try done; destruct (Wire.num_at "retryAfterMs" _), (_ ≫= closing_code) as [[c' r']|]; try done;
      cbn [fst snd]; rewrite <- H; done.
Qed.

Lemma events_bare te cs s : bare (events te cs (bare s)) = bare (events te cs s).
Proof.
  revert s. induction cs as [|c cs IH]; intros s; [done|]. simpl. rewrite event_bare. destruct (event c s) as [[] s']; simpl; [|apply IH].
  unfold finish. by destruct (closed s').
Qed.

(** What an event can do to a transport: to show that it keeps [P], show that
    each of these does. *)
Lemma event_ind (P : SseTransport -> Prop) c s :
  (forall x r, P x -> P (x <| recent := r |>)) -> (forall x a, P x -> P (x <| awaiting := a |>)) ->
  (forall x q, P x -> P (x <| retryAfterMs := q |>)) -> (forall x f, P x -> P (onFrame f x)) ->
  (forall x code reason, P x -> P (close code reason x)) ->
  P s -> P (event c s).2.
Proof.
  intros Hrec Haw Hretry Hframe Hclose Hs. unfold event. destruct (event_data c ≫= parse_json) as [[| | | | |l]|]; try done.
  destruct (str_at "type" (JObj l)) as [t|]; [|done]. destruct (isPersistent _ _).
  - apply Hframe. unfold on_persistent. destruct (str_at "id" (JObj l)) as [id|]; [|done]. cbn [awaiting upd].
    pose proof (fun r => Hrec s r Hs) as Hr. destruct (assoc id (awaiting s)); [|apply Hr].
    apply Hframe. exact (Haw _ _ (Hr _)).
  - destruct (String.eqb t "error"); [|by apply Hframe]. unfold on_error. destruct (member "data" (JObj l)) as [d|]; [|done].
    destruct d; try done; destruct (Wire.num_at "retryAfterMs" _), (_ ≫= closing_code) as [[c' r']|]; cbn [snd]; auto.
Qed.

Lemma event_stage c s : stage (event c s).2 = stage s.
Proof.
  apply (event_ind (fun x => stage x = stage s)); try done.
  intros x code reason Hx. unfold close, finish. by destruct (closed x).
Qed.

(** After an event that throws, no event of the rest is looked at. *)
Lemma events_app te cs ds s :
  stage s = Reading ->
  events te (cs ++ ds) s =
    match stage (events te cs s) with Reading => events te ds (events te cs s) | _ => events te cs s end /\
  (stage (events te cs s) = Reading \/ stage (events te cs s) = Over).
Proof.
  revert s. induction cs as [|c cs IH]; intros s Hs; cbn [app events]; [rewrite Hs; auto|].
  pose proof (event_stage c s) as Hst. destruct (event c s) as [[] s']; simpl in Hst; [|apply IH; congruence].
  assert (Ho : stage (finish 1006 te (s' <| stage := Over |>)) = Over) by (unfold finish; by destruct (closed _)).
  rewrite Ho. auto.
Qed.

Lemma finish_buffer c r s : buffer (finish c r s) = buffer s.
Proof. unfold finish. by destruct (closed s). Qed.

Lemma event_buffer c s : buffer (event c s).2 = buffer s.
Proof.
  apply (event_ind (fun x => buffer x = buffer s)); try done.
  intros x code reason Hx. unfold close. by rewrite finish_buffer.
Qed.

Lemma events_buffer te cs s : buffer (events te cs s) = buffer s.
Proof.
  revert s. induction cs as [|c cs IH]; intros s; cbn [events]; [done|]. pose proof (event_buffer c s) as H.
  destruct (event c s) as [[] s']; simpl in H; [by rewrite finish_buffer | by rewrite IH].
Qed.

(** The same state, as far as the session and the next read can tell. *)
Definition same (s s' : SseTransport) : Prop := bare s = bare s' /\ (stage s = Reading -> buffer s = buffer s').

#[export] Instance same_equivalence : Equivalence same.
Proof.
  split; [done | |].
  - intros a b [H1 H2]. split; [done|]. intros Hb. symmetry. apply H2. by rewrite (f_equal stage H1 : stage a = stage b).
  - intros a b c [H1 H2] [H3 H4]. split; [congruence|]. intros Ha. rewrite H2 by done. apply H4.
    by rewrite <- (f_equal stage H1 : stage a = stage b).
Qed.

Lemma events_same te cs s s' : bare s = bare s' -> bare (events te cs s) = bare (events te cs s').
Proof. intros H. rewrite <- (events_bare te cs s), <- (events_bare te cs s'). by rewrite H. Qed.

Definition is_close (o : output) : bool := match o with OClose _ => true | _ => false end.

(** Only [finish] aborts, and it closes. *)
Definition sound (s : SseTransport) : Prop := aborted s = true -> closed s = true.

Lemma sse_sound_finish c r s : sound s -> sound (finish c r s).
Proof. unfold sound, finish. by destruct (closed s) eqn:E. Qed.

Lemma events_sound te cs s : sound s -> sound (events te cs s).
Proof.
  revert s. induction cs as [|c cs IH]; intros s Hs; cbn [events]; [done|].
  assert (H : sound (event c s).2) by (apply (event_ind sound); try done; intros; by apply sse_sound_finish).
  destruct (event c s) as [[] s']; [by apply sse_sound_finish | by apply IH].
Qed.

(** [b] is dead and reported what [a] did, then frames, but no end. *)
Definition extends (a b : SseTransport) : Prop :=
  aborted b = true /\ closed b = true /\ exists more, log b = more ++ log a /\ Forall (fun o => is_close o = false) more.

Lemma extends_trans a b c : extends a b -> extends b c -> extends a c.
Proof.
  intros (_ & _ & more & H1 & H2) (Ha & Hc & more' & H3 & H4). split_and!; try done. exists (more' ++ more).
  rewrite H3, H1, app_assoc. split; [done|]. by apply Forall_app.
Qed.

Lemma extends_finish c r a b : extends a b -> extends a (finish c r b).
Proof. unfold finish. intros H. pose proof H as (_ & -> & _). done. Qed.

Lemma events_extends te cs s : aborted s = true -> closed s = true -> extends s (events te cs s).
Proof.
  intros Ha Hc. assert (Hs : extends s s) by (split_and!; try done; by exists []). revert Hs. generalize s at 2 4.
  clear Ha Hc. induction cs as [|c cs IH]; intros x Hx; cbn [events]; [done|].
  assert (H : extends s (event c x).2).
  { apply (event_ind (extends s)); try done; [|intros; by apply extends_finish]. intros y f (Ha & Hc & more & Hl & Hf).
    split_and!; try done. exists (OFrame f :: more). simpl. rewrite Hl. split; [done|]. by constructor. }
  destruct (event c x) as [[] x']; [|by apply IH]. by apply (extends_finish 1006 te s (x' <| stage := Over |>)).
Qed.

(** The end of the read loop. *)
Lemma over_same c r s s' : bare s = bare s' -> same (finish c r (s <| stage := Over |>)) (finish c r (s' <| stage := Over |>)).
Proof.
  intros H. split; [|unfold finish; by destruct (closed _)]. rewrite <- !finish_bare. f_equal.
  change (bare s <| stage := Over |> = bare s' <| stage := Over |>). by rewrite H.
Qed.

Lemma bare_touch x s s' : bare s = bare s' -> bare (touch s <| buffer := x |>) = bare (touch s' <| buffer := x |>).
Proof. unfold bare, touch. simpl. intros [=]. congruence. Qed.

Section Reads.
Context (has_fetch : bool) (baseUrl type_error : string) (date_parse : string -> option Z).
Notation run := (run has_fetch baseUrl type_error date_parse).
Notation read l s := (read_done type_error false (inl l) s).

Lemma read_reading l s :
  stage s = Reading -> aborted s = false ->
  read l s = next_read (events type_error (drained (buffer s ++ l)).1 (touch s <| buffer := (drained (buffer s ++ l)).2 |>)).
Proof. intros Hs Ha. unfold read_done. rewrite Hs, Ha. unfold drained. simpl. by destruct (drain _ _). Qed.

Lemma read_over l s : stage s = Over -> read l s = s.
Proof. intros Hs. unfold read_done. by rewrite Hs. Qed.

Lemma next_read_dead s : aborted s = true -> closed s = true -> next_read s = s <| stage := Over |>.
Proof. intros Ha Hc. unfold next_read, finish. rewrite Ha. simpl. by rewrite Hc. Qed.

Lemma next_read_live s : aborted s = false -> next_read s = s.
Proof. intros Ha. unfold next_read. by rewrite Ha. Qed.

Lemma next_read_over s : stage s = Over -> stage (next_read s) = Over.
Proof. intros Hs. unfold next_read. destruct (aborted s); [|done]. unfold finish. by destruct (closed _). Qed.

Lemma next_read_same s s' : same s s' -> same (next_read s) (next_read s').
Proof.
  intros [H Hb]. pose proof (f_equal aborted H : aborted s = aborted s') as Ha.
  unfold next_read. rewrite <- Ha. destruct (aborted s); [by apply over_same|by split].
Qed.

Lemma read_same l s s' : same s s' -> same (read l s) (read l s').
Proof.
  intros [H1 H2]. pose proof (f_equal stage H1 : stage s = stage s') as Hst. pose proof (f_equal aborted H1 : aborted s = aborted s') as Ha.
  destruct (decide (stage s = Reading)) as [Hs|Hs]; [|unfold read_done; rewrite <- Hst; destruct (stage s) eqn:E; try done; by split; [|intros; congruence]].
  destruct (aborted s) eqn:E.
  - unfold read_done. rewrite <- Hst, Hs, <- Ha, E. simpl. by apply over_same.
  - rewrite !read_reading by congruence. rewrite <- (H2 Hs). apply next_read_same.
    split; [|intros _; by rewrite !events_buffer]. by apply events_same, bare_touch.
Qed.

(** A cut stream against the whole: the same state, or, when an event ended
    the connection in between, two dead transports, of which the one that read
    at once has also looked at the events behind that one. *)
Definition upto (cut whole : SseTransport) : Prop :=
  same cut whole \/ (stage cut = Over /\ stage whole = Over /\ closed cut = true /\ extends cut whole).

Lemma upto_trans a b c : upto a b -> upto b c -> upto a c.
Proof.
  intros [H1|(Ha & Hb & Hc & He)] [H2|(Hb' & Hc' & Hd & He')].
  - left. by etransitivity.
  - right. destruct H1 as [H1 _]. rewrite (f_equal stage H1 : stage a = stage b), (f_equal closed H1 : closed a = closed b).
    split_and!; try done. unfold extends in *. by rewrite (f_equal log H1 : log a = log b).
  - right. destruct H2 as [H2 _]. rewrite <- (f_equal stage H2 : stage b = stage c). split_and!; try done.
    unfold extends in *. rewrite <- (f_equal log H2 : log b = log c), <- (f_equal closed H2 : closed b = closed c).
    by rewrite <- (f_equal aborted H2 : aborted b = aborted c).
  - right. split_and!; try done. by apply (extends_trans a b).
Qed.

Lemma read_upto l s s' : upto s s' -> upto (read l s) (read l s').
Proof. intros [H|(H1 & H2 & H3)]; [left; by apply read_same|]. right. by rewrite !read_over. Qed.

(** A read after one that ended the connection is no read. *)
Lemma read_twice s a b : stage s = Reading -> aborted s = false -> upto (read b (read a s)) (read (a ++ b) s).
Proof.
  intros Hs Hab. rewrite (read_reading a s Hs Hab), (read_reading (a ++ b) s Hs Hab), app_assoc, (drained_app (buffer s ++ a) b).
  destruct (drained (buffer s ++ a)) as [cs r]. cbn [fst snd].
  destruct (drained (r ++ b)) as [ds x] eqn:Ed. cbn [fst snd].
  set (s1 := touch s <| buffer := r |>). set (s2 := touch s <| buffer := x |>).
  assert (Hb : bare s1 = bare s2) by done. pose proof (events_same type_error cs s1 s2 Hb) as He.
  pose proof (f_equal stage He : stage (events _ cs s1) = stage (events _ cs s2)) as Hst.
  pose proof (f_equal aborted He : aborted (events _ cs s1) = aborted (events _ cs s2)) as Hat.
  pose proof (events_sound type_error cs s2 ltac:(intros H; exfalso; change (aborted s = true) in H; congruence)) as Hso.
  destruct (events_app type_error cs ds s2 Hs) as [Happ [Hr|Ho]]; rewrite Happ.
  - rewrite Hr. destruct (aborted (events type_error cs s2)) eqn:E.
    + destruct (events_extends type_error ds _ E (Hso E)) as (Ha2 & Hc2 & Hmore). pose proof (f_equal closed He : closed (events _ cs s1) = closed (events _ cs s2)) as Hc1.
      pose proof (f_equal log He : log (events _ cs s1) = log (events _ cs s2)) as Hl1.
      rewrite (next_read_dead (events type_error cs s1)) by (rewrite ?Hat, ?Hc1; auto). rewrite read_over by done.
      rewrite next_read_dead by done. right. split_and!; simpl; [done | done | rewrite Hc1; auto|].
      unfold extends. simpl. rewrite Hl1. by split_and!.
    + rewrite (next_read_live (events type_error cs s1)) by congruence. rewrite read_reading, events_buffer by congruence.
      change (buffer s1) with r. rewrite Ed. left. apply next_read_same. split; [|intros _; by rewrite !events_buffer].
      by apply events_same, bare_touch.
  - rewrite Ho. left. rewrite read_over by (apply next_read_over; congruence).
    apply next_read_same. split; [done|]. intros Hc. congruence.
Qed.

(** C39. How the stream is cut into reads makes no difference up to the end
of the connection: reading a text in any pieces hands the session the same
frames, acks and closes, in the same order, and leaves the same text unread,
as reading it at once. Only when an event ends the connection, which aborts the
stream, may the single read hand over more: the frames behind that event
in the same read, and never a second close. *)
Theorem reads_chunking (s : SseTransport) (first : chars) (rest : list chars) :
  stage s = Reading -> aborted s = false ->
  let s1 := run s (map (fun l => ReadDone false (inl l)) (first :: rest)) in
  let s2 := run s [ReadDone false (inl (concat (first :: rest)))] in
  closed s1 = closed s2 /\ stage s1 = stage s2 /\ (stage s1 = Reading -> buffer s1 = buffer s2) /\
  exists behind, log s2 = behind ++ log s1 /\ Forall (fun o => is_close o = false) behind /\ (closed s1 = false -> behind = []).
Proof.
  intros Hs Ha s1 s2. assert (H : upto s1 s2).
  { subst s1 s2. assert (Hrun : forall l t, upto t (read l s) ->
      upto (run t (map (fun l => ReadDone false (inl l)) rest)) (read (l ++ concat rest) s)).
    { clear first. induction rest as [|p ps IH]; intros l t Ht; simpl; [by rewrite app_nil_r|]. rewrite app_assoc.
      apply IH. eapply upto_trans; [by apply read_upto, Ht | by apply read_twice]. }
    apply Hrun. by left. }
  destruct H as [[H1 H2]|(H1 & H2 & H3 & _ & H4 & more & H5 & H6)].
  - split_and!; [exact (f_equal closed H1) | exact (f_equal stage H1) | done|]. exists []. split_and!; try done.
    by rewrite <- (f_equal log H1 : log s1 = log s2).
  - split_and!; [congruence .. |]. exists more. split_and!; try done. congruence.
Qed.
End Reads.

(** ** Acks *)

Lemma remember_keeps id n l : assoc id l = None -> assoc id (remember id n l) = Some n.
Proof.
  intros H. unfold remember. destruct (500 <? length (map_set id n l))%nat eqn:E; [|by rewrite assoc_set, String.eqb_refl].
  destruct l as [|[k v] l]; [by vm_compute in E|]. simpl in H |- *. destruct (String.eqb_spec k id) as [->|Hne]; [done|].
  simpl. by rewrite String.eqb_refl, assoc_set, String.eqb_refl.
Qed.

(** A turn sent by POST is acked exactly once, with the seq its frame
    carries, whichever comes first, the answer of the POST or the frame on the
    stream. *)
Theorem post_acked_once (date_parse : string -> option Z) (early : bool) (now : Z) (s : SseTransport) (k : nat) (m : ClientMessageFrame)
    (resp : Response) (id : string) (chunk : chars) (frame : list (string * json)) :
  posts s !! k = Some m -> m_clientId m <> "" -> aborted s = false ->
  rs_ok resp = true -> str_at "id" (readBody (rs_text resp)) = Some id ->
  event_data chunk ≫= parse_json = Some (JObj frame) -> str_at "id" (JObj frame) = Some id ->
  isPersistent (assoc "type" frame) (assoc "seq" frame) = true ->
  assoc id (recent s) = None -> assoc id (awaiting s) = None ->
  let ack := OFrame (ack_frame (m_clientId m) id (seq_of (assoc "seq" frame))) in
  let frame_first := post_done date_parse early now k (Some resp) (event chunk s).2 in
  let answer_first := (event chunk (post_done date_parse early now k (Some resp) s)).2 in
  log frame_first = ack :: OFrame (JObj frame) :: log s /\
  log answer_first = OFrame (JObj frame) :: ack :: log s /\
  assoc id (awaiting frame_first) = None /\ assoc id (awaiting answer_first) = None.
Proof.
  intros Hm Hc Hab Hok Hid Hdata Hfid Hp Hr Ha ack ff af. apply String.eqb_neq in Hc.
  assert (Ht : exists t, str_at "type" (JObj frame) = Some t).
  { unfold isPersistent in Hp. unfold str_at. simpl. destruct (assoc "type" frame) as [[]|]; eauto; done. }
  destruct Ht as [t Ht].
  assert (Hev : forall x, event chunk x = (false, onFrame (JObj frame) (on_persistent (JObj frame) x))).
  { intros x. unfold event. rewrite Hdata, Ht. simpl. by rewrite Hp. }
  assert (Hpost : forall x, posts x = posts s -> aborted x = false ->
    post_done date_parse early now k (Some resp) x = post_accepted m (readBody (rs_text resp)) x).
  { intros x Hx Hax. unfold post_done. rewrite Hx, Hm, Hax. simpl. by rewrite Hok. }
  split_and!; subst ff af ack.
  - rewrite Hev. unfold on_persistent. rewrite Hfid. simpl snd. cbn [awaiting upd]. rewrite Ha. rewrite Hpost by done.
    unfold post_accepted. rewrite Hid, Hc. simpl. by rewrite remember_keeps.
  - rewrite Hpost by done. unfold post_accepted. rewrite Hid, Hc, Hr, Hev. unfold on_persistent. rewrite Hfid. simpl.
    by rewrite assoc_set, String.eqb_refl.
  - rewrite Hev. unfold on_persistent. rewrite Hfid. simpl snd. cbn [awaiting upd]. rewrite Ha. rewrite Hpost by done.
    unfold post_accepted. rewrite Hid, Hc. simpl. by rewrite remember_keeps.
  - rewrite Hpost by done. unfold post_accepted. rewrite Hid, Hc, Hr, Hev. unfold on_persistent. rewrite Hfid. simpl.
    rewrite assoc_set, String.eqb_refl. simpl. by rewrite set_delete_none.
Qed.

(** ** The end *)

Definition closes (s : SseTransport) : nat := length (filter (fun o => is_close o = true) (log s)).

Definition closes_ok (s : SseTransport) : Prop := closes s = if closed s then 1%nat else 0%nat.

Lemma closes_say o s : is_close o = false -> closes_ok s -> closes_ok (say o s).
Proof. unfold closes_ok, closes. simpl. intros Ho H. by rewrite filter_cons_False by congruence. Qed.

Lemma closes_finish c r s : closes_ok s -> closes_ok (finish c r s).
Proof.
  unfold finish. destruct (closed s) eqn:Hc; [done|]. unfold closes_ok, closes. rewrite Hc. simpl. intros H. by rewrite H.
Qed.

Lemma sse_finish_closed c r s : closed (finish c r s) = true.
Proof. unfold finish. by destruct (closed s) eqn:E. Qed.

(** What every operation keeps: the count of closes, and that closed is final. *)
Definition keeps (f : SseTransport -> SseTransport) : Prop :=
  forall s, (closes_ok s -> closes_ok (f s)) /\ (closed s = true -> closed (f s) = true).

Lemma keeps_finish c r : keeps (finish c r).
Proof. intros s. split; [apply closes_finish | intros; apply sse_finish_closed]. Qed.

(** [finish] after fields other than the log were set. *)
Lemma keeps_finish_from c r s0 s :
  log s = log s0 -> closed s = closed s0 ->
  (closes_ok s0 -> closes_ok (finish c r s)) /\ (closed s0 = true -> closed (finish c r s) = true).
Proof.
  intros Hl Hc. split; [|intros; apply sse_finish_closed]. intros H. apply closes_finish. unfold closes_ok, closes in *. by rewrite Hl, Hc.
Qed.

Lemma keeps_say o : is_close o = false -> keeps (say o).
Proof. intros Ho s. split; [by apply closes_say | done]. Qed.

Lemma keeps_after f g : keeps f -> keeps g -> keeps (fun s => f (g s)).
Proof. intros Hf Hg s. destruct (Hg s), (Hf (g s)). auto. Qed.

(** Every other field may change. *)
Lemma keeps_fields f : (forall s, log (f s) = log s) -> (forall s, closed (f s) = closed s) -> keeps f.
Proof. intros Hl Hc s. unfold closes_ok, closes. by rewrite Hl, Hc. Qed.

(** A step that reports no close: the counts compute to what they were. *)
Ltac kept := split; let H := fresh in intros H; exact H.

Lemma keeps_event c : keeps (fun s => (event c s).2).
Proof.
  intros s. set (P := fun x => (closes_ok s -> closes_ok x) /\ (closed s = true -> closed x = true)).
  assert (Hkept : forall f, keeps f -> forall x, P x -> P (f x)) by (intros f Hf x [H1 H2]; destruct (Hf x); split; auto).
  apply (event_ind P); intros.
  - by apply (Hkept (fun x => x <| recent := r |>)); [apply keeps_fields|].
  - by apply (Hkept (fun x => x <| awaiting := a |>)); [apply keeps_fields|].
  - by apply (Hkept (fun x => x <| retryAfterMs := q |>)); [apply keeps_fields|].
  - by apply (Hkept (onFrame f)); [apply keeps_say|].
  - by apply (Hkept (close code reason)); [apply keeps_finish|].
  - by split.
Qed.

Lemma keeps_events te cs : keeps (events te cs).
Proof.
  induction cs as [|c cs IH]; intros s; cbn [events]; [done|]. pose proof (keeps_event c s) as [H1 H2].
  destruct (event c s) as [[] s']; cbn [snd] in H1, H2; [|destruct (IH s'); auto].
  destruct (keeps_finish 1006 te (s' <| stage := Over |>)). auto.
Qed.

Section Ends.
Context (has_fetch : bool) (baseUrl type_error : string) (date_parse : string -> option Z).

Lemma keeps_send f : keeps (fun s => (send has_fetch baseUrl f s).2).
Proof.
  intros s. unfold send. destruct (_ || _); [done|]. destruct f; try done; [|apply keeps_finish].
  cbn [snd]. unfold post. destruct (_ ≫= _) as [[p id]|]; [|done]. destruct (_ || _); [done|]. kept.
Qed.

Lemma keeps_post_done early now k r : keeps (post_done date_parse early now k r).
Proof.
  intros s. unfold post_done. destruct (posts s !! k) as [m|]; [|done]. destruct (if aborted s && negb early then _ else r) as [resp|]; [|done]. destruct (rs_ok resp).
  - unfold post_accepted. destruct (str_at "id" _) as [id|]; [|done]. destruct (String.eqb _ _); [done|].
    destruct (assoc id (recent s)); kept.
  - unfold post_refused. destruct (err_kind _); kept.
Qed.

Lemma keeps_next_read : keeps next_read.
Proof. intros s. unfold next_read. destruct (aborted s); [|done]. by apply keeps_finish_from. Qed.

Lemma keeps_step i : keeps (fun s => step has_fetch baseUrl type_error date_parse s i).
Proof.
  intros s. destruct i; simpl.
  - destruct (stage s); try done. unfold connect. destruct (negb has_fetch); [by apply keeps_finish_from|].
    destruct (Conversation.cp_conversationId p) as [[|c id]|]; [by apply keeps_finish_from | |
      by apply keeps_finish_from]. kept.
  - unfold fetch_done. destruct (stage s); try done. destruct (if aborted s && negb early then _ else r).
    + by apply keeps_finish_from.
    + destruct (err_kind _) as [| |? ? ? [ms|] ?|]; by apply keeps_finish_from.
    + apply (keeps_after next_read (fun s => touch (emitWelcome (say OOpen (s <| opened := true |> <| stage := Reading |>)))));
        [apply keeps_next_read|]. kept.
  - unfold read_done. destruct (stage s); try done. destruct (if aborted s && negb early then _ else r) as [v|[m|]]; [|by apply keeps_finish_from ..].
    cbv zeta. destruct (drain _ _) as [cs x].
    destruct (keeps_events type_error cs (touch s <| buffer := x |>)), (keeps_next_read (events type_error cs (touch s <| buffer := x |>))).
    auto.
  - destruct (liveness s); [|done]. by apply keeps_finish_from.
  - apply keeps_send.
  - apply keeps_post_done.
  - apply keeps_finish.
Qed.

(** However the answers, reads, timers and calls come, the session is told
of the end of an SSE connection at most once; from then on no send is
accepted, and closed is final. *)
Theorem sse_ends_once (l l' : list input) :
  let s := run has_fetch baseUrl type_error date_parse new_sse l in
  let s' := run has_fetch baseUrl type_error date_parse s l' in
  closes s = (if closed s then 1%nat else 0%nat) /\
  (closed s = true -> closed s' = true /\ closes s' = 1%nat /\ forall f, (send has_fetch baseUrl f s').1 = false).
Proof.
  assert (Hrun : forall l s, (closes_ok s -> closes_ok (run has_fetch baseUrl type_error date_parse s l)) /\
    (closed s = true -> closed (run has_fetch baseUrl type_error date_parse s l) = true)).
  { clear. induction l as [|i l IH]; intros s; [done|]. cbn [run fold_left]. destruct (keeps_step i s), (IH (step has_fetch baseUrl type_error date_parse s i)).
    auto. }
  intros s s'. destruct (Hrun l new_sse) as [H1 _], (Hrun l' s) as [H2 H3]. specialize (H1 eq_refl). split; [exact H1|]. intros Hc.
  specialize (H2 H1). specialize (H3 Hc). split; [exact H3|]. unfold closes_ok in H2. fold s' in H2, H3. rewrite H3 in H2.
  split; [exact H2|]. intros f. unfold send. by rewrite H3, orb_true_r.
Qed.
End Ends.

(** ** A stream, concretely *)

Definition ex_params : Conversation.ConnectParams := Conversation.mkParams "tok" (Some "c/1") (Some "u") (Some 41).
Definition ex_message : ClientMessageFrame := mkClientMessage "m-1" "hi" None None None None.
Definition ex_event (s : string) : chars := quoted s ++ [chr LF; chr LF].
Definition ex_frame : chars := ex_event "data: {'type':'text','id':'a1','seq':42,'data':{'text':'hi'}}".
Definition ex_answer : Response := mkResponse 201 (str_of (quoted "{'id':'a1'}")) None.
Definition ex_run (l : list input) : SseTransport := run true "http://h/" "TypeError" (fun _ => None) new_sse l.
Definition ex_open : list input := [Connect ex_params; FetchDone false 0 FStream].
Definition ex_reads (l : list chars) : list input := map (fun l => ReadDone false (inl l)) l.

(** A [token_expired] and a [presence] frame, cut inside the second. *)
Definition ex_expired : chars := ex_event "data: {'type':'error','data':{'code':'token_expired'}}".
Definition ex_presence : chars := ex_event "data: {'type':'presence','data':{}}".

Definition kinds (s : SseTransport) : list (option string) :=
  map (fun o => match o with OFrame f => str_at "type" f | OClose _ => Some "onClose" | _ => None end) (log s).

Definition ex_stream (l : list chars) : SseTransport := run true "http://h/" "TypeError" (fun _ => None) (ex_run ex_open) (ex_reads l).

Lemma reads_chunking_witness :
  let cut := [take 10 ex_frame; take 51 (drop 10 ex_frame); drop 61 ex_frame ++ ex_presence] in
  (length (log (ex_stream cut)) = 5%nat /\ closed (ex_stream cut) = false) /\
  exists behind, log (ex_stream [concat cut]) = behind ++ log (ex_stream cut) /\
    Forall (fun o => is_close o = false) behind /\ (closed (ex_stream cut) = false -> behind = []).
Proof.
  split; [vm_compute; done|].
  exact (proj2 (proj2 (proj2 (reads_chunking true "http://h/" "TypeError" (fun _ => None) (ex_run ex_open) (take 10 ex_frame)
    [take 51 (drop 10 ex_frame); drop 61 ex_frame ++ ex_presence] ltac:(vm_compute; reflexivity) ltac:(vm_compute; reflexivity))))).
Defined.

Lemma post_acked_once_witness :
  let s := run true "http://h/" "TypeError" (fun _ => None) new_sse (ex_open ++ [Send (CText ex_message)]) in
  let frame := [("type", JStr "text"); ("id", JStr "a1"); ("seq", JNum 42); ("data", JObj [("text", JStr "hi")])] in
  log (post_done (fun _ => None) false 0 0 (Some ex_answer) (event (take 62 ex_frame) s).2)
  = OFrame (ack_frame "m-1" "a1" 42) :: OFrame (JObj frame) :: log s.
Proof.
  exact (proj1 (post_acked_once (fun _ => None) false 0
    (run true "http://h/" "TypeError" (fun _ => None) new_sse (ex_open ++ [Send (CText ex_message)])) 0 ex_message ex_answer "a1"
    (take 62 ex_frame) [("type", JStr "text"); ("id", JStr "a1"); ("seq", JNum 42); ("data", JObj [("text", JStr "hi")])]
    ltac:(vm_compute; reflexivity) ltac:(vm_compute; discriminate) ltac:(vm_compute; reflexivity) ltac:(vm_compute; reflexivity)
    ltac:(vm_compute; reflexivity) ltac:(vm_compute; reflexivity) ltac:(vm_compute; reflexivity) ltac:(vm_compute; reflexivity)
    ltac:(vm_compute; reflexivity) ltac:(vm_compute; reflexivity))).
Defined.

(** Frames behind a [token_expired] in the same read still reach the session,
    after [onClose]; in a later read they do not, the stream being aborted. *)
Example frames_after_close :
  take 3 (kinds (ex_run (ex_open ++ ex_reads [ex_expired ++ ex_presence]))) = [Some "presence"; Some "onClose"; Some "error"] /\
  take 2 (kinds (ex_run (ex_open ++ ex_reads [ex_expired; ex_presence]))) = [Some "onClose"; Some "error"].
Proof. split; vm_compute; reflexivity. Qed.

(** An answer of a POST that was still pending at the abort is not looked at;
    one that had settled is. *)
Example aborted_post :
  let l early := ex_open ++ [Send (CText ex_message); Close 1000 "bye"; ReadDone true (inl ex_frame); PostDone early 0 0 (Some ex_answer)] in
  take 2 (kinds (ex_run (l false))) = [Some "text"; Some "onClose"] /\ take 2 (kinds (ex_run (l true))) = [Some "ack"; Some "text"].
Proof. split; vm_compute; reflexivity. Qed.
