(* ===== verification/Phoenix.v ===== *)
(** * Phoenix: the Phoenix Channels transport
    ([packages/client-ts/src/transport/phoenix.ts], class [PhoenixTransport]).

    A state machine over the session's calls, the socket's callbacks, the two
    timers and the microtask that reports a failed [connect].  What is written
    is a Phoenix V2 message; a [text] frame stays the value the session gave.
    An activity of an [activitySet] is read as its declared type, a member of
    another type counting as absent.  [Date.parse] is a parameter.

    Not modelled: handlers that throw or call back into the transport, and
    activities that are not objects. *)

From stdpp Require Import base gmap sets list strings pretty.
From Stdlib Require Import ZArith QArith Lia Ascii.
From S2P Require Import Prelude Watermark Json JsMap Frames Errors Rest Token AgentFrames.
From S2P Require Wire Conversation.

Open Scope string_scope.
Open Scope list_scope.
Open Scope Z_scope.

(** ** Activities as frames *)

(* @src packages/client-ts/src/rest/openapi.ts 46-60 Activity *)
Record RestActivity := mkActivity {
  ra_id : string;
  ra_type : string;
  ra_from : option string;
  ra_text : option string;
  ra_timestamp : string;
  ra_attachments : list json;
  ra_channelData : option (list (string * json));
  ra_replyToId : option string;
}.

Definition as_activity (v : json) : RestActivity :=
  mkActivity (str_at "id" v ?? "") (str_at "type" v ?? "") (str_at "id" (member "from" v ?? JNull)) (str_at "text" v)
    (str_at "timestamp" v ?? "") (match member "attachments" v with Some (JArr l) => l | _ => [] end)
    (record_of (member "channelData" v)) (str_at "replyToId" v).

Definition num (z : Z) : json := JNum (inject_Z z).

(** [a.metadata] when the channel data has members. *)
Definition metadata_of (a : RestActivity) : option (list (string * json)) :=
  match ra_channelData a with Some (_ :: _) => ra_channelData a | _ => None end.

Definition with_metadata (m : option (list (string * json))) : list (string * json) :=
  match m with Some l => [("metadata", JObj l)] | None => [] end.

Definition with_attachments (l : list json) : list (string * json) :=
  match l with [] => [] | _ => [("attachments", JArr l)] end.

(** The members all frames of activities share. *)
(* @src packages/client-ts/src/transport/phoenix.ts 66-76 activityToFrame *)
Definition base_of (date_parse : string -> option Z) (now : Z) (a : RestActivity) (seq : Z) (userId : option string) :
    list (string * json) :=
  let senderId := ra_from a ?? "unknown" in
  let role := if String.eqb senderId "system" then "system"
              else if bool_decide (userId = Some senderId) then "user" else "bot" in
  let timestamp := match date_parse (ra_timestamp a) with Some t => if t =? 0 then now else t | None => now end in
  [("id", JStr (ra_id a)); ("seq", num seq); ("from", JStr (if String.eqb role "user" then "user" else "bot"));
   ("sender", JObj [("id", JStr senderId); ("role", JStr role)]); ("timestamp", num timestamp)].

(* @src packages/client-ts/src/transport/phoenix.ts 77-109 activityToFrame *)
Definition activityToFrame (date_parse : string -> option Z) (now : Z) (a : RestActivity) (seq : Z) (userId : option string) : json :=
  let base := base_of date_parse now a seq userId in
  let metadata := metadata_of a in
  let type := ra_type a in
  let body :=
    if String.eqb type "conversationUpdate" then
      [("type", JStr "conversationUpdate"); ("data", JObj (ra_channelData a ?? []))]
    else if String.eqb type "endOfConversation" then
      [("type", JStr "conversationUpdate"); ("data", JObj [("event", JStr "conversation_ended"); ("status", JStr "closed")])]
    else if String.eqb type "typing" then [("type", JStr "typing"); ("isTyping", JBool false)]
    else if String.eqb type "event" then
      let name := match metadata with Some m => str (assoc "name" m) | None => None end in
      let value := match metadata with Some m => assoc "value" m | None => None end in
      [("type", JStr "event");
       ("data", JObj ([("text", JStr (ra_text a ?? ""))] ++ match name with Some n => [("name", JStr n)] | None => [] end
                      ++ match value with Some v => [("value", v)] | None => [] end))] ++ with_metadata metadata
    else if bool_decide (type ∈ ["messageReaction"; "messageUpdate"; "messageDelete"]) then
      let value := [("replyToId", match ra_replyToId a with Some r => JStr r | None => JNull end)]
                   ++ (if truthy (ra_text a) then [("text", JStr (ra_text a ?? ""))] else [])
                   ++ with_attachments (ra_attachments a) in
      [("type", JStr "event");
       ("data", JObj [("name", JStr type); ("text", JStr (ra_text a ?? "")); ("value", JObj value)])] ++ with_metadata metadata
    else
      [("type", JStr "text"); ("data", JObj ([("text", JStr (ra_text a ?? ""))] ++ with_attachments (ra_attachments a)))]
      ++ with_metadata metadata
      ++ (if truthy (ra_replyToId a) then [("replyTo", JObj [("id", JStr (ra_replyToId a ?? ""))])] else []) in
  JObj (base ++ body).

(** ** The transport *)

(** The payload of a message. *)
Inductive payload := PJson (v : json) | PFrame (f : ClientFrame).

(** [[join_ref, ref, topic, event, payload]]. *)
(* @src packages/client-ts/src/transport/phoenix.ts 59-59 PhoenixMessage *)
Record PhoenixMessage := mkMessage {
  pm_joinRef : option string;
  pm_ref : string;
  pm_topic : string;
  pm_event : string;
  pm_payload : payload;
}.

Inductive output :=
| OConnect (url : string)
| OOpen
| OFrame (frame : json)
| OPush (m : PhoenixMessage)
| OCloseSocket (c : Z) (r : string)
| OClose (c : Wire.SocketClose)
| OThrew.

(** [attached]: the socket's callbacks are ours; [micro]: a queued [finish]. *)
(* @src packages/client-ts/src/transport/phoenix.ts 111-141 PhoenixTransport *)
Record PhoenixTransport := mkPhoenix {
  params : option Conversation.ConnectParams;
  socket : bool;
  attached : bool;
  micro : option (Z * string);
  topic : string;
  userId : option string;
  ref : Z;
  joinRef : option string;
  joined : bool;
  opened : bool;
  closed : bool;
  welcomed : bool;
  heartbeat : bool;
  connectTimer : bool;
  pendingHeartbeat : option string;
  watermark : option Z;
  retryAfterMs : option Q;
  log : list output;
}.

#[export] Instance eta_phoenix : Eta PhoenixTransport :=
  fun s => mkPhoenix (params s) (socket s) (attached s) (micro s) (topic s) (userId s) (ref s) (joinRef s) (joined s) (opened s)
    (closed s) (welcomed s) (heartbeat s) (connectTimer s) (pendingHeartbeat s) (watermark s) (retryAfterMs s) (log s).

Definition new_phoenix : PhoenixTransport :=
  mkPhoenix None false false None "" None 0 None false false false false false false None None None [].

(** The moment a callback runs: the clock, whether the socket is open, whether
    its [send] writes. *)
Record Env := mkEnv { now : Z; is_open : bool; writes : bool }.

Definition say (o : output) (s : PhoenixTransport) : PhoenixTransport := s <| log ::= cons o |>.
Definition onFrame (f : json) (s : PhoenixTransport) : PhoenixTransport := say (OFrame f) s.

(* @src packages/client-ts/src/transport/phoenix.ts 363-383 finish *)
Definition finish (c : Z) (reason : string) (s : PhoenixTransport) : PhoenixTransport :=
  if closed s then s
  else
    let after := or_else (Wire.retryAfterFromReason reason) (retryAfterMs s) in
    say (OClose (Wire.mkClose c reason (opened s) after))
      (s <| closed := true |> <| heartbeat := false |> <| connectTimer := false |> <| attached := false |>).

(* @src packages/client-ts/src/transport/phoenix.ts 348-361 close *)
Definition close (c : Z) (reason : string) (s : PhoenixTransport) : PhoenixTransport :=
  let wasOpen := negb (closed s) in
  let s := finish c reason s in
  if socket s && wasOpen then say (OCloseSocket (if (4000 <=? c) || (c =? 1000) then c else 1000) reason) s else s.

(* @src packages/client-ts/src/transport/phoenix.ts 182-185 nextRef *)
Definition nextRef (s : PhoenixTransport) : string * PhoenixTransport := (pretty (ref s + 1), s <| ref ::= Z.succ |>).

(* @src packages/client-ts/src/transport/phoenix.ts 187-197 push *)
Definition push (env : Env) (jr : option string) (top ev : string) (p : payload) (s : PhoenixTransport) :
    option string * PhoenixTransport :=
  if negb (socket s) || negb (is_open env) then (None, s)
  else
    let '(r, s) := nextRef s in
    if writes env then (Some r, say (OPush (mkMessage jr r top ev p)) s) else (None, s).

(* @src packages/client-ts/src/transport/phoenix.ts 199-206 join *)
Definition join (env : Env) (w : option Z) (s : PhoenixTransport) : PhoenixTransport :=
  let r := pretty (ref s + 1) in
  let s := s <| joined := false |> <| joinRef := Some r |> in
  let p := match w with Some n => [("watermark", JStr (encodeOpaqueWatermark n))] | None => [] end in
  (push env (Some r) (topic s) "phx_join" (PJson (JObj p)) s).2.

(* @src packages/client-ts/src/transport/phoenix.ts 208-212 rejoin *)
Definition rejoin (env : Env) (w : Z) (s : PhoenixTransport) : PhoenixTransport :=
  let s := match joinRef s with
           | Some r => (push env (Some r) (topic s) "phx_leave" (PJson (JObj [])) s).2
           | None => s
           end in
  join env (Some w) (s <| watermark := Some w |>).

(* @src packages/client-ts/src/transport/phoenix.ts 214-221 beat *)
Definition beat (env : Env) (s : PhoenixTransport) : PhoenixTransport :=
  match pendingHeartbeat s with
  | Some _ => close 4000 "heartbeat timeout" s
  | None => let '(r, s) := push env None "phoenix" "heartbeat" (PJson (JObj [])) s in s <| pendingHeartbeat := r |>
  end.

Definition capabilities : json :=
  JObj [("acks", JBool true); ("receipts", JBool true); ("presence", JBool true); ("typing", JBool true)].

(** The synthesised [welcome]. *)
(* @src packages/client-ts/src/transport/phoenix.ts 284-297 onJoinReply *)
Definition welcome_frame (s : PhoenixTransport) : json :=
  let id := (p ← params s; Conversation.cp_conversationId p) ?? "" in
  let exp := t ← (p ← params s; decodeToken (Conversation.cp_token p)); exp t in
  JObj [("type", JStr "welcome");
        ("data", JObj ([("protocol", JStr PROTOCOL_VERSION); ("scope", JStr "conversation"); ("conversationId", JStr id);
                        ("watermark", JNull); ("capabilities", capabilities)]
                       ++ match userId s with Some u => [("userId", JStr u)] | None => [] end
                       ++ match exp with Some e => [("expiresAt", JNum (e * 1000))] | None => [] end))].

(* @src packages/client-ts/src/transport/phoenix.ts 271-298 onJoinReply *)
Definition onJoinReply (body : json) (s : PhoenixTransport) : PhoenixTransport :=
  let response := member "response" body ?? JNull in
  if negb (bool_decide (str_at "status" body = Some "ok")) then
    let reason := str_at "reason" response ?? "join refused" in
    let s := match Wire.num_at "retry_after_ms" response with Some q => s <| retryAfterMs := Some q |> | None => s end in
    close (if String.eqb reason "unauthorized" then 4401 else if String.eqb reason "unavailable" then 1013 else 4400) reason s
  else
    let s := s <| joined := true |> <| connectTimer := false |> in
    if welcomed s then s else onFrame (welcome_frame s) (s <| welcomed := true |>).

Section Transport.
Context (date_parse : string -> option Z).

(** [activities.forEach], the first of them at the seq [n]. *)
Fixpoint deliver (env : Env) (l : list json) (n : Z) (s : PhoenixTransport) : PhoenixTransport :=
  match l with
  | [] => s
  | v :: l' => deliver env l' (n + 1) (onFrame (activityToFrame date_parse (now env) (as_activity v) n (userId s)) s)
  end.

(* @src packages/client-ts/src/transport/phoenix.ts 300-311 onActivitySet *)
Definition onActivitySet (env : Env) (body : json) (s : PhoenixTransport) : PhoenixTransport :=
  let activities := match member "activities" body with Some (JArr l) => l | _ => [] end in
  match activities, parseWatermark (member "watermark" body) with
  | _ :: _, Some last =>
      let first := last - Z.of_nat (length activities) + 1 in
      let s := deliver env activities first s <| watermark := Some last |> in
      if bool_decide (bool_at "has_more" body = Some true) then rejoin env last s else s
  | _, _ => s
  end.

(* @src packages/client-ts/src/transport/phoenix.ts 313-324 onLegacyError *)
Definition onLegacyError (body : json) (s : PhoenixTransport) : PhoenixTransport :=
  let code := str_at "code" body ?? "internal" in
  onFrame (JObj [("type", JStr "error");
                 ("data", JObj ([("code", JStr code); ("message", JStr (str_at "message" body ?? code)); ("retryable", JBool true)]
                                ++ match Wire.num_at "retry_after_ms" body with Some q => [("retryAfterMs", JNum q)] | None => [] end
                                ++ match parseWatermark (member "watermark" body) with
                                   | Some n => [("details", JObj [("watermark", num n)])]
                                   | None => []
                                   end))]) s.

(** [a === b] for a reference read from a message and one of ours. *)
Definition same_ref (v : json) (r : option string) : bool :=
  match v, r with
  | JStr a, Some b => String.eqb a b
  | JNull, None => true
  | _, _ => false
  end.

(** [{...body, type: event}]. *)
Definition retyped (ev : string) (body : json) : json :=
  JObj (map_set "type" (JStr ev) (match body with JObj l => l | _ => [] end)).

(** The events of our topic. *)
(* @src packages/client-ts/src/transport/phoenix.ts 241-269 receive *)
Definition topic_event (env : Env) (r : json) (ev : string) (body : json) (s : PhoenixTransport) : PhoenixTransport :=
  if String.eqb ev "phx_reply" then if same_ref r (joinRef s) then onJoinReply body s else s
  else if String.eqb ev "activitySet" then onActivitySet env body s
  else if String.eqb ev "frame" then onFrame body s
  else if bool_decide (ev ∈ ["deliveryStatus"; "typing"; "presence"]) then onFrame (retyped ev body) s
  else if String.eqb ev "error" then onLegacyError body s
  else if String.eqb ev "phx_error" then close 1011 "channel crashed" s
  else if String.eqb ev "phx_close" then close 1000 "channel closed" s
  else s.

(* @src packages/client-ts/src/transport/phoenix.ts 223-241 receive *)
Definition receive (env : Env) (raw : chars) (s : PhoenixTransport) : PhoenixTransport :=
  match parse_json raw with
  | Some (JArr [jr; r; top; ev; pl]) =>
      let body := match pl with JNull => JObj [] | v => v end in
      match top, ev with
      | JStr top, JStr ev =>
          if String.eqb top "phoenix" then
            if String.eqb ev "phx_reply" && same_ref r (pendingHeartbeat s) then s <| pendingHeartbeat := None |> else s
          else if negb (String.eqb top (topic s)) then s
          else if negb (match jr with JNull => true | _ => false end) && negb (same_ref jr (joinRef s)) then s
          else topic_event env r ev body s
      | _, _ => s
      end
  | _ => s
  end.

(* @src packages/client-ts/src/transport/phoenix.ts 326-346 send *)
Definition send (env : Env) (frame : ClientFrame) (s : PhoenixTransport) : bool * PhoenixTransport :=
  match joined s, joinRef s with
  | true, Some r =>
      let pushed ev p := let '(o, s) := push env (Some r) (topic s) ev p s in (bool_decide (is_Some o), s) in
      match frame with
      | CText _ => pushed "frame" (PFrame frame)
      | CTyping b => pushed "typing" (PJson (JObj [("isTyping", JBool b)]))
      | CRead w => pushed "read" (PJson (JObj [("watermark", num w)]))
      | CSync w => (true, rejoin env w s)
      | CPing _ | CAuth _ | CHello _ _ _ _ _ => (true, s)
      end
  | _, _ => (false, s)
  end.

Section Connect.
Context (baseUrl path : string).

(** What [new WebSocket] comes to. *)
Inductive constructed := NoWebSocket | Threw (message : string) | Constructed.

(** [baseUrl.replace(/\/+$/, "").replace(/^http(s?):\/\//i, ...)]. *)
(* @src packages/client-ts/src/transport/types.ts 97-100 toWebSocketUrl *)
Definition toWebSocketUrl (url : string) : string :=
  let url := trimBaseUrl url in
  let low := lower (chars_of url) in
  match strip_prefix (chars_of "https://") low, strip_prefix (chars_of "http://") low with
  | Some _, _ => "ws" +:+ str_of (take 1 (drop 4 (chars_of url))) +:+ "://" +:+ str_of (drop 8 (chars_of url))
  | _, Some _ => "ws://" +:+ str_of (drop 7 (chars_of url))
  | _, _ => url
  end.

(* @src packages/client-ts/src/transport/phoenix.ts 143-165 connect *)
Definition connect (p : Conversation.ConnectParams) (c : constructed) (s : PhoenixTransport) : PhoenixTransport :=
  let s := s <| params := Some p |> in
  match Conversation.cp_conversationId p with
  | None | Some "" => s <| micro := Some (4404, "the Phoenix binding needs a conversation id") |>
  | Some id =>
      let uid := t ← decodeToken (Conversation.cp_token p); user_id t in
      let s := s <| topic := "converger:conversation:" +:+ id |> <| userId := or_else uid (Conversation.cp_userId p) |>
        <| watermark := Conversation.cp_watermark p |> in
      match c with
      | NoWebSocket => say OThrew s
      | Threw message => s <| micro := Some (1006, message) |>
      | Constructed =>
          say (OConnect (toWebSocketUrl baseUrl +:+ path +:+ "/websocket?"
                         +:+ query_string [("token", Conversation.cp_token p); ("vsn", "2.0.0")]))
          (s <| socket := true |> <| attached := true |> <| connectTimer := true |>)
      end
  end.

(* @src packages/client-ts/src/transport/phoenix.ts 167-172 onopen *)
Definition onopen (env : Env) (s : PhoenixTransport) : PhoenixTransport :=
  let s := say OOpen (s <| opened := true |>) in
  join env (watermark s) s <| heartbeat := true |>.

Inductive input :=
| Connect (p : Conversation.ConnectParams) (c : constructed)
| Microtask
| Open
| Message (raw : option chars)
| Closed (c : Z) (r : string)
| Beat
| ConnectTimeout
| Send (frame : ClientFrame)
| Close (c : Z) (r : string).

(* @src packages/client-ts/src/transport/phoenix.ts 165-180 connect *)
Definition step (s : PhoenixTransport) (x : Env * input) : PhoenixTransport :=
  let '(env, i) := x in
  match i with
  | Connect p c => match params s with None => connect p c s | Some _ => s end
  | Microtask => match micro s with Some (c, r) => finish c r (s <| micro := None |>) | None => s end
  | Open => if attached s && negb (opened s) then onopen env s else s
  | Message (Some raw) => if attached s then receive env raw s else s
  | Message None => s
  | Closed c r => if attached s then finish c r s else s
  | Beat => if heartbeat s then beat env s else s
  | ConnectTimeout => if connectTimer s then close 4000 "connect timeout" (s <| connectTimer := false |>) else s
  | Send f => (send env f s).2
  | Close c r => close c r s
  end.

Definition run (s : PhoenixTransport) (l : list (Env * input)) : PhoenixTransport := fold_left step l s.
End Connect.
End Transport.

(** ** Activity frames are well typed *)

Definition is_str (o : option json) : bool := match o with Some (JStr _) => true | _ => false end.
Definition is_num (o : option json) : bool := match o with Some (JNum _) => true | _ => false end.
Definition is_obj (o : option json) : bool := match o with Some (JObj _) => true | _ => false end.
Definition absent_or (p : option json -> bool) (o : option json) : bool := match o with None => true | _ => p o end.

(** [PersistentFrameBase]. *)
(* @src packages/client-ts/src/protocol/frames.ts 82-98 PersistentFrameBase *)
Definition persistent_base (f : json) : bool :=
  is_str (member "id" f) && is_num (member "seq" f) && bool_decide (str_at "from" f ∈ [Some "user"; Some "bot"])
  && absent_or is_num (member "timestamp" f)
  && absent_or (fun s => match s with Some v => is_str (member "id" v) && is_str (member "role" v) | None => false end) (member "sender" f)
  && absent_or is_obj (member "metadata" f)
  && absent_or (fun r => match r with Some v => is_str (member "id" v) | None => false end) (member "replyTo" f).

(** [ActivityFrame]: the base, and the data its [type] has. *)
(* @src packages/client-ts/src/protocol/frames.ts 100-131 ActivityFrame *)
Definition activity_frame (f : json) : bool :=
  let data := data_of f in
  persistent_base f &&
  match str_at "type" f with
  | Some "text" =>
      is_str (member "text" data)
      && absent_or (fun a => match a with Some (JArr _) => true | _ => false end) (member "attachments" data)
  | Some "event" => is_str (member "text" data) && absent_or is_str (member "name" data)
  | Some "conversationUpdate" => is_obj (member "data" f)
  | Some _ => true
  | None => false
  end.

Lemma persistent_base_of date_parse now a seq userId rest :
  persistent_base (JObj (base_of date_parse now a seq userId ++ rest)) =
    absent_or is_obj (assoc "metadata" rest)
    && absent_or (fun r => match r with Some v => is_str (member "id" v) | None => false end) (assoc "replyTo" rest).
Proof.
  unfold persistent_base, base_of. cbn. destruct (String.eqb (if String.eqb (ra_from a ?? "unknown") "system" then _ else _) "user"); cbn; done.
Qed.

Lemma from_of date_parse now a seq userId rest :
  str_at "from" (JObj (base_of date_parse now a seq userId ++ rest)) = Some "user" <->
  (ra_from a ?? "unknown") <> "system" /\ userId = Some (ra_from a ?? "unknown").
Proof.
  unfold base_of, str_at. cbn. destruct (String.eqb_spec (ra_from a ?? "unknown") "system") as [->|Hne]; cbn; [naive_solver|].
  destruct (bool_decide (userId = Some (ra_from a ?? "unknown"))) eqn:E; bools; cbn; naive_solver.
Qed.

Lemma is_persistent_of date_parse now a seq userId rest t :
  0 < seq -> assoc "type" rest = Some (JStr t) -> t ∉ CONTROL_TYPES ->
  isPersistent (member "type" (JObj (base_of date_parse now a seq userId ++ rest)))
    (member "seq" (JObj (base_of date_parse now a seq userId ++ rest))) = true.
Proof.
  intros Hs Ht Hc. change (isPersistent (assoc "type" rest) (Some (num seq)) = true). rewrite Ht. unfold isPersistent, num.
  rewrite is_integer_inject, to_integer_inject. rewrite bool_decide_eq_false_2 by done. by apply Z.ltb_lt.
Qed.

(** A closed decidable fact. *)
Ltac decided := refine (bool_decide_eq_true_1 _ _); reflexivity.

Lemma with_attachments_typed l : absent_or (fun a => match a with Some (JArr _) => true | _ => false end) (assoc "attachments" (with_attachments l)) = true.
Proof. by destruct l. Qed.

(** C40. Whatever activity the server sends, the frame the session gets is an
    [ActivityFrame] of the protocol and counts as persistent, under the seq it
    was given; it is the end user's own turn exactly when the user sent it. *)
Theorem activityToFrame_typed (date_parse : string -> option Z) (now : Z) (a : RestActivity) (seq : Z) (userId : option string) :
  0 < seq ->
  let f := activityToFrame date_parse now a seq userId in
  activity_frame f = true /\ isPersistent (member "type" f) (member "seq" f) = true /\
  (str_at "from" f = Some "user" <-> (ra_from a ?? "unknown") <> "system" /\ userId = Some (ra_from a ?? "unknown")).
Proof.
  intros Hs. unfold activityToFrame. cbv zeta.
  assert (Hgoal : forall t rest, assoc "type" rest = Some (JStr t) -> t ∉ CONTROL_TYPES ->
    absent_or is_obj (assoc "metadata" rest) = true ->
    absent_or (fun r => match r with Some v => is_str (member "id" v) | None => false end) (assoc "replyTo" rest) = true ->
    (activity_frame (JObj (base_of date_parse now a seq userId ++ rest)) =
       persistent_base (JObj (base_of date_parse now a seq userId ++ rest)) && true) ->
    activity_frame (JObj (base_of date_parse now a seq userId ++ rest)) = true /\
    isPersistent (member "type" (JObj (base_of date_parse now a seq userId ++ rest)))
      (member "seq" (JObj (base_of date_parse now a seq userId ++ rest))) = true /\
    (str_at "from" (JObj (base_of date_parse now a seq userId ++ rest)) = Some "user" <->
       (ra_from a ?? "unknown") <> "system" /\ userId = Some (ra_from a ?? "unknown"))).
  { intros t rest Ht Hc Hm Hr Ha. split_and!; [|by eapply is_persistent_of | apply from_of..].
    rewrite Ha, persistent_base_of. by rewrite Hm, Hr. }
  destruct (String.eqb (ra_type a) "conversationUpdate"); [by apply (Hgoal "conversationUpdate"); [|decided|..]|].
  destruct (String.eqb (ra_type a) "endOfConversation"); [by apply (Hgoal "conversationUpdate"); [|decided|..]|].
  destruct (String.eqb (ra_type a) "typing"); [by apply (Hgoal "typing"); [|decided|..]|].
  destruct (String.eqb (ra_type a) "event").
  { apply (Hgoal "event"); [done | decided | | |]; destruct (metadata_of a) as [m|]; try done; cbn.
    all: destruct (str (assoc "name" m)), (assoc "value" m); done. }
  destruct (bool_decide _).
  { apply (Hgoal "event"); [done | decided | | |]; by destruct (metadata_of a). }
  apply (Hgoal "text"); [done | decided | | |]; destruct (metadata_of a) as [m|], (truthy (ra_replyToId a)); try done;
    destruct (ra_attachments a); done.
Qed.

Lemma activityToFrame_typed_witness :
  let a := mkActivity "a1" "messageUpdate" (Some "u") (Some "hi") "t" [] (Some [("k", JNull)]) None in
  0 < 7 /\ activity_frame (activityToFrame (fun _ => None) 5 a 7 (Some "u")) = true.
Proof.
  split; [lia|]. exact (proj1 (activityToFrame_typed (fun _ => None) 5
    (mkActivity "a1" "messageUpdate" (Some "u") (Some "hi") "t" [] (Some [("k", JNull)]) None) 7 (Some "u") ltac:(lia))).
Defined.

(** ** Seqs of an activity set *)

Lemma activity_seq date_parse now a n userId : member "seq" (activityToFrame date_parse now a n userId) = Some (num n).
Proof. unfold activityToFrame, base_of. simpl. done. Qed.

(** The frames handed to the session, newest first. *)
Definition frames (s : PhoenixTransport) : list json := omap (fun o => match o with OFrame f => Some f | _ => None end) (log s).

Lemma deliver_frames date_parse env l n s :
  frames (deliver date_parse env l n s) =
    reverse (imap (fun i v => activityToFrame date_parse (now env) (as_activity v) (n + Z.of_nat i) (userId s)) l) ++ frames s /\
  userId (deliver date_parse env l n s) = userId s /\ ref (deliver date_parse env l n s) = ref s /\
  joinRef (deliver date_parse env l n s) = joinRef s.
Proof.
  revert n s. induction l as [|v l IH]; intros n s; [done|]. cbn [deliver imap].
  destruct (IH (n + 1) (onFrame (activityToFrame date_parse (now env) (as_activity v) n (userId s)) s)) as (H1 & H2 & H3 & H4).
  rewrite H1, H2, H3, H4. split_and!; try done. rewrite reverse_cons, <- app_assoc. cbn [frames onFrame].
  assert (Hi : forall f g : nat -> json -> json, (forall i x, f i x = g i x) -> imap f l = imap g l).
  { clear. intros f g Hfg. apply imap_ext. auto. }
  rewrite Z.add_0_r. f_equal. f_equal. apply Hi. intros i x. simpl. f_equal. lia.
Qed.

Lemma push_frames env jr top ev p s : frames (push env jr top ev p s).2 = frames s.
Proof. unfold push, nextRef. destruct (_ || _); [done|]. by destruct (writes env). Qed.

Lemma rejoin_frames env w s : frames (rejoin env w s) = frames s.
Proof.
  unfold rejoin, join. rewrite push_frames. destruct (joinRef s) as [r|]; [|done].
  exact (push_frames env (Some r) (topic s) "phx_leave" (PJson (JObj [])) s).
Qed.

(** The frames of an [activitySet] carry the seqs that end at the set's
    watermark, one after the other in the set's order, and the transport's
    resume position moves to it; a set without activities or without a valid
    watermark changes nothing. *)
Theorem activity_set_seqs (date_parse : string -> option Z) (env : Env) (l : list json) (body : json) (s : PhoenixTransport) :
  member "activities" body = Some (JArr l) ->
  let s' := onActivitySet date_parse env body s in
  match l, parseWatermark (member "watermark" body) with
  | _ :: _, Some last =>
      exists fs, frames s' = reverse fs ++ frames s /\ length fs = length l /\ watermark s' = Some last /\
        forall i f, fs !! i = Some f -> member "seq" f = Some (num (last - Z.of_nat (length l) + 1 + Z.of_nat i))
  | _, _ => s' = s
  end.
Proof.
  intros Hl. unfold onActivitySet. rewrite Hl. cbv zeta. destruct l as [|v l]; [done|].
  destruct (parseWatermark (member "watermark" body)) as [last|]; [|done].
  set (first := last - _ + 1). set (d := deliver _ _ _ _ _). destruct (deliver_frames date_parse env (v :: l) first s) as (H & _).
  exists (imap (fun i v => activityToFrame date_parse (now env) (as_activity v) (first + Z.of_nat i) (userId s)) (v :: l)).
  split_and!.
  - destruct (bool_decide _); [rewrite rejoin_frames|]; exact H.
  - apply length_imap.
  - destruct (bool_decide _); [|done]. unfold rejoin, join, push, nextRef. simpl.
    destruct (joinRef d); simpl; repeat (case_match; simpl; try done).
  - intros i f Hi. rewrite list_lookup_imap in Hi. destruct ((v :: l) !! i) as [x|] eqn:Hx; [|done]. simpl in Hi. injection Hi as <-.
    apply activity_seq.
Qed.

(** ** Joins *)

(** After a rejoin the messages of the join before it are stale: one that
    carries its [join_ref] changes nothing, however late it comes. *)
Theorem stale_join_ignored (date_parse : string -> option Z) (env env' : Env) (s : PhoenixTransport) (k w : Z) (raw : chars)
    (r ev p : json) :
  joinRef s = Some (pretty k) -> k <= ref s ->
  topic s <> "phoenix" ->
  parse_json raw = Some (JArr [JStr (pretty k); r; JStr (topic s); ev; p]) ->
  let s' := rejoin env w s in
  joined s' = false /\ receive date_parse env' raw s' = s'.
Proof.
  intros Hj Hk Hp Hraw s'.
  assert (Hs : exists n, joinRef s' = Some (pretty n) /\ ref s < n /\ topic s' = topic s /\ joined s' = false).
  { subst s'. unfold rejoin. rewrite Hj. unfold join, push, nextRef.
    destruct (negb (socket s) || negb (is_open env)) eqn:E; cbn.
    - rewrite E. exists (ref s + 1). cbn. split_and!; [done | lia | done | done].
    - destruct (writes env); cbn; rewrite E; cbn; exists (Z.succ (ref s) + 1); split_and!; try done; lia. }
  destruct Hs as (n & Hn & Hlt & Ht & Hd). split; [exact Hd|]. unfold receive. rewrite Hraw. destruct ev; try done.
  rewrite (proj2 (String.eqb_neq _ _) Hp), Ht, String.eqb_refl. simpl. rewrite Hn.
  assert (Hne : String.eqb (pretty k) (pretty n) = false) by (apply String.eqb_neq; intros E%(inj pretty); lia).
  by rewrite Hne.
Qed.

(** A session's frame goes out only on a joined topic, and then as one
    message of the current join with the next reference; [send] answers
    whether it was written. *)
Theorem send_text_spec (env : Env) (m : ClientMessageFrame) (s : PhoenixTransport) :
  let '(sent, s') := send env (CText m) s in
  if sent
  then joined s = true /\ exists r, joinRef s = Some r /\
       log s' = OPush (mkMessage (Some r) (pretty (ref s + 1)) (topic s) "frame" (PFrame (CText m))) :: log s
  else log s' = log s.
Proof.
  unfold send. destruct (joined s); [|done]. destruct (joinRef s) as [r|]; [|done]. unfold push, nextRef.
  destruct (_ || _); [done|]. destruct (writes env); simpl; [|done]. split; [done|]. by exists r.
Qed.

(** The heartbeat: a beat while the previous one is unanswered drops the
    connection as dead; otherwise, on an open socket, it goes out, and its
    answer makes the next beat go out too. *)
Theorem heartbeat_spec (date_parse : string -> option Z) (env : Env) (s : PhoenixTransport) :
  closed s = false -> socket s = true ->
  match pendingHeartbeat s with
  | Some _ =>
      closed (beat env s) = true /\
      exists after c, log (beat env s) = after ++ OClose c :: log s /\ Wire.close_code c = 4000
  | None =>
      is_open env = true -> writes env = true ->
      let s1 := beat env s in
      let r := pretty (ref s + 1) in
      log s1 = OPush (mkMessage None r "phoenix" "heartbeat" (PJson (JObj []))) :: log s /\ pendingHeartbeat s1 = Some r /\
      forall raw p, parse_json raw = Some (JArr [JNull; JStr r; JStr "phoenix"; JStr "phx_reply"; p]) ->
        pendingHeartbeat (receive date_parse env raw s1) = None
  end.
Proof.
  intros Hc Hs. unfold beat. destruct (pendingHeartbeat s) as [h|].
  - unfold close, finish. rewrite Hc. simpl. rewrite Hs. simpl. split; [done|]. by eexists [_], _.
  - intros Ho Hw. unfold push, nextRef. rewrite Hs, Ho, Hw. simpl. split_and!; [done | done|].
    intros raw p Hraw. unfold receive. rewrite Hraw. simpl. by rewrite String.eqb_refl.
Qed.

(** ** The end *)

Definition is_close (o : output) : bool := match o with OClose _ => true | _ => false end.
Definition reports (o : output) : bool := match o with OOpen | OFrame _ | OClose _ => true | _ => false end.

(** Before the end no [onClose]; after it one, the last report, with nothing
    armed or attached any more. *)
Definition ends (s : PhoenixTransport) : Prop :=
  if closed s
  then attached s = false /\ heartbeat s = false /\ connectTimer s = false /\
       exists after c before, log s = after ++ OClose c :: before /\
         Forall (fun o => reports o = false) after /\ Forall (fun o => is_close o = false) before
  else Forall (fun o => is_close o = false) (log s).

(** Steps that keep [ends], and do not take [closed] back. *)
Definition sound (s s' : PhoenixTransport) : Prop := ends s -> ends s' /\ (closed s = true -> closed s' = true).

#[export] Instance sound_preorder : PreOrder sound.
Proof. split; [intros s H; auto | intros a b c H1 H2 Ha; destruct (H1 Ha) as [Hb ?], (H2 Hb); auto]. Qed.

(** A step of an open transport that ends nothing. *)
Lemma sound_open s s' :
  closed s = false -> closed s' = false -> (exists outs, log s' = outs ++ log s /\ Forall (fun o => is_close o = false) outs) -> sound s s'.
Proof.
  intros Hc Hc' (outs & Hl & Ho) H. split; [|congruence]. unfold ends in *. rewrite Hc in H. rewrite Hc', Hl. by apply Forall_app.
Qed.

(** A step that reports nothing. *)
Lemma sound_silent s s' :
  closed s' = closed s -> attached s' = attached s -> heartbeat s' = heartbeat s ->
  (connectTimer s' = connectTimer s \/ connectTimer s' = false) ->
  (exists outs, log s' = outs ++ log s /\ Forall (fun o => reports o = false) outs) -> sound s s'.
Proof.
  intros Hc Ha Hh Ht (outs & Hl & Ho) H. split; [|congruence]. unfold ends in *. rewrite Hc, Ha, Hh, Hl. destruct (closed s).
  - destruct H as (H1 & H2 & H3 & after & c & before & -> & H5 & H6).
    split_and!; [done | done | destruct Ht; congruence|]. exists (outs ++ after), c, before. rewrite app_assoc. split_and!; [done | by apply Forall_app | done].
  - apply Forall_app. split; [|done]. eapply Forall_impl; [exact Ho|]. by intros [].
Qed.

Lemma sound_finish c r s : sound s (finish c r s).
Proof.
  unfold finish. destruct (closed s) eqn:Hc; [done|]. intros H. split; [|done]. unfold ends in *. rewrite Hc in H. simpl.
  split_and!; try done. by eexists [], _, (log s).
Qed.

Lemma sound_close c r s : sound s (close c r s).
Proof.
  unfold close. transitivity (finish c r s); [apply sound_finish|]. destruct (_ && _); [|done].
  apply sound_silent; auto. eexists [_]. split; [done | by repeat constructor].
Qed.

Lemma sound_push env jr top ev p s : sound s (push env jr top ev p s).2.
Proof.
  unfold push, nextRef. destruct (_ || _); [done|]. destruct (writes env); apply sound_silent; auto; simpl.
  - eexists [_]. split; [done | by repeat constructor].
  - by exists [].
Qed.

Ltac silent := apply sound_silent; [done | done | done | by auto | by exists []].

Lemma sound_join env w s : sound s (join env w s).
Proof. unfold join. etransitivity; [|apply sound_push]. silent. Qed.

Lemma sound_rejoin env w s : sound s (rejoin env w s).
Proof.
  unfold rejoin. etransitivity; [|apply sound_join]. destruct (joinRef s) as [r|]; [|silent].
  etransitivity; [apply (sound_push env (Some r) (topic s) "phx_leave" (PJson (JObj [])))|]. silent.
Qed.

Lemma sound_frame f s : closed s = false -> sound s (onFrame f s).
Proof. intros Hc. apply sound_open; [done | done|]. eexists [_]. split; [done | by repeat constructor]. Qed.

Lemma sound_join_reply body s : closed s = false -> sound s (onJoinReply body s).
Proof.
  intros Hc. unfold onJoinReply. destruct (negb _).
  - etransitivity; [|apply sound_close]. destruct (Wire.num_at _ _); [silent | done].
  - cbn [welcomed upd]. destruct (welcomed s); [silent|].
    etransitivity; [|by apply sound_frame]. silent.
Qed.

Section Ends.
Context (date_parse : string -> option Z) (env : Env).

Lemma sound_deliver l n s : closed s = false -> sound s (deliver date_parse env l n s) /\ closed (deliver date_parse env l n s) = false.
Proof.
  revert n s. induction l as [|v l IH]; intros n s Hc; [done|]. cbn [deliver].
  destruct (IH (n + 1) (onFrame (activityToFrame date_parse (now env) (as_activity v) n (userId s)) s) Hc) as [H1 H2].
  split; [|exact H2]. etransitivity; [by apply sound_frame | exact H1].
Qed.

Lemma sound_activity_set body s : closed s = false -> sound s (onActivitySet date_parse env body s).
Proof.
  intros Hc. unfold onActivitySet. cbv zeta. destruct (match member "activities" body with Some (JArr l) => l | _ => [] end) as [|v l]; [done|].
  destruct (parseWatermark _) as [last|]; [|done].
  destruct (sound_deliver (v :: l) (last - Z.of_nat (length (v :: l)) + 1) s Hc) as [H _].
  assert (Hw : sound s (deliver date_parse env (v :: l) (last - Z.of_nat (length (v :: l)) + 1) s <| watermark := Some last |>)).
  { etransitivity; [exact H | silent]. }
  destruct (bool_decide _); [|exact Hw]. etransitivity; [exact Hw | apply sound_rejoin].
Qed.

Lemma sound_receive raw s : closed s = false -> sound s (receive date_parse env raw s).
Proof.
  intros Hc. unfold receive. destruct (parse_json raw) as [[| | | |[|jr [|r [|top [|ev [|pl [|? ?]]]]]]|]|]; try done.
  destruct top as [| | |top| |], ev as [| | |ev| |]; try done. destruct (String.eqb top "phoenix").
  { destruct (_ && _); [silent | done]. }
  destruct (negb (String.eqb top (topic s))); [done|]. destruct (_ && _); [done|]. generalize (match pl with JNull => JObj [] | v => v end). intros body.
  unfold topic_event. destruct (String.eqb ev "phx_reply"); [destruct (same_ref _ _); [by apply sound_join_reply | done]|].
  destruct (String.eqb ev "activitySet"); [by apply sound_activity_set|]. destruct (String.eqb ev "frame"); [by apply sound_frame|].
  destruct (bool_decide _); [by apply sound_frame|]. destruct (String.eqb ev "error"); [by apply sound_frame|].
  destruct (String.eqb ev "phx_error"); [apply sound_close|]. destruct (String.eqb ev "phx_close"); [apply sound_close | done].
Qed.

Lemma sound_send f s : sound s (send env f s).2.
Proof.
  unfold send. destruct (joined s); [|done]. destruct (joinRef s) as [r|]; [|done].
  assert (H : forall ev p, sound s (let '(o, s) := push env (Some r) (topic s) ev p s in (bool_decide (is_Some o), s)).2).
  { intros ev p. pose proof (sound_push env (Some r) (topic s) ev p s) as H. by destruct (push _ _ _ _ _ _). }
  destruct f; try done; try apply H. apply sound_rejoin.
Qed.

Lemma sound_beat s : sound s (beat env s).
Proof.
  unfold beat. destruct (pendingHeartbeat s); [apply sound_close|].
  pose proof (sound_push env None "phoenix" "heartbeat" (PJson (JObj [])) s) as H.
  destruct (push _ _ _ _ _ _) as [r s']. cbn [snd] in H. etransitivity; [exact H | silent].
Qed.

(** Once [connect] was called, every step is sound. *)
Lemma sound_step baseUrl path i s : params s <> None -> ends s -> sound s (step date_parse baseUrl path s (env, i)).
Proof.
  intros Hp He. assert (Hoff : closed s = true -> attached s = false /\ heartbeat s = false /\ connectTimer s = false).
  { intros Hc. unfold ends in He. rewrite Hc in He. tauto. }
  assert (Hlive : attached s = true -> closed s = false) by (intros Ha; destruct (closed s); [destruct Hoff; [done|congruence] | done]).
  destruct i; cbn [step].
  - by destruct (params s).
  - destruct (micro s) as [[c r]|]; [|done]. etransitivity; [|apply sound_finish]. silent.
  - destruct (attached s && negb (opened s)) eqn:Ha; [|done]. bools. specialize (Hlive H). unfold onopen.
    set (s1 := say OOpen (s <| opened := true |>)). assert (Hc1 : closed s1 = false) by done.
    assert (H1 : sound s s1) by (apply sound_open; [done | done | eexists [_]; split; [done | by repeat constructor]]).
    assert (Hj : closed (join env (watermark s1) s1) = false).
    { unfold join, push, nextRef. destruct (_ || _); [done|]. by destruct (writes env). }
    transitivity s1; [exact H1|]. transitivity (join env (watermark s1) s1); [apply sound_join|].
    apply sound_open; [done | done | by exists []].
  - destruct raw as [raw|]; [|done]. destruct (attached s) eqn:Ha; [|done]. apply sound_receive. auto.
  - destruct (attached s); [apply sound_finish | done].
  - destruct (heartbeat s); [apply sound_beat | done].
  - destruct (connectTimer s) eqn:Ht; [|done]. etransitivity; [|apply sound_close]. silent.
  - apply sound_send.
  - apply sound_close.
Qed.

Lemma finish_params c r s : params (finish c r s) = params s.
Proof. unfold finish. by destruct (closed s). Qed.

Lemma close_params c r s : params (close c r s) = params s.
Proof. unfold close. destruct (_ && _); simpl; by rewrite finish_params. Qed.

Lemma push_params jr top ev p s : params (push env jr top ev p s).2 = params s.
Proof. unfold push, nextRef. destruct (_ || _); [done|]. by destruct (writes env). Qed.

Lemma rejoin_params w s : params (rejoin env w s) = params s.
Proof.
  unfold rejoin, join. rewrite push_params. destruct (joinRef s) as [r|]; [|done].
  exact (push_params (Some r) (topic s) "phx_leave" (PJson (JObj [])) s).
Qed.
Lemma deliver_params date l n s : params (deliver date env l n s) = params s.
Proof. revert n s. induction l as [|v l IH]; intros n s; [done|]. cbn [deliver]. by rewrite IH. Qed.

Lemma receive_params raw s : params (receive date_parse env raw s) = params s.
Proof.
  unfold receive. destruct (parse_json raw) as [[| | | |[|jr [|r [|top [|ev [|pl [|? ?]]]]]]|]|]; try done.
  destruct top as [| | |top| |], ev as [| | |ev| |]; try done. destruct (String.eqb top "phoenix"); [by destruct (_ && _)|].
  destruct (negb (String.eqb top (topic s))); [done|]. destruct (_ && _); [done|]. generalize (match pl with JNull => JObj [] | v => v end). intros body.
  unfold topic_event. destruct (String.eqb ev "phx_reply").
  { destruct (same_ref _ _); [|done]. unfold onJoinReply. destruct (negb _); [rewrite close_params; by destruct (Wire.num_at _ _)|].
    simpl. by destruct (welcomed s). }
  destruct (String.eqb ev "activitySet").
  { unfold onActivitySet. cbv zeta. destruct (match member "activities" body with Some (JArr l) => l | _ => [] end) as [|v l]; [done|].
    destruct (parseWatermark _); [|done]. destruct (bool_decide _); rewrite ?rejoin_params; cbn [params upd]; apply deliver_params. }
  destruct (String.eqb ev "frame"); [done|]. destruct (bool_decide _); [done|]. destruct (String.eqb ev "error"); [done|].
  destruct (String.eqb ev "phx_error"); [apply close_params|]. destruct (String.eqb ev "phx_close"); [apply close_params | done].
Qed.

Lemma step_params baseUrl path i s : params s <> None -> params (step date_parse baseUrl path s (env, i)) = params s.
Proof.
  intros Hp. destruct i; cbn [step].
  - destruct (params s) eqn:E; [exact E | done].
  - destruct (micro s) as [[c r]|]; [|done]. by rewrite finish_params.
  - destruct (_ && _); [|done]. unfold onopen, join. cbn [params upd]. by rewrite push_params.
  - destruct raw as [raw|]; [|done]. destruct (attached s); [apply receive_params | done].
  - destruct (attached s); [apply finish_params | done].
  - destruct (heartbeat s); [|done]. unfold beat. destruct (pendingHeartbeat s); [apply close_params|].
    pose proof (push_params None "phoenix" "heartbeat" (PJson (JObj [])) s) as H. by destruct (push _ _ _ _ _ _) as [r s'].
  - destruct (connectTimer s); [by rewrite close_params | done].
  - unfold send. destruct (joined s); [|done]. destruct (joinRef s) as [r|]; [|done].
    assert (H : forall ev p, params (let '(o, s) := push env (Some r) (topic s) ev p s in (bool_decide (is_Some o), s)).2 = params s).
    { intros ev p. pose proof (push_params (Some r) (topic s) ev p s) as H. by destruct (push _ _ _ _ _ _). }
    destruct frame; try done; try apply H. apply rejoin_params.
  - apply close_params.
Qed.
End Ends.

Lemma phoenix_ends_run date_parse baseUrl path s l : params s <> None -> ends s -> ends (run date_parse baseUrl path s l).
Proof.
  revert s. induction l as [|[env i] l IH]; intros s Hp He; [done|]. apply IH.
  - by rewrite step_params.
  - by apply sound_step.
Qed.

Lemma connect_ends baseUrl path p c : params (connect baseUrl path p c new_phoenix) <> None /\ ends (connect baseUrl path p c new_phoenix).
Proof.
  unfold connect, ends. destruct (Conversation.cp_conversationId p) as [[|ch id]|]; [split; [done | constructor] | | split; [done | constructor]].
  destruct c; (split; [done|]); [constructor; [done | constructor] | constructor | constructor; [done | constructor]].
Qed.

(** However the socket, the timers and the session behave after [connect],
    the end of a Phoenix connection is reported at most once; once it has
    ended nothing more is reported, and its timers and callbacks are gone. *)
Theorem phoenix_ends_once (date_parse : string -> option Z) (baseUrl path : string) (p : Conversation.ConnectParams)
    (c : constructed) (l : list (Env * input)) :
  let s := run date_parse baseUrl path (connect baseUrl path p c new_phoenix) l in
  if closed s
  then attached s = false /\ heartbeat s = false /\ connectTimer s = false /\
       exists after c before, log s = after ++ OClose c :: before /\
         Forall (fun o => reports o = false) after /\ Forall (fun o => is_close o = false) before
  else Forall (fun o => is_close o = false) (log s).
Proof. intros s. apply (phoenix_ends_run date_parse baseUrl path _ l); apply connect_ends. Qed.

(** ** A connection, concretely *)

Definition ex_env : Env := mkEnv 5000 true true.
Definition ex_params : Conversation.ConnectParams := Conversation.mkParams "tok" (Some "c1") (Some "u") (Some 7).
Definition ex_topic : string := "converger:conversation:c1".
Definition ex_message (ref ev body : string) : input :=
  Message (Some (quoted ("[" +:+ ref +:+ ",'" +:+ ex_topic +:+ "','" +:+ ev +:+ "'," +:+ body +:+ "]"))).
Definition ex_run (l : list input) : PhoenixTransport :=
  run (fun _ => Some 1000) "https://h/" "/socket/converger" new_phoenix (map (pair ex_env) l).
Definition ex_join : list input :=
  [Connect ex_params Constructed; Open; ex_message "'1','1'" "phx_reply" "{'status':'ok','response':{}}"].
Definition ex_set : string := "{'activities':[{'id':'a'},{'id':'b'}],'watermark':9,'has_more':true}".

Example ex_rejoin :
  let s := ex_run (ex_join ++ [ex_message "'1',null" "activitySet" ex_set]) in
  (omap (member "seq") (frames s), joinRef s, joined s, watermark s) = ([num 9; num 8], Some "3", false, Some 9).
Proof. vm_compute. reflexivity. Qed.

Lemma activity_set_seqs_witness :
  let s := run (fun _ => Some 1000) "https://h/" "/socket/converger" new_phoenix (map (pair ex_env) ex_join) in
  let l := [JObj [("id", JStr "a")]; JObj [("id", JStr "b")]] in
  let body := JObj [("activities", JArr l); ("watermark", JNum 9); ("has_more", JBool true)] in
  exists fs, frames (onActivitySet (fun _ => Some 1000) ex_env body s) = reverse fs ++ frames s /\ length fs = 2%nat /\
    watermark (onActivitySet (fun _ => Some 1000) ex_env body s) = Some 9 /\
    forall i f, fs !! i = Some f -> member "seq" f = Some (num (9 - 2 + 1 + Z.of_nat i)).
Proof.
  exact (activity_set_seqs (fun _ => Some 1000) ex_env [JObj [("id", JStr "a")]; JObj [("id", JStr "b")]]
    (JObj [("activities", JArr [JObj [("id", JStr "a")]; JObj [("id", JStr "b")]]); ("watermark", JNum 9); ("has_more", JBool true)])
    (run (fun _ => Some 1000) "https://h/" "/socket/converger" new_phoenix (map (pair ex_env) ex_join)) eq_refl).
Defined.

Lemma stale_join_ignored_witness :
  let s := run (fun _ => Some 1000) "https://h/" "/socket/converger" new_phoenix (map (pair ex_env) ex_join) in
  let raw := quoted "['1',null,'converger:conversation:c1','phx_close',{}]" in
  closed (receive (fun _ => None) ex_env raw s) = true /\
  receive (fun _ => None) ex_env raw (rejoin ex_env 9 s) = rejoin ex_env 9 s.
Proof.
  split; [vm_compute; reflexivity|].
  exact (proj2 (stale_join_ignored (fun _ => None) ex_env ex_env
    (run (fun _ => Some 1000) "https://h/" "/socket/converger" new_phoenix (map (pair ex_env) ex_join)) 1 9
    (quoted "['1',null,'converger:conversation:c1','phx_close',{}]") JNull (JStr "phx_close") (JObj [])
    ltac:(vm_compute; reflexivity) ltac:(vm_compute; discriminate) ltac:(vm_compute; discriminate) ltac:(vm_compute; reflexivity))).
Defined.

Lemma heartbeat_spec_witness :
  let s := mkPhoenix (Some ex_params) true true None ex_topic None 1 (Some "1") true true false true true false None None None [] in
  let s1 := beat ex_env s in
  pendingHeartbeat s1 = Some (pretty (1 + 1)) /\
  exists after c, log (beat ex_env s1) = after ++ OClose c :: log s1 /\ Wire.close_code c = 4000.
Proof.
  intros s s1. split.
  - exact (proj1 (proj2 (heartbeat_spec (fun _ => None) ex_env s eq_refl eq_refl eq_refl eq_refl))).
  - exact (proj2 (heartbeat_spec (fun _ => None) ex_env s1 eq_refl eq_refl)).
Defined.
