(* ===== verification/Transports.v ===== *)
(** * Transports: the contract of a connection attempt
    ([TransportHandlers] of [packages/client-ts/src/transport/types.ts]:
    [onClose] is "called exactly once").

    The interface is a class over the machine of a transport; the native
    WebSocket of either SDK, the Phoenix Channels and the Server-Sent Events
    transports are its instances, and what follows from the contract is proved
    once, against the interface. *)

From stdpp Require Import base list strings.
From Stdlib Require Import ZArith QArith Lia.
From S2P Require Import Prelude Frames Watermark Json Rest AgentFrames Wire Conversation Sse Phoenix.

Open Scope string_scope.
Open Scope list_scope.

(** A transport: its steps, the calls of [onClose] so far, and whether it
    considers itself closed. *)
Class TransportMachine (S I : Type) := {
  t_step : S -> I -> S;
  t_ends : S -> nat;
  t_closed : S -> bool;
}.

(** The contract, by an invariant of the machine. *)
Class TransportContract (S I : Type) `{TransportMachine S I} (inv : S -> Prop) := {
  inv_step : forall s i, inv s -> inv (t_step s i);
  inv_ends : forall s, inv s -> t_ends s = if t_closed s then 1%nat else 0%nat;
  inv_closed : forall s i, inv s -> t_closed s = true -> t_closed (t_step s i) = true;
}.

Definition t_run {S I} `{TransportMachine S I} (s : S) (l : list I) : S := fold_left t_step l s.

(** What a session may rely on: however the attempt goes, at most one
    [onClose], told exactly when the transport is closed, and final. *)
Definition ends_once_and_for_all {S I} `{TransportMachine S I} (s : S) (l l' : list I) : Prop :=
  t_ends (t_run s l) = (if t_closed (t_run s l) then 1%nat else 0%nat) /\
  (t_closed (t_run s l) = true -> t_closed (t_run (t_run s l) l') = true /\ t_ends (t_run (t_run s l) l') = 1%nat).

Section Contract.
Context {S I : Type} `{TransportMachine S I} (inv : S -> Prop) `{!TransportContract S I inv}.

Lemma inv_run s l : inv s -> inv (t_run s l).
Proof. revert s. induction l as [|i l IH]; intros s Hs; [done|]. apply IH. by apply inv_step. Qed.

Lemma closed_run s l : inv s -> t_closed s = true -> t_closed (t_run s l) = true.
Proof.
  revert s. induction l as [|i l IH]; intros s Hs Hc; [done|].
  apply IH; [by apply inv_step|]. eapply inv_closed; [exact Hs|done].
Qed.

Lemma contract_ends s l l' : inv s -> ends_once_and_for_all s l l'.
Proof.
  intros Hs. split; [by apply (inv_ends (inv := inv)), inv_run|]. intros Hc.
  assert (Hc' : t_closed (t_run (t_run s l) l') = true) by (apply closed_run; [by apply inv_run|done]).
  split; [done|]. rewrite (inv_ends (inv := inv)) by (by do 2 apply inv_run). by rewrite Hc'.
Qed.
End Contract.

(** ** Opening the native transport *)

(** [new URLSearchParams] with the conversation as a routing hint. *)
Definition native_query (p : ConnectParams) : string :=
  match cp_conversationId p with
  | None | Some "" => ""
  | Some id => query_string [("conversationId", id)]
  end.

(* @src packages/client-ts/src/transport/native.ts 79-86 connect *)
Definition native_url (baseUrl : string) (path : option string) (p : ConnectParams) : string :=
  let qs := native_query p in
  toWebSocketUrl baseUrl +:+ (path ?? "/socket/converger/v1") +:+ (if String.eqb qs "" then "" else "?" +:+ qs).

(* @src packages/client-ts/src/transport/native.ts 98-101 onopen *)
Definition native_hello (p : ConnectParams) : json :=
  JObj ([("type", JStr "hello"); ("protocol", JStr PROTOCOL_VERSION); ("token", JStr (cp_token p))]
        ++ (if truthy (cp_conversationId p) then [("conversationId", JStr (cp_conversationId p ?? ""))] else [])
        ++ (if truthy (cp_userId p) then [("userId", JStr (cp_userId p ?? ""))] else [])
        ++ match cp_watermark p with Some n => [("watermark", JNum (inject_Z n))] | None => [] end).

(* @src packages/client-ts/src/transport/native.ts 40-47 NativeTransportOptions *)
Record NativeTransportOptions := mkNativeOptions {
  n_path : option string;
  n_livenessGraceMs : option Q;
  n_connectTimeoutMs : option Q;
}.

(* @src packages/client-ts/src/transport/native.ts 69-74 constructor *)
Definition native_options (o : NativeTransportOptions) (p : ConnectParams) : Wire.SocketOptions :=
  Wire.mkSocketOptions (native_hello p) (n_connectTimeoutMs o ?? 15000%Q) (n_livenessGraceMs o ?? 15000%Q).

(** What [connect] comes to: [requireWebSocket] throws ([None]), or the URL
    given to the constructor and the input the socket's machine gets. *)
(* @src packages/client-ts/src/transport/native.ts 76-92 connect *)
Definition native_connect (baseUrl : string) (o : NativeTransportOptions) (p : ConnectParams) (c : constructed)
    : option (string * Wire.input) :=
  match c with
  | NoWebSocket => None
  | Threw message => Some (native_url baseUrl (n_path o) p, Wire.IConnectFailed message)
  | Constructed => Some (native_url baseUrl (n_path o) p, Wire.IConnect true)
  end.

(** What the server learns from the [hello]: the token, the conversation and
    user if they are named, and where to resume. *)
Lemma native_hello_reads (p : ConnectParams) :
  str_at "token" (native_hello p) = Some (cp_token p) /\
  str_at "conversationId" (native_hello p) = (if truthy (cp_conversationId p) then cp_conversationId p else None) /\
  str_at "userId" (native_hello p) = (if truthy (cp_userId p) then cp_userId p else None) /\
  member "watermark" (native_hello p) = JNum <$> (inject_Z <$> cp_watermark p).
Proof. destruct p as [tok [[|c id]|] [[|u user]|] [n|]]; by vm_compute. Qed.

(** ** The WebSocket transports *)

Definition count_closes {O : Type} (is_close : O -> bool) (l : list O) : nat := length (filter (fun o => is_close o = true) l).

Lemma count_none {O} (p : O -> bool) l : Forall (fun o => p o = false) l -> count_closes p l = 0%nat.
Proof.
  induction 1 as [|o l Ho _ IH]; [done|]. unfold count_closes in *. by rewrite filter_cons_False by congruence.
Qed.

Lemma closes_app {O} (p : O -> bool) l l' : count_closes p (l ++ l') = (count_closes p l + count_closes p l')%nat.
Proof. unfold count_closes. by rewrite filter_app, length_app. Qed.

Lemma count_one {O} (p : O -> bool) after c before :
  p c = true -> Forall (fun o => p o = false) after -> Forall (fun o => p o = false) before ->
  count_closes p (after ++ c :: before) = 1%nat.
Proof.
  intros Hc Ha Hb. rewrite closes_app, (count_none p after) by done.
  unfold count_closes. rewrite filter_cons_True by done. simpl. f_equal. by apply count_none.
Qed.

#[export] Instance socket_machine (fl : Wire.flavour) (opts : Wire.SocketOptions) : TransportMachine Wire.Socket (Wire.Env * Wire.input) := {|
                                                                                                                                             t_step s x := Wire.step fl opts x.1 x.2 s;
                                                                                                                                             t_ends s := count_closes Wire.is_close (Wire.log s);
                                                                                                                                             t_closed := Wire.closed;
|}.

Lemma socket_closed_final fl opts env i (s : Wire.Socket) :
  Wire.ends_once s -> Wire.closed s = true -> Wire.closed (Wire.step fl opts env i s) = true.
Proof.
  intros Hs Hc. unfold Wire.ends_once in Hs. rewrite Hc in Hs. destruct Hs as (Ha & Ht & Hct & _).
  destruct i; simpl; rewrite ?Ha, ?Ht, ?Hct; simpl; try done.
  - by rewrite Hc, orb_true_r.
  - apply Wire.finish_closed.
  - by rewrite Wire.send_closed.
  - unfold Wire.close_on. destruct (_ && _); simpl; apply Wire.finish_closed.
Qed.

#[export] Instance socket_contract fl opts : @TransportContract _ _ (socket_machine fl opts) Wire.ends_once.
Proof.
  split; simpl.
  - intros s [env i] Hs. by apply Wire.ends_step.
  - intros s Hs. unfold Wire.ends_once in Hs. destruct (Wire.closed s); [|by apply count_none].
    destruct Hs as (_ & _ & _ & after & c & before & -> & Ha & Hb). apply count_one; [done| |done].
    eapply Forall_impl; [exact Ha|]. by intros [].
  - intros s [env i]. apply socket_closed_final.
Qed.

(** ** The Phoenix transport *)

#[export] Instance phoenix_machine date_parse baseUrl path : TransportMachine PhoenixTransport (Phoenix.Env * Phoenix.input) := {|
                                                                                                                                 t_step := Phoenix.step date_parse baseUrl path;
                                                                                                                                 t_ends s := count_closes Phoenix.is_close (Phoenix.log s);
                                                                                                                                 t_closed := Phoenix.closed;
|}.

Definition phoenix_inv (s : PhoenixTransport) : Prop := Phoenix.params s <> None /\ Phoenix.ends s.

#[export] Instance phoenix_contract date_parse baseUrl path : @TransportContract _ _ (phoenix_machine date_parse baseUrl path) phoenix_inv.
Proof.
  split; simpl.
  - intros s [env i] [Hp Hs]. split; [by rewrite Phoenix.step_params|]. by apply Phoenix.sound_step.
  - intros s [_ Hs]. unfold Phoenix.ends in Hs. destruct (Phoenix.closed s); [|by apply count_none].
    destruct Hs as (_ & _ & _ & after & c & before & -> & Ha & Hb). apply count_one; [done| |done].
    eapply Forall_impl; [exact Ha|]. by intros [].
  - intros s [env i] [Hp Hs]. by apply Phoenix.sound_step.
Qed.

(** ** The Server-Sent Events transport *)

#[export] Instance sse_machine has_fetch baseUrl type_error date_parse : TransportMachine SseTransport Sse.input := {|
                                                                                                                     t_step := Sse.step has_fetch baseUrl type_error date_parse;
                                                                                                                     t_ends := Sse.closes;
                                                                                                                     t_closed := Sse.closed;
|}.

#[export] Instance sse_contract has_fetch baseUrl type_error date_parse :
  @TransportContract _ _ (sse_machine has_fetch baseUrl type_error date_parse) Sse.closes_ok.
Proof.
  split; simpl; [intros s i Hs | done | intros s i _ Hs]; by apply Sse.keeps_step.
Qed.

(** ** Properties *)

(** C30. Whatever the server, the socket or the fetch, the timers and the
    session do, every connection attempt of either SDK reports its end at most
    once, reports it exactly when it is closed, and never reopens: for the
    native and the agent's socket, the Phoenix channel from its [connect] on,
    and the event stream. *)
Theorem transports_end_once fl opts date_parse baseUrl path p c has_fetch type_error
    (ws ws' : list (Wire.Env * Wire.input)) (ph ph' : list (Phoenix.Env * Phoenix.input)) (es es' : list Sse.input) :
  @ends_once_and_for_all _ _ (socket_machine fl opts) Wire.new_socket ws ws' /\
  @ends_once_and_for_all _ _ (phoenix_machine date_parse baseUrl path) (Phoenix.connect baseUrl path p c new_phoenix) ph ph' /\
  @ends_once_and_for_all _ _ (sse_machine has_fetch baseUrl type_error date_parse) new_sse es es'.
Proof.
  split_and!.
  - apply (contract_ends Wire.ends_once). constructor.
  - apply (contract_ends phoenix_inv). apply Phoenix.connect_ends.
  - by apply (contract_ends Sse.closes_ok).
Qed.
