(* ===== verification/Session.v ===== *)
(** * Session: the handlers of a conversation as sequences of atomic actions.

    [Conversation.step] is long: one input may touch a dozen fields through a
    dozen methods.  Here every input is shown to be a sequence of the few
    atomic actions below, each with the condition under which the session
    performs it ([step_atoms]).  The theorems about whole runs (what is
    emitted, what leaves the outbox, what goes on the wire, which promises
    settle) then only look at atoms. *)

From stdpp Require Import base gmap sets list strings relations.
From Stdlib Require Import ZArith QArith Lia.
From S2P Require Import Prelude Backoff Frames Watermark Storage Outbox Errors Token Receive Conversation.

Open Scope string_scope.
Open Scope list_scope.
Open Scope Z_scope.

#[global] Arguments upd {R E} getter {Setter} f r : simpl nomatch.

(** ** What an input is about *)

(** The seq an input makes the session mark as seen. *)
Definition delivered {T} (i : input T) : option Z :=
  match i with
  | IFrame _ (SAck a) => ack_seq a
  | IFrame _ (SFrame f) =>
      if isPersistent (Some (JStr (f_type f))) (f_seq f) then Some (seq_of (f_seq f)) else None
  | _ => None
  end.

(** The send an input answers: an ack, an error naming it, or its own turn. *)
Definition answered {T} (i : input T) : option string :=
  match i with
  | IFrame _ (SAck a) => Some (ack_clientId a)
  | IFrame _ (SError d) => ed_clientId d
  | IFrame _ (SFrame f) => f_clientId f
  | _ => None
  end.

(** The inputs that move the watermark elsewhere: the server replaced the
    conversation, the server rejected the watermark, [resume] chose one. *)
Definition resets {T} (i : input T) (s : Conversation T) : bool :=
  match i with
  | IFrame _ (SWelcome d) =>
      truthy (conversationId s) && negb (String.eqb (w_conversationId d) "")
      && negb (bool_decide (conversationId s = Some (w_conversationId d)))
  | IFrame _ (SError d) => String.eqb (ed_code d) "invalid_watermark"
  | ITask t _ => match tasks s !! t with Some (KResumeLoad _) => true | _ => false end
  | _ => false
  end.

Definition is_frame {T} (i : input T) : bool := match i with IFrame _ _ => true | _ => false end.

(** The clientId a [send] call uses. *)
Definition sends {T} (i : input T) : option string :=
  match i with ISend m generated => Some (s_clientId m ?? generated) | _ => None end.

(** The entries a settled read of the storage brings carry frames with their
    own clientId, as every entry a session stores does ([send]). *)
Definition outbox_ok (l : list OutboxEntry) : Prop := Forall (fun e => m_clientId (frame e) = clientId e) l.

Lemma outbox_ok_turns l : outbox_ok l <-> Forall (fun x => m_clientId x.2 = x.1) (map (fun e => (clientId e, frame e)) l).
Proof. unfold outbox_ok. by rewrite Forall_map. Qed.

Lemma outbox_ok_remove id st : outbox_ok (entries st) -> outbox_ok (entries (Outbox.remove id st).2).
Proof.
  unfold Outbox.remove. destruct (Outbox.get id st); [|done]. simpl. rewrite entries_persist. simpl.
  unfold outbox_ok. rewrite !Forall_forall. intros Hok e He. apply Hok.
  by eapply sublist_subseteq, He; apply remove_first_sublist.
Qed.

Lemma outbox_ok_touch id st : outbox_ok (entries st) -> outbox_ok (entries (touch id st)).
Proof. rewrite !outbox_ok_turns. fold (turns st) (turns (touch id st)). by rewrite turns_touch. Qed.

Definition loads_ok {T} (i : input T) : Prop :=
  match i with
  | ITask _ (OkRead (ReadText (Parsed p))) => outbox_ok (p_outbox p ?? [])
  | _ => True
  end.

(** Outputs no theorem below counts; [frame]: a frame is being handled. *)
Definition neutral (frame : bool) (o : output) : bool :=
  match o with
  | OEmit (EActivity _ | EConnectionState _ | ESent _ | ESendFailed _ _) => false
  | OEmit (EDeliveryStatus _ | ETyping _ | EPresence _ | EWelcome _ | EReplayTruncated _) | OReady _ => frame
  | OWire _ _ | OConnect _ _ | OResolve _ _ | OReject _ _ => false
  | _ => true
  end.

Definition is_text (f : ClientFrame) : bool := match f with CText _ => true | _ => false end.
Definition is_gap (a : timer_action) : bool := match a with TGap _ => true | _ => false end.

(** The fields the atoms below account for. *)
Definition core {T} (s : Conversation T) :=
  (watermark (window s), seen (window s), store s, waiting s, inFlight s, state s, transport s, stopped s,
   gapTimer s, timers s, log s).

Definition rejects (e : ConvergerError) (ids : list string) : list output :=
  map (fun id => OReject id e) (rev ids).

(** ** Atoms *)

Section Atoms.
Context {T : Type} (reset : bool) (i : input T).
Notation conv := (Conversation T).

Inductive atom : conv -> conv -> Prop :=
| a_quiet s s' : core s = core s' -> atom s s'
| a_say o s : neutral (is_frame i) o = true -> atom s (say o s)
| a_wire tr f s :
  transport s = Some tr -> is_text f = false ->
  (forall w, f = CSync w -> reset = true \/ w <= watermark (window s)) ->
  atom s (say (OWire (tr_id tr) f) s)
| a_state st d c e name s :
  (st = state s -> st = reconnecting) -> st <> closed -> stopped s = false \/ is_frame i = true ->
  atom s (emit (EConnectionState (mkChange st (state s) (attempt s) d name c e)) (s <| state := st |>))
| a_stop e chg f s :
  (stopped s = false /\ is_frame i = false) \/ i = IDisconnect ->
  (if bool_decide (state s = closed) then chg = []
   else exists a d name c x, chg = [OEmit (EConnectionState (mkChange closed (state s) a d name c x))]) ->
  atom s (s <| stopped := true |> <| transport := None |> <| state := closed |> <| waiting := [] |>
          <| fatal := f |> <| log := rejects e (waiting s) ++ chg ++ log s |>)
| a_connect tr p s :
  stopped s = false -> (forall w, cp_watermark p = Some w -> w = watermark (window s)) ->
  atom s (say (OConnect (tr_id tr) p) (s <| transport := Some tr |>))
| a_drop s :
  (exists tr c, i = IClose tr c) -> atom s (s <| transport := None |> <| inFlight := ∅ |>)
| a_mark seq s : delivered i = Some seq -> atom s (s <| window := (mark seq (window s)).2 |>)
| a_activity f s :
  delivered i = Some (seq_of (f_seq f)) -> duplicate (seq_of (f_seq f)) (window s) = false ->
  atom s (emit (EActivity f) (s <| window := (mark (seq_of (f_seq f)) (window s)).2 |>))
| a_reset w s : reset = true -> atom s (s <| window := w |>)
| a_store st s :
  (forall id, id ∈ ids (store s) -> id ∈ ids st) ->
  (loads_ok i -> outbox_ok (entries (store s)) -> outbox_ok (entries st)) ->
  atom s (s <| store := st |>)
| a_send e s :
  sends i = Some (clientId e) -> m_clientId (frame e) = clientId e -> clientId e ∉ ids (store s) -> clientId e ∉ waiting s ->
  atom s (s <| waiting ::= fun l => l ++ [clientId e] |> <| store ::= Outbox.add e |>)
| a_free id s : answered i = Some id -> atom s (s <| inFlight ::= fun l => l ∖ {[id]} |>)
| a_settle id r s :
  answered i = Some id -> res_clientId r = id ->
  atom s (emit (ESent r) (settle_wait id (OResolve id r) (s <| store := (Outbox.remove id (store s)).2 |>)))
| a_fail id e s :
  answered i = Some id ->
  atom s (emit (ESendFailed id e) (settle_wait id (OReject id e) (s <| store := (Outbox.remove id (store s)).2 |>)))
| a_discard st e s :
  i = IDiscardOutbox -> (outbox_ok (entries (store s)) -> outbox_ok (entries st)) ->
  atom s (s <| store := st |> <| waiting := [] |> <| log := rejects e (waiting s) ++ log s |>)
| a_text tr e s :
  transport s = Some tr -> state s = open -> replaying s = false ->
  Z.of_nat (size (inFlight s)) < maxInFlight s -> clientId e ∉ inFlight s ->
  (clientId e, frame e) ∈ turns (store s) ->
  atom s (say (OWire (tr_id tr) (CText (frame e)))
          (s <| inFlight ::= union {[clientId e]} |> <| store ::= touch (clientId e) |>))
| a_set a d s :
  is_gap a = false -> atom s (s <| timers ::= <[nextTimer s := (a, d)]> |> <| nextTimer ::= S |>)
| a_clear m s : m ⊆ timers s -> atom s (s <| timers := m |>)
| a_gap_arm highest d s :
  gapTimer s = None ->
  atom s (s <| timers ::= <[nextTimer s := (TGap highest, d)]> |> <| nextTimer ::= S |>
          <| gapTimer := Some (nextTimer s) |>)
| a_gap_fire h highest d s :
  timers s !! h = Some (TGap highest, d) -> atom s (s <| timers ::= delete h |> <| gapTimer := None |>).

Definition atoms : conv -> conv -> Prop := rtc atom.

Lemma quiet s s0 s' : atoms s s0 -> core s0 = core s' -> atoms s s'.
Proof. intros Hs Hc. eapply rtc_r; [exact Hs|by apply a_quiet]. Qed.

Lemma then_atom s s0 s' : atoms s s0 -> atom s0 s' -> atoms s s'.
Proof. apply rtc_r. Qed.
End Atoms.

(** Walk through a handler: [bind] leaves the goal for its first statement,
    then the rest from the (now arbitrary) state after it; [plumb] closes a
    statement that changes none of the [core] fields. *)
Ltac bind :=
  lazymatch goal with
| |- atoms ?r ?i ?s0 (let x := ?e in @?b x) =>
    let Ty := type of e in
    lazymatch Ty with
| Conversation _ =>
    change (atoms r i s0 (b e)); apply (rtc_trans s0 e (b e));
    [change (atoms r i s0 e)
|change (atoms r i e (b e)); let s' := fresh "s" in generalize e as s'; intros s'; cbv beta]
| _ => change (atoms r i s0 (b e)); cbv beta
  end
  end.
  Tactic Notation "enter" reference(f) := cbv beta delta [f].
Ltac plumb := first [apply rtc_refl | apply rtc_once, a_quiet; reflexivity].

Section Steps.
Context {T : Type} `{TokenSource T} (deps : ConversationDeps) (reset : bool) (i : input T).
Notation conv := (Conversation T).
Notation "s ~> s'" := (atoms reset i s s') (at level 70).

Lemma atoms_trans s s0 s' : s ~> s0 -> s0 ~> s' -> s ~> s'.
Proof. apply rtc_trans. Qed.

Lemma atoms_id s : s ~> s.
Proof. apply rtc_refl. Qed.

Lemma atoms_1 s s' : atom reset i s s' -> s ~> s'.
Proof. apply rtc_once. Qed.

Lemma atoms_eq s s' : s = s' -> s ~> s'.
Proof. intros ->. apply atoms_id. Qed.

(** ** The runtime *)

Lemma say_atoms o s : neutral (is_frame i) o = true -> s ~> say o s.
Proof. intros Ho. by apply atoms_1, a_say. Qed.

Lemma emit_atoms e s : neutral (is_frame i) (OEmit e) = true -> s ~> emit e s.
Proof. apply say_atoms. Qed.

(** An event that a frame causes. *)
Lemma emit_frame_atoms e s : is_frame i = true -> neutral true (OEmit e) = true -> s ~> emit e s.
Proof. intros Hi He. apply emit_atoms. by rewrite Hi. Qed.

Lemma await_atoms k s : s ~> await k s.
Proof. by apply atoms_1, a_quiet. Qed.

Lemma clearTimeout_atoms h s : s ~> clearTimeout h s.
Proof.
  destruct h as [h|]; [|apply atoms_id]. apply atoms_1, (a_clear _ _ (delete h (timers s)) s), delete_subseteq.
Qed.

Lemma setTimeout_atoms a d s : is_gap a = false -> s ~> (setTimeout a d s).2.
Proof. intros Ha. by apply atoms_1, a_set. Qed.

Lemma wire_atoms env f s :
  is_text f = false -> (forall w, f = CSync w -> reset = true \/ w <= watermark (window s)) ->
  s ~> (wire env f s).2.
Proof.
  intros Hf Hw. unfold wire. destruct (transport s) as [tr|] eqn:Ht; [|apply atoms_id].
  destruct (accepts env (tr_id tr) f); [by apply atoms_1, a_wire|apply atoms_id].
Qed.

Lemma resolve_ready_atoms d s : is_frame i = true -> s ~> resolve_ready d s.
Proof.
  intros Hi. unfold resolve_ready. destruct (ready s); try apply atoms_id.
  eapply atoms_trans; [by apply atoms_1, (a_quiet _ _ s (s <| ready := ReadySettled |>))|apply say_atoms; by rewrite Hi].
Qed.

Lemma reject_ready_atoms e s : s ~> reject_ready e s.
Proof.
  unfold reject_ready. destruct (ready s); try apply atoms_id.
  eapply atoms_trans; [by apply atoms_1, (a_quiet _ _ s (s <| ready := ReadySettled |>))|by apply say_atoms].
Qed.

Lemma store_atoms f s :
  (forall id, id ∈ ids (store s) -> id ∈ ids (f (store s))) ->
  (loads_ok i -> outbox_ok (entries (store s)) -> outbox_ok (entries (f (store s)))) ->
  s ~> s <| store ::= f |>.
Proof. intros Hf Hok. by apply atoms_1, (a_store _ _ (f (store s)) s). Qed.

(** A read that settles as the input says. *)
Definition read_by (r : read_result) : Prop := exists t, i = ITask t (OkRead r).

Lemma load_ok r st :
  read_by r -> loads_ok i -> outbox_ok (entries st) -> outbox_ok (entries (Outbox.load r st)).
Proof.
  intros [t Hi] Hl Hok. rewrite Hi in Hl. destruct r as [| |[| |p]]; try done. simpl.
  destruct (bool_decide _); [|done]. simpl. apply Forall_app. split; [|done].
  apply Forall_forall. intros e [_ He]%list_elem_of_filter. by eapply Forall_forall in Hl.
Qed.

Lemma saveState_atoms s : s ~> saveState s.
Proof.
  unfold saveState. destruct (conversationId s) as [[|]|]; try apply atoms_id.
  apply store_atoms; [intros id'; by rewrite ids_setState|]. intros _. by rewrite entries_setState.
Qed.

Lemma setState_atoms st d c e s :
  st <> closed -> stopped s = false \/ is_frame i = true -> s ~> setState deps st d c e s.
Proof.
  intros Hst Hs. unfold setState. destruct (bool_decide _ && _) eqn:E; [apply atoms_id|].
  apply atoms_1, (a_state reset i st d c e _ s); [|done|done].
  intros ->. apply andb_false_iff in E as [E|E]; bools; done.
Qed.

(** [rejectWaiting] in one update. *)
Lemma rejectWaiting_eq e (s : conv) :
  rejectWaiting e s = s <| waiting := [] |> <| log := rejects e (waiting s) ++ log s |>.
Proof.
  unfold rejectWaiting, rejects.
  assert (forall l (s0 : conv), fold_left (fun s id => say (OReject id e) s) l s0
    = s0 <| log := map (fun id => OReject id e) (rev l) ++ log s0 |>) as ->; [|by destruct s].
  induction l as [|id l IH]; intros s0; simpl; [by destruct s0|].
  rewrite IH, map_app, <- app_assoc. by destruct s0.
Qed.

(** Timers only: [clearTimers] in one update. *)
Lemma clearTimers_eq (s : conv) : exists m, clearTimers s = s <| timers := m |> /\ m ⊆ timers s.
Proof.
  unfold clearTimers. generalize [reconnectTimer s; refreshTimer s; replayTimer s; gapTimer s; syncTimer s; retryTimer s].
  intros hs. cut (forall (s0 : conv) m0, s0 = s <| timers := m0 |> -> m0 ⊆ timers s ->
    exists m, fold_left (fun s' h => clearTimeout h s') hs s0 = s <| timers := m |> /\ m ⊆ timers s).
  { intros Hc. apply (Hc s (timers s)); [by destruct s|done]. }
  induction hs as [|h hs IH]; intros s0 m0 -> Hm; [by exists m0|]. simpl.
  destruct h as [h|]; simpl.
  - apply (IH _ (delete h m0)); [done|]. etrans; [apply delete_subseteq|done].
  - by apply (IH _ m0).
Qed.

(** The common part of [close] and [disconnect]. *)
Lemma stop_atoms e f code reason c x s :
  (stopped s = false /\ is_frame i = false) \/ i = IDisconnect ->
  s ~> (let s := clearTimers (s <| stopped := true |> <| fatal := f |>) in
        let tr := transport s in
        let s := s <| transport := None |> in
        let s := match tr with Some t => say (OCloseTransport (tr_id t) code reason) s | None => s end in
        rejectWaiting e (setState deps closed None c x s)).
Proof.
  intros Hs. destruct (clearTimers_eq (s <| stopped := true |> <| fatal := f |>)) as (m & -> & Hm). simpl in Hm.
  set (sB := match transport s with
    | Some t => say (OCloseTransport (tr_id t) code reason) (s <| timers := m |>)
    | None => s <| timers := m |>
    end).
  assert (s ~> sB) as HB.
  { eapply atoms_trans; [by apply atoms_1, (a_clear _ _ m s)|].
    subst sB. destruct (transport s); [by apply say_atoms|apply atoms_id]. }
  assert (stopped sB = stopped s) as Hst by (subst sB; by destruct (transport s)).
  cbv zeta. match goal with |- context [setState _ _ _ _ _ ?y] =>
    replace y with (sB <| stopped := true |> <| transport := None |> <| fatal := f |>)
    by (subst sB; simpl; by destruct (transport s)) end.
  clearbody sB. eapply then_atom; [exact HB|]. rewrite rejectWaiting_eq. rewrite <- Hst in Hs. clear - Hs.
  unfold setState. change (state (sB <| stopped := true |> <| transport := None |> <| fatal := f |>)) with (state sB).
  destruct (bool_decide (state sB = closed)) eqn:E.
  - pose proof (a_stop reset i e [] f sB Hs) as Ha. rewrite E in Ha. specialize (Ha eq_refl).
    bools. simpl. revert Ha. by destruct sB; simpl in *; subst.
  - epose proof (a_stop reset i e [OEmit (EConnectionState (mkChange closed (state sB) _ _ _ _ _))] f sB Hs) as Ha.
    rewrite E in Ha. specialize (Ha ltac:(repeat eexists)). exact Ha.
Qed.

Lemma close_atoms e c s : is_frame i = false -> stopped s = false -> s ~> close deps e c s.
Proof.
  intros Hi Hs. unfold close. eapply atoms_trans; [apply (stop_atoms e (Some e) CloseCode.normal "closing" (Some c) (Some e) s); by left|].
  eapply atoms_trans; [apply reject_ready_atoms|by apply say_atoms].
Qed.

Lemma disconnect_atoms s : i = IDisconnect -> s ~> disconnect deps s.
Proof.
  intros Hi. unfold disconnect.
  eapply atoms_trans; [apply (stop_atoms (ConvergerClosedError "disconnected; the message stays in the outbox" "disconnected")
    (fatal s) CloseCode.normal "client disconnect" None None s); by right|].
  eapply atoms_trans; [apply reject_ready_atoms|apply await_atoms].
Qed.

(** ** The outbox on the wire *)

Lemma flush_loop_atoms env tr l s :
  transport s = Some tr -> state s = open -> replaying s = false ->
  (forall e, e ∈ l -> (clientId e, frame e) ∈ turns (store s)) ->
  s ~> flush_loop env tr l s.
Proof.
  revert s. induction l as [|e l IH]; intros s Ht Ho Hr Hl; [apply atoms_id|]. simpl.
  destruct (_ <=? _) eqn:Hsz; [apply atoms_id|]. bools.
  destruct (bool_decide _) eqn:Hin; bools; [apply IH; set_solver|].
  destruct (match retryAt s !! clientId e with Some t => _ | None => _ end); [apply IH; set_solver|].
  set (s1 := s <| retryAt ::= delete (clientId e) |>).
  assert (s ~> s1) as H1 by by apply atoms_1, a_quiet.
  destruct (accepts env (tr_id tr) (CText (frame e))); [|exact H1].
  eapply atoms_trans; [exact H1|].
  eapply atoms_trans; [apply atoms_1, (a_text reset i tr e s1); try done; apply Hl; set_solver|].
  apply IH; try done. intros e' He'. simpl. rewrite turns_touch. apply Hl. set_solver.
Qed.

Lemma flush_atoms env s : s ~> flush env s.
Proof.
  unfold flush. destruct (transport s) as [tr|] eqn:Ht; [|apply atoms_id].
  destruct (_ && _) eqn:E; [|apply atoms_id]. bools.
  apply flush_loop_atoms; try done. intros e He. unfold turns.
  apply list_elem_of_fmap. by exists e.
Qed.

(** ** Timers, frames *)

(** Arming a timer: [setTimeout], then its handle is stored. *)
Lemma arm_atoms a d (f : option nat -> conv -> conv) s :
  is_gap a = false -> (forall h s0, core (f h s0) = core s0) ->
  s ~> (let '(h, s) := setTimeout a d s in f (Some h) s).
Proof.
  intros Ha Hf. eapply then_atom; [by apply (setTimeout_atoms a d)|]. simpl. apply a_quiet. by rewrite Hf.
Qed.

Lemma scheduleRetry_atoms env s : s ~> scheduleRetry env s.
Proof.
  enter scheduleRetry. bind; [apply clearTimeout_atoms|].
  destruct (next_retry _); [|plumb]. by apply (arm_atoms _ _ (fun h s => s <| retryTimer := h |>)).
Qed.

Lemma armReplayTimer_atoms s : s ~> armReplayTimer deps s.
Proof.
  unfold armReplayTimer. eapply atoms_trans; [apply (clearTimeout_atoms (replayTimer s))|].
  by apply (arm_atoms _ _ (fun h s => s <| replayTimer := h |>)).
Qed.

Lemma scheduleRefresh_atoms env s : s ~> scheduleRefresh env s.
Proof.
  enter scheduleRefresh. bind; [apply clearTimeout_atoms|].
  destruct (ts_refreshDelay _ _); [|plumb]. by apply (arm_atoms _ _ (fun h s => s <| refreshTimer := h |>)).
Qed.

Lemma endReplay_atoms env b s : s ~> endReplay env b s.
Proof.
  enter endReplay. bind.
  { eapply atoms_trans; [apply (clearTimeout_atoms (replayTimer s))|plumb]. }
  destruct (negb _); [plumb|]. bind; [plumb|]. destruct b; [apply flush_atoms|plumb].
Qed.

Lemma markSeen_atoms seq s : delivered i = Some seq -> s ~> markSeen seq s.
Proof.
  intros Hd. enter markSeen. pose proof (a_mark reset i seq s Hd) as Ha.
  destruct (mark seq (window s)) as [adv w]. simpl in Ha.
  bind; [by apply atoms_1|]. destruct adv; [apply saveState_atoms|plumb].
Qed.

Lemma checkGap_atoms highest s : s ~> checkGap deps highest s.
Proof.
  unfold checkGap. destruct (_ || _) eqn:E; [plumb|]. bools.
  destruct (transport s); [|plumb]. destruct (negb _); [plumb|]. destruct (_ <=? _); [plumb|].
  apply atoms_1, (a_gap_arm reset i highest _ s). destruct (gapTimer s); [|done].
  match goal with Hg : ~ is_Some _ |- _ => destruct Hg; by eexists end.
Qed.

(** A settled send: [settle] and [onError] remove it the same way. *)
Lemma remove_absent id st : Outbox.get id st = None -> (Outbox.remove id st).2 = st.
Proof. unfold Outbox.remove. by intros ->. Qed.

Lemma settle_atoms a s : answered i = Some (ack_clientId a) -> s ~> settle a s.
Proof.
  intros Ha. enter settle. bind.
  { destruct (ack_seq a); [|plumb]. destruct (_ <? _); plumb. }
  bind; [plumb|]. cbv zeta.
  set (s2 := s1 <| inFlight ::= fun l => l ∖ {[ack_clientId a]} |> <| retryAt ::= delete (ack_clientId a) |>).
  apply (atoms_trans _ s2).
  { eapply then_atom; [by apply atoms_1, a_free|by apply a_quiet]. }
  clearbody s2. clear s s0 s1. rename s2 into s.
  pose proof (fun r => a_settle reset i (ack_clientId a) r s Ha) as Hs.
  destruct (Outbox.remove (ack_clientId a) (store s)) as [entry st] eqn:Er. simpl in Hs.
  destruct (_ && _) eqn:E; [|apply atoms_1, Hs; done].
  bools. unfold Outbox.remove in Er. destruct (Outbox.get _ _); simplify_eq/=.
  - match goal with Hn : ~ is_Some _ |- _ => destruct Hn; by eexists end.
  - apply atoms_1, a_quiet. by destruct s.
Qed.

Lemma onAck_atoms tr env a s : i = IFrame tr (SAck a) -> s ~> onAck env a s.
Proof.
  intros Hi. enter onAck. bind.
  { destruct (ack_seq a) eqn:Ha; [|plumb]. apply markSeen_atoms. by rewrite Hi. }
  eapply atoms_trans; [apply (settle_atoms a); by rewrite Hi|apply flush_atoms].
Qed.

Lemma ownTurn_false f (s : conv) : (ownTurn f s).1 = false -> (ownTurn f s).2 = s.
Proof. unfold ownTurn. destruct (f_clientId f); [|done]. by destruct (_ && _). Qed.

Lemma ownTurn_atoms f s : answered i = f_clientId f -> s ~> (ownTurn f s).2.
Proof.
  intros Ha. unfold ownTurn. destruct (f_clientId f); [|plumb]. destruct (_ && _); [|plumb].
  by apply settle_atoms.
Qed.

(** Emitting after [saveState], or before, is the same. *)
Lemma emit_saveState e (s : conv) : emit e (saveState s) = saveState (emit e s).
Proof. unfold saveState. simpl. by destruct (conversationId s) as [[|]|]. Qed.

Lemma activity_atoms f s :
  delivered i = Some (seq_of (f_seq f)) -> duplicate (seq_of (f_seq f)) (window s) = false ->
  s ~> emit (EActivity f) (markSeen (seq_of (f_seq f)) s).
Proof.
  intros Hd Hdup. pose proof (a_activity reset i f s Hd Hdup) as Ha.
  unfold markSeen. destruct (mark _ _) as [adv w]; simpl in Ha.
  destruct adv; [|by apply atoms_1]. rewrite emit_saveState.
  eapply atoms_trans; [by apply atoms_1|apply saveState_atoms].
Qed.

Lemma onPersistent_atoms tr env f s :
  i = IFrame tr (SFrame f) -> isPersistent (Some (JStr (f_type f))) (f_seq f) = true ->
  s ~> onPersistent deps env f s.
Proof.
  intros Hi Hp. assert (delivered i = Some (seq_of (f_seq f))) as Hd by (rewrite Hi; cbn [delivered]; by rewrite Hp).
  enter onPersistent. bind. bind.
  { destruct (duplicate _ _) eqn:Hdup; [plumb|]. cbv zeta.
    pose proof (ownTurn_false f (markSeen (seq_of (f_seq f)) s)) as Hown.
    pose proof (ownTurn_atoms f (markSeen (seq_of (f_seq f)) s) ltac:(by rewrite Hi)) as Hown'.
    pose proof (markSeen_atoms _ s Hd) as Hm.
    destruct (ownTurn f _) as [own s1]. simpl in *.
    destruct own; [by eapply atoms_trans|]. rewrite (Hown eq_refl) in *. simpl.
    destruct (_ || _); [done|]. destruct (_ =? _)%string.
    - eapply atoms_trans; [exact Hm|apply emit_frame_atoms; [by rewrite Hi|done]].
    - by apply activity_atoms. }
  bind; [destruct (_ && _); [apply endReplay_atoms|plumb]|].
  destruct (_ <? _); [apply checkGap_atoms|plumb].
Qed.

(** ** Tokens and reconnects *)

Lemma refresh_atoms s : s ~> refresh s.
Proof. unfold refresh. eapply atoms_trans; [|apply await_atoms]. by apply say_atoms. Qed.

Lemma refresh_settled_atoms env r s : s ~> refresh_settled env r s.
Proof.
  enter refresh_settled. destruct r as [e|t].
  - bind; [by apply emit_atoms|].
    eapply atoms_trans; [apply (clearTimeout_atoms (refreshTimer s0))|].
    by apply (arm_atoms _ _ (fun h s => s <| refreshTimer := h |>)).
  - destruct (transport s); [|apply scheduleRefresh_atoms].
    destruct (_ && _); [by apply wire_atoms|apply scheduleRefresh_atoms].
Qed.

Lemma scheduleReconnect_atoms env c s :
  is_frame i = false -> stopped s = false -> s ~> scheduleReconnect deps env c s.
Proof.
  intros Hi Hs. enter scheduleReconnect. bind. destruct (negb _); [by apply close_atoms|]. cbv zeta.
  set (s1 := s <| attempt ::= Z.succ |>).
  apply (atoms_trans _ s1); [by apply atoms_1, a_quiet|].
  assert (stopped s1 = false) as Hs1 by done. clearbody s1. clear s Hs.
  destruct (_ <? _); [by apply close_atoms|].
  match goal with |- context [setState _ _ _ _ _ ?y] => set (s2 := y) end.
  apply (atoms_trans _ s2).
  { subst s2. destruct (close_opened c); [plumb|]. destruct (_ && _); plumb. }
  assert (stopped s2 = false) as Hs2.
  { subst s2. destruct (close_opened c); [done|]. by destruct (_ && _). }
  clearbody s2. match goal with |- context [setTimeout _ _ ?y] => apply (atoms_trans _ y) end;
    [apply setState_atoms; [done|by left]|].
  by apply (arm_atoms _ _ (fun h s => s <| reconnectTimer := h |>)).
Qed.

(** [onClose] without its first statement: the timers it clears, then what
it decides. *)
Definition clear_connection (env : Env) (s : conv) : conv :=
  let s := endReplay env false s in
  let s := clearTimeout (refreshTimer s) s in
  let s := clearTimeout (gapTimer s) s in
  clearTimeout (syncTimer s) s.

Definition after_close (env : Env) (c : TransportClose) (s : conv) : conv :=
  if stopped s then s
  else if bool_decide (close_code c ∈ FATAL_CLOSE_CODES) then
    let code := fatal_code (close_code c) in
    close deps (ConvergerClosedError (if String.eqb (close_reason c) "" then code else close_reason c) code) c s
  else if close_code c =? CloseCode.unauthorized then
    let s := s <| authRejections ::= Z.succ |> in
    if MAX_AUTH_REJECTIONS <? authRejections s then
      close deps (ConvergerClosedError "the server keeps rejecting fresh tokens" "unauthorized") c s
    else
      scheduleReconnect deps env c (await KRejected (say (OTokenFetch Token.rejected) s))
  else scheduleReconnect deps env c s.

Lemma onClose_lets env c s :
  onClose deps env c s
  = (let s := s <| transport := None |> <| inFlight := ∅ |> in
     let s := endReplay env false s in
     let s := clearTimeout (refreshTimer s) s in
     let s := clearTimeout (gapTimer s) s in
     let s := clearTimeout (syncTimer s) s in
     after_close env c s).
Proof. cbv beta delta [onClose after_close]. reflexivity. Qed.

Lemma onClose_halves env c s :
  onClose deps env c s = after_close env c (clear_connection env (s <| transport := None |> <| inFlight := ∅ |>)).
Proof. rewrite onClose_lets. cbv zeta beta delta [clear_connection]. reflexivity. Qed.

Lemma clear_connection_atoms env s : s ~> clear_connection env s.
Proof.
  enter clear_connection. bind; [apply endReplay_atoms|].
  do 2 (bind; [apply clearTimeout_atoms|]). apply clearTimeout_atoms.
Qed.

Lemma after_close_atoms env c s : is_frame i = false -> s ~> after_close env c s.
Proof.
  intros Hf. enter after_close.
  destruct (stopped s) eqn:Hs; [plumb|].
  destruct (bool_decide _); [by apply close_atoms|].
  destruct (_ =? _); [|by apply scheduleReconnect_atoms]. cbv zeta.
  set (s5 := s <| authRejections ::= Z.succ |>).
  apply (atoms_trans _ s5); [by apply atoms_1, a_quiet|].
  destruct (_ <? _); [by apply close_atoms|].
  eapply atoms_trans; [|by apply scheduleReconnect_atoms].
  eapply atoms_trans; [by apply (say_atoms (OTokenFetch rejected))|apply await_atoms].
Qed.

Lemma onClose_atoms env tr c s : i = IClose tr c -> s ~> onClose deps env c s.
Proof.
  intros Hi. rewrite onClose_halves.
  eapply atoms_trans; [|apply after_close_atoms; by rewrite Hi].
  eapply atoms_trans; [|apply clear_connection_atoms]. apply atoms_1, a_drop. eauto.
Qed.

Lemma connect_failed_atoms env token e s : is_frame i = false -> s ~> connect_failed deps env token e s.
Proof.
  intros Hi. enter connect_failed. destruct (_ || _) eqn:E; [plumb|]. bools. cbv zeta.
  match goal with |- context [emit ?e s] => apply (atoms_trans _ (emit e s)) end; [by apply emit_atoms|].
  destruct (bool_decide _); [by apply close_atoms|by apply scheduleReconnect_atoms].
Qed.

Lemma get_token_atoms token tr s : s ~> get_token token tr s.
Proof. unfold get_token. eapply atoms_trans; [|apply await_atoms]. by apply say_atoms. Qed.

Lemma connect_atoms env s : is_frame i = false -> s ~> connect deps env s.
Proof.
  intros Hi. enter connect. destruct (stopped s) eqn:Hs; [plumb|]. cbv zeta.
  set (s1 := s <| connectToken ::= S |>).
  apply (atoms_trans _ s1); [by apply atoms_1, a_quiet|].
  match goal with |- context [currentFactory deps ?y] => set (s2 := y) end.
  apply (atoms_trans _ s2).
  { subst s2. destruct (bool_decide _); [plumb|]. apply setState_atoms; [by destruct (welcomed s1)|by left]. }
  clearbody s2. destruct (make _) as [e|[name caps]]; [by apply connect_failed_atoms|].
  set (s3 := s2 <| nextTransport ::= S |>). apply (atoms_trans _ s3); [by apply atoms_1, a_quiet|].
  destruct (requiresConversationId caps); [|apply get_token_atoms].
  eapply atoms_trans; [by apply (say_atoms OTokenGet)|apply await_atoms].
Qed.

Lemma connect_transport_atoms token tr t s : s ~> connect_transport token tr t s.
Proof.
  unfold connect_transport. destruct (_ || _) eqn:E; [plumb|]. bools. apply atoms_1, a_connect; [done|].
  intros w. cbn. by destruct (if truthy _ then _ else _); intros [= <-].
Qed.

Lemma ensureConversationToken_atoms token tr t s : s ~> ensureConversationToken token tr t s.
Proof.
  assert (forall o k, neutral (is_frame i) o = true -> s ~> await k (say o s)) as Hk.
  { intros o k Ho. eapply atoms_trans; [by apply say_atoms|apply await_atoms]. }
  unfold ensureConversationToken. destruct (conversationId s) as [[|a id]|]; try by apply Hk.
  destruct (_ && _); [by apply Hk|apply get_token_atoms].
Qed.

Lemma useConversationTokens_atoms env token tr t e s :
  is_frame i = false -> s ~> useConversationTokens deps env token tr t e s.
Proof.
  intros Hi. unfold useConversationTokens. destruct (ts_forConversation _ _ _) as [x|m]; [by apply connect_failed_atoms|].
  apply (atoms_trans _ (s <| tokens := m |>)); [by apply atoms_1, a_quiet|apply get_token_atoms].
Qed.

Lemma attach_atoms id s : s ~> (attach id s).2.
Proof.
  unfold attach. destruct (Outbox.attach_begin id (store s)) as [st|] eqn:E; [|plumb].
  unfold Outbox.attach_begin in E. destruct (bool_decide _); [done|].
  apply Some_inj in E. subst st. by apply atoms_1, a_store.
Qed.

Lemma attached_atoms loads r s : read_by r -> s ~> attached loads r s.
Proof.
  intros Hr. unfold attached. destruct loads; [|plumb].
  apply store_atoms; unfold Outbox.attach_end, ids; rewrite entries_persist; [|by apply load_ok].
  intros id Hid. by apply ids_load.
Qed.

(** ** The session's frames *)

Lemma onWelcome_atoms tr env d s :
  i = IFrame tr (SWelcome d) -> (resets i s = true -> reset = true) -> s ~> onWelcome deps env d s.
Proof.
  intros Hi Hr. enter onWelcome. rewrite Hi in Hr. cbn [resets] in Hr. do 3 bind.
  { destruct (_ && _); [|plumb].
    apply atoms_1, (a_reset reset i (window s <| watermark := 0 |> <| seen := ∅ |>) s). by apply Hr. }
  clear Hr. bind; [plumb|].
  bind; [destruct (truthy _); plumb|].
  bind; [destruct (_ ≫= _); [destruct (_ <? _); plumb|plumb]|].
  bind; [plumb|].
  bind; [eapply atoms_trans; [apply saveState_atoms|apply scheduleRefresh_atoms]|].
  bind.
  { destruct (w_watermark d) as [head|]; [|plumb]. destruct (_ <? _); [|plumb].
    match goal with |- context [armReplayTimer _ ?y] => apply (atoms_trans _ y) end;
      [by apply atoms_1, a_quiet|apply armReplayTimer_atoms]. }
  pose proof (attach_atoms (conversationId s6 ?? "") s6) as Ha.
  destruct (truthy (conversationId s6)); [destruct (attach _ s6) as [loads s7]|].
  - cbn [snd] in Ha. eapply atoms_trans; [exact Ha|]. clear Ha. cbv beta iota.
    bind; [apply setState_atoms; [done|right; by rewrite Hi]|]. bind; [apply emit_frame_atoms; [by rewrite Hi|done]|].
    bind; [apply resolve_ready_atoms; by rewrite Hi|apply await_atoms].
  - cbv beta iota. bind; [apply setState_atoms; [done|right; by rewrite Hi]|]. bind; [apply emit_frame_atoms; [by rewrite Hi|done]|].
    bind; [apply resolve_ready_atoms; by rewrite Hi|apply await_atoms].
Qed.

Lemma onSendError_atoms tr env d id s :
  i = IFrame tr (SError d) -> ed_clientId d = Some id -> s ~> onSendError env d id s.
Proof.
  intros Hi Hid. assert (answered i = Some id) as Ha by by rewrite Hi.
  enter onSendError. bind; [by apply atoms_1, a_free|].
  destruct (_ || _).
  - match goal with |- context [scheduleRetry _ ?y] => apply (atoms_trans _ y) end;
      [by apply atoms_1, a_quiet|apply scheduleRetry_atoms].
  - cbv zeta. eapply atoms_trans; [|apply flush_atoms].
    eapply then_atom; [|by apply (a_quiet reset i _ _)].
    eapply atoms_trans; [apply atoms_1, (a_fail reset i id (ConvergerProtocolError d) s0 Ha)|].
    apply atoms_1, a_quiet. unfold settle_wait. cbn. by destruct (bool_decide _).
Qed.

Lemma onSessionError_atoms tr env d s :
  i = IFrame tr (SError d) -> (resets i s = true -> reset = true) -> s ~> onSessionError env d s.
Proof.
  intros Hi Hr. rewrite Hi in Hr. cbn [resets] in Hr. enter onSessionError.
  bind; [|by apply emit_atoms].
  destruct (ed_code d =? "replay_unavailable")%string.
  - bind; [apply endReplay_atoms|]. cbv zeta.
    eapply atoms_trans; [apply (clearTimeout_atoms (syncTimer s0))|].
    by apply (arm_atoms _ _ (fun h s => s <| syncTimer := h |>)).
  - destruct (ed_code d =? "invalid_watermark")%string.
    + destruct (bool_decide _); [|plumb].
      bind; [by apply atoms_1, (a_reset reset i (window s <| watermark := 0 |> <| seen := ∅ |>) s), Hr|].
      bind; [eapply atoms_trans; [apply saveState_atoms|apply endReplay_atoms]|].
      apply wire_atoms; [done|]. left. by apply Hr.
    + destruct (_ =? _)%string; [|plumb].
      eapply atoms_trans; [by apply (say_atoms (OTokenFetch Token.refresh))|apply await_atoms].
Qed.

Lemma onFrame_atoms tr env f s :
  i = IFrame tr f -> (resets i s = true -> reset = true) -> s ~> onFrame deps env f s.
Proof.
  intros Hi Hr. enter onFrame. destruct f as [d|a|d|d|d|e|d|h|f].
  - by eapply onWelcome_atoms.
  - by eapply onAck_atoms.
  - enter onError. destruct (ed_clientId d) as [[|c id]|] eqn:Hid; try by eapply onSessionError_atoms.
    destruct (bool_decide _); [by eapply onSendError_atoms|by eapply onSessionError_atoms].
  - apply emit_frame_atoms; [by rewrite Hi|done].
  - apply emit_frame_atoms; [by rewrite Hi|done].
  - bind; [destruct e; plumb|apply scheduleRefresh_atoms].
  - bind; [apply emit_frame_atoms; [by rewrite Hi|done]|].
    bind; [|apply wire_atoms; [done|]; intros w [= <-]; right; lia].
    match goal with |- context [armReplayTimer _ ?y] => apply (atoms_trans _ y) end;
      [by apply atoms_1, a_quiet|apply armReplayTimer_atoms].
  - destruct h; [|plumb]. destruct (_ <? _); [apply checkGap_atoms|plumb].
  - destruct (isPersistent _ _) eqn:Hp; [by eapply onPersistent_atoms|].
    destruct (_ =? _)%string; [apply emit_frame_atoms; [by rewrite Hi|done]|plumb].
Qed.

(** ** Timers and promises *)

Lemma run_timer_atoms env h s : is_frame i = false -> s ~> run_timer deps env h s.
Proof.
  intros Hi. enter run_timer. destruct (timers s !! h) as [[a d]|] eqn:Ht; [|plumb].
  destruct (is_gap a) eqn:Hg.
  - destruct a; try done. cbv zeta. enter gap_fired. bind; [by eapply atoms_1, a_gap_fire|].
    destruct (_ && _); [|plumb]. apply wire_atoms; [done|]. intros w [= <-]. right. lia.
  - bind; [apply atoms_1, (a_clear reset i (delete h (timers s)) s), delete_subseteq|].
    destruct a; try done.
    + by apply connect_atoms.
    + apply refresh_atoms.
    + apply endReplay_atoms.
    + enter sync_fired. bind; [plumb|]. destruct (bool_decide _); [|plumb].
      apply wire_atoms; [done|]. intros w [= <-]. right. lia.
    + enter retry_fired. bind; [|destruct (bool_decide _); [plumb|apply scheduleRetry_atoms]].
      match goal with |- context [flush _ ?y] => apply (atoms_trans _ y) end;
        [by apply atoms_1, a_quiet|apply flush_atoms].
Qed.

Lemma open_session_atoms env s : is_frame i = false -> s ~> open_session deps env s.
Proof.
  intros Hi. unfold open_session. match goal with |- context [connect _ _ ?y] => apply (atoms_trans _ y) end;
    [by apply atoms_1, a_quiet|by apply connect_atoms].
Qed.

Lemma resume_loaded_atoms env r w s :
  is_frame i = false -> read_by r -> reset = true -> s ~> (resume_loaded deps env r w s).2.
Proof.
  intros Hi Hread Hr. unfold resume_loaded.
  match goal with |- context [upd store ?f s] => set (s1 := upd store f s) end.
  apply (atoms_trans _ s1).
  { subst s1. destruct (Outbox.load_key (store s)); [|by apply store_atoms].
    apply store_atoms; [intros id; apply ids_load|by apply load_ok]. }
  clearbody s1. match goal with |- context [if bool_decide (_ = conversationId ?y) then _ else _] => set (s2 := y) end.
  apply (atoms_trans _ s2).
  { subst s2. destruct (Outbox.state (store s1)); [|plumb]. destruct (truthy _); plumb. }
  clearbody s2.
  assert (forall x, s2 ~> open_session deps env (s2 <| window ::= fun v => v <| watermark := x |> |>)) as Ho.
  { intros x. eapply atoms_trans; [|by apply open_session_atoms].
    by apply atoms_1, (a_reset reset i (window s2 <| watermark := x |>) s2). }
  destruct w as [q|]; [destruct (_ && _); [apply Ho|plumb]|].
  destruct (Outbox.state (store s1)); [destruct (bool_decide _); [apply Ho|by apply open_session_atoms]|by apply open_session_atoms].
Qed.

Lemma resume_task_atoms env t0 k o s s' :
  i = ITask t0 o -> match k with KResumeLoad _ => reset = true | _ => True end ->
  resume_task deps env k o s = Some s' -> s ~> s'.
Proof.
  intros Hi Hr Hs. assert (is_frame i = false) as Hf by by rewrite Hi.
  assert (forall r, o = OkRead r -> read_by r) as Hread by (intros r Ho; exists t0; by rewrite Hi, Ho).
  clear Hi. destruct k, o; cbn [resume_task] in Hs; try discriminate Hs; try (apply Some_inj in Hs; rewrite <- Hs; clear Hs); try plumb;
    try (by apply connect_failed_atoms); try apply ensureConversationToken_atoms;
    try (by apply useConversationTokens_atoms); try apply connect_transport_atoms;
    try apply refresh_settled_atoms; try (by apply emit_atoms); try (by apply say_atoms).
  - pose proof (resume_loaded_atoms env r watermark s Hf (Hread r eq_refl) Hr) as Hl.
    destruct (resume_loaded _ _ _ _ _) as [[e|] s1]; [|exact Hl].
    eapply atoms_trans; [exact Hl|by apply say_atoms].
  - pose proof (attach_atoms conversationId (s <| Conversation.conversationId := Some conversationId |>)) as Ha.
    destruct (attach _ _) as [loads s1]. injection Hs as <-. cbn [snd] in Ha.
    eapply atoms_trans; [|apply await_atoms]. eapply atoms_trans; [|exact Ha]. plumb.
  - eapply atoms_trans; [by apply (attached_atoms loads r s), Hread|by apply useConversationTokens_atoms].
  - eapply atoms_trans; [by apply (attached_atoms loads r s), Hread|].
    eapply atoms_trans; [apply saveState_atoms|apply flush_atoms].
Qed.

Lemma run_task_atoms env t o s :
  i = ITask t o -> match tasks s !! t with Some (KResumeLoad _) => reset = true | _ => True end -> s ~> run_task deps env t o s.
Proof.
  intros Hi Hr. unfold run_task. destruct (tasks s !! t) as [k|]; [|plumb].
  destruct (resume_task deps env k o _) as [s'|] eqn:E; [|plumb]. simpl.
  eapply atoms_trans; [|eapply resume_task_atoms; [exact Hi| |exact E]; by destruct k]. plumb.
Qed.

(** ** The public API *)

Lemma send_atoms env m g s : i = ISend m g -> s ~> (send env m g s).2.
Proof.
  intros Hi. unfold send. destruct (fatal s); [plumb|]. destruct (s_text m); [|plumb].
  destruct (negb _); [plumb|]. destruct (_ || _) eqn:E; [plumb|]. bools. cbn [snd].
  eapply atoms_trans; [|apply flush_atoms].
  eapply atoms_trans; [|apply atoms_1; apply (a_send reset i (mkEntry (s_clientId m ?? g) _ (now env) 0) s)].
  - apply atoms_id.
  - by rewrite Hi.
  - done.
  - simpl. rewrite <- get_is_Some. done.
  - done.
Qed.

Lemma signal_atoms env f s : is_text f = false -> (forall w, f <> CSync w) -> s ~> (signal env f s).2.
Proof.
  intros Hf Hw. unfold signal. destruct (transport s); [|plumb]. destruct (_ && _); [|plumb].
  apply wire_atoms; [done|]. intros w ->. by destruct (Hw w).
Qed.

Lemma discardOutbox_atoms s : i = IDiscardOutbox -> s ~> discardOutbox s.
Proof.
  intros Hi. unfold discardOutbox. rewrite rejectWaiting_eq. apply atoms_1, (a_discard reset i _ _ s); [done|].
  generalize (store s) as st, (ids (store s)) as l. clear. intros st l. revert st.
  induction l as [|x l IH]; intros st Hok; [done|]. simpl. apply IH. by apply outbox_ok_remove.
Qed.
End Steps.

(** Every input is a sequence of atoms; the window is reset only by the inputs
    [resets] names. *)
Lemma step_atoms {T} `{TokenSource T} deps env (i : input T) (s : Conversation T) :
  atoms (resets i s) i s (step deps env i s).
Proof.
  destruct i as [|w|m g|b|q| | |tr f|tr c|h|t o|t]; cbn [step].
  - unfold start. destruct (started s); [plumb|]. cbn [snd].
    match goal with |- context [open_session _ _ ?y] => apply (atoms_trans _ _ _ y) end;
      [plumb|by apply open_session_atoms].
  - unfold resume. destruct (started s); [plumb|]. destruct (negb _); [plumb|]. cbn [snd].
    match goal with |- context [await _ ?y] => apply (atoms_trans _ _ _ y) end; [plumb|apply await_atoms].
  - by apply send_atoms.
  - by apply signal_atoms.
  - unfold markRead. destruct (_ <? _); [plumb|by apply signal_atoms].
  - by apply disconnect_atoms.
  - by apply discardOutbox_atoms.
  - destruct (is_current tr s); [|plumb]. by eapply onFrame_atoms.
  - destruct (is_current tr s); [|plumb]. by eapply onClose_atoms.
  - by apply run_timer_atoms.
  - apply run_task_atoms; [done|]. cbn [resets]. by destruct (tasks s !! t) as [[]|].
  - plumb.
Qed.

(** ** Using atoms *)

Lemma atoms_preserve {T} reset (i : input T) (P : Conversation T -> Prop) s s' :
  (forall s s', atom reset i s s' -> P s -> P s') -> atoms reset i s s' -> P s -> P s'.
Proof. intros HP. induction 1 as [|s s1 s2 Ha _ IH]; [done|]. intros Hs. eapply IH, HP; eauto. Qed.

Lemma atoms_relate {T} reset (i : input T) (R : Conversation T -> Conversation T -> Prop) `{!PreOrder R} s s' :
  (forall s s', atom reset i s s' -> R s s') -> atoms reset i s s' -> R s s'.
Proof. intros HR. induction 1 as [s|s s1 s2 Ha _ IH]; [reflexivity|]. etransitivity; [by apply HR|done]. Qed.

(** Two states with the same [core] are alike for the lemmas below. *)
Lemma core_inv {T} (s s' : Conversation T) :
  core s = core s' ->
  watermark (window s) = watermark (window s') /\ seen (window s) = seen (window s') /\ store s = store s'
  /\ waiting s = waiting s' /\ inFlight s = inFlight s' /\ state s = state s' /\ transport s = transport s'
  /\ stopped s = stopped s' /\ gapTimer s = gapTimer s' /\ timers s = timers s' /\ log s = log s'.
Proof. unfold core. intros Hc. injection Hc. intros. by split_and!. Qed.

Lemma log_settle_wait {T} id o (s : Conversation T) :
  log (settle_wait id o s) = (if bool_decide (id ∈ waiting s) then [o] else []) ++ log s
  /\ waiting (settle_wait id o s) = filter (fun x => x <> id) (waiting s).
Proof.
  unfold settle_wait. case_bool_decide as Hin; simpl; [done|]. split; [done|].
  symmetry. apply filter_all, Forall_forall. intros x Hx ->. done.
Qed.

(** [settle_wait] touches the log and the waiting promises only. *)
Lemma settle_wait_frame {T} id o (s : Conversation T) :
  window (settle_wait id o s) = window s /\ store (settle_wait id o s) = store s
  /\ inFlight (settle_wait id o s) = inFlight s /\ state (settle_wait id o s) = state s
  /\ transport (settle_wait id o s) = transport s /\ stopped (settle_wait id o s) = stopped s
  /\ gapTimer (settle_wait id o s) = gapTimer s /\ timers (settle_wait id o s) = timers s.
Proof. unfold settle_wait. by case_bool_decide. Qed.

(** The state after a send was settled or failed. *)
Lemma settled_frame {T} id o ev st (s : Conversation T) :
  let s' := emit ev (settle_wait id o (s <| store := st |>)) in
  log s' = (OEmit ev :: (if bool_decide (id ∈ waiting s) then [o] else [])) ++ log s
  /\ store s' = st /\ waiting s' = filter (fun x => x <> id) (waiting s) /\ inFlight s' = inFlight s.
Proof.
  destruct (log_settle_wait id o (s <| store := st |>)) as [Hl Hw].
  destruct (settle_wait_frame id o (s <| store := st |>)) as (_ & Hs & Hf & _).
  simpl. rewrite Hl, Hw, Hs, Hf. done.
Qed.

(** The log only grows; what an input adds is its [trace]. *)
Definition extends {T} (s s' : Conversation T) : Prop := exists new, log s' = new ++ log s.

#[export] Instance extends_preorder {T} : PreOrder (@extends T).
Proof.
  split; [by exists []|]. intros s1 s2 s3 [n1 H1] [n2 H2]. exists (n2 ++ n1). by rewrite H2, H1, app_assoc.
Qed.

(** What one atom adds to the log. *)
Lemma atom_extends {T} reset (i : input T) s s' : atom reset i s s' -> extends s s'.
Proof.
  destruct 1; unfold extends; simpl;
    try (by exists []); try (by eexists [_]); try (by eexists).
  - exists []. by destruct (core_inv _ _ H) as (_&_&_&_&_&_&_&_&_&_&->).
  - eexists. apply app_assoc.
  - match goal with |- context [settle_wait ?id ?o ?x] => destruct (log_settle_wait id o x) as [-> _] end.
    by eexists (_ :: _).
  - match goal with |- context [settle_wait ?id ?o ?x] => destruct (log_settle_wait id o x) as [-> _] end.
    by eexists (_ :: _).
Qed.

Lemma run_cons {T} `{TokenSource T} deps env i l (s : Conversation T) :
  Conversation.run deps ((env, i) :: l) s = Conversation.run deps l (step deps env i s).
Proof. done. Qed.

(** Steps and runs preserve, and relate, what every step does. *)
Lemma run_preserve {T} `{TokenSource T} deps (P : Conversation T -> Prop) (Q : input T -> Prop) l s :
  (forall env i s, Q i -> P s -> P (step deps env i s)) ->
  Forall (fun x => Q x.2) l -> P s -> P (Conversation.run deps l s).
Proof.
  intros HP Hl. revert s. induction l as [|[env i] l IH]; intros s Hs; [done|].
  apply Forall_cons in Hl as [Hi Hl]. rewrite run_cons. apply IH; [done|]. by apply HP.
Qed.

(** A run in which no input resets the window. *)
Fixpoint steady {T} `{TokenSource T} deps (l : list (Env * input T)) (s : Conversation T) : Prop :=
  match l with
  | [] => True
  | (env, i) :: l => resets i s = false /\ steady deps l (step deps env i s)
  end.
