(* ===== verification/Example.v ===== *)
(** * Example: a concrete session, the scenario the witnesses run. *)

From stdpp Require Import base gmap sets list strings.
From Stdlib Require Import ZArith QArith.
From S2P Require Import Prelude Backoff Frames Watermark Storage Outbox Errors Token Receive Conversation Session.

Open Scope string_scope.
Open Scope list_scope.
Open Scope Z_scope.

#[export] Instance ex_source : TokenSource TokenManager := manager_source 60000.

Definition ex_token : ActiveToken := mkActive "tok" (Some (inject_Z 600000)) None 0.
Definition ex_manager : TokenManager := mkManager 60000 (Some ex_token) NoPending.

(** One native transport, the default policy. *)
Definition ex_deps : ConversationDeps :=
  mkDeps [mkFactory (Some "native") (inr ("native", mkCapabilities true true true false))] 2
         (resolveReconnect RUndefined) 5000 1500.

Definition ex_env (t : Z) : Env := mkEnv t (1 # 2) (fun _ _ => true).
Definition ex_new : Conversation TokenManager := new_conversation ex_manager (new_store "p" None) None.

Definition ex_welcome (id : string) (head : Z) : ServerFrame :=
  SWelcome (mkWelcomeData "converger/1" id (Some "u1") (Some head) (Some 600000) (Some (mkLimits (Some 8) None))).

(** [start], the token, the welcome, the store attached. *)
Definition ex_open : list (Env * input TokenManager) :=
  [(ex_env 0, IStart); (ex_env 1, ITask 0 (OkToken ex_token));
   (ex_env 2, IFrame 0 (ex_welcome "c1" 0)); (ex_env 3, ITask 1 (OkRead ReadNothing))].

Definition ex_opened : Conversation TokenManager := Conversation.run ex_deps ex_open ex_new.

(** A text of the assistant, and the echo of an own turn. *)
Definition ex_message (seq : Z) : ServerFrame :=
  SFrame (mkFrame "text" (Some (JNum (inject_Z seq))) (Some ("m" +:+ str_of (decimal seq))) (Some "bot") None None None None JNull None None).
Definition ex_own (seq : Z) (id : string) : ServerFrame :=
  SFrame (mkFrame "text" (Some (JNum (inject_Z seq))) (Some "own") (Some "user") (Some id) None None None JNull None None).

Definition ex_send (id : string) : input TokenManager :=
  ISend (mkSend (Some "hello") None None None None (Some id)) "generated".

(** Early and repeated frames, a send, its ack, a lost connection. *)
Definition ex_traffic : list (Env * input TokenManager) :=
  [(ex_env 10, IFrame 0 (ex_message 2)); (ex_env 11, IFrame 0 (ex_message 1)); (ex_env 12, IFrame 0 (ex_message 2));
   (ex_env 13, ex_send "s1"); (ex_env 14, IFrame 0 (SAck (mkAckFrame "s1" "a1" (Some 4) None None)));
   (ex_env 15, IFrame 0 (ex_message 3)); (ex_env 16, IClose 0 (mkClose 1006 "" None true))].

Example ex_opened_state : state ex_opened = open /\ waiting ex_opened = [] /\ stopped ex_opened = false.
Proof. vm_compute. done. Qed.

Example ex_traffic_log :
  watermark (window (Conversation.run ex_deps ex_traffic ex_opened)) = 4
  /\ state (Conversation.run ex_deps ex_traffic ex_opened) = reconnecting.
Proof. vm_compute. done. Qed.

Lemma ex_window : window_ok (window ex_opened).
Proof.
  assert (window ex_opened = mkWindow 0 ∅ ∅) as -> by (vm_compute; reflexivity).
  intros seq Hs. change (seq ∈ (∅ : gset Z)) in Hs. by apply not_elem_of_empty in Hs.
Qed.
