(* ===== verification/Delivery.v ===== *)
(** * Delivery: what a session receives is emitted once, in full, and the
    watermark it resumes from never skips a seq. *)

From stdpp Require Import base gmap sets list strings relations.
From Stdlib Require Import ZArith QArith Lia.
From S2P Require Import Prelude Backoff Frames Watermark Storage Outbox Errors Token Receive Conversation Session Example.

Open Scope string_scope.
Open Scope list_scope.
Open Scope Z_scope.

(** ** What the log says was emitted, and told to the server *)

(** The seqs of the [activity] events of a log. *)
Definition activities (l : list output) : list Z :=
  omap (fun o => match o with OEmit (EActivity f) => Some (seq_of (f_seq f)) | _ => None end) l.

(** The resume points of a log: watermarks of handshakes and of [sync] frames. *)
Definition resume_points (l : list output) : list Z :=
  omap (fun o => match o with
                 | OConnect _ p => cp_watermark p
                 | OWire _ (CSync w) => Some w
                 | _ => None
                 end) l.

(** ** Lemmas *)

Section Delivery.
Context {T : Type}.
Notation conv := (Conversation T).

Lemma activities_app l1 l2 : activities (l1 ++ l2) = activities l1 ++ activities l2.
Proof. apply omap_app. Qed.
Lemma resume_points_app l1 l2 : resume_points (l1 ++ l2) = resume_points l1 ++ resume_points l2.
Proof. apply omap_app. Qed.

Lemma activities_neutral b o : neutral b o = true -> activities [o] = [].
Proof. by destruct o as [[]| | | | | | | | | | | |]. Qed.
Lemma resume_points_neutral b o : neutral b o = true -> resume_points [o] = [].
Proof. by destruct o as [[]| | | | | | | | | | | |]. Qed.

Lemma activities_rejects e ids : activities (rejects e ids) = [].
Proof. unfold rejects. generalize (rev ids). intros l. induction l; [done|]. exact IHl. Qed.
Lemma resume_points_rejects e ids : resume_points (rejects e ids) = [].
Proof. unfold rejects. generalize (rev ids). intros l. induction l; [done|]. exact IHl. Qed.

(** The log of one atom, for the two counts above: every atom but
[a_activity], [a_connect] and [a_wire] adds nothing to either. *)
Lemma atom_log reset (i : input T) s s' :
  atom reset i s s' ->
  exists new, log s' = new ++ log s
  /\ (activities new = [] \/ exists f, activities new = [seq_of (f_seq f)]
      /\ delivered i = Some (seq_of (f_seq f)) /\ duplicate (seq_of (f_seq f)) (window s) = false
      /\ window s' = (mark (seq_of (f_seq f)) (window s)).2)
  /\ (forall w, w ∈ resume_points new -> reset = true \/ w <= watermark (window s)).
Proof.
  assert (Hnil : forall w : Z, w ∈ ([] : list Z) -> reset = true \/ w <= watermark (window s))
    by (intros w Hw; by apply not_elem_of_nil in Hw).
  destruct 1; simpl.
  - exists []. split; [by destruct (core_inv _ _ H) as (_&_&_&_&_&_&_&_&_&_&->)|]. split; [by left|done].
  - exists [o]. rewrite (activities_neutral (is_frame i)), (resume_points_neutral (is_frame i)) by done. split; [done|]. split; [by left|done].
  - exists [OWire (tr_id tr) f]. split; [done|]. split; [by left|]. intros w Hw.
    destruct f; simpl in Hw; try (by apply not_elem_of_nil in Hw).
    apply list_elem_of_singleton in Hw as ->. by apply H1.
  - eexists [_]. split; [done|]. split; [by left|done].
  - eexists. split; [by rewrite app_assoc|]. rewrite activities_app, resume_points_app, activities_rejects, resume_points_rejects.
    destruct (bool_decide _); [subst chg|destruct H0 as (?&?&?&?&?&->)]; (split; [by left|done]).
  - eexists [_]. split; [done|]. split; [by left|]. intros w Hw.
    simpl in Hw. destruct (cp_watermark p) as [w'|]; [|by apply not_elem_of_nil in Hw].
    apply list_elem_of_singleton in Hw as ->. right. rewrite (H0 w' eq_refl). lia.
  - exists []. split; [done|]. split; [by left|done].
  - exists []. split; [done|]. split; [by left|done].
  - eexists [_]. split; [done|]. split; [|done]. right. by exists f.
  - exists []. split; [done|]. split; [by left|done].
  - exists []. split; [done|]. split; [by left|done].
  - exists []. split; [done|]. split; [by left|done].
  - exists []. split; [done|]. split; [by left|done].
  - match goal with |- context [settle_wait ?id ?o ?x] => destruct (log_settle_wait id o x) as [-> _] end.
    eexists (_ :: _). split; [done|]. case_bool_decide; (split; [by left|done]).
  - match goal with |- context [settle_wait ?id ?o ?x] => destruct (log_settle_wait id o x) as [-> _] end.
    eexists (_ :: _). split; [done|]. case_bool_decide; (split; [by left|done]).
  - eexists. split; [done|]. rewrite activities_rejects, resume_points_rejects. split; [by left|done].
  - eexists [_]. split; [done|]. split; [by left|done].
  - exists []. split; [done|]. split; [by left|done].
  - exists []. split; [done|]. split; [by left|done].
  - exists []. split; [done|]. split; [by left|done].
  - exists []. split; [done|]. split; [by left|done].
Qed.

(** The window moves by marking what is delivered, and by resets. *)
Lemma atom_window reset (i : input T) s s' :
  atom reset i s s' ->
  (watermark (window s') = watermark (window s) /\ seen (window s') = seen (window s))
  \/ (exists q, delivered i = Some q /\ window s' = (mark q (window s)).2)
  \/ reset = true.
Proof.
  destruct 1; simpl; try (by left); eauto 6.
  - left. by destruct (core_inv _ _ H) as (->&->&_).
  - left. match goal with |- context [settle_wait ?id ?o ?x] => destruct (settle_wait_frame id o x) as (->&_) end. done.
  - left. match goal with |- context [settle_wait ?id ?o ?x] => destruct (settle_wait_frame id o x) as (->&_) end. done.
Qed.

(** What holds between the state a run started from and every later state:
[D] are the seqs delivered so far. *)
Record delivery (D : Z -> Prop) (s0 s : conv) : Prop := {
                                                         d_ok : window_ok (window s);
                                                         d_mono : forall q, covers (window s0) q -> covers (window s) q;
                                                         d_covers : forall q, covers (window s) q -> covers (window s0) q \/ D q;
                                                         d_log : exists new, log s = new ++ log s0 /\ NoDup (activities new)
                                                         /\ (forall q, q ∈ activities new -> ~ covers (window s0) q /\ covers (window s) q)
                                                         /\ (forall w q, w ∈ resume_points new -> q <= w -> covers (window s0) q \/ D q);
}.

Lemma delivery_refl D s : window_ok (window s) -> delivery D s s.
Proof.
  intros Hok. split; [done|done|by left|]. exists []. split_and!; [done|constructor| |].
  - intros q Hq. by apply not_elem_of_nil in Hq.
  - intros w q Hw. by apply not_elem_of_nil in Hw.
Qed.

Lemma delivery_window (D : Z -> Prop) (i : input T) s s' :
  atom false i s s' -> (forall q, delivered i = Some q -> D q) -> window_ok (window s) ->
  window_ok (window s')
  /\ (forall q, covers (window s) q -> covers (window s') q)
  /\ (forall q, covers (window s') q -> covers (window s) q \/ D q).
Proof.
  intros Ha HD Hok. destruct (atom_window _ _ _ _ Ha) as [[Hw Hs]|[(q & Hq & ->)|]]; [| |done].
  - unfold window_ok, covers in *. rewrite Hw, Hs. split_and!; [done|done|by left].
  - split_and!; [by apply mark_ok| |]; intros q' Hq'; rewrite mark_covers in *; [by left|].
    destruct Hq' as [?| ->]; [by left|right; auto].
Qed.

Lemma delivery_atom (D : Z -> Prop) (i : input T) s0 s s' :
  atom false i s s' -> (forall q, delivered i = Some q -> D q) -> delivery D s0 s -> delivery D s0 s'.
Proof.
  intros Ha HD [Hok Hmono Hcov (new & Hlog & Hnd & Hact & Hres)].
  destruct (delivery_window D i s s' Ha HD Hok) as (Hok' & Hmono' & Hcov').
  split; [done|auto|intros q Hq; destruct (Hcov' q Hq); auto|].
  destruct (atom_log _ _ _ _ Ha) as (n & Hn & Hna & Hnr).
  exists (n ++ new). rewrite Hn, Hlog, app_assoc, activities_app, resume_points_app.
  split; [done|]. split_and!.
  - destruct Hna as [->|(f & -> & Hdel & Hdup & Hw)]; [done|]. simpl. constructor; [|done].
    intros Hin. apply Hact in Hin as [_ Hin]. by apply duplicate_false in Hdup.
  - intros q [Hq|Hq]%elem_of_app; [|destruct (Hact q Hq); split; [done|by apply Hmono']].
    destruct Hna as [Hna|(f & Hna & Hdel & Hdup & Hw)]; rewrite Hna in Hq; [by apply not_elem_of_nil in Hq|].
    apply list_elem_of_singleton in Hq as ->. apply duplicate_false in Hdup.
    split; [intros Hc; by apply Hdup, Hmono|]. rewrite Hw, mark_covers. by right.
  - intros w q [Hw|Hw]%elem_of_app Hq; [|by eapply Hres].
    destruct (Hnr w Hw) as [?|Hle]; [done|]. apply Hcov. left. lia.
Qed.

Context `{TokenSource T} (deps : ConversationDeps).

Lemma delivery_step (D : Z -> Prop) env (i : input T) s0 s :
  resets i s = false -> (forall q, delivered i = Some q -> D q) -> delivery D s0 s ->
  delivery D s0 (step deps env i s).
Proof.
  intros Hr HD. pose proof (step_atoms deps env i s) as Ha. rewrite Hr in Ha.
  eapply atoms_preserve; [|exact Ha]. intros s1 s2 H12. by eapply delivery_atom.
Qed.

(** The seqs a run delivers. *)
Definition delivered_in (l : list (Env * input T)) (q : Z) : Prop :=
  exists env i, (env, i) ∈ l /\ delivered i = Some q.

Lemma delivery_run l s0 :
  window_ok (window s0) -> steady deps l s0 -> delivery (delivered_in l) s0 (Conversation.run deps l s0).
Proof.
  intros Hok. cut (forall l0 s, (forall x, x ∈ l0 -> x ∈ l) -> steady deps l0 s -> delivery (delivered_in l) s0 s ->
    delivery (delivered_in l) s0 (Conversation.run deps l0 s)).
  { intros Hc Hst. apply Hc; [done|done|by apply delivery_refl]. }
  induction l0 as [|[env i] l0 IH]; intros s Hsub Hst Hd; [done|].
  destruct Hst as [Hr Hst]. rewrite run_cons. apply IH; [intros x Hx; apply Hsub; by right|done|].
  apply delivery_step; [done| |done]. intros q Hq. exists env, i. split; [|done]. apply Hsub. by left.
Qed.
End Delivery.

(** Inputs that deliver no seq emit no activity. *)
Lemma atoms_quiet_log {T} reset (i : input T) (s s' : Conversation T) :
  atoms reset i s s' -> delivered i = None -> exists new, log s' = new ++ log s /\ activities new = [].
Proof.
  intros Ha Hi. induction Ha as [s|s s1 s2 Ha _ (n2 & IH & Hn2)]; [by exists []|].
  destruct (atom_log _ _ _ _ Ha) as (n1 & Hn1 & Hact & _). exists (n2 ++ n1).
  rewrite IH, Hn1, app_assoc, activities_app, Hn2. split; [done|].
  destruct Hact as [->|(f & _ & Hd & _)]; [done|congruence].
Qed.

(** [markSeen] changes the window and the stored watermark, nothing else. *)
Lemma markSeen_frame {T} seq (s : Conversation T) :
  exists st, markSeen seq s = s <| window := (mark seq (window s)).2 |> <| store := st |>
    /\ entries st = entries (store s).
Proof.
  unfold markSeen. destruct (mark seq (window s)) as [adv w]. simpl.
  destruct adv; [|exists (store s); by destruct s].
  unfold saveState. simpl. destruct (conversationId s) as [[|a id]|]; try (exists (store s); by destruct s).
  eexists. split; [reflexivity|]. apply entries_setState.
Qed.

(** The two halves of [onPersistent]: the frame itself, then the end of a
    replay and gap detection. *)
Definition received {T} (f : Frame) (s : Conversation T) : Conversation T :=
  let seq := seq_of (f_seq f) in
  if duplicate seq (window s) then s
  else
    let s := markSeen seq s in
    let '(own, s) := ownTurn f s in
    if own || bool_decide (seq ∈ ownSeqs (window s))
       || match f_id f with Some id => bool_decide (id ∈ ownIds s) | None => false end
    then s
    else if String.eqb (f_type f) "typing" then emit (ETyping f) s else emit (EActivity f) s.

Definition finish {T} deps env (seq : Z) (s : Conversation T) : Conversation T :=
  let s := if replaying s && (replayTarget s <=? seq) then endReplay env true s else s in
  if watermark (window s) <? seq then checkGap deps seq s else s.

Lemma onPersistent_halves {T} deps env f (s : Conversation T) :
  onPersistent deps env f s = finish deps env (seq_of (f_seq f)) (received f s).
Proof. reflexivity. Qed.

Lemma step_persistent {T} `{TokenSource T} deps env tr f (s : Conversation T) :
  is_current tr s = true -> isPersistent (Some (JStr (f_type f))) (f_seq f) = true ->
  step deps env (IFrame tr (SFrame f)) s = finish deps env (seq_of (f_seq f)) (received f s).
Proof. intros Hcur Hp. unfold step, onFrame. by rewrite Hcur, Hp. Qed.

(** The second half emits no activity. *)
Lemma finish_log {T} `{TokenSource T} deps env seq (s : Conversation T) :
  exists new, log (finish deps env seq s) = new ++ log s /\ activities new = [].
Proof.
  apply (atoms_quiet_log false IStart); [|done]. cbv beta delta [finish]. bind.
  - destruct (_ && _); [apply endReplay_atoms|plumb].
  - destruct (_ <? _); [apply checkGap_atoms|plumb].
Qed.

(** ** Properties *)

(** C1. Exactly-once emission: whatever frames arrive, in whatever order, over
    however many connections and replays, no [activity] event repeats a seq,
    and none repeats what the session had already seen; until the server (or
    [resume]) replaces the window. *)
Theorem activity_at_most_once {T} `{TokenSource T} deps l (s : Conversation T) :
  window_ok (window s) -> steady deps l s ->
  let s' := Conversation.run deps l s in
  exists new, log s' = new ++ log s /\ NoDup (activities new)
    /\ forall q, q ∈ activities new -> duplicate q (window s) = false /\ duplicate q (window s') = true.
Proof.
  intros Hok Hst s'. destruct (delivery_run deps l s Hok Hst) as [_ _ _ (new & Hlog & Hnd & Hact & _)].
  exists new. split_and!; try done. intros q Hq. apply Hact in Hq as [Hq0 Hq1].
  by rewrite duplicate_false, duplicate_spec.
Qed.

(** C2. No gap is ever skipped: every point the session asks a server to
    resume from, in a handshake or a [sync], and the final watermark, has only
    seqs at or below it that were delivered in this run or seen before it. *)
Theorem resume_points_sound {T} `{TokenSource T} deps l (s : Conversation T) :
  window_ok (window s) -> steady deps l s ->
  let s' := Conversation.run deps l s in
  watermark (window s) <= watermark (window s')
  /\ exists new, log s' = new ++ log s
    /\ forall w q, w ∈ watermark (window s') :: resume_points new -> q <= w ->
         duplicate q (window s) = true \/ delivered_in l q.
Proof.
  intros Hok Hst s'. destruct (delivery_run deps l s Hok Hst) as [Hok' Hmono Hcov (new & Hlog & _ & _ & Hres)].
  split.
  - destruct (Z_le_gt_dec (watermark (window s)) (watermark (window s'))) as [?|Hgt]; [done|].
    destruct (Hmono (watermark (window s') + 1)) as [Hle|Hs]; [left; lia| |]; subst s'; [lia|].
    specialize (Hok' _ Hs). lia.
  - exists new. split; [done|]. intros w q [->|Hw]%elem_of_cons Hq; rewrite duplicate_spec; [|by eapply Hres].
    apply Hcov. by left.
Qed.


Lemma activity_at_most_once_witness :
  let s' := Conversation.run ex_deps ex_traffic ex_opened in
  activities (log s') = [3; 1; 2] /\
  exists new, log s' = new ++ log ex_opened /\ NoDup (activities new)
    /\ forall q, q ∈ activities new -> duplicate q (window ex_opened) = false /\ duplicate q (window s') = true.
Proof.
  intros s'. split; [vm_compute; reflexivity|].
  exact (activity_at_most_once ex_deps ex_traffic ex_opened ex_window ltac:(vm_compute; repeat split)).
Defined.

Lemma resume_points_sound_witness :
  let s' := Conversation.run ex_deps ex_traffic ex_opened in
  watermark (window s') = 4 /\
  (watermark (window ex_opened) <= watermark (window s')
  /\ exists new, log s' = new ++ log ex_opened
    /\ forall w q, w ∈ watermark (window s') :: resume_points new -> q <= w ->
         duplicate q (window ex_opened) = true \/ delivered_in ex_traffic q).
Proof.
  intros s'. split; [vm_compute; reflexivity|].
  exact (resume_points_sound ex_deps ex_traffic ex_opened ex_window ltac:(vm_compute; repeat split)).
Defined.

