(* ===== verification/Outgoing.v ===== *)
(** * Outgoing: the outbox, the wire and the promises of [send]. *)

From stdpp Require Import base gmap sets list strings relations.
From Stdlib Require Import ZArith QArith Lia.
From S2P Require Import Prelude Backoff Frames Watermark Storage Outbox Errors Token Receive Conversation Session Example Delivery.

Open Scope string_scope.
Open Scope list_scope.
Open Scope Z_scope.

(** ** What the log says about a send *)

(** The session announced that it is done with a send. *)
Definition announced (id : string) (l : list output) : bool :=
  existsb (fun o => match o with
                    | OEmit (ESent r) => String.eqb (res_clientId r) id
                    | OEmit (ESendFailed id' _) => String.eqb id' id
                    | _ => false
                    end) l.

(** How many outputs of a log satisfy a test. *)
Definition count (f : output -> bool) (l : list output) : nat := length (List.filter f l).

(** The promise of a send settles. *)
Definition settles (id : string) (o : output) : bool :=
  match o with OResolve id' _ | OReject id' _ => String.eqb id' id | _ => false end.

(** The frame of a send goes on the wire. *)
Definition transmits (id : string) (o : output) : bool :=
  match o with OWire _ (CText m) => String.eqb (m_clientId m) id | _ => false end.

Definition is_discard {T} (i : input T) : bool := match i with IDiscardOutbox => true | _ => false end.
Definition is_close {T} (i : input T) : bool := match i with IClose _ _ => true | _ => false end.

(** ** Lemmas *)

Section Outgoing.
Context {T : Type}.
Notation conv := (Conversation T).

Lemma announced_app id l1 l2 : announced id (l1 ++ l2) = announced id l1 || announced id l2.
Proof. apply existsb_app. Qed.
Lemma count_app f l1 l2 : count f (l1 ++ l2) = (count f l1 + count f l2)%nat.
Proof. unfold count. by rewrite List.filter_app, length_app. Qed.

Lemma count_rejects_settles id e l :
  NoDup l -> count (settles id) (rejects e l) = (if bool_decide (id ∈ l) then 1 else 0)%nat.
Proof.
  intros Hnd. unfold rejects. induction l as [|x l IH]; [done|].
  apply NoDup_cons in Hnd as [Hx Hnd]. simpl rev. rewrite map_app, count_app, IH by done. unfold count. simpl.
  destruct (String.eqb_spec x id) as [->|Hne]; simpl.
  - rewrite bool_decide_eq_false_2, bool_decide_eq_true_2; [done|by left|done].
  - rewrite Nat.add_0_r. destruct (bool_decide (id ∈ l)) eqn:E; bools.
    + by rewrite bool_decide_eq_true_2 by by right.
    + by rewrite bool_decide_eq_false_2 by (intros [->|?]%elem_of_cons; done).
Qed.

Lemma count_rejects_transmits id e l : count (transmits id) (rejects e l) = 0%nat.
Proof. unfold rejects. induction (rev l); done. Qed.

(** *** Leaving the outbox *)

Definition kept (id : string) (s s' : conv) : Prop :=
  exists new, log s' = new ++ log s
  /\ (id ∈ ids (store s) -> id ∈ ids (store s') \/ announced id new = true).

#[export] Instance kept_preorder id : PreOrder (kept id).
Proof.
  split; [exists []; split; [done|by left]|].
  intros s1 s2 s3 (n1 & H1 & K1) (n2 & H2 & K2). exists (n2 ++ n1). rewrite H2, H1, app_assoc, announced_app.
  split; [done|]. intros Hid. destruct (K1 Hid) as [Hid'|Ha]; [|right; by rewrite Ha, orb_true_r].
  destruct (K2 Hid') as [?|Ha]; [by left|right; by rewrite Ha].
Qed.

Lemma kept_same id (s s' : conv) : extends s s' -> store s' = store s -> kept id s s'.
Proof. intros [new Hn] Hs. exists new. rewrite Hs. auto. Qed.

Lemma kept_removed id x o l (st : ConversationStore) :
  announced x [o] = true -> id ∈ ids st ->
  id ∈ ids (Outbox.remove x st).2 \/ announced id (o :: l) = true.
Proof.
  intros Ho Hid. destruct (decide (x = id)) as [->|Hne].
  - right. change (o :: l) with ([o] ++ l). by rewrite announced_app, Ho.
  - left. by apply ids_remove_ne.
Qed.

Lemma atom_kept id reset (i : input T) s s' : atom reset i s s' -> is_discard i = false -> kept id s s'.
Proof.
  intros Ha Hi. pose proof (atom_extends _ _ _ _ Ha) as He.
  destruct Ha; try (apply kept_same; [exact He|done]).
  - apply kept_same; [exact He|]. by destruct (core_inv _ _ H) as (_&_&->&_).
  - exists []. split; [done|]. simpl. auto.
  - exists []. split; [done|]. simpl. rewrite ids_add. set_solver.
  - destruct (settled_frame id0 (OResolve id0 r) (ESent r) (remove id0 (store s)).2 s) as (Hl & Hs & _).
    eexists. split; [exact Hl|]. rewrite Hs. apply kept_removed. simpl. by rewrite H0, String.eqb_refl.
  - destruct (settled_frame id0 (OReject id0 e) (ESendFailed id0 e) (remove id0 (store s)).2 s) as (Hl & Hs & _).
    eexists. split; [exact Hl|]. rewrite Hs. apply kept_removed. simpl. by rewrite String.eqb_refl.
  - by subst i.
  - eexists [_]. split; [done|]. simpl. rewrite ids_touch. auto.
Qed.

(** *** The promises of [send] *)

Definition flag (id : string) (l : list string) : nat := if bool_decide (id ∈ l) then 1 else 0.

Lemma flag_ext id l k : (id ∈ l <-> id ∈ k) -> flag id l = flag id k.
Proof. intros He. unfold flag. by rewrite (bool_decide_ext _ _ He). Qed.

Lemma flag_filter id x l : flag id (filter (fun y => y <> x) l) = if String.eqb x id then 0%nat else flag id l.
Proof.
  destruct (String.eqb_spec x id) as [->|Hne].
  - unfold flag. rewrite bool_decide_eq_false_2; [done|]. rewrite list_elem_of_filter. naive_solver.
  - apply flag_ext. rewrite list_elem_of_filter. naive_solver.
Qed.

(** A waiting promise stays, or is settled once; others are not settled. *)
Definition promised (id : string) (s s' : conv) : Prop :=
  NoDup (waiting s) ->
  NoDup (waiting s')
  /\ exists new, log s' = new ++ log s
  /\ (count (settles id) new + flag id (waiting s') = flag id (waiting s))%nat.

#[export] Instance promised_preorder id : PreOrder (promised id).
Proof.
  split; [intros s Hnd; split; [done|by exists []]|].
  intros s1 s2 s3 R1 R2 Hnd. destruct (R1 Hnd) as (Hnd2 & n1 & H1 & K1). destruct (R2 Hnd2) as (Hnd3 & n2 & H2 & K2).
  split; [done|]. exists (n2 ++ n1). rewrite H2, H1, app_assoc, count_app. split; [done|lia].
Qed.

Lemma promised_same id (s s' : conv) new :
  log s' = new ++ log s -> count (settles id) new = 0%nat -> waiting s' = waiting s -> promised id s s'.
Proof. intros Hl Hc Hw Hnd. rewrite Hw. split; [done|]. exists new. rewrite Hc. done. Qed.

Lemma promised_settled id x o ev (s s' : conv) :
  log s' = (OEmit ev :: (if bool_decide (x ∈ waiting s) then [o] else [])) ++ log s ->
  waiting s' = filter (fun y => y <> x) (waiting s) ->
  settles id o = String.eqb x id -> promised id s s'.
Proof.
  intros Hl Hw Ho Hnd. rewrite Hw. split; [by apply NoDup_filter|]. eexists. split; [exact Hl|].
  rewrite flag_filter. unfold count. simpl. case_bool_decide as Hx; simpl; rewrite ?Ho;
    destruct (String.eqb_spec x id) as [->|Hne]; simpl; unfold flag; try done.
  - by rewrite bool_decide_eq_true_2.
  - by rewrite bool_decide_eq_false_2.
Qed.

Lemma promised_rejected id e chg (s s' : conv) :
  log s' = rejects e (waiting s) ++ chg ++ log s -> waiting s' = [] ->
  count (settles id) chg = 0%nat -> promised id s s'.
Proof.
  intros Hl Hw Hc Hnd. rewrite Hw. split; [constructor|]. exists (rejects e (waiting s) ++ chg).
  rewrite Hl, app_assoc. split; [done|]. rewrite count_app, count_rejects_settles, Hc by done. unfold flag.
  rewrite (bool_decide_eq_false_2 (id ∈ [])) by apply not_elem_of_nil. lia.
Qed.

Lemma atom_promised id reset (i : input T) s s' :
  atom reset i s s' -> sends i <> Some id -> promised id s s'.
Proof.
  intros Ha Hi. destruct Ha; try (by eapply (promised_same _ _ _ [])); try (by eapply (promised_same _ _ _ [_])).
  - destruct (core_inv _ _ H) as (_&_&_&Hw&_&_&_&_&_&_&Hl). by eapply (promised_same _ _ _ []).
  - apply (promised_same _ _ _ [o]); [done| |done].
    by destruct o as [[]| | | | | | | | | | | |].
  - eapply promised_rejected; [done|done|]. destruct (bool_decide _); [by subst chg|].
    by destruct H0 as (?&?&?&?&?&->).
  - intros Hnd. simpl. split.
    + apply NoDup_app. split_and!; [done| |apply NoDup_singleton]. intros x Hx [->|[]%not_elem_of_nil]%elem_of_cons. done.
    + exists []. split; [done|]. apply flag_ext.
      rewrite elem_of_app, list_elem_of_singleton. naive_solver.
  - destruct (settled_frame id0 (OResolve id0 r) (ESent r) (remove id0 (store s)).2 s) as (Hl & _ & Hw & _).
    by eapply promised_settled.
  - destruct (settled_frame id0 (OReject id0 e) (ESendFailed id0 e) (remove id0 (store s)).2 s) as (Hl & _ & Hw & _).
    by eapply promised_settled.
  - by eapply (promised_rejected _ _ []).
Qed.

(** *** Frames on the wire *)

Definition flying (id : string) (s : conv) : nat := if bool_decide (id ∈ inFlight s) then 1 else 0.

Lemma flying_ext id (s s' : conv) : (id ∈ inFlight s <-> id ∈ inFlight s') -> flying id s = flying id s'.
Proof. intros He. unfold flying. by rewrite (bool_decide_ext _ _ He). Qed.

(** A send in flight is not put on the wire; one put on the wire is in flight. *)
Definition transmitted (id : string) (s s' : conv) : Prop :=
  outbox_ok (entries (store s)) ->
  outbox_ok (entries (store s'))
  /\ exists new, log s' = new ++ log s /\ (count (transmits id) new + flying id s <= flying id s')%nat.

#[export] Instance transmitted_preorder id : PreOrder (transmitted id).
Proof.
  split; [intros s Hok; split; [done|by exists []]|].
  intros s1 s2 s3 R1 R2 Hok. destruct (R1 Hok) as (Hok2 & n1 & H1 & K1). destruct (R2 Hok2) as (Hok3 & n2 & H2 & K2).
  split; [done|]. exists (n2 ++ n1). rewrite H2, H1, app_assoc, count_app. split; [done|lia].
Qed.

Lemma transmitted_same id (s s' : conv) new :
  log s' = new ++ log s -> count (transmits id) new = 0%nat -> flying id s' = flying id s ->
  (outbox_ok (entries (store s)) -> outbox_ok (entries (store s'))) -> transmitted id s s'.
Proof. intros Hl Hc Hw Hok Hs. split; [auto|]. exists new. rewrite Hc, Hw. done. Qed.

Lemma atom_transmitted id reset (i : input T) s s' :
  atom reset i s s' -> answered i <> Some id -> is_close i = false -> loads_ok i -> transmitted id s s'.
Proof.
  intros Ha Hi Hcl Hld.
  destruct Ha; try (by eapply (transmitted_same _ _ _ [])); try (by eapply (transmitted_same _ _ _ [_])).
  - destruct (core_inv _ _ H) as (_&_&Hs&_&Hf&_&_&_&_&_&Hl).
    eapply (transmitted_same _ _ _ []); [done|done|apply flying_ext; by rewrite Hf|by rewrite Hs].
  - apply (transmitted_same _ _ _ [o]); [done| |done|done].
    by destruct o as [[]| | | | | | | | | | | |].
  - apply (transmitted_same _ _ _ [OWire (tr_id tr) f]); [done| |done|done]. by destruct f.
  - eapply transmitted_same; [simpl; by rewrite app_assoc| |done|done].
    rewrite count_app, count_rejects_transmits. destruct (bool_decide _); [by subst chg|].
    by destruct H0 as (?&?&?&?&?&->).
  - destruct H as (tr & c & ->). done.
  - apply (transmitted_same _ _ _ []); [done|done|done|]. auto.
  - apply (transmitted_same _ _ _ []); [done|done|done|]. simpl. unfold Outbox.add. rewrite entries_persist. simpl.
    intros Hok. apply Forall_app. split; [done|]. by apply Forall_singleton.
  - apply (transmitted_same _ _ _ []); [done|done| |done]. apply flying_ext. simpl.
    rewrite elem_of_difference, elem_of_singleton. naive_solver.
  - destruct (settled_frame id0 (OResolve id0 r) (ESent r) (remove id0 (store s)).2 s) as (Hl & Hs & _ & Hf).
    eapply transmitted_same; [exact Hl| |apply flying_ext; by rewrite Hf|rewrite Hs; apply outbox_ok_remove].
    by case_bool_decide.
  - destruct (settled_frame id0 (OReject id0 e) (ESendFailed id0 e) (remove id0 (store s)).2 s) as (Hl & Hs & _ & Hf).
    eapply transmitted_same; [exact Hl| |apply flying_ext; by rewrite Hf|rewrite Hs; apply outbox_ok_remove].
    by case_bool_decide.
  - eapply transmitted_same; [done|apply count_rejects_transmits|done|done].
  - intros Hok. split; [by apply outbox_ok_touch|]. eexists [_]. split; [done|].
    assert (m_clientId (frame e) = clientId e) as He.
    { apply outbox_ok_turns in Hok. rewrite Forall_forall in Hok.
      match goal with Ht : _ ∈ turns _ |- _ => exact (Hok _ Ht) end. }
    unfold count, flying. simpl. rewrite He. destruct (String.eqb_spec (clientId e) id) as [Heq|Hne]; simpl.
    + subst id. rewrite bool_decide_eq_false_2, bool_decide_eq_true_2; [done|set_solver|done].
    + case_bool_decide; [|lia]. rewrite bool_decide_eq_true_2; [done|set_solver].
Qed.
End Outgoing.

(** *** One pass over the outbox *)

(** The turns of a log, oldest first. *)
Definition turns_sent (l : list output) : list ClientMessageFrame :=
  omap (fun o => match o with OWire _ (CText m) => Some m | _ => None end) (rev l).

Lemma turns_sent_app l1 l2 : turns_sent (l1 ++ l2) = turns_sent l2 ++ turns_sent l1.
Proof. unfold turns_sent. by rewrite rev_app_distr, omap_app. Qed.

(** An entry the pass left behind: not due yet, or the window is full. *)
Definition passed_over {T} env (e : OutboxEntry) (s s' : Conversation T) : Prop :=
  (exists t, retryAt s !! clientId e = Some t /\ now env < t)
  \/ maxInFlight s <= Z.of_nat (size (inFlight s')).

Section FlushLoop.
Context {T : Type} (env : Env) (tr : Transport).
Implicit Types s : Conversation T.

Record pass (l : list OutboxEntry) s s' : Prop := {
                                                   pass_max : maxInFlight s' = maxInFlight s;
                                                   pass_ids : ids (store s') = ids (store s);
                                                   pass_grows : inFlight s ⊆ inFlight s';
                                                   pass_bound : Z.of_nat (size (inFlight s')) <= Z.max (Z.of_nat (size (inFlight s))) (maxInFlight s);
                                                   pass_order : exists new, log s' = new ++ log s /\ turns_sent new `sublist_of` map frame l;
                                                   pass_all : (forall m, accepts env (tr_id tr) (CText m) = true) ->
                                                   forall e, e ∈ l -> clientId e ∈ inFlight s' \/ passed_over env e s s';
}.

Lemma pass_stop l s :
  (forall e, (forall m, accepts env (tr_id tr) (CText m) = true) -> e ∈ l -> clientId e ∈ inFlight s \/ passed_over env e s s) ->
  pass l s s.
Proof. intros He. split; auto; [lia|]. exists []. split; [done|]. apply sublist_nil_l. Qed.

Lemma pass_skip e l s s' :
  pass l s s' -> clientId e ∈ inFlight s \/ passed_over env e s s -> pass (e :: l) s s'.
Proof.
  intros [Hm Hi Hg Hb (new & Hl & Ho) Ha] He. split; try done.
  - exists new. split; [done|]. by constructor.
  - intros Hacc x [->|Hx]%elem_of_cons; [|by apply Ha].
    destruct He as [He|[He|He]]; [left; set_solver|right; by left|].
    right. right. assert (size (inFlight s) <= size (inFlight s'))%nat by (by apply subseteq_size). lia.
Qed.

Lemma flush_loop_pass l s : pass l s (flush_loop env tr l s).
Proof.
  revert s. induction l as [|e l IH]; intros s.
  - apply pass_stop. intros e _ He. by apply not_elem_of_nil in He.
  - simpl. destruct (_ <=? _) eqn:Hfull; bools.
    { apply pass_stop. intros x _ _. right. right. lia. }
    destruct (bool_decide _) eqn:Hin; bools; [apply pass_skip; [apply IH|by left]|].
    destruct (match retryAt s !! clientId e with Some t => now env <? t | None => false end) eqn:Hretry.
    { apply pass_skip; [apply IH|]. right. left. destruct (retryAt s !! clientId e) as [t|]; [|done].
      bools. eauto. }
    destruct (accepts env (tr_id tr) (CText (frame e))) eqn:Hacc.
    2:{ split; try done; [simpl; lia|exists []; split; [done|apply sublist_nil_l]|].
      intros Hall. by rewrite Hall in Hacc. }
    match goal with |- pass _ _ (flush_loop _ _ _ ?x) => set (s1 := x) end.
    assert (inFlight s1 = {[clientId e]} ∪ inFlight s) as Hf1 by done.
    assert (retryAt s1 = delete (clientId e) (retryAt s)) as Hr1 by done.
    assert (maxInFlight s1 = maxInFlight s) as Hm1 by done.
    assert (ids (store s1) = ids (store s)) as Hi1 by apply ids_touch.
    assert (log s1 = OWire (tr_id tr) (CText (frame e)) :: log s) as Hl1 by done.
    destruct (IH s1) as [Hm Hi Hg Hb (new & Hl & Ho) Ha]. clearbody s1.
    assert (size (inFlight s1) = S (size (inFlight s))) as Hsz.
    { rewrite Hf1, size_union by set_solver. by rewrite size_singleton. }
    split.
    + congruence.
    + congruence.
    + etransitivity; [|exact Hg]. rewrite Hf1. set_solver.
    + rewrite Hsz, Hm1 in Hb. lia.
    + exists (new ++ [OWire (tr_id tr) (CText (frame e))]). rewrite Hl, Hl1, <- app_assoc. split; [done|].
      rewrite turns_sent_app. simpl. by constructor.
    + intros Hall x [->|Hx]%elem_of_cons; [left; apply Hg; rewrite Hf1; set_solver|].
      destruct (Ha Hall x Hx) as [?|[(t & Ht & Hlt)|Hf]]; [by left| |right; right; congruence].
      right. left. exists t. split; [|done]. rewrite Hr1 in Ht. by apply lookup_delete_Some in Ht as [_ Ht].
Qed.

Lemma waiting_flush_loop l s : waiting (flush_loop env tr l s) = waiting s.
Proof.
  revert s. induction l as [|e l IH]; intros s; [done|]. simpl.
  destruct (_ <=? _); [done|]. destruct (bool_decide _); [apply IH|].
  destruct (match retryAt s !! clientId e with Some t => now env <? t | None => false end); [apply IH|].
  destruct (accepts _ _ _); [|done]. by rewrite IH.
Qed.
End FlushLoop.

Lemma ids_flush {T} env (s : Conversation T) : ids (store (flush env s)) = ids (store s).
Proof.
  unfold flush. destruct (transport s) as [tr|]; [|done]. destruct (_ && _); [|done]. apply flush_loop_pass.
Qed.

(** *** Own turns *)

Lemma ids_endReplay {T} env b (s : Conversation T) : ids (store (endReplay env b s)) = ids (store s).
Proof.
  unfold endReplay. assert (forall h (s : Conversation T), store (clearTimeout h s) = store s) as Hc by by intros [].
  destruct (negb _); simpl; [by rewrite Hc|]. destruct b; [rewrite ids_flush|]; simpl; by rewrite Hc.
Qed.

Lemma ids_checkGap {T} deps q (s : Conversation T) : ids (store (checkGap deps q s)) = ids (store s).
Proof.
  unfold checkGap. destruct (_ || _); [done|]. destruct (transport s); [|done].
  destruct (negb _); [done|]. by destruct (_ <=? _).
Qed.

Lemma ids_finish {T} deps env q (s : Conversation T) : ids (store (finish deps env q s)) = ids (store s).
Proof.
  unfold finish. destruct (_ && _); destruct (_ <? _); by rewrite ?ids_checkGap, ?ids_endReplay.
Qed.

(** [settle] of a send in the outbox. *)
Lemma settle_spec {T} a (s : Conversation T) :
  let id := ack_clientId a in
  let r := mkResult id (ack_id a) (ack_seq a) (ack_timestamp a) (ack_duplicate a ?? false) in
  id ∈ ids (store s) ->
  store (settle a s) = (Outbox.remove id (store s)).2
  /\ log (settle a s) = (OEmit (ESent r) :: (if bool_decide (id ∈ waiting s) then [OResolve id r] else [])) ++ log s
  /\ id ∉ inFlight (settle a s).
Proof.
  intros id r Hid. enter settle. fold id.
  set (s1 := match ack_seq a with Some q => _ | None => s end).
  assert (store s1 = store s /\ waiting s1 = waiting s /\ log s1 = log s) as (H1 & H2 & H3).
  { subst s1. destruct (ack_seq a) as [q|]; [by destruct (_ <? q)|done]. }
  clearbody s1. cbv zeta. fold r.
  set (s2 := s1 <| ownIds ::= add_own_id (ack_id a) |> <| inFlight ::= fun l => l ∖ {[id]} |> <| retryAt ::= delete id |>).
  assert (store s2 = store s) as Hs2 by done. rewrite Hs2.
  pose proof (remove_fst id (store s)) as Hf.
  destruct (Outbox.remove id (store s)) as [entry st] eqn:Er. cbn [fst snd] in *. subst entry.
  rewrite (bool_decide_eq_true_2 (is_Some _)) by by apply get_is_Some. cbn [negb andb].
  destruct (settled_frame id (OResolve id r) (ESent r) st s2) as (Hl & Hst & Hw & Hfl).
  change (log s2) with (log s1) in Hl. change (waiting s2) with (waiting s1) in Hl. rewrite H2, H3 in Hl.
  split_and!; [exact Hst|exact Hl|rewrite Hfl; simpl; set_solver].
Qed.

(** Relations that every step of a run keeps. *)
Lemma run_relate {T} `{TokenSource T} deps (R : Conversation T -> Conversation T -> Prop) `{!PreOrder R}
    (Q : input T -> Prop) l s :
  (forall env i s, Q i -> R s (step deps env i s)) -> Forall (fun x => Q x.2) l -> R s (Conversation.run deps l s).
Proof.
  intros HR Hl. revert s. induction l as [|[env i] l IH]; intros s; [reflexivity|].
  apply Forall_cons in Hl as [Hi Hl]. rewrite run_cons. etransitivity; [by apply HR|by apply IH].
Qed.

(** A retry timer of a session that is not open, with a retry already due. *)
Definition retry_due {T} (env : Env) (h : nat) (s : Conversation T) : Prop :=
  state s <> open /\ (exists d, timers s !! h = Some (TRetry, d))
  /\ exists t, next_retry (retryAt s) = Some t /\ t <= now env.

(** ** Properties *)

(** C3. The outbox is conserved: a send leaves it only by being announced, as
    [sent] or as [sendFailed], or because the application discarded the
    outbox; reconnects, timeouts, protocol errors, [disconnect] and fatal
    closes all keep it. *)
Theorem outbox_conservation {T} `{TokenSource T} deps id l (s : Conversation T) :
  id ∈ ids (store s) -> Forall (fun x => is_discard x.2 = false) l ->
  let s' := Conversation.run deps l s in
  exists new, log s' = new ++ log s /\ (id ∈ ids (store s') \/ announced id new = true).
Proof.
  intros Hid Hl s'.
  destruct (run_relate deps (kept id) (fun i => is_discard i = false) l s) as (new & Hn & Hk); [|done|eauto].
  intros env i s0 Hi. eapply atoms_relate; [apply _| |apply step_atoms]. intros s1 s2 Ha. by eapply atom_kept.
Qed.

(** C14. The promise of a send settles exactly once: it is pending until then,
    and afterwards nothing resolves or rejects it again, whatever acks,
    errors, replays and closes still arrive (the clientId not being reused). *)
Theorem promise_settles_once {T} `{TokenSource T} deps id l (s : Conversation T) :
  id ∈ waiting s -> NoDup (waiting s) -> Forall (fun x => sends x.2 <> Some id) l ->
  let s' := Conversation.run deps l s in
  exists new, log s' = new ++ log s
    /\ count (settles id) new = (if bool_decide (id ∈ waiting s') then 0 else 1)%nat.
Proof.
  intros Hid Hnd Hl s'.
  assert (promised id s s') as Hp.
  { apply (run_relate deps (promised id) (fun i => sends i <> Some id)); [|done].
    intros env i s0 Hi. eapply atoms_relate; [apply _| |apply step_atoms]. intros s1 s2 Ha. by eapply atom_promised. }
  destruct (Hp Hnd) as (_ & new & Hn & Hk).
  exists new. split; [done|]. unfold flag in Hk. rewrite (bool_decide_eq_true_2 (id ∈ waiting s)) in Hk by done.
  subst s'. destruct (bool_decide _); lia.
Qed.

(** C4. At most once per connection: while a connection lasts and the server
    has not answered a send (ack, error or its own turn), the session puts its
    frame on the wire at most once, and not at all when it already is in
    flight. *)
Theorem sent_once_per_connection {T} `{TokenSource T} deps id l (s : Conversation T) :
  outbox_ok (entries (store s)) ->
  Forall (fun x => answered x.2 <> Some id /\ is_close x.2 = false /\ loads_ok x.2) l ->
  let s' := Conversation.run deps l s in
  exists new, log s' = new ++ log s
    /\ (count (transmits id) new <= if bool_decide (id ∈ inFlight s) then 0 else 1)%nat.
Proof.
  intros Hok Hl s'.
  assert (transmitted id s s') as Hp.
  { apply (run_relate deps (transmitted id) (fun i => answered i <> Some id /\ is_close i = false /\ loads_ok i)); [|done].
    intros env i s0 (H1 & H2 & H3). eapply atoms_relate; [apply _| |apply step_atoms].
    intros s1 s2 Ha. by eapply atom_transmitted. }
  destruct (Hp Hok) as (_ & new & Hn & Hk).
  exists new. split; [done|]. unfold flying in Hk. do 2 destruct (bool_decide _); lia.
Qed.

(** What one [flush] does: nothing unless the session is open and no replay
    is running; otherwise it sends in outbox order, never fills the window
    beyond the server's limit, takes nothing out of flight, and - when the
    transport accepts - leaves no entry behind except those waiting for their
    retry time and those the full window has no room for. *)
Theorem flush_spec {T} env (s : Conversation T) :
  let s' := flush env s in
  (state s <> open \/ replaying s = true \/ transport s = None -> s' = s)
  /\ Z.of_nat (size (inFlight s')) <= Z.max (Z.of_nat (size (inFlight s))) (maxInFlight s)
  /\ inFlight s ⊆ inFlight s'
  /\ (exists new, log s' = new ++ log s /\ turns_sent new `sublist_of` map frame (entries (store s)))
  /\ (forall tr, transport s = Some tr -> state s = open -> replaying s = false ->
       (forall m, accepts env (tr_id tr) (CText m) = true) ->
       forall e, e ∈ entries (store s) -> clientId e ∈ inFlight s' \/ passed_over env e s s').
Proof.
  intros s'. subst s'. unfold flush.
  assert (forall x : Conversation T, exists new, log x = new ++ log x
    /\ turns_sent new `sublist_of` map frame (entries (store x))) as Hnil.
  { intros x. exists []. split; [done|apply sublist_nil_l]. }
  destruct (transport s) as [tr|] eqn:Ht; [|by repeat split; try lia; try apply Hnil].
  destruct (bool_decide (state s = open) && negb (replaying s)) eqn:E; bools.
  - destruct (flush_loop_pass env tr (entries (store s)) s) as [_ _ Hg Hb Ho Ha].
    split; [intros [?|[?|?]]; congruence|]. split; [exact Hb|]. split; [exact Hg|]. split; [exact Ho|].
    intros tr' [= ->] _ _. exact Ha.
  - split; [done|]. split; [lia|]. split; [done|]. split; [apply Hnil|].
    intros tr' _ Ho Hr. rewrite bool_decide_eq_true_2, Hr in E; done.
Qed.

(** While the session is not open, a retry that is due spins: its timer
    re-arms itself with a delay of zero and nothing else happens, so the next
    firing does the same. *)
Theorem retry_timer_spins {T} `{TokenSource T} deps env h (s : Conversation T) :
  retry_due env h s ->
  let s' := step deps env (ITimer h) s in
  retry_due env (nextTimer s) s' /\ timers s' !! nextTimer s = Some (TRetry, 0%Q) /\ log s' = log s.
Proof.
  intros (Hst & (d & Ht) & t & Hn & Hle) s'. subst s'. cbn [step]. unfold run_timer. rewrite Ht. unfold retry_fired.
  assert (flush env (s <| timers ::= delete h |> <| retryTimer := None |>)
          = s <| timers ::= delete h |> <| retryTimer := None |>) as ->.
  { unfold flush. simpl. destruct (transport s); [|done]. by rewrite bool_decide_eq_false_2. }
  rewrite bool_decide_eq_false_2; [|simpl; intros He; by rewrite He in Hn].
  unfold scheduleRetry. simpl. rewrite Hn. simpl. rewrite Z.max_l by lia.
  assert (<[nextTimer s:=(TRetry, 0%Q)]> (delete h (timers s)) !! nextTimer s = Some (TRetry, 0%Q)) as Hl
    by apply lookup_insert_eq.
  split; [|done]. split; [done|]. split; [by exists 0%Q|by exists t].
Qed.

(** A replayed turn of our own whose ack was lost settles the send: it is
    announced as a duplicate with the seq and id the server stored, its
    promise resolves, and it is out of the outbox, so no reconnect sends it
    again. *)
Theorem own_turn_settles {T} `{TokenSource T} deps env tr f id (s : Conversation T) :
  let seq := seq_of (f_seq f) in
  let r := mkResult id (f_id f ?? "undefined") (Some seq) None true in
  is_current tr s = true -> isPersistent (Some (JStr (f_type f))) (f_seq f) = true ->
  duplicate seq (window s) = false -> f_from f = Some "user" -> f_clientId f = Some id ->
  id ∈ ids (store s) -> NoDup (ids (store s)) ->
  let s' := step deps env (IFrame tr (SFrame f)) s in
  id ∉ ids (store s')
  /\ exists new, log s' = new ++ log s /\ announced id new = true /\ OEmit (ESent r) ∈ new
       /\ (id ∈ waiting s -> OResolve id r ∈ new).
Proof.
  intros seq r Hcur Hp Hdup Hfrom Hc Hid Hnd s'. subst s'. rewrite step_persistent by done. fold seq.
  destruct (markSeen_frame seq s) as (st & Hm & Hst).
  assert (ids (store (markSeen seq s)) = ids (store s) /\ waiting (markSeen seq s) = waiting s
          /\ log (markSeen seq s) = log s) as (Hids & Hw & Hl).
  { rewrite Hm. unfold ids. simpl. by rewrite Hst. }
  set (a := mkAckFrame id (f_id f ?? "undefined") (Some seq) None (Some true)).
  assert (received f s = settle a (markSeen seq s)) as ->.
  { unfold received. fold seq. rewrite Hdup. unfold ownTurn.
    rewrite Hc, Hfrom, (bool_decide_eq_true_2 (Some "user" = Some "user")) by done.
    by rewrite (bool_decide_eq_true_2 (is_Some _)) by by rewrite get_is_Some, Hids. }
  destruct (settle_spec a (markSeen seq s)) as (Hs1 & Hs2 & _); [by rewrite Hids|].
  rewrite Hw, Hl in Hs2. change (mkResult _ _ _ _ _) with r in Hs2. change (ack_clientId a) with id in *.
  generalize dependent (settle a (markSeen seq s)). intros s1 Hs1 Hs2.
  destruct (finish_log deps env seq s1) as (new & Hn & _). split.
  - rewrite ids_finish, Hs1, ids_remove by by rewrite Hids. by intros [? _]%list_elem_of_filter.
  - eexists. rewrite Hn, Hs2, app_assoc. split; [done|]. split; [|split].
    + rewrite announced_app. simpl. by rewrite String.eqb_refl, orb_true_r.
    + apply elem_of_app. right. by left.
    + intros Hin. rewrite bool_decide_eq_true_2 by done. apply elem_of_app. right. right. by left.
Qed.

(** *** Witnesses *)

(** The session of the example with two sends in flight. *)
Definition ex_busy : Conversation TokenManager :=
  Conversation.run ex_deps [(ex_env 20, ex_send "s1"); (ex_env 21, ex_send "s2")] ex_opened.

Definition ex_answers : list (Env * input TokenManager) :=
  [(ex_env 30, IFrame 0 (SAck (mkAckFrame "s1" "a1" (Some 1) None None)));
   (ex_env 31, IFrame 0 (SAck (mkAckFrame "s1" "a1" (Some 1) None (Some true))))].

Lemma outbox_conservation_witness :
  let s' := Conversation.run ex_deps ex_answers ex_busy in
  ids (store ex_busy) = ["s1"; "s2"] /\
  exists new, log s' = new ++ log ex_busy /\ ("s1" ∈ ids (store s') \/ announced "s1" new = true).
Proof.
  intros s'. split; [vm_compute; reflexivity|].
  assert ("s1" ∈ ids (store ex_busy)) as Hid by (refine (bool_decide_eq_true_1 _ _); vm_compute; reflexivity).
  exact (outbox_conservation ex_deps "s1" ex_answers ex_busy Hid ltac:(repeat constructor)).
Defined.

Lemma promise_settles_once_witness :
  let s' := Conversation.run ex_deps ex_answers ex_busy in
  waiting ex_busy = ["s1"; "s2"] /\
  exists new, log s' = new ++ log ex_busy
    /\ count (settles "s1") new = (if bool_decide ("s1" ∈ waiting s') then 0 else 1)%nat.
Proof.
  intros s'. split; [vm_compute; reflexivity|].
  assert ("s1" ∈ waiting ex_busy /\ NoDup (waiting ex_busy)) as [Hid Hnd]
    by (split; refine (bool_decide_eq_true_1 _ _); vm_compute; reflexivity).
  exact (promise_settles_once ex_deps "s1" ex_answers ex_busy Hid Hnd ltac:(repeat constructor; done)).
Defined.

Lemma sent_once_per_connection_witness :
  let l := [(ex_env 30, ITyping true); (ex_env 31, ex_send "s3")] in
  let s' := Conversation.run ex_deps l ex_busy in
  "s1" ∈ ids (store s') /\
  exists new, log s' = new ++ log ex_busy
    /\ (count (transmits "s1") new <= if bool_decide ("s1" ∈ inFlight ex_busy) then 0 else 1)%nat.
Proof.
  intros l s'. split; [refine (bool_decide_eq_true_1 _ _); vm_compute; reflexivity|].
  exact (sent_once_per_connection ex_deps "s1" l ex_busy ltac:(vm_compute; repeat constructor)
    ltac:(repeat constructor; done)).
Defined.

(** The session offline with a rate-limited send. *)
Definition ex_offline : Conversation TokenManager :=
  Conversation.run ex_deps
    [(ex_env 30, IFrame 0 (SError (mkErrorData "rate_limited" "" None None (Some 500) (Some "s1") None None)));
     (ex_env 40, IClose 0 (mkClose 1006 "" None true))] ex_busy.

Lemma retry_timer_spins_witness :
  let s' := step ex_deps (ex_env 530) (ITimer 1) ex_offline in
  state ex_offline = reconnecting /\
  (retry_due (ex_env 530) (nextTimer ex_offline) s'
   /\ timers s' !! nextTimer ex_offline = Some (TRetry, 0%Q) /\ log s' = log ex_offline).
Proof.
  intros s'. split; [vm_compute; reflexivity|].
  assert (retry_due (ex_env 530) 1 ex_offline) as Hdue.
  { split; [vm_compute; done|]. split; [exists (inject_Z 500); vm_compute; done|exists 530; vm_compute; done]. }
  exact (retry_timer_spins (H := ex_source) ex_deps (ex_env 530) 1 ex_offline Hdue).
Defined.

Lemma own_turn_settles_witness :
  let f := mkFrame "text" (Some (JNum 1)) (Some "a1") (Some "user") (Some "s1") None None None JNull None None in
  let s' := step ex_deps (ex_env 30) (IFrame 0 (SFrame f)) ex_busy in
  ids (store s') = ["s2"] /\
  ("s1" ∉ ids (store s')
   /\ exists new, log s' = new ++ log ex_busy /\ announced "s1" new = true
       /\ OEmit (ESent (mkResult "s1" "a1" (Some 1) None true)) ∈ new
       /\ ("s1" ∈ waiting ex_busy -> OResolve "s1" (mkResult "s1" "a1" (Some 1) None true) ∈ new)).
Proof.
  intros f s'. split; [vm_compute; reflexivity|].
  assert ("s1" ∈ ids (store ex_busy) /\ NoDup (ids (store ex_busy))) as [Hid Hnd]
    by (split; refine (bool_decide_eq_true_1 _ _); vm_compute; reflexivity).
  exact (own_turn_settles ex_deps (ex_env 30) 0 f "s1" ex_busy ltac:(vm_compute; reflexivity) eq_refl
    ltac:(vm_compute; reflexivity) eq_refl eq_refl Hid Hnd).
Defined.
