(* ===== verification/Lifecycle.v ===== *)
(** * Lifecycle: connecting, reconnecting, stopping; the connection state the
    application sees; timers that outlive what they were armed for. *)

From stdpp Require Import base gmap sets list strings relations.
From Stdlib Require Import ZArith QArith Qminmax Lia.
From S2P Require Import Prelude Backoff Frames Watermark Storage Outbox Errors Token Receive Conversation Session Example Delivery Outgoing.

Open Scope string_scope.
Open Scope list_scope.
Open Scope Z_scope.

(** ** What the application sees *)

(** The [connectionState] changes of a log, oldest first. *)
Definition state_changes (l : list output) : list ConnectionStateChange :=
  omap (fun o => match o with OEmit (EConnectionState c) => Some c | _ => None end) (rev l).

(** Follow the changes from a state: each starts where the one before ended,
    none leaves [closed], and only [reconnecting] follows itself. *)
Fixpoint follow (st : ConnectionState) (l : list ConnectionStateChange) : option ConnectionState :=
  match l with
  | [] => Some st
  | c :: l =>
      if bool_decide (ch_previous c = st) && negb (bool_decide (st = closed))
         && (negb (bool_decide (ch_state c = st)) || bool_decide (st = reconnecting))
      then follow (ch_state c) l else None
  end.

(** Outputs a stopped session may still produce: errors, requests of tokens
    and of the REST API that were under way, and what the application's own
    calls come to. *)
Definition silent (o : output) : bool :=
  match o with
  | OConnect _ _ | OWire _ _ | OResolve _ _ | OReady _ => false
  | OEmit (EError _) => true
  | OEmit _ => false
  | OCloseTransport _ _ _ | OReject _ _ | OReadyFailed _ | OTokenGet | OTokenFetch _
  | OCreateConversation _ | OGetConversation _ _ | ODispose => true
  end.

(** ** Lemmas *)

Section Lifecycle.
Context {T : Type}.
Notation conv := (Conversation T).

Definition halted (s : conv) : Prop := stopped s = true /\ transport s = None /\ state s = closed.

Lemma neutral_silent o : neutral false o = true -> silent o = true.
Proof. by destruct o as [[]| | | | | | | | | | | |]. Qed.

Lemma rejects_silent e ids : forallb silent (rejects e ids) = true.
Proof. unfold rejects. induction (rev ids); done. Qed.

(** The inputs that only reach a session through its transport. *)
Definition from_transport (i : input T) : bool := is_frame i || is_close i.

Lemma not_from_transport (i : input T) :
  from_transport i = false -> is_frame i = false /\ is_close i = false /\ delivered i = None /\ answered i = None.
Proof. by destruct i. Qed.

Lemma atom_halted reset (i : input T) s s' :
  atom reset i s s' -> from_transport i = false -> halted s ->
  halted s' /\ exists new, log s' = new ++ log s /\ forallb silent new = true.
Proof.
  intros Ha Hi (Hst & Htr & Hcl). apply not_from_transport in Hi as (Hf & Hc & Hd & Han). unfold halted.
  destruct Ha; try (by split; [|exists []]); try congruence.
  - destruct (core_inv _ _ H) as (_&_&_&_&_&<-&<-&<-&_&_&<-). split; [done|]. by exists [].
  - split; [done|]. exists [o]. split; [done|]. simpl. rewrite neutral_silent; [done|by rewrite <- Hf].
  - destruct H1; congruence.
  - split; [done|]. simpl. eexists. split; [by rewrite app_assoc|].
    rewrite bool_decide_eq_true_2 in H0 by done. subst chg. rewrite app_nil_r. apply rejects_silent.
  - split; [done|]. eexists. split; [done|]. apply rejects_silent.
Qed.

Lemma atoms_halted reset (i : input T) s s' :
  atoms reset i s s' -> from_transport i = false -> halted s ->
  halted s' /\ exists new, log s' = new ++ log s /\ forallb silent new = true.
Proof.
  intros Ha Hi. induction Ha as [s|s s1 s2 Ha _ IH]; intros Hh; [split; [done|by exists []]|].
  destruct (atom_halted _ _ _ _ Ha Hi Hh) as (Hh1 & n1 & H1 & S1). destruct (IH Hh1) as (Hh2 & n2 & H2 & S2).
  split; [done|]. exists (n2 ++ n1). by rewrite H2, H1, app_assoc, forallb_app, S2, S1.
Qed.

(** The flags agree with the state, whatever happened. *)
Definition sane (s : conv) : Prop := (stopped s = true -> halted s) /\ (state s = closed -> stopped s = true).

Lemma atom_sane reset (i : input T) s s' :
  atom reset i s s' -> (is_frame i = true -> stopped s = false) -> sane s ->
  (is_frame i = true -> stopped s' = false) /\ sane s'.
Proof.
  intros Ha Hi [Hs Hc]. unfold sane, halted in *. destruct Ha; try (by split); simpl in *.
  - destruct (core_inv _ _ H) as (_&_&_&_&_&<-&<-&<-&_&_&_). by split.
  - assert (stopped s = false) as Hf by (destruct H1; auto).
    split; [done|]. split; [by rewrite Hf|done].
  - split; [|done]. destruct H as [[_ ->]| ->]; done.
  - split; [done|]. split; [by rewrite H|]. done.
  - split; [done|]. split; [|done]. intros Hst. destruct (Hs Hst) as (_ & _ & ?). done.
  - destruct (settle_wait_frame id (OResolve id r) (s <| store := (remove id (store s)).2 |>)) as (_&_&_&->&->&->&_).
    by split.
  - destruct (settle_wait_frame id (OReject id e) (s <| store := (remove id (store s)).2 |>)) as (_&_&_&->&->&->&_).
    by split.
Qed.

Context `{TokenSource T} (deps : ConversationDeps).

(** Without a transport its callbacks are ignored. *)
Lemma step_deaf env (i : input T) s : transport s = None -> from_transport i = true -> step deps env i s = s.
Proof.
  intros Ht Hi. destruct i; try done; simpl; unfold is_current; rewrite Ht; by rewrite bool_decide_eq_false_2.
Qed.

Lemma step_halted env (i : input T) s :
  halted s -> halted (step deps env i s)
  /\ exists new, log (step deps env i s) = new ++ log s /\ forallb silent new = true.
Proof.
  intros Hh. destruct (from_transport i) eqn:Hi.
  - rewrite step_deaf; [|apply Hh|done]. split; [done|]. by exists [].
  - by eapply atoms_halted; [apply step_atoms| |].
Qed.

Lemma run_halted l s :
  halted s -> halted (Conversation.run deps l s)
  /\ exists new, log (Conversation.run deps l s) = new ++ log s /\ forallb silent new = true.
Proof.
  revert s. induction l as [|[env i] l IH]; intros s Hh; [split; [done|by exists []]|]. rewrite run_cons.
  destruct (step_halted env i s Hh) as (Hh1 & n1 & H1 & S1). destruct (IH _ Hh1) as (Hh2 & n2 & H2 & S2).
  split; [done|]. exists (n2 ++ n1). by rewrite H2, H1, app_assoc, forallb_app, S2, S1.
Qed.

Lemma step_sane env (i : input T) s : sane s -> sane (step deps env i s).
Proof.
  intros Hs. destruct (stopped s) eqn:Hst.
  - destruct (step_halted env i s) as [Hh _]; [by apply Hs|]. split; [done|]. by destruct Hh.
  - eapply (atoms_preserve _ _ (fun s => (is_frame i = true -> stopped s = false) /\ sane s)); [|apply step_atoms|done].
    intros s1 s2 Ha [Hf Hs1]. by eapply atom_sane.
Qed.

Lemma new_sane toks st id : sane (new_conversation toks st id : conv).
Proof. by split. Qed.

Lemma run_sane l s : sane s -> sane (Conversation.run deps l s).
Proof.
  intros Hs. apply (run_preserve deps sane (fun _ => True)); [|by apply Forall_forall|done].
  intros env i s0 _. apply step_sane.
Qed.

(** *** Promises of a stopped session *)

(** Only calls of the application settle promises of a stopped session. *)
Definition is_disconnect (i : input T) : bool := match i with IDisconnect => true | _ => false end.

Lemma atom_halted_waiting reset (i : input T) s s' id :
  atom reset i s s' -> from_transport i = false -> is_disconnect i = false -> is_discard i = false -> halted s ->
  id ∈ waiting s -> id ∈ waiting s'.
Proof.
  intros Ha Hi Hd Hdis (Hst & Htr & Hcl) Hw. apply not_from_transport in Hi as (Hf & Hc & Hdel & Han).
  destruct Ha; try done; try congruence.
  - by destruct (core_inv _ _ H0) as (_&_&_&<-&_).
  - destruct H0 as [[? _]| ->]; [congruence|done].
  - simpl. set_solver.
  - by subst i.
Qed.

Lemma run_halted_waiting l s id :
  Forall (fun x => is_disconnect x.2 = false /\ is_discard x.2 = false) l ->
  halted s -> id ∈ waiting s -> id ∈ waiting (Conversation.run deps l s).
Proof.
  intros Hl. revert s. induction l as [|[env i] l IH]; intros s Hh Hw; [done|].
  apply Forall_cons in Hl as [[Hd Hdis] Hl]. rewrite run_cons. apply IH; [done|by apply step_halted|].
  destruct (from_transport i) eqn:Hi; [by rewrite step_deaf by (done || apply Hh)|].
  eapply (atoms_preserve _ _ (fun s => halted s /\ id ∈ waiting s)); [|apply step_atoms|done].
  intros s1 s2 Ha [Hh1 Hw1]. split; [by eapply atom_halted|by eapply atom_halted_waiting].
Qed.

(** *** The chain of connection states *)

Lemma state_changes_app l1 l2 : state_changes (l1 ++ l2) = state_changes l2 ++ state_changes l1.
Proof. unfold state_changes. by rewrite rev_app_distr, omap_app. Qed.

Lemma follow_app st l1 l2 : follow st (l1 ++ l2) = follow st l1 ≫= (fun st => follow st l2).
Proof. revert st. induction l1 as [|c l1 IH]; intros st; [done|]. simpl. destruct (_ && _); [apply IH|done]. Qed.

Lemma state_changes_silent l : forallb silent l = true -> state_changes l = [].
Proof.
  unfold state_changes. intros Hl. induction l as [|o l IH]; [done|]. simpl in Hl. apply andb_prop in Hl as [Ho Hl].
  simpl rev. rewrite omap_app, IH by done. by destruct o as [[]| | | | | | | | | | | |].
Qed.

Definition chained (s0 s : conv) : Prop :=
  exists new, log s = new ++ log s0 /\ follow (state s0) (state_changes new) = Some (state s).

Lemma chained_same (s s' : conv) new :
  log s' = new ++ log s -> state s' = state s -> state_changes new = [] -> chained s s'.
Proof. intros Hl Hst Hn. exists new. rewrite Hn, Hst. done. Qed.

Lemma atom_chained reset (i : input T) s s' :
  atom reset i s s' -> (is_frame i = true -> stopped s = false) -> sane s -> chained s s'.
Proof.
  intros Ha Hi [Hs Hc].
  destruct Ha; try (by eapply (chained_same _ _ [])); try (by eapply (chained_same _ _ [_])).
  - destruct (core_inv _ _ H0) as (_&_&_&_&_&Hst&_&_&_&_&Hl). by eapply (chained_same _ _ []).
  - eapply (chained_same _ _ [o]); [done|done|]. by destruct o as [[]| | | | | | | | | | | |].
  - eexists [_]. split; [done|]. simpl.
    assert (stopped s = false) as Hf by (destruct H2; auto).
    rewrite (bool_decide_eq_true_2 (state s = state s)), (bool_decide_eq_false_2 (state s = closed)) by (done || intros ?; rewrite Hc in Hf; done).
    simpl. destruct (bool_decide (st = state s)) eqn:E; simpl; [|done]. bools.
    rewrite bool_decide_eq_true_2; [done|]. subst st. by apply H0.
  - eexists (rejects e (waiting s) ++ chg). split; [simpl; by rewrite app_assoc|].
    rewrite state_changes_app, (state_changes_silent (rejects _ _)), app_nil_r by apply rejects_silent.
    destruct (bool_decide (state s = closed)) eqn:E; bools; [subst chg; simpl; by f_equal|].
    destruct H1 as (?&?&?&?&?&->). simpl.
    rewrite !bool_decide_eq_true_2, !bool_decide_eq_false_2 by done. done.
  - destruct (settled_frame id (OResolve id r) (ESent r) (remove id (store s)).2 s) as (Hl & _).
    destruct (settle_wait_frame id (OResolve id r) (s <| store := (remove id (store s)).2 |>)) as (_&_&_&Hst&_).
    eapply chained_same; [exact Hl|exact Hst|]. by case_bool_decide.
  - destruct (settled_frame id (OReject id e) (ESendFailed id e) (remove id (store s)).2 s) as (Hl & _).
    destruct (settle_wait_frame id (OReject id e) (s <| store := (remove id (store s)).2 |>)) as (_&_&_&Hst&_).
    eapply chained_same; [exact Hl|exact Hst|]. by case_bool_decide.
  - eapply chained_same; [done|done|]. apply state_changes_silent, rejects_silent.
Qed.

#[export] Instance chained_preorder : PreOrder chained.
Proof.
  split; [by exists []|]. intros s1 s2 s3 (n1 & H1 & F1) (n2 & H2 & F2). exists (n2 ++ n1).
  rewrite H2, H1, app_assoc, state_changes_app, follow_app, F1. done.
Qed.

Lemma step_chained env (i : input T) s : sane s -> chained s (step deps env i s).
Proof.
  intros Hs. destruct (stopped s) eqn:Hst.
  - assert (halted s) as Hh by by apply Hs. destruct (step_halted env i s Hh) as [Hh' (new & Hl & Hsil)].
    exists new. split; [done|]. rewrite state_changes_silent by done. simpl.
    destruct Hh as (_ & _ & ->), Hh' as (_ & _ & ->). done.
  - cut (forall s', atoms (resets i s) i s s' -> (is_frame i = true -> stopped s = false) -> chained s s').
    { intros Hc. apply Hc; [apply step_atoms|done]. }
    clear Hst. generalize (resets i s). intros r s' Ha. induction Ha as [s|s s1 s2 Ha _ IH]; intros Hf; [reflexivity|].
    etransitivity; [by eapply atom_chained|]. destruct (atom_sane _ _ _ _ Ha Hf Hs) as [? ?]. by apply IH.
Qed.

(** *** Gap timers *)

(** A gap timer that is armed is the one [gapTimer] names. *)
Definition gap_owned (s : conv) : Prop :=
  forall h highest d, timers s !! h = Some (TGap highest, d) -> gapTimer s = Some h.

(** [gapTimer] names a timer that is gone, and no gap timer is armed. *)
Definition gap_dead (s : conv) : Prop :=
  is_Some (gapTimer s) /\ forall h highest d, timers s !! h <> Some (TGap highest, d).

Lemma atom_gap_owned reset (i : input T) s s' : atom reset i s s' -> gap_owned s -> gap_owned s'.
Proof.
  intros Ha Hg. unfold gap_owned in *. destruct Ha; simpl; try done.
  - destruct (core_inv _ _ H0) as (_&_&_&_&_&_&_&_&<-&<-&_). done.
  - by destruct (settle_wait_frame id (OResolve id r) (s <| store := (remove id (store s)).2 |>)) as (_&_&_&_&_&_&->&->).
  - by destruct (settle_wait_frame id (OReject id e) (s <| store := (remove id (store s)).2 |>)) as (_&_&_&_&_&_&->&->).
  - intros h hi d' [[_ Heq]|[_ Hl]]%lookup_insert_Some; [by simplify_eq|by eapply Hg].
  - intros h hi d Hl. eapply Hg, lookup_weaken; eauto.
  - intros h hi d' [[-> _]|[_ Hl]]%lookup_insert_Some; [done|]. apply Hg in Hl. congruence.
  - intros h' hi d' [Hne Hl]%lookup_delete_Some. apply Hg in Hl. apply Hg in H0. congruence.
Qed.

Lemma atom_gap_dead reset (i : input T) s s' : atom reset i s s' -> gap_dead s -> gap_dead s'.
Proof.
  intros Ha [Hs Hg]. unfold gap_dead in *. destruct Ha; simpl; try done.
  - destruct (core_inv _ _ H0) as (_&_&_&_&_&_&_&_&<-&<-&_). done.
  - by destruct (settle_wait_frame id (OResolve id r) (s <| store := (remove id (store s)).2 |>)) as (_&_&_&_&_&_&->&->).
  - by destruct (settle_wait_frame id (OReject id e) (s <| store := (remove id (store s)).2 |>)) as (_&_&_&_&_&_&->&->).
  - split; [done|]. intros h hi d' [[_ Heq]|[_ Hl]]%lookup_insert_Some; [by simplify_eq|by eapply Hg].
  - split; [done|]. intros h hi d Hl. eapply Hg, lookup_weaken; eauto.
  - destruct Hs; congruence.
  - by destruct (Hg _ _ _ H0).
Qed.

Lemma run_gap_owned l s : gap_owned s -> gap_owned (Conversation.run deps l s).
Proof.
  intros Hs. apply (run_preserve deps gap_owned (fun _ => True)); [|by apply Forall_forall|done].
  intros env i s0 _ Hg. eapply atoms_preserve; [|apply step_atoms|done]. intros s1 s2 Ha. by eapply atom_gap_owned.
Qed.

Lemma run_gap_dead l s : gap_dead s -> gap_dead (Conversation.run deps l s).
Proof.
  intros Hs. apply (run_preserve deps gap_dead (fun _ => True)); [|by apply Forall_forall|done].
  intros env i s0 _ Hg. eapply atoms_preserve; [|apply step_atoms|done]. intros s1 s2 Ha. by eapply atom_gap_dead.
Qed.

(** The part of [onClose] that clears timers changes only those. *)
Lemma clear_connection_frame env (s : conv) :
  exists m b, clear_connection env s = s <| timers := m |> <| replayTimer := None |> <| replaying := b |>
  /\ m ⊆ timers s /\ (forall h, gapTimer s = Some h -> m !! h = None).
Proof.
  unfold clear_connection.
  assert (exists m, endReplay env false s = s <| timers := m |> <| replayTimer := None |> <| replaying := false |>
    /\ m ⊆ timers s) as (m & -> & Hm).
  { unfold endReplay. destruct (replayTimer s) as [h|]; simpl.
    - exists (delete h (timers s)). split; [|apply delete_subseteq].
      destruct (replaying s) eqn:E; simpl; [done|]. by rewrite <- E.
    - exists (timers s). split; [|done]. destruct (replaying s) eqn:E; simpl; [by destruct s|].
      rewrite <- E. by destruct s. }
  simpl. set (del := fun (o : option nat) (m : gmap nat (timer_action * Q)) =>
    match o with Some h => delete h m | None => m end).
  exists (del (syncTimer s) (del (gapTimer s) (del (refreshTimer s) m))), false.
  assert (forall o m, del o m ⊆ m) as Hdel by (intros [h|] m'; [apply delete_subseteq|done]).
  split; [|split].
  - destruct (refreshTimer s) eqn:E1; simpl; rewrite ?E1; destruct (gapTimer s) eqn:E2; simpl; rewrite ?E2;
      destruct (syncTimer s) eqn:E3; simpl; done.
  - by rewrite !Hdel.
  - intros h Hh. rewrite Hh. simpl. destruct (syncTimer s) as [h'|]; simpl; [|apply lookup_delete_eq].
    apply lookup_delete_None. right. apply lookup_delete_eq.
Qed.

Lemma onClose_gap_dead env c s : gap_owned s -> is_Some (gapTimer s) -> gap_dead (onClose deps env c s).
Proof.
  intros Hg [h Hh]. rewrite onClose_halves.
  eapply (atoms_preserve false IStart); [intros s1 s2; by apply atom_gap_dead|by apply after_close_atoms|].
  destruct (clear_connection_frame env (s <| transport := None |> <| inFlight := ∅ |>)) as (m & b & -> & Hm & Hd).
  split; [by exists h|]. simpl in *. intros h' hi d Hl.
  assert (gapTimer s = Some h') as Hh' by (eapply Hg, lookup_weaken; eauto).
  rewrite (Hd h') in Hl; done.
Qed.

(** *** What [close] and [disconnect] leave *)

Record shut (f : option ConvergerError) (s s' : conv) : Prop := {
                                                                 shut_halted : halted s';
                                                                 shut_fatal : fatal s' = f;
                                                                 shut_waiting : waiting s' = [];
                                                                 shut_store : store s' = store s;
}.

Lemma shut_core e f tr_say c x (s : conv) :
  (forall t s, exists o, tr_say t s = say o s) ->
  shut f s
  (let s := clearTimers (s <| stopped := true |> <| fatal := f |>) in
   let tr := transport s in
   let s := s <| transport := None |> in
   let s := match tr with Some t => tr_say t s | None => s end in
   rejectWaiting e (setState deps closed None c x s)).
Proof.
  intros Hsay. destruct (clearTimers_eq (s <| stopped := true |> <| fatal := f |>)) as (m & -> & _).
  cbv zeta. rewrite rejectWaiting_eq.
  set (sA := s <| stopped := true |> <| fatal := f |> <| timers := m |>).
  assert (stopped sA = true /\ fatal sA = f /\ store sA = store s) as (H1 & H2 & H3) by done. clearbody sA.
  match goal with |- context [setState _ _ _ _ _ ?y] => set (s1 := y) end.
  assert (exists l, s1 = sA <| transport := None |> <| log := l |>) as (l & ->).
  { subst s1. destruct (transport sA) as [t|]; [|by exists (log sA)].
    destruct (Hsay t (sA <| transport := None |>)) as [o ->]. exists (o :: log sA). reflexivity. }
  unfold setState. simpl. destruct (bool_decide (state sA = closed)) eqn:E; simpl; bools; by split.
Qed.

Lemma shut_log f (s s' s2 : conv) :
  shut f s s' ->
  stopped s2 = stopped s' -> transport s2 = transport s' -> state s2 = state s' -> fatal s2 = fatal s' ->
  waiting s2 = waiting s' -> store s2 = store s' -> shut f s s2.
Proof. intros [(?&?&?) ? ? ?] ? ? ? ? ? ?. split; [split_and!| | |]; congruence. Qed.

Lemma reject_ready_frame e (s : conv) :
  exists r l, reject_ready e s = s <| ready := r |> <| log := l |>.
Proof.
  unfold reject_ready. destruct (ready s) eqn:E; [|by eexists _, _|].
  all: exists (ready s), (log s); by destruct s.
Qed.

Lemma close_shut e c (s : conv) : shut (Some e) s (close deps e c s).
Proof.
  unfold close. pose proof (shut_core e (Some e) (fun t => say (OCloseTransport (tr_id t) CloseCode.normal "closing"))
    (Some c) (Some e) s ltac:(eauto)) as Hs. cbv zeta beta in Hs.
  match type of Hs with shut _ _ ?y => generalize dependent y end. intros y Hs.
  destruct (reject_ready_frame e y) as (r & l & ->). by eapply shut_log.
Qed.

Lemma disconnect_shut (s : conv) : shut (fatal s) s (disconnect deps s).
Proof.
  unfold disconnect.
  match goal with |- context [reject_ready ?e ?y] =>
    assert (shut (fatal s) s y) as Hs; [|destruct (reject_ready_frame e y) as (r & l & ->); generalize dependent y] end.
  - exact (shut_core (ConvergerClosedError "disconnected; the message stays in the outbox" "disconnected")
      (fatal s) (fun t => say (OCloseTransport (tr_id t) CloseCode.normal "client disconnect")) None None s ltac:(eauto)).
  - intros y Hs. by eapply shut_log.
Qed.

(** *** What [scheduleReconnect] leaves *)

Definition reconnect_delay env (c : TransportClose) (n : Z) : Z :=
  backoffDelay n (reconnect deps) (inject_Z <$> close_retryAfterMs c) (random env).

(** The session waits for its next attempt. *)
Record retrying env c (s s' : conv) : Prop := {
                                               retrying_state : state s' = reconnecting;
                                               retrying_attempt : attempt s' = attempt s + 1;
                                               retrying_timer : exists h, reconnectTimer s' = Some h
                                               /\ timers s' !! h = Some (TReconnect, inject_Z (reconnect_delay env c (attempt s + 1)));
                                               retrying_store : store s' = store s;
                                               retrying_waiting : waiting s' = waiting s;
                                               retrying_inFlight : inFlight s' = inFlight s;
}.

Lemma setState_reconnecting_frame d c e (s : conv) :
  exists l, setState deps reconnecting d c e s = s <| state := reconnecting |> <| log := l |>.
Proof.
  unfold setState. rewrite andb_false_r. simpl. eexists. reflexivity.
Qed.

Lemma scheduleReconnect_retrying env c (s : conv) :
  enabled (reconnect deps) = true -> (forall m, maxAttempts (reconnect deps) = Some m -> attempt s < m) ->
  retrying env c s (scheduleReconnect deps env c s).
Proof.
  intros Hen Hmax. unfold scheduleReconnect. rewrite Hen. simpl negb. cbv iota.
  assert ((maxAttempts (reconnect deps) ?? attempt (s <| attempt ::= Z.succ |>)) <? attempt (s <| attempt ::= Z.succ |>) = false) as ->.
  { apply Z.ltb_ge. simpl. destruct (maxAttempts (reconnect deps)) as [m|]; simpl; [|lia]. specialize (Hmax m eq_refl). lia. }
  match goal with |- context [setState _ _ _ _ _ ?y] => set (s1 := y) end.
  assert (exists f i, s1 = s <| attempt ::= Z.succ |> <| failuresOnTransport := f |> <| transportIndex := i |>) as (f & ix & ->).
  { exists (failuresOnTransport s1), (transportIndex s1). subst s1.
    destruct (close_opened c); [by destruct s|]. destruct (_ && _); by destruct s. }
  match goal with |- context [setState ?d ?st ?dl ?c ?e ?y] =>
    destruct (setState_reconnecting_frame dl c e y) as (l & ->) end.
  split; try done. eexists. split; [reflexivity|]. simpl. unfold reconnect_delay.
  rewrite lookup_insert_eq. by replace (attempt s + 1) with (Z.succ (attempt s)) by lia.
Qed.

(** *** The verdict of [onClose] *)

Inductive verdict := VEnd (code : string) | VRetry.

Definition reconnect_verdict (s : conv) : verdict :=
  if negb (enabled (reconnect deps)) then VEnd "disconnected"
  else if match maxAttempts (reconnect deps) with Some m => m <? attempt s + 1 | None => false end
    then VEnd "reconnect_failed" else VRetry.

Definition close_verdict (c : TransportClose) (s : conv) : verdict :=
  if bool_decide (close_code c ∈ FATAL_CLOSE_CODES) then VEnd (fatal_code (close_code c))
  else if (close_code c =? CloseCode.unauthorized) && (3 <=? authRejections s) then VEnd "unauthorized"
  else reconnect_verdict s.

Definition outcome_of env c (v : verdict) (s s' : conv) : Prop :=
  match v with
  | VEnd code => state s' = closed /\ stopped s' = true /\ waiting s' = []
      /\ exists e, fatal s' = Some e /\ err_code e = code
  | VRetry => state s' = reconnecting /\ attempt s' = attempt s + 1 /\ waiting s' = waiting s /\ inFlight s' = inFlight s
      /\ exists h, reconnectTimer s' = Some h
      /\ timers s' !! h = Some (TReconnect, inject_Z (reconnect_delay env c (attempt s + 1)))
  end.

Lemma shut_outcome env c e (s s0 s' : conv) :
  shut (Some e) s s' -> store s' = store s /\ outcome_of env c (VEnd (err_code e)) s0 s'.
Proof. intros [(?&?&?) ? ? ?]. split; [done|]. split_and!; try done. by exists e. Qed.

Lemma reconnect_outcome env c (s : conv) :
  store (scheduleReconnect deps env c s) = store s
  /\ outcome_of env c (reconnect_verdict s) s (scheduleReconnect deps env c s).
Proof.
  unfold reconnect_verdict. destruct (enabled (reconnect deps)) eqn:Hen; simpl negb; cbv iota.
  - destruct (match maxAttempts (reconnect deps) with Some m => m <? attempt s + 1 | None => false end) eqn:Hm.
    + unfold scheduleReconnect. rewrite Hen. simpl negb. cbv iota.
      destruct (maxAttempts (reconnect deps)) as [m|] eqn:Hmax; [|done]. simpl default.
      change (attempt (s <| attempt ::= Z.succ |>)) with (attempt s + 1). rewrite Hm.
      match goal with |- context [close _ ?e ?c ?y] => exact (shut_outcome env c e _ s _ (close_shut e c y)) end.
    + destruct (scheduleReconnect_retrying env c s Hen) as [? ? ? ? ? ?]; [|by split_and!].
      intros m Hmm. rewrite Hmm in Hm. bools. lia.
  - unfold scheduleReconnect. rewrite Hen. simpl negb. cbv iota.
    match goal with |- context [close _ ?e ?c ?y] => exact (shut_outcome env c e _ s _ (close_shut e c y)) end.
Qed.
End Lifecycle.

(** ** Properties *)

(** C16. [closed] is final: once a session is stopped, by [disconnect] or by a
    fatal close, it stays closed and detached whatever happens: it opens no
    connection, puts nothing on the wire, resolves no send, and emits no event
    any more except [error].  It may still reject sends, report errors, ask for
    tokens and finish REST requests that were under way ([silent] lists what
    is left; see [refresh_outlives_disconnect]). *)
Theorem stopped_is_final {T} `{TokenSource T} deps (toks : T) st id l1 l2 :
  let s := Conversation.run deps l1 (new_conversation toks st id) in
  stopped s = true ->
  let s' := Conversation.run deps l2 s in
  state s' = closed /\ transport s' = None
  /\ exists new, log s' = new ++ log s /\ forallb silent new = true.
Proof.
  intros s Hs s'. destruct (run_halted deps l2 s) as [(_ & ? & ?) ?]; [|done].
  apply (run_sane deps l1 _ (new_sane toks st id)). exact Hs.
Qed.

(** The [connectionState] events tell the truth: over a whole run from a
    new session they form one chain from [idle] to the current state, each
    event starting where the previous one ended, none leaving [closed], and
    none repeating a state except [reconnecting]. *)
Theorem connection_state_chain {T} `{TokenSource T} deps (toks : T) st id l :
  let s := Conversation.run deps l (new_conversation toks st id) in
  follow idle (state_changes (log s)) = Some (state s).
Proof.
  intros s. cut (forall (s0 : Conversation T), sane s0 -> chained s0 (Conversation.run deps l s0)).
  { intros Hc. destruct (Hc _ (new_sane toks st id)) as (new & Hl & Hf). subst s. rewrite Hl. simpl.
    by rewrite app_nil_r. }
  clear s. induction l as [|[env i] l IH]; intros s0 Hs; [reflexivity|]. rewrite run_cons.
  etransitivity; [by apply step_chained|]. apply IH. by apply step_sane.
Qed.

(** A connection lost while a gap timer is armed ends gap detection for
    good: [onClose] clears the timer but keeps its handle, so [checkGap] takes
    it for armed and does nothing, on every later connection. *)
Theorem gap_detection_dies {T} `{TokenSource T} deps (toks : T) st id l1 l2 env tr c :
  let s := Conversation.run deps l1 (new_conversation toks st id) in
  is_Some (gapTimer s) -> is_current tr s = true ->
  let s' := Conversation.run deps l2 (step deps env (IClose tr c) s) in
  gap_dead s' /\ (forall highest, checkGap deps highest s' = s').
Proof.
  intros s Hgap Hcur s'.
  assert (gap_dead s') as Hdead.
  { apply run_gap_dead. cbn [step]. rewrite Hcur. apply onClose_gap_dead; [|done].
    apply run_gap_owned. intros h hi d Hl. cbn in Hl. by rewrite (lookup_empty (M := gmap nat)) in Hl. }
  split; [done|]. intros highest. unfold checkGap. rewrite bool_decide_eq_true_2; [done|]. apply Hdead.
Qed.

(** C15. What a lost connection leads to.  A fatal close code ends the session
    with its error code; the fourth rejected token in a row ends it as
    unauthorized; otherwise, unless reconnecting is disabled or the attempts
    are used up, the session waits for its next attempt, with the delay the
    policy gives.  In every case the outbox is kept and nothing stays in
    flight; pending promises are rejected only when the session ends. *)
Theorem onClose_spec {T} `{TokenSource T} deps env tr c (s : Conversation T) :
  is_current tr s = true -> stopped s = false ->
  let s' := step deps env (IClose tr c) s in
  store s' = store s
  /\ outcome_of deps env c (close_verdict deps c s) (s <| inFlight := ∅ |>) s'.
Proof.
  intros Hcur Hst s'. subst s'. cbn [step]. rewrite Hcur, onClose_halves.
  destruct (clear_connection_frame env (s <| transport := None |> <| inFlight := ∅ |>)) as (m & b & -> & _ & _).
  match goal with |- context [after_close _ _ _ ?y] => set (s1 := y) end.
  assert (stopped s1 = false) as Hst1 by done.
  change (store s) with (store s1). change (close_verdict deps c s) with (close_verdict deps c s1).
  change (outcome_of deps env c (close_verdict deps c s1) (s <| inFlight := ∅ |>))
    with (outcome_of deps env c (close_verdict deps c s1) s1).
  clearbody s1. unfold after_close, close_verdict. rewrite Hst1.
  destruct (bool_decide (close_code c ∈ FATAL_CLOSE_CODES)).
  { cbv zeta. match goal with |- context [close _ ?e ?c ?y] => exact (shut_outcome deps env c e _ s1 _ (close_shut deps e c y)) end. }
  destruct (close_code c =? CloseCode.unauthorized); [|apply reconnect_outcome]. cbv zeta. simpl andb.
  unfold MAX_AUTH_REJECTIONS.
  change (authRejections (s1 <| authRejections ::= Z.succ |>)) with (Z.succ (authRejections s1)).
  destruct (3 <? Z.succ (authRejections s1)) eqn:Ea; bools.
  - rewrite (proj2 (Z.leb_le 3 _)) by lia.
    match goal with |- context [close _ ?e ?c ?y] => exact (shut_outcome deps env c e _ s1 _ (close_shut deps e c y)) end.
  - rewrite (proj2 (Z.leb_gt 3 _)) by lia.
    match goal with |- context [scheduleReconnect _ _ _ ?y] => exact (reconnect_outcome deps env c y) end.
Qed.

(** A [send] after [disconnect] hangs: the call is accepted, the message
    goes to the outbox, and its promise neither resolves nor rejects whatever
    happens to the session, short of another [disconnect] or [discardOutbox]. *)
Theorem send_after_disconnect_hangs {T} `{TokenSource T} deps env m g id l (s : Conversation T) :
  let s1 := disconnect deps s in
  let s2 := (send env m g s1).2 in
  (send env m g s1).1 = inr id ->
  Forall (fun x => is_disconnect x.2 = false /\ is_discard x.2 = false) l ->
  id ∈ waiting (Conversation.run deps l s2).
Proof.
  intros s1 s2 Hsend Hl. apply run_halted_waiting; [done| |].
  - change s2 with (step deps env (ISend m g) s1). apply step_halted, disconnect_shut.
  - subst s2. unfold send in *. destruct (fatal s1); [done|]. destruct (s_text m) as [text|]; [|done].
    destruct (negb (CLIENT_ID (s_clientId m ?? g))); [done|].
    destruct (bool_decide _ || _); [done|]. cbn [fst snd] in *. injection Hsend as <-.
    match goal with |- _ ∈ waiting (flush _ ?y) => set (y0 := y) end.
    assert (waiting (flush env y0) = waiting y0) as ->.
    { unfold flush. destruct (transport y0); [|done]. destruct (_ && _); [|done]. apply waiting_flush_loop. }
    subst y0. simpl. apply elem_of_app. right. by left.
Qed.

(** A token refresh in flight outlives [disconnect]: when it settles, the
    stopped session arms the refresh timer again, and that timer asks the
    provider for another token, whose settling arms it again. *)
Theorem refresh_outlives_disconnect {T} `{TokenSource T} deps env env' t tok d (s : Conversation T) :
  halted s -> tasks s !! t = Some KRefresh ->
  ts_refreshDelay (inject_Z (now env)) (tokens s) = Some d ->
  let s1 := step deps env (ITask t (OkToken tok)) s in
  let s2 := step deps env' (ITimer (nextTimer s)) s1 in
  halted s2 /\ tasks s2 !! nextTask s = Some KRefresh /\ tokens s2 = tokens s
  /\ log s2 = OTokenFetch Token.refresh :: log s.
Proof.
  intros Hh Ht Hd s1 s2.
  split; [by apply step_halted, step_halted|].
  assert (s1 = scheduleRefresh env (s <| tasks ::= delete t |>)) as H1.
  { subst s1. cbn [step]. unfold run_task. rewrite Ht. cbn [resume_task default]. unfold refresh_settled.
    change (transport (s <| tasks ::= delete t |>)) with (transport s). by rewrite (proj1 (proj2 Hh)). }
  assert (exists m, s1 = s <| tasks ::= delete t |>
    <| timers := <[nextTimer s := (TRefresh, Qmin d (inject_Z (2 ^ 31 - 1)))]> m |>
    <| nextTimer ::= S |> <| refreshTimer := Some (nextTimer s) |>) as [m Hm].
  { rewrite H1. unfold scheduleRefresh. destruct (refreshTimer s) as [h|] eqn:E; simpl; rewrite ?E; simpl; rewrite Hd;
      by eexists. }
  subst s2. rewrite Hm. cbn [step]. unfold run_timer. simpl. rewrite lookup_insert_eq. simpl.
  split_and!; [apply lookup_insert_eq|done|done].
Qed.

(** *** Witnesses *)

Lemma stopped_is_final_witness :
  let s := Conversation.run ex_deps (ex_open ++ [(ex_env 50, IDisconnect)])
             (new_conversation ex_manager (new_store "p" None) None) in
  let s' := Conversation.run ex_deps [(ex_env 60, ex_send "s1"); (ex_env 61, ITimer 0)] s in
  stopped s = true /\
  (state s' = closed /\ transport s' = None
   /\ exists new, log s' = new ++ log s /\ forallb silent new = true).
Proof.
  intros s s'. split; [vm_compute; reflexivity|].
  exact (stopped_is_final (H := ex_source) ex_deps ex_manager (new_store "p" None) None (ex_open ++ [(ex_env 50, IDisconnect)])
    [(ex_env 60, ex_send "s1"); (ex_env 61, ITimer 0)] ltac:(vm_compute; reflexivity)).
Defined.

(** A frame above a missing seq arms the gap timer. *)
Definition ex_gap : list (Env * input TokenManager) := ex_open ++ [(ex_env 20, IFrame 0 (ex_message 5))].

Lemma gap_detection_dies_witness :
  let s := Conversation.run ex_deps ex_gap (new_conversation ex_manager (new_store "p" None) None) in
  let l2 := [(ex_env 600, ITimer 2); (ex_env 601, ITask 2 (OkToken ex_token));
             (ex_env 602, IFrame 1 (ex_welcome "c1" 0)); (ex_env 603, IFrame 1 (ex_message 7))] in
  let s' := Conversation.run ex_deps l2 (step ex_deps (ex_env 30) (IClose 0 (mkClose 1006 "" None true)) s) in
  (state s' = open /\ watermark (window s') = 0 /\ duplicate 7 (window s') = true) /\
  (gap_dead s' /\ (forall highest, checkGap ex_deps highest s' = s')).
Proof.
  intros s l2 s'. split; [vm_compute; done|].
  assert (is_Some (gapTimer s)) as Hgap by (vm_compute; by eexists).
  exact (gap_detection_dies (H := ex_source) ex_deps ex_manager (new_store "p" None) None ex_gap l2 (ex_env 30) 0
    (mkClose 1006 "" None true) Hgap ltac:(vm_compute; reflexivity)).
Defined.

Lemma onClose_spec_witness :
  let c := mkClose 1006 "" (Some 4000) true in
  let s' := step ex_deps (ex_env 30) (IClose 0 c) ex_busy in
  close_verdict ex_deps c ex_busy = VRetry /\
  (store s' = store ex_busy /\ outcome_of ex_deps (ex_env 30) c (close_verdict ex_deps c ex_busy) (ex_busy <| inFlight := ∅ |>) s').
Proof.
  intros c s'. split; [vm_compute; reflexivity|].
  exact (onClose_spec (H := ex_source) ex_deps (ex_env 30) 0 c ex_busy ltac:(vm_compute; reflexivity) ltac:(vm_compute; reflexivity)).
Defined.

Lemma send_after_disconnect_hangs_witness :
  let m := mkSend (Some "late") None None None None None in
  let l := [(ex_env 70, ITimer 0); (ex_env 71, IClose 0 (mkClose 1000 "" None true))] in
  (send (ex_env 60) m "late1" (disconnect ex_deps ex_opened)).1 = inr "late1" /\
  "late1" ∈ waiting (Conversation.run ex_deps l (send (ex_env 60) m "late1" (disconnect ex_deps ex_opened)).2).
Proof.
  intros m l. split; [vm_compute; reflexivity|].
  exact (send_after_disconnect_hangs (H := ex_source) ex_deps (ex_env 60) m "late1" "late1" l ex_opened
    ltac:(vm_compute; reflexivity) ltac:(repeat constructor)).
Defined.

(** A refresh is asked for, and the session disconnects before the answer. *)
Definition ex_refreshing : Conversation TokenManager :=
  Conversation.run ex_deps [(ex_env 20, ITimer 0); (ex_env 30, IDisconnect)] ex_opened.

Lemma refresh_outlives_disconnect_witness :
  let s1 := step ex_deps (ex_env 40) (ITask 2 (OkToken ex_token)) ex_refreshing in
  let s2 := step ex_deps (ex_env 50) (ITimer (nextTimer ex_refreshing)) s1 in
  state s2 = closed /\
  (halted s2 /\ tasks s2 !! nextTask ex_refreshing = Some KRefresh /\ tokens s2 = tokens ex_refreshing
   /\ log s2 = OTokenFetch Token.refresh :: log ex_refreshing).
Proof.
  intros s1 s2. split; [vm_compute; reflexivity|].
  assert (halted ex_refreshing) as Hh by (repeat split; vm_compute; reflexivity).
  exact (refresh_outlives_disconnect (H := ex_source) ex_deps (ex_env 40) (ex_env 50) 2 ex_token _ ex_refreshing Hh
    ltac:(vm_compute; reflexivity) ltac:(vm_compute; reflexivity)).
Defined.
