(* ===== verification/Client.v ===== *)
(** * Client: the entry point of the client SDK
    ([packages/client-ts/src/client.ts], class [ConvergerClient]).

    The options, their validation, and what a conversation is created with.
    The client's sessions are a map from handles.  A session is created with
    the client's token source; in [SharedTokens] that is a reference to the
    client's token manager, which the sessions so share. *)

From stdpp Require Import base gmap list strings.
From Stdlib Require Import ZArith QArith Lia.
From S2P Require Import Prelude Backoff Watermark Json Errors Rest Storage Outbox Token Conversation Session Lifecycle Example.

Open Scope string_scope.
Open Scope list_scope.
Open Scope Z_scope.

(** ** Transports *)

(* @src packages/client-ts/src/transport/native.ts 50-51 NativeTransport *)
Definition native_capabilities : TransportCapabilities := mkCapabilities true true true false.
(* @src packages/client-ts/src/transport/phoenix.ts 112-113 PhoenixTransport *)
Definition phoenix_capabilities : TransportCapabilities := mkCapabilities false true true true.
(* @src packages/client-ts/src/transport/sse.ts 43-44 SseTransport *)
Definition sse_capabilities : TransportCapabilities := mkCapabilities false true false true.

(* @src packages/client-ts/src/transport/native.ts 199-203 nativeTransport *)
Definition nativeTransport : TransportFactory := mkFactory (Some "native") (inr ("native", native_capabilities)).
(* @src packages/client-ts/src/transport/phoenix.ts 387-391 phoenixTransport *)
Definition phoenixTransport : TransportFactory := mkFactory (Some "phoenix") (inr ("phoenix", phoenix_capabilities)).
(* @src packages/client-ts/src/transport/sse.ts 288-292 sseTransport *)
Definition sseTransport : TransportFactory := mkFactory (Some "sse") (inr ("sse", sse_capabilities)).

(* @src packages/client-ts/src/client.ts 21-21 TransportOption *)
Inductive TransportOption := TName (name : string) | TFactory (f : TransportFactory).

(** [TransportOption | TransportOption[] | undefined]. *)
Inductive transport_arg := TUndefined | TOne (o : TransportOption) | TMany (l : list TransportOption).

(* @src packages/client-ts/src/client.ts 68-80 resolveTransport *)
Definition resolveTransport (option : TransportOption) : ConvergerError + TransportFactory :=
  match option with
  | TFactory f => inr f
  | TName "native" => inr nativeTransport
  | TName "phoenix" => inr phoenixTransport
  | TName "sse" => inr sseTransport
  | TName other => inl (error "invalid_option" ("unknown transport " +:+ other))
  end.

(** [list.map(...)]: the first one that throws. *)
Fixpoint resolve_all (l : list TransportOption) : ConvergerError + list TransportFactory :=
  match l with
  | [] => inr []
  | o :: l' =>
      match resolveTransport o with
      | inl e => inl e
      | inr f => match resolve_all l' with inl e => inl e | inr fs => inr (f :: fs) end
      end
  end.

(* @src packages/client-ts/src/client.ts 82-86 resolveTransports *)
Definition resolveTransports (option : transport_arg) : ConvergerError + list TransportFactory :=
  let list := match option with TUndefined => [TName "native"; TName "sse"] | TOne o => [o] | TMany l => l end in
  match list with
  | [] => inl (error "invalid_option" "at least one transport is needed")
  | _ => resolve_all list
  end.

(** ** The client *)

(** The options as a JavaScript caller passes them: [baseUrl] is [None] when
    it is not a string, [tokenProvider] says whether it is a function. *)
(* @src packages/client-ts/src/client.ts 24-53 ConvergerClientOptions *)
Record ConvergerClientOptions := mkOptions {
  o_baseUrl : option string;
  o_tokenProvider : bool;
  o_transport : transport_arg;
  o_fallbackAfterAttempts : option Z;
  o_reconnect : reconnect_arg;
  o_storage : bool;
  o_storageKey : option string;
  o_refreshSkewMs : option Q;
  o_replayWaitMs : option Z;
  o_gapWaitMs : option Z;
}.

(** [/^https?:\/\//i.test(baseUrl)]. *)
Definition http_baseUrl (url : string) : bool := is_http_url (str_of (lower (chars_of url))).

(** [connect] up to [tokens.get()]: the error it rejects with, or the manager
    that is asked for the first token. *)
(* @src packages/client-ts/src/client.ts 133-142 connect *)
Definition connect (options : ConvergerClientOptions) (now : Q) : ConvergerError + TokenManager :=
  match o_baseUrl options with
  | Some url =>
      if http_baseUrl url then
        if o_tokenProvider options then
          match resolveTransports (o_transport options) with
          | inl e => inl e
          | inr _ => new_manager (o_refreshSkewMs options ?? 60000%Q) None now
          end
        else inl (error "invalid_option" "tokenProvider must be a function")
      else inl (error "invalid_option" "baseUrl must be an http(s) URL")
  | None => inl (error "invalid_option" "baseUrl must be an http(s) URL")
  end.

(** ** The session's REST helpers

    [restFor] makes a REST client over the session's token ([getToken]: the
    token of the conversation, or the shared manager's). *)

Section RestHelpers.
Context {T W : Type}.
Context (fetch : HttpRequest -> W -> option Response * W).
Context (now : W -> Z) (date_parse : string -> option Z) (getToken : Conversation T -> act (W := W) string) (baseUrl : string).

(* @src packages/client-ts/src/conversation.ts 489-492 requireId *)
Definition requireId (s : Conversation T) : ConvergerError + string :=
  match conversationId s with
  | None | Some "" => inl (error "no_conversation" "the conversation has no id yet; await start()")
  | Some id => inr id
  end.

(* @src packages/client-ts/src/conversation.ts 346-348 history *)
Definition conversation_history (s : Conversation T) (fuel : nat) (o : HistoryOptions) (w : W)
  : ConvergerError + (list ActivitySet * ending * W) :=
  match requireId s with
  | inl e => inl e
  | inr id => inr (history fetch now date_parse (getToken s) baseUrl fuel id (ho_limit o) (ho_watermark o) w)
  end.

Definition with_id (s : Conversation T) (k : string -> act (W := W) json) (w : W) : ConvergerError + ((ConvergerError + json) * W) :=
  match requireId s with inl e => inl e | inr id => inr (k id w) end.

(* @src packages/client-ts/src/conversation.ts 351-353 upload *)
Definition conversation_upload (s : Conversation T) (file : string) (named : option string) (o : UploadOptions) :=
  with_id s (fun id => upload fetch now date_parse (getToken s) baseUrl id file named o).

(* @src packages/client-ts/src/conversation.ts 356-358 closeConversation *)
Definition conversation_close (s : Conversation T) :=
  with_id s (closeConversation fetch now date_parse (getToken s) baseUrl).

(* @src packages/client-ts/src/conversation.ts 361-363 reopenConversation *)
Definition conversation_reopen (s : Conversation T) :=
  with_id s (reopenConversation fetch now date_parse (getToken s) baseUrl).
End RestHelpers.

Section Client.
Context {T : Type} `{TokenSource T}.

(* @src packages/client-ts/src/client.ts 103-112 ConvergerClient *)
Record ConvergerClient := mkClient {
                                    c_options : ConvergerClientOptions;
                                    c_tokens : T;
                                    c_baseUrl : string;
                                    c_storage : option storage_kind;
                                    c_conversations : gmap nat (ConversationDeps * Conversation T);
                                    c_next : nat;
}.

(** The storage is the given one ([None]) or [defaultStorage()].  The REST
client throws when there is no [fetch], neither given nor global. *)
(* @src packages/client-ts/src/client.ts 114-126 constructor *)
Definition new_client (options : ConvergerClientOptions) (tokens : T) (has_window has_document : bool) (ls : local_storage)
  (given global : bool) : ConvergerError + ConvergerClient :=
  let baseUrl := trimBaseUrl (o_baseUrl options ?? "") in
  match Rest.new_client baseUrl given global with
  | inl e => inl e
  | inr _ =>
      inr (mkClient options tokens baseUrl
           (if o_storage options then None else Some (defaultStorage has_window has_document ls)) ∅ 0)
  end.

(* @src packages/client-ts/src/client.ts 160-174 conversation *)
Definition conversation_deps (options : ConvergerClientOptions) (fs : list TransportFactory) : ConversationDeps :=
  mkDeps fs (Z.max 1 (o_fallbackAfterAttempts options ?? 2)) (resolveReconnect (o_reconnect options))
  (o_replayWaitMs options ?? 5000) (o_gapWaitMs options ?? 1500).

(** [conversation(id, {transport})]: the handle of the new session, or what
it throws. *)
(* @src packages/client-ts/src/client.ts 155-177 conversation *)
Definition conversation (id : option string) (transport : transport_arg) (c : ConvergerClient)
  : (ConvergerError + nat) * ConvergerClient :=
  let store := new_store (o_storageKey (c_options c) ?? "converger") id in
  match resolveTransports (match transport with TUndefined => o_transport (c_options c) | t => t end) with
  | inl e => (inl e, c)
  | inr fs =>
      let s := new_conversation (c_tokens c) store id in
      (inr (c_next c),
       mkClient (c_options c) (c_tokens c) (c_baseUrl c) (c_storage c)
       (<[c_next c := (conversation_deps (c_options c) fs, s)]> (c_conversations c)) (S (c_next c)))
  end.

Definition with_conversations (m : gmap nat (ConversationDeps * Conversation T)) (c : ConvergerClient) : ConvergerClient :=
  mkClient (c_options c) (c_tokens c) (c_baseUrl c) (c_storage c) m (c_next c).

(** [close] calls [disconnect] on every session. *)
(* @src packages/client-ts/src/client.ts 180-182 close *)
Definition close (c : ConvergerClient) : ConvergerClient :=
  with_conversations ((fun '(deps, s) => (deps, disconnect deps s)) <$> c_conversations c) c.

(** A session's own step, and [onDispose]. *)
Definition session_step (h : nat) (env : Env) (i : input T) (c : ConvergerClient) : ConvergerClient :=
  with_conversations (alter (fun '(deps, s) => (deps, step deps env i s)) h (c_conversations c)) c.

(* @src packages/client-ts/src/client.ts 173-173 onDispose *)
Definition dispose (h : nat) (c : ConvergerClient) : ConvergerClient := with_conversations (delete h (c_conversations c)) c.

(** ** Properties *)

Lemma resolve_all_length l fs : resolve_all l = inr fs -> length fs = length l.
Proof.
  revert fs; induction l as [|o l IH]; simpl; intros fs Hfs; [by injection Hfs as <-|].
  destruct (resolveTransport o); [done|]. destruct (resolve_all l) as [|fs']; [done|].
  injection Hfs as <-. simpl. by rewrite (IH fs').
Qed.

Lemma resolveTransports_nonempty a fs : resolveTransports a = inr fs -> fs <> [].
Proof.
  unfold resolveTransports. intros Hfs ->.
  destruct a as [|o|[|o l]]; [..|done|]; apply resolve_all_length in Hfs; discriminate.
Qed.

(** [connect] validates everything [conversation] needs: on a client it
created, [conversation()] never throws, and the new session has at least
one transport to try, a fallback threshold of at least one attempt, and
starts idle with an empty outbox. *)
Theorem conversation_created options now m (tokens : T) w d ls g g' id (c0 c : ConvergerClient) :
  connect options now = inr m -> new_client options tokens w d ls g g' = inr c0 ->
  c_options c = c_options c0 ->
  exists c' deps,
  conversation id TUndefined c = (inr (c_next c), c') /\
  c_conversations c' !! c_next c =
  Some (deps, new_conversation (c_tokens c) (new_store (o_storageKey options ?? "converger") id) id) /\
  transports deps <> [] /\ 1 <= fallbackAfterAttempts deps.
Proof.
  unfold new_client. intros Hc Hn Ho. destruct (Rest.new_client _ _ _); [done|].
  injection Hn as <-. simpl in Ho. unfold conversation. rewrite Ho.
  destruct (resolveTransports (o_transport options)) as [e|fs] eqn:E.
  { unfold connect in Hc. rewrite E in Hc. destruct (o_baseUrl options) as [u|]; [|done].
    by destruct (http_baseUrl u), (o_tokenProvider options). }
  do 2 eexists. split; [reflexivity|]. split; [apply lookup_insert_eq|].
  split; [by apply resolveTransports_nonempty in E|]. simpl. lia.
Qed.

(** A session's later inputs, by handle. *)
Definition drive (h : nat) (l : list (Env * input T)) (c : ConvergerClient) : ConvergerClient :=
  fold_left (fun c '(env, i) => session_step h env i c) l c.

Lemma drive_lookup h l (c : ConvergerClient) deps s :
  c_conversations c !! h = Some (deps, s) ->
  c_conversations (drive h l c) !! h = Some (deps, Conversation.run deps l s).
Proof.
  revert c s. induction l as [|[env i] l IH]; intros c s Hc; [exact Hc|].
  unfold drive. simpl. apply (IH (session_step h env i c)). simpl. by rewrite lookup_alter_eq, Hc.
Qed.

(** [close] stops every session the client still lists, whatever it was
doing, with its outbox as it was; and whatever happens to the session
afterwards, it stays closed and detached: it opens no connection, puts nothing on
the wire and emits no activity, no [sent], no [sendFailed] and no state
change. *)
Theorem close_stops_all (c : ConvergerClient) h deps s l :
  c_conversations c !! h = Some (deps, s) ->
  exists s1 s2,
  c_conversations (close c) !! h = Some (deps, s1) /\ store s1 = store s /\ waiting s1 = [] /\
  c_conversations (drive h l (close c)) !! h = Some (deps, s2) /\
  state s2 = closed /\ Conversation.transport s2 = None /\
  exists new, log s2 = new ++ log s1 /\ forallb silent new = true.
Proof.
  intros Hc. pose proof (disconnect_shut deps s) as Hs.
  assert (Hl : c_conversations (close c) !! h = Some (deps, disconnect deps s)).
  { simpl. by rewrite lookup_fmap, Hc. }
  exists (disconnect deps s), (Conversation.run deps l (disconnect deps s)).
  destruct (run_halted deps l _ (shut_halted _ _ _ Hs)) as [(_ & ? & ?) ?].
  split_and!; [exact Hl|apply Hs|apply Hs|by apply drive_lookup|done..].
Qed.

End Client.

(** ** Witnesses *)

Definition ex_options : ConvergerClientOptions :=
  mkOptions (Some "HTTPS://converger.example.com/") true TUndefined None RUndefined false None None None None.

Definition ex_client : ConvergerClient (T := TokenManager) :=
  match new_client ex_options ex_manager true true (LsPresent true) false true with
  | inr c => c
  | inl _ => mkClient ex_options ex_manager "" None ∅ 0
  end.

(** Two sessions, the first opened over the native transport. *)
Definition ex_two : ConvergerClient :=
  drive 0 ex_open (conversation (Some "c2") TUndefined (conversation None TUndefined ex_client).2).2.

Lemma conversation_created_witness :
  exists m c' deps, connect ex_options 0 = inr m /\
  conversation (Some "c1") TUndefined ex_client = (inr 0%nat, c') /\
  c_conversations c' !! 0%nat = Some (deps, new_conversation ex_manager (new_store "converger" (Some "c1")) (Some "c1")) /\
  map transportName (transports deps) = [Some "native"; Some "sse"].
Proof.
  destruct (conversation_created ex_options 0 (mkManager 60000 None NoPending) ex_manager true true (LsPresent true) false true
    (Some "c1") ex_client ex_client) as (c' & deps & Hc & Hl & _); [reflexivity..|].
  exists (mkManager 60000 None NoPending), c', deps. split; [reflexivity|]. split; [exact Hc|]. split; [exact Hl|].
  assert (Hd : (fun x => map transportName (transports x.1)) <$> c_conversations (conversation (Some "c1") TUndefined ex_client).2 !! 0%nat
    = Some [Some "native"; Some "sse"]) by (vm_compute; reflexivity).
  change (c_next ex_client) with 0%nat in Hl. rewrite Hc in Hd. simpl in Hd. rewrite Hl in Hd. by injection Hd.
Defined.

Lemma close_stops_all_witness :
  exists deps s s1 s2, c_conversations ex_two !! 0%nat = Some (deps, s) /\ state s = open /\
  c_conversations (close ex_two) !! 0%nat = Some (deps, s1) /\
  c_conversations (drive 0 [(ex_env 5, IFrame 0 (ex_message 1))] (close ex_two)) !! 0%nat = Some (deps, s2) /\ state s2 = closed.
Proof.
  assert (Ho : (fun x => state x.2) <$> c_conversations ex_two !! 0%nat = Some open) by (vm_compute; reflexivity).
  destruct (c_conversations ex_two !! 0%nat) as [[deps s]|] eqn:E; [|discriminate].
  destruct (close_stops_all ex_two 0 deps s [(ex_env 5, IFrame 0 (ex_message 1))] E) as (s1 & s2 & H1 & _ & _ & H2 & H3 & _).
  exists deps, s, s1, s2. injection Ho as Ho. split_and!; assumption || reflexivity.
Defined.
