(* ===== verification/TokenFlow.v ===== *)
(** * TokenFlow: what a session does to its token manager.

    A session reads and replaces its manager through the interface
    [TokenSource].  [step_tokens] says that this is all it does: a property of
    the manager that a corrected expiry keeps and every manager of a
    conversation token has is kept by every input. *)

From stdpp Require Import base gmap sets list strings.
From Stdlib Require Import ZArith QArith Lia.
From S2P Require Import Prelude Frames Token Outbox Conversation Session.

Open Scope string_scope.
Open Scope list_scope.

Create HintDb toks.

(** Walk through a handler: a [let] of a state leaves the state it binds, then
    the rest from that (now arbitrary) state. *)
Ltac toks_step :=
  lazymatch goal with
  | |- ?P (tokens (let x := ?e in @?b x)) =>
      lazymatch type of e with
      | Conversation _ =>
          let H := fresh "Hs" in
          assert (H : P (tokens e)); [|change (P (tokens (b e))); revert H; generalize e; intros ? H; cbv beta]
      | _ => change (P (tokens (b e))); cbv beta
      end
  | |- ?P (tokens (match ?x with _ => _ end)) =>
      lazymatch type of x with
      | (_ * Conversation _)%type =>
          let H := fresh "Hs" in assert (H : P (tokens x.2)); [|revert H; destruct x; cbn [snd]; intros H]
      | _ => destruct x
      end
  | |- ?P (tokens (let x := ?e in @?b x).2) =>
      lazymatch type of e with
      | Conversation _ =>
          let H := fresh "Hs" in
          assert (H : P (tokens e)); [|change (P (tokens (b e).2)); revert H; generalize e; intros ? H; cbv beta]
      | _ => change (P (tokens (b e).2)); cbv beta
      end
  | |- _ (tokens (match ?x with _ => _ end).2) => destruct x
  | |- _ (tokens (_, _).2) => cbn [snd]
  end.
Ltac toks := repeat toks_step; solve [eauto 8 with toks].

Section Managers.
Context {T : Type} `{TokenSource T} (deps : ConversationDeps) (P : T -> Prop).
Context (P_setExpiry : forall e m, P m -> P (ts_setExpiry e m)).
Context (P_forConversation : forall t e now m, ts_forConversation t e now = inr m -> P m).
Implicit Types (s : Conversation T).

#[local] Hint Extern 0 (P (tokens _)) => match goal with Hs : P (tokens _) |- _ => exact Hs end : toks.
#[local] Hint Extern 1 (P (tokens (upd _ _ ?s))) => change (P (tokens s)) : toks.
#[local] Hint Extern 2 (P (tokens _)) => match goal with Hs : P (tokens _) |- _ => exact (P_setExpiry _ _ Hs) end : toks.

Lemma toks_say o s : P (tokens s) -> P (tokens (say o s)).
Proof. done. Qed.
Lemma toks_emit e s : P (tokens s) -> P (tokens (emit e s)).
Proof. done. Qed.
Lemma toks_await k s : P (tokens s) -> P (tokens (await k s)).
Proof. done. Qed.
Lemma toks_clearTimeout h s : P (tokens s) -> P (tokens (clearTimeout h s)).
Proof. by destruct h. Qed.
Lemma toks_setTimeout a d s : P (tokens s) -> P (tokens (setTimeout a d s).2).
Proof. done. Qed.
#[local] Hint Resolve toks_say toks_emit toks_await toks_clearTimeout toks_setTimeout : toks.

Lemma toks_wire env f s : P (tokens s) -> P (tokens (wire env f s).2).
Proof. intros Hs. unfold wire. destruct (transport s); [|done]. by destruct (accepts _ _ _). Qed.
Lemma toks_resolve_ready d s : P (tokens s) -> P (tokens (resolve_ready d s)).
Proof. intros Hs. enter resolve_ready. toks. Qed.
Lemma toks_reject_ready e s : P (tokens s) -> P (tokens (reject_ready e s)).
Proof. intros Hs. enter reject_ready. toks. Qed.
Lemma toks_settle_wait id o s : P (tokens s) -> P (tokens (settle_wait id o s)).
Proof. intros Hs. enter settle_wait. toks. Qed.
Lemma toks_setState st d c e s : P (tokens s) -> P (tokens (setState deps st d c e s)).
Proof. intros Hs. enter setState. toks. Qed.
Lemma toks_saveState s : P (tokens s) -> P (tokens (saveState s)).
Proof. intros Hs. enter saveState. toks. Qed.
Lemma toks_clearTimers s : P (tokens s) -> P (tokens (clearTimers s)).
Proof. intros Hs. destruct (clearTimers_eq s) as (m & -> & _). exact Hs. Qed.
Lemma toks_rejectWaiting e s : P (tokens s) -> P (tokens (rejectWaiting e s)).
Proof. intros Hs. rewrite rejectWaiting_eq. exact Hs. Qed.
#[local] Hint Resolve toks_wire toks_resolve_ready toks_reject_ready toks_settle_wait toks_setState toks_saveState
  toks_clearTimers toks_rejectWaiting : toks.

Lemma toks_close e c s : P (tokens s) -> P (tokens (close deps e c s)).
Proof. intros Hs. enter close. toks. Qed.
Lemma toks_flush_loop env tr l s : P (tokens s) -> P (tokens (flush_loop env tr l s)).
Proof.
  revert s. induction l as [|e l IH]; intros s Hs; [done|]. cbn [flush_loop]. repeat toks_step; solve [done | by apply IH].
Qed.
Lemma toks_flush env s : P (tokens s) -> P (tokens (flush env s)).
Proof. intros Hs. enter flush. repeat toks_step; solve [done | by apply toks_flush_loop]. Qed.
#[local] Hint Resolve toks_close toks_flush : toks.

Lemma toks_scheduleRetry env s : P (tokens s) -> P (tokens (scheduleRetry env s)).
Proof. intros Hs. enter scheduleRetry. toks. Qed.
Lemma toks_endReplay env b s : P (tokens s) -> P (tokens (endReplay env b s)).
Proof. intros Hs. enter endReplay. toks. Qed.
Lemma toks_armReplayTimer s : P (tokens s) -> P (tokens (armReplayTimer deps s)).
Proof. intros Hs. enter armReplayTimer. toks. Qed.
Lemma toks_markSeen seq s : P (tokens s) -> P (tokens (markSeen seq s)).
Proof. intros Hs. enter markSeen. toks. Qed.
Lemma toks_checkGap highest s : P (tokens s) -> P (tokens (checkGap deps highest s)).
Proof. intros Hs. enter checkGap. toks. Qed.
Lemma toks_settle a s : P (tokens s) -> P (tokens (settle a s)).
Proof. intros Hs. enter settle. toks. Qed.
#[local] Hint Resolve toks_scheduleRetry toks_endReplay toks_armReplayTimer toks_markSeen toks_checkGap toks_settle : toks.

Lemma toks_onAck env a s : P (tokens s) -> P (tokens (onAck env a s)).
Proof. intros Hs. enter onAck. toks. Qed.
Lemma toks_ownTurn f s : P (tokens s) -> P (tokens (ownTurn f s).2).
Proof. intros Hs. unfold ownTurn. destruct (f_clientId f); [|done]. destruct (_ && _); [by apply toks_settle|done]. Qed.
#[local] Hint Resolve toks_ownTurn : toks.
Lemma toks_onPersistent env f s : P (tokens s) -> P (tokens (onPersistent deps env f s)).
Proof.
  intros Hs. enter onPersistent. toks.
Qed.
Lemma toks_scheduleRefresh env s : P (tokens s) -> P (tokens (scheduleRefresh env s)).
Proof. intros Hs. enter scheduleRefresh. toks. Qed.
#[local] Hint Resolve toks_onAck toks_onPersistent toks_scheduleRefresh : toks.

Lemma toks_refresh s : P (tokens s) -> P (tokens (refresh s)).
Proof. done. Qed.
Lemma toks_refresh_settled env r s : P (tokens s) -> P (tokens (refresh_settled env r s)).
Proof. intros Hs. enter refresh_settled. toks. Qed.
Lemma toks_scheduleReconnect env c s : P (tokens s) -> P (tokens (scheduleReconnect deps env c s)).
Proof. intros Hs. enter scheduleReconnect. toks. Qed.
#[local] Hint Resolve toks_refresh toks_refresh_settled toks_scheduleReconnect : toks.

Lemma toks_onClose env c s : P (tokens s) -> P (tokens (onClose deps env c s)).
Proof. intros Hs. enter onClose. toks. Qed.
Lemma toks_connect_failed env token e s : P (tokens s) -> P (tokens (connect_failed deps env token e s)).
Proof. intros Hs. enter connect_failed. toks. Qed.
Lemma toks_get_token token tr s : P (tokens s) -> P (tokens (get_token token tr s)).
Proof. done. Qed.
#[local] Hint Resolve toks_onClose toks_connect_failed toks_get_token : toks.

Lemma toks_connect env s : P (tokens s) -> P (tokens (connect deps env s)).
Proof. intros Hs. enter connect. toks. Qed.
Lemma toks_connect_transport token tr t s : P (tokens s) -> P (tokens (connect_transport token tr t s)).
Proof. intros Hs. enter connect_transport. toks. Qed.
Lemma toks_ensure token tr t s : P (tokens s) -> P (tokens (ensureConversationToken token tr t s)).
Proof. intros Hs. enter ensureConversationToken. toks. Qed.
Lemma toks_use env token tr t e s : P (tokens s) -> P (tokens (useConversationTokens deps env token tr t e s)).
Proof.
  intros Hs. unfold useConversationTokens. destruct (ts_forConversation _ _ _) eqn:E; [by apply toks_connect_failed|].
  by eapply P_forConversation.
Qed.
Lemma toks_attach id s : P (tokens s) -> P (tokens (attach id s).2).
Proof. intros Hs. unfold attach. by destruct (Outbox.attach_begin _ _). Qed.
Lemma toks_attached loads r s : P (tokens s) -> P (tokens (attached loads r s)).
Proof. by destruct loads. Qed.
#[local] Hint Resolve toks_connect toks_connect_transport toks_ensure toks_use toks_attach toks_attached : toks.

Lemma toks_onWelcome env d s : P (tokens s) -> P (tokens (onWelcome deps env d s)).
Proof. intros Hs. enter onWelcome. toks. Qed.
Lemma toks_onError env d s : P (tokens s) -> P (tokens (onError env d s)).
Proof. intros Hs. cbv beta delta [onError onSendError onSessionError]. toks. Qed.
#[local] Hint Resolve toks_onWelcome toks_onError : toks.

Lemma toks_onFrame env f s : P (tokens s) -> P (tokens (onFrame deps env f s)).
Proof.
  intros Hs. enter onFrame. toks.
Qed.
Lemma toks_run_timer env h s : P (tokens s) -> P (tokens (run_timer deps env h s)).
Proof. intros Hs. cbv beta delta [run_timer gap_fired sync_fired retry_fired]. toks. Qed.
Lemma toks_open_session env s : P (tokens s) -> P (tokens (open_session deps env s)).
Proof. intros Hs. enter open_session. toks. Qed.
#[local] Hint Resolve toks_onFrame toks_run_timer toks_open_session : toks.

Lemma toks_resume_loaded env r w s : P (tokens s) -> P (tokens (resume_loaded deps env r w s).2).
Proof. intros Hs. enter resume_loaded. toks. Qed.

Lemma toks_resume_task env k o s s' : resume_task deps env k o s = Some s' -> P (tokens s) -> P (tokens s').
Proof.
  intros Hk Hs. destruct k, o; cbn [resume_task] in Hk; try discriminate Hk.
  all: try (apply Some_inj in Hk; rewrite <- Hk; clear Hk; solve [toks]).
  - pose proof (toks_resume_loaded env r watermark s Hs). destruct (resume_loaded _ _ _ _ _) as [[e|] s1]; by injection Hk as <-.
  - revert Hk. match goal with |- context [attach ?i ?x] => pose proof (toks_attach i x Hs); destruct (attach i x) end.
    intros [= <-]. by apply toks_await.
Qed.

Lemma toks_run_task env t o s : P (tokens s) -> P (tokens (run_task deps env t o s)).
Proof.
  intros Hs. unfold run_task. destruct (tasks s !! t) as [k|]; [|done].
  destruct (resume_task deps env k o _) eqn:E; [|done]. by eapply toks_resume_task.
Qed.
Lemma toks_signal env f s : P (tokens s) -> P (tokens (signal env f s).2).
Proof. intros Hs. enter signal. toks. Qed.
Lemma toks_disconnect s : P (tokens s) -> P (tokens (disconnect deps s)).
Proof. intros Hs. enter disconnect. toks. Qed.
#[local] Hint Resolve toks_run_task toks_signal toks_disconnect : toks.

(** A property of the manager that a corrected expiry keeps, and that every
    manager of a conversation token has, is kept by every input of a session
    but one that changes the manager from outside. *)
Lemma step_tokens env (i : input T) s : (forall m, i <> ITokens m) -> P (tokens s) -> P (tokens (step deps env i s)).
Proof.
  intros Hi Hs. destruct i; cbv beta iota delta [step start resume send typing markRead discardOutbox]; try solve [toks].
  by destruct (Hi t).
Qed.
End Managers.
