(* ===== verification/SharedTokens.v ===== *)
(** * SharedTokens: the sessions of a client and their token managers
    ([packages/client-ts/src/client.ts], [conversation.ts]).

    A token manager is an object that several hold: the client passes its own
    to every session it creates, and a session that needs a conversation token
    makes one of its own ([#useConversationTokens]).  Here the managers are a
    heap, a session's [#tokens] is the address of one, and a step of a session
    reads and writes the manager at its address; requests of a manager start
    and settle at any time, for whoever holds it.

    Not modelled: that the provider of a manager made for a conversation first
    asks the client's manager (its requests are moves like any other). *)

From stdpp Require Import base gmap sets list strings.
From Stdlib Require Import ZArith QArith Lia.
From S2P Require Import Prelude Frames Storage Token Outbox Conversation Session TokenFlow Example Client.

Open Scope string_scope.
Open Scope list_scope.

(** ** References to managers *)

(** What [#tokens] holds: an address and what is found there; no address yet
    for an object the running step has made. *)
(* @src packages/client-ts/src/conversation.ts 176-176 tokens *)
Record handle := mkHandle { h_addr : option nat; h_manager : TokenManager }.

(** The manager [#useConversationTokens] makes. *)
(* @src packages/client-ts/src/conversation.ts 470-483 useConversationTokens *)
Definition conversation_manager (skew : Q) (t : string) (expiresIn now : Q) : Errors.ConvergerError + TokenManager :=
  new_manager skew (Some (VInfo (mkTokenInfo (Some t) None (Some expiresIn)))) now.

Definition handle_source (skew : Q) : TokenSource handle :=
  {| ts_refreshDelay now h := refreshDelay now (h_manager h);
     ts_setExpiry e h := mkHandle (h_addr h) (setExpiry e (h_manager h));
     ts_forConversation t expires_in now :=
       match conversation_manager skew t expires_in now with inl e => inl e | inr m => inr (mkHandle None m) end |}.

Section World.
Context (options : ConvergerClientOptions).

(** [deps.refreshSkewMs]. *)
(* @src packages/client-ts/src/client.ts 170-170 conversation *)
Definition skew : Q := o_refreshSkewMs options ?? 60000%Q.

#[local] Instance source : TokenSource handle := handle_source skew.

(** ** The client, its sessions and the heap *)

(** A manager with the requests made of its provider ([Token.machine]). *)
Record World := mkWorld {
  w_client : @ConvergerClient handle;
  w_managers : gmap nat machine;
  w_next : nat;
}.

(** Where the client's manager is. *)
Definition client_addr : nat := 0.

(** [client.claims]. *)
(* @src packages/client-ts/src/client.ts 146-149 claims *)
Definition client_claims (w : World) : option TokenClaims :=
  x ← w_managers w !! client_addr; t ← current (manager x); claims t.

Definition deref (w : World) (h : handle) : handle :=
  match a ← h_addr h; w_managers w !! a with Some x => mkHandle (h_addr h) (manager x) | None => h end.

Definition set_session (h : nat) (deps : ConversationDeps) (v : Conversation handle) (c : @ConvergerClient handle) : @ConvergerClient handle :=
  with_conversations (<[h := (deps, v)]> (c_conversations c)) c.

(** An input of session [h]: it works on the manager its [#tokens] points to,
    and points to a new object when it made one. *)
(* @src packages/client-ts/src/conversation.ts 470-483 useConversationTokens *)
Definition world_step (h : nat) (env : Env) (i : input handle) (w : World) : World :=
  match c_conversations (w_client w) !! h with
  | None => w
  | Some (deps, v) =>
      let v := step deps env i (v <| tokens ::= deref w |>) in
      let m := h_manager (tokens v) in
      match h_addr (tokens v) with
      | Some a =>
          mkWorld (set_session h deps v (w_client w)) (alter (fun x => mkMachine m (Token.waiting x) (requests x)) a (w_managers w)) (w_next w)
      | None =>
          let a := w_next w in
          mkWorld (set_session h deps (v <| tokens := mkHandle (Some a) m |>) (w_client w))
            (<[a := mkMachine m 0 []]> (w_managers w)) (S a)
      end
  end.

Definition with_client (f : @ConvergerClient handle -> @ConvergerClient handle) (w : World) : World :=
  mkWorld (f (w_client w)) (w_managers w) (w_next w).

(** A call on the manager at [a], or its request settling. *)
Definition manager_step (a : nat) (c : Token.command) (w : World) : World :=
  mkWorld (w_client w) (alter (Token.exec c) a (w_managers w)) (w_next w).

Inductive world_move (w : World) : World -> Prop :=
| move_create id transport : world_move w (with_client (fun c => (conversation id transport c).2) w)
| move_session h env i : (forall m, i <> ITokens m) -> world_move w (world_step h env i w)
| move_manager a c : world_move w (manager_step a c w)
| move_close : world_move w (with_client close w)
| move_dispose h : world_move w (with_client (dispose h) w).

(** From [connect]: the client's manager at its address, no sessions. *)
Inductive world_reachable (m0 : TokenManager) : World -> Prop :=
| world_start now has_window has_document ls given global c0 :
    connect options now = inr m0 ->
    new_client options (mkHandle (Some client_addr) m0) has_window has_document ls given global = inr c0 ->
    world_reachable m0 (mkWorld c0 {[client_addr := mkMachine m0 0 []]} 1)
| world_next w w' : world_reachable m0 w -> world_move w w' -> world_reachable m0 w'.

(** ** Managers over time *)

(** [x] is what calls and settled requests made of a manager that was [m]. *)
Definition since (m : TokenManager) (x : machine) : Prop := exists cs, x = Token.run cs (mkMachine m 0 []).

(** A manager of a conversation token. *)
Definition of_conversation (x : machine) : Prop :=
  exists t expiresIn now m, conversation_manager skew t expiresIn now = inr m /\ since m x.

Lemma since_refl m : since m (mkMachine m 0 []).
Proof. by exists []. Qed.

Lemma since_run m x cs : since m x -> since m (Token.run cs x).
Proof. intros [cs0 ->]. exists (cs0 ++ cs). unfold Token.run. by rewrite fold_left_app. Qed.

Lemma since_exec m x c : since m x -> since m (Token.exec c x).
Proof. apply (since_run m x [c]). Qed.

Lemma since_single_flight m x : pending m = NoPending -> since m x -> (Token.waiting x <= 1)%nat.
Proof.
  intros Hm [cs ->]. assert (H : single_flight (Token.run cs (mkMachine m 0 []))).
  { assert (Hs : single_flight (mkMachine m 0 [])) by (unfold single_flight; simpl; by rewrite Hm).
    revert Hs. generalize (mkMachine m 0 []) as y. induction cs as [|c cs IH]; intros y Hy; [done|]. by apply IH, exec_single_flight. }
  unfold single_flight in H. rewrite H. clear. destruct (pending _); auto.
Qed.

Lemma new_manager_idle s v now m : new_manager s v now = inr m -> pending m = NoPending.
Proof.
  unfold new_manager. destruct v as [v|]; [destruct (normalise v now)|]; by intros [= <-].
Qed.

(** Corrected expiries, as calls of the manager. *)
Definition expiries (es : list (option Q)) (m : TokenManager) : TokenManager := fold_left (fun m e => setExpiry e m) es m.

Lemma run_expiries es m n rs : Token.run (map CSetExpiry es) (mkMachine m n rs) = mkMachine (expiries es m) n rs.
Proof. revert m. induction es as [|e es IH]; intros m; [done|]. by apply IH. Qed.

(** What a session's step leaves in [#tokens]: the manager it found, or one
    of a conversation token. *)
Definition left_by (a : nat) (m : TokenManager) (h : handle) : Prop :=
  (h_addr h = Some a /\ exists es, h_manager h = expiries es m) \/
  (h_addr h = None /\ exists t e now m1 es, conversation_manager skew t e now = inr m1 /\ h_manager h = expiries es m1).

Lemma left_by_step deps env i (v : Conversation handle) a m :
  (forall m, i <> ITokens m) -> tokens v = mkHandle (Some a) m -> left_by a m (tokens (step deps env i v)).
Proof.
  intros Hi Hv. apply (step_tokens deps (left_by a m)); [..|done|].
  - intros e h [[H1 [es H2]]|[H1 (t & x & n & m1 & es & H2 & H3)]]; [left|right]; (split; [done|]).
    + exists (es ++ [e]). simpl. unfold expiries. by rewrite fold_left_app, H2.
    + exists t, x, n, m1, (es ++ [e]). split; [done|]. simpl. unfold expiries. by rewrite fold_left_app, H3.
  - intros t e n h. simpl. destruct (conversation_manager skew t e n) as [x|m1] eqn:E; [done|]. intros [= <-].
    right. split; [done|]. by exists t, e, n, m1, [].
  - rewrite Hv. left. split; [done|]. by exists [].
Qed.

(** ** The invariant *)

Notation session w h v := (exists deps, c_conversations (w_client w) !! h = Some (deps, v)).

Record world_inv (m0 : TokenManager) (w : World) : Prop := mkWorldInv {
  wi_idle : pending m0 = NoPending;
  wi_ref : h_addr (c_tokens (w_client w)) = Some client_addr;
  wi_fresh a x : w_managers w !! a = Some x -> (a < w_next w)%nat;
  wi_client : is_Some (w_managers w !! client_addr);
  wi_made a x : w_managers w !! a = Some x -> if decide (a = client_addr) then since m0 x else of_conversation x;
  wi_points h v : session w h v -> exists a, h_addr (tokens v) = Some a /\ is_Some (w_managers w !! a);
  wi_private h h' v v' a : session w h v -> session w h' v' ->
    h_addr (tokens v) = Some a -> h_addr (tokens v') = Some a -> a <> client_addr -> h' = h
}.

Lemma start_inv now hw hd ls g g' m0 c0 :
  connect options now = inr m0 -> new_client options (mkHandle (Some client_addr) m0) hw hd ls g g' = inr c0 ->
  world_inv m0 (mkWorld c0 {[client_addr := mkMachine m0 0 []]} 1).
Proof.
  intros Hc Hn. unfold new_client in Hn. destruct (Rest.new_client _ _ _); [done|]. injection Hn as <-.
  assert (Hs : forall h v, ~ (exists deps, (∅ : gmap nat (ConversationDeps * Conversation handle)) !! h = Some (deps, v)))
    by (intros h v [deps Hd]; by rewrite lookup_empty in Hd).
  split; simpl.
  - unfold connect in Hc. destruct (o_baseUrl options); [|done]. destruct (http_baseUrl _); [|done].
    destruct (o_tokenProvider options); [|done]. destruct (resolveTransports _); [done|]. by injection Hc as <-.
  - done.
  - intros a x [<- _]%lookup_singleton_Some. unfold client_addr. lia.
  - by rewrite lookup_singleton_eq.
  - intros a x [<- <-]%lookup_singleton_Some. rewrite decide_True by done. apply since_refl.
  - intros h v Hv. by apply Hs in Hv.
  - intros h h' v v' a Hv. by apply Hs in Hv.
Qed.

(** A session's step, as it leaves the heap. *)
Lemma world_step_cases h env i w deps v a x :
  (forall m, i <> ITokens m) -> c_conversations (w_client w) !! h = Some (deps, v) -> h_addr (tokens v) = Some a ->
  w_managers w !! a = Some x ->
  (exists v' es, world_step h env i w =
     mkWorld (set_session h deps v' (w_client w)) (alter (Token.run (map CSetExpiry es)) a (w_managers w)) (w_next w) /\
     h_addr (tokens v') = Some a) \/
  (exists v' y, world_step h env i w =
     mkWorld (set_session h deps v' (w_client w)) (<[w_next w := y]> (w_managers w)) (S (w_next w)) /\
     h_addr (tokens v') = Some (w_next w) /\ of_conversation y).
Proof.
  intros Hi Hv Ha Hx. unfold world_step. rewrite Hv.
  assert (Hd : deref w (tokens v) = mkHandle (Some a) (manager x)) by (unfold deref; rewrite Ha; simpl; by rewrite Hx).
  set (v0 := v <| tokens ::= deref w |>). assert (H0 : tokens v0 = mkHandle (Some a) (manager x)) by (unfold v0; simpl; by rewrite Hd).
  destruct (left_by_step deps env i v0 a (manager x) Hi H0) as [[H1 [es H2]]|[H1 (t & e & n & m & es & H2 & H3)]].
  - left. exists (step deps env i v0), es. rewrite H1. split; [|done]. f_equal. apply map_eq. intros b.
    destruct (decide (a = b)) as [<-|Hne]; [|by rewrite !lookup_alter_ne]. rewrite !lookup_alter_eq, Hx. simpl. f_equal.
    destruct x as [m n rs]. rewrite run_expiries. simpl in *. by rewrite H2.
  - right. eexists _, _. rewrite H1. split; [reflexivity|]. split; [done|]. exists t, e, n, m. split; [done|].
    rewrite H3, <- run_expiries. apply since_run, since_refl.
Qed.

(** The sessions after one of them changed. *)
Lemma session_set (w : World) h deps (v : Conversation handle) k u :
  (exists d, <[h := (deps, v)]> (c_conversations (w_client w)) !! k = Some (d, u)) -> (k = h /\ u = v) \/ (k <> h /\ session w k u).
Proof. intros [d [[<- [= _ <-]]|[Hne Hd]]%lookup_insert_Some]; [by left|]. right. split; [done|]. by exists d. Qed.

(** Managers change as managers do; the sessions are the same or fewer. *)
Lemma inv_managers m0 (w w' : World) :
  world_inv m0 w -> h_addr (c_tokens (w_client w')) = h_addr (c_tokens (w_client w)) -> w_next w' = w_next w ->
  (forall a, is_Some (w_managers w !! a) -> is_Some (w_managers w' !! a)) ->
  (forall a x, w_managers w' !! a = Some x -> exists y cs, w_managers w !! a = Some y /\ x = Token.run cs y) ->
  (forall h v, session w' h v -> exists u, session w h u /\ h_addr (tokens v) = h_addr (tokens u)) -> world_inv m0 w'.
Proof.
  intros [Hi Hr Hf Hc Hm Hp Hv] H1 H2 H3 H4 H5. split.
  - done.
  - congruence.
  - intros a x (y & cs & Hy & _)%H4. rewrite H2. by eapply Hf.
  - by apply H3.
  - intros a x (y & cs & Hy & ->)%H4. apply Hm in Hy. case_decide; [by apply since_run|].
    destruct Hy as (t & e & n & m & Hy & Hs). exists t, e, n, m. split; [done|]. by apply since_run.
  - intros h v (u & Hu & ->)%H5. destruct (Hp h u Hu) as (a & Ha & Hs). exists a. split; [done|]. by apply H3.
  - intros h h' v v' a (u & Hu & ->)%H5 (u' & Hu' & ->)%H5. by apply (Hv h h' u u').
Qed.

Lemma step_inv m0 h env i w : (forall m, i <> ITokens m) -> world_inv m0 w -> world_inv m0 (world_step h env i w).
Proof.
  intros Hi Hw. destruct (c_conversations (w_client w) !! h) as [[deps v]|] eqn:Hv; [|unfold world_step; by rewrite Hv].
  destruct (wi_points m0 w Hw h v (ex_intro _ deps Hv)) as (a & Ha & [x Hx]).
  destruct (world_step_cases h env i w deps v a x Hi Hv Ha Hx) as [(v' & es & -> & Ha')|(v' & y & -> & Ha' & Hy)].
  - apply (inv_managers m0 w); simpl; try done.
    + intros b [z Hz]. destruct (decide (a = b)) as [<-|Hne]; [rewrite lookup_alter_eq, Hz|rewrite lookup_alter_ne, Hz by done]; by eexists.
    + intros b z. destruct (decide (a = b)) as [<-|Hne].
      * rewrite lookup_alter_eq. intros (y & Hy & ->)%fmap_Some. by exists y, (map CSetExpiry es).
      * rewrite lookup_alter_ne by done. intros Hz. by exists z, [].
    + intros k u Hu. apply session_set in Hu as [[-> ->]|[_ Hu]]; [|by exists u].
      exists v. split; [by exists deps|congruence].
  - destruct Hw as [Hi0 Hr Hf Hc Hm Hp Hpr]. assert (Hn : w_managers w !! w_next w = None).
    { destruct (w_managers w !! w_next w) eqn:E; [|done]. apply Hf in E. lia. }
    assert (Hne : forall b, is_Some (w_managers w !! b) -> b <> w_next w) by (intros b [z Hz] ->; congruence).
    split; simpl.
    + done.
    + done.
    + intros b z [[<- _]|[_ Hz]]%lookup_insert_Some; [lia|]. apply Hf in Hz. lia.
    + rewrite lookup_insert_ne; [done|]. symmetry. by apply Hne.
    + intros b z [[<- <-]|[_ Hz]]%lookup_insert_Some; [|by apply Hm]. rewrite decide_False; [done|]. symmetry. by apply Hne.
    + intros k u Hu. apply session_set in Hu as [[-> ->]|[_ Hu]]; [exists (w_next w); by rewrite lookup_insert_eq|].
      destruct (Hp k u Hu) as (b & Hb & Hs). exists b. split; [done|]. rewrite lookup_insert_ne; [done|]. symmetry. by apply Hne.
    + intros k k' u u' b Hu Hu' Hb Hb' Hcl.
      apply session_set in Hu as [[-> ->]|[Hk Hu]]; apply session_set in Hu' as [[-> ->]|[Hk' Hu']]; [done|..|by apply (Hpr k k' u u' b)].
      * destruct (Hp k' u' Hu') as (b' & Hb2 & Hs). apply Hne in Hs. congruence.
      * destruct (Hp k u Hu) as (b' & Hb2 & Hs). apply Hne in Hs. congruence.
Qed.

Lemma move_inv m0 w w' : world_inv m0 w -> world_move w w' -> world_inv m0 w'.
Proof.
  intros Hw Hm. destruct Hm as [id transport|h env i Hi|a c| |h].
  - unfold with_client, conversation. destruct (resolveTransports _) as [e|fs]; [by destruct w|].
    destruct Hw as [Hi Hr Hf Hc Hm Hp Hpr]. split; simpl; try done.
    + intros k u Hu. apply session_set in Hu as [[-> ->]|[_ Hu]]; [|by apply (Hp k u)]. by exists client_addr.
    + intros k k' u u' b Hu Hu' Hb Hb' Hne.
      apply session_set in Hu as [[-> ->]|[_ Hu]]; [simpl in Hb; congruence|].
      apply session_set in Hu' as [[-> ->]|[_ Hu']]; [simpl in Hb'; congruence|]. by apply (Hpr k k' u u' b).
  - by apply step_inv.
  - apply (inv_managers m0 w); simpl; try done; [| |intros h v Hv; by exists v].
    + intros b [z Hz]. destruct (decide (a = b)) as [<-|Hne]; [rewrite lookup_alter_eq, Hz|rewrite lookup_alter_ne, Hz by done]; by eexists.
    + intros b z. destruct (decide (a = b)) as [<-|Hne].
      * rewrite lookup_alter_eq. intros (y & Hy & ->)%fmap_Some. by exists y, [c].
      * rewrite lookup_alter_ne by done. intros Hz. by exists z, [].
  - apply (inv_managers m0 w); simpl; try done; [intros b z Hz; by exists z, []|].
    intros h v [deps Hv]. rewrite lookup_fmap in Hv. apply fmap_Some in Hv as ([d u] & Hu & [= -> ->]). exists u. split; [by exists d|].
    by apply (toks_disconnect d (fun t => h_addr t = h_addr (tokens u))).
  - apply (inv_managers m0 w); simpl; try done; [intros b z Hz; by exists z, []|].
    intros k v [deps [_ Hv]%lookup_delete_Some]. exists v. split; [by exists deps|done].
Qed.

Lemma world_inv_reachable m0 w : world_reachable m0 w -> world_inv m0 w.
Proof. induction 1 as [|w w' _ IH Hm]; [by eapply start_inv|by eapply move_inv]. Qed.

(** The awaits of [#ensureConversationToken] whose outcome gives the session a
    conversation token, at once or once the store has attached. *)
Definition gives_token (k : option task) (o : outcome) (tok : string) (expires_in : Q) : Prop :=
  match k, o with
  | Some (KConversation _ _), OkConversation _ t e => t = tok /\ e = expires_in
  | Some (KCreateAttach _ _ _ t e), OkRead _ => t = tok /\ e = expires_in
  | _, _ => False
  end.

(** ** Sessions are runs

    Each session, taken alone, is a run of the machine of [Conversation], its
    manager changing from outside between its inputs; what is proved of such
    runs holds for the sessions of a client. *)

Definition is_run (deps : ConversationDeps) (v : Conversation handle) : Prop :=
  exists m st id l, v = Conversation.run deps l (new_conversation m st id).

Lemma is_run_step deps env i v : is_run deps v -> is_run deps (step deps env i v).
Proof. intros (m & st & id & l & ->). exists m, st, id, (l ++ [(env, i)]). unfold Conversation.run. by rewrite fold_left_app. Qed.

Lemma is_run_tokens deps v m : is_run deps v -> is_run deps (v <| tokens := m |>).
Proof. apply (is_run_step deps (mkEnv 0 0 (fun _ _ => true)) (ITokens m)). Qed.

Lemma session_is_run m0 w h deps v :
  world_reachable m0 w -> c_conversations (w_client w) !! h = Some (deps, v) -> is_run deps v.
Proof.
  intros Hw. revert h deps v. induction Hw as [now hw hd ls g g' c0 _ Hn|w w' _ IH Hm]; intros h deps v.
  - unfold new_client in Hn. destruct (Rest.new_client _ _ _); [done|]. injection Hn as <-. simpl. by rewrite lookup_empty.
  - destruct Hm as [id transport|k env i _|a c| |k]; simpl.
    + unfold conversation. destruct (resolveTransports _) as [e|fs]; [apply IH|]. simpl.
      intros [[_ [= <- <-]]|[_ Hv]]%lookup_insert_Some; [by eexists _, _, _, []|by apply (IH h)].
    + unfold world_step. destruct (c_conversations (w_client w) !! k) as [[d u]|] eqn:Hu; [|apply IH].
      pose proof (is_run_step d env i _ (is_run_tokens d _ (deref w (tokens u)) (IH _ _ _ Hu))) as Hr.
      destruct (h_addr _); simpl; intros [[_ [= <- <-]]|[_ Hv]]%lookup_insert_Some; try (by apply (IH h)); [exact Hr|].
      by apply is_run_tokens.
    + apply IH.
    + rewrite lookup_fmap. intros ([d u] & Hu & [= -> ->])%fmap_Some.
      apply (is_run_step d (mkEnv 0 0 (fun _ _ => true)) IDisconnect). by apply (IH h).
    + intros [_ Hv]%lookup_delete_Some. by apply (IH h).
Qed.

(** C13. The sessions of a client share its token manager until they have a
    conversation token, and only until then.  However sessions are created and
    dropped, their inputs interleave, and requests of the managers start and
    settle: a session's [#tokens] is the client's manager or one that no other
    session has; the client's manager is what requests and corrected expiries
    made of the one [connect] created, so no conversation token ever gets into
    it, and a private one is what they made of a manager of a conversation
    token; each has at most one request out at a time.  And a session that is
    answered with a conversation token moves to a new manager for it, leaving
    every other manager as it was. *)
Theorem sessions_share_manager m0 (w : World) h deps v :
  world_reachable m0 w -> c_conversations (w_client w) !! h = Some (deps, v) ->
  (exists a x, h_addr (tokens v) = Some a /\ w_managers w !! a = Some x /\ (Token.waiting x <= 1)%nat /\
    if decide (a = client_addr) then since m0 x
    else of_conversation x /\
         forall h' deps' v', c_conversations (w_client w) !! h' = Some (deps', v') -> h_addr (tokens v') = Some a -> h' = h) /\
  (forall env t o tok e m,
    gives_token (tasks v !! t) o tok e -> conversation_manager skew tok e (inject_Z (now env)) = inr m ->
    let w' := world_step h env (ITask t o) w in
    w_managers w !! w_next w = None /\ w_managers w' = <[w_next w := mkMachine m 0 []]> (w_managers w) /\
    exists v', c_conversations (w_client w') !! h = Some (deps, v') /\ h_addr (tokens v') = Some (w_next w)).
Proof.
  intros Hw%world_inv_reachable Hv. assert (Hs : session w h v) by by exists deps.
  destruct Hw as [Hi Hr Hf Hc Hm Hp Hpr]. split.
  - destruct (Hp h v Hs) as (a & Ha & [x Hx]). exists a, x. pose proof (Hm a x Hx) as Hk. split_and!; [done|done|..].
    + case_decide; [by apply (since_single_flight m0)|]. destruct Hk as (t & e & n & m & Hk & Hsi).
      apply (since_single_flight m); [exact (new_manager_idle _ _ _ _ Hk)|done].
    + case_decide; [done|]. split; [done|]. intros h' d' v' Hv' Ha'. by apply (Hpr h h' v v' a Hs (ex_intro _ d' Hv')).
  - intros env t o tok e m Ht He w'. subst w'. split.
    { destruct (w_managers w !! w_next w) eqn:E; [|done]. apply Hf in E. lia. }
    unfold world_step. rewrite Hv. simpl. unfold run_task. simpl. unfold gives_token in Ht.
    destruct (tasks v !! t) as [[]|]; try done; destruct o; try done; destruct Ht as [-> ->]; simpl; unfold useConversationTokens, attached;
      [destruct loads|]; simpl; rewrite He; simpl; (split; [done|]); eexists; by rewrite lookup_insert_eq.
Qed.
End World.

(** ** Two sessions, one of which gets a conversation token *)

Lemma steps_reachable o m0 h l w : forallb (fun x => match x.2 with ITokens _ => false | _ => true end) l = true ->
  world_reachable o m0 w -> world_reachable o m0 (fold_left (fun w '(env, i) => world_step o h env i w) l w).
Proof.
  revert w. induction l as [|[env i] l IH]; intros w Hl Hw; [done|]. simpl in Hl. apply andb_prop in Hl as [Hi Hl]. simpl.
  apply IH; [done|]. eapply world_next, move_session; [done|]. by intros m ->.
Qed.

Definition ex_first : TokenManager := mkManager 60000 None NoPending.

(** The client [connect] makes, its first token fetched. *)
Definition ex_started : option World :=
  match new_client ex_options (mkHandle (Some client_addr) ex_first) true true (LsPresent true) false true with
  | inr c => Some (manager_step 0 (Token.CSettle (Value (VString "tok")) 0) (manager_step 0 (Token.CGet Returns 0)
               (mkWorld c {[client_addr := mkMachine ex_first 0 []]} 1)))
  | inl _ => None
  end.

(** A session over Phoenix, which needs a conversation token, and one over the
    native transport; the first is given its token, and the client's is refreshed. *)
Definition ex_sessions (w : World) : World :=
  manager_step 0 (Token.CFetch Token.refresh Returns)
    (fold_left (fun w '(env, i) => world_step ex_options 0 env i w)
      [(ex_env 0, IResume None); (ex_env 1, ITask 0 (OkRead ReadNothing)); (ex_env 2, ITask 1 (OkToken ex_token));
       (ex_env 3, ITask 2 (OkConversation "c1" "conv" 3600))]
      (with_client (fun c => (conversation None TUndefined c).2)
        (with_client (fun c => (conversation (Some "c1") (TOne (TName "phoenix")) c).2) w))).

Lemma ex_sessions_reachable w : ex_started = Some w -> world_reachable ex_options ex_first (ex_sessions w).
Proof.
  intros Hw. apply (world_next _ _ _ _) with (2 := move_manager _ _ 0 (Token.CFetch Token.refresh Returns)).
  apply steps_reachable; [reflexivity|]. eapply world_next; [|apply move_create]. eapply world_next; [|apply move_create].
  unfold ex_started in Hw. destruct (new_client _ _ _ _ _ _ _) as [|c] eqn:E; [done|]. injection Hw as <-.
  do 2 (eapply world_next; [|apply move_manager]). by apply (world_start ex_options ex_first 0 true true (LsPresent true) false true).
Qed.

Definition ex_addr (h : nat) (w : World) : option nat := '(_, v) ← c_conversations (w_client w) !! h; h_addr (tokens v).
Definition ex_current (a : nat) (w : World) : option string := x ← w_managers w !! a; t ← current (manager x); Some (token t).

(** The first session has a manager and the token of the conversation, the
    other one the client's. *)
Lemma sessions_share_manager_witness : exists w deps v,
  world_reachable ex_options ex_first w /\ c_conversations (w_client w) !! 0%nat = Some (deps, v) /\
  ex_addr 0 w = Some 1%nat /\ ex_addr 1 w = Some 0%nat /\ ex_current 1 w = Some "conv" /\ ex_current 0 w = Some "tok" /\
  exists a x, h_addr (tokens v) = Some a /\ w_managers w !! a = Some x /\ (Token.waiting x <= 1)%nat /\
    if decide (a = client_addr) then since ex_first x
    else of_conversation ex_options x /\
         forall h' deps' v', c_conversations (w_client w) !! h' = Some (deps', v') -> h_addr (tokens v') = Some a -> h' = 0%nat.
Proof.
  assert (H : (fun w => (bool_decide (is_Some (c_conversations (w_client w) !! 0%nat)), ex_addr 0 w, ex_addr 1 w, ex_current 1 w, ex_current 0 w))
    <$> (ex_sessions <$> ex_started) = Some (true, Some 1%nat, Some 0%nat, Some "conv", Some "tok")) by (vm_compute; reflexivity).
  destruct (ex_sessions <$> ex_started) as [w|] eqn:Hw; [|discriminate]. apply fmap_Some in Hw as (w0 & Hw0 & Ew).
  assert (Hr : world_reachable ex_options ex_first w) by (rewrite Ew; by apply ex_sessions_reachable). clear Hw0 Ew.
  injection H as H0 H1 H2 H3 H4. apply bool_decide_eq_true_1 in H0 as [[deps v] Hv]. exists w, deps, v. split_and!; try assumption.
  exact (proj1 (sessions_share_manager ex_options ex_first w 0 deps v Hr Hv)).
Defined.
