(* ===== verification/Subscriber.v ===== *)
(** * Subscriber: the subscriber and the sender of the load tests
    ([load/lib/converger.js]).

    A [Subscriber] is the client whose counters decide whether a load test
    passes: it resumes over reconnects, detects holes, and in [finish] reports
    what it never received.  As elsewhere, a step is one callback: a call, an
    event of a socket, a timer.  Counters and trends are outputs ([OMetric]);
    sockets and timers are numbered by [nextId].

    A frame is the parsed message; one that does not parse throws before it
    changes anything.  Seqs and positions are integers. *)

From Stdlib Require Import Ascii.
From stdpp Require Import base gmap sets list strings.
From Stdlib Require Import ZArith QArith Qround Qminmax Lia.
From S2P Require Import Prelude Watermark Json Rest AgentFrames.

Open Scope string_scope.
Open Scope list_scope.
Open Scope Z_scope.

(** ** Data *)

(* @src load/lib/converger.js 22-46 metrics *)
Inductive metric :=
| MLatency | MReconnect | MConnect
| MConnected | MReconnects | MUnexpectedCloses | MConnectErrors | MFramesReceived | MReplayed
| MGapsResynced | MReplayUnavailable | MDuplicates | MLost | MUnverified
| MAcked | MSendRetries | MSendFailed.

Inductive timer_action := TConnect | TSync | TAsk (finish : nat) | TPing.

Inductive output :=
| OMetric (m : metric) (value : Z)
| OOpen (socket : nat) (url : string)
| OSend (socket : nat) (frame : json)
| OClose (socket : nat)
| OFinished (finish : nat).

(** The closure of a call of [finish]; [f_head] is [null] until a head came. *)
Record Finish := mkFinish { f_deadline : Z; f_head : option json; f_timer : option nat }.

(* @src load/lib/converger.js 89-116 constructor *)
Record Subscriber := mkSubscriber {
  urls : list string;
  node : nat;
  measureLatency : bool;
  lastSeq : Z;
  ws : option nat;
  stopped : bool;
  closedAt : option Z;
  welcomed : bool;
  headAtWelcome : Z;
  pending : option nat;
  nonce : Z;
  everConnected : bool;
  startedAt : Z;
  failures : Z;
  retryAfterMs : Q;
  maxSeen : Z;
  ahead : gset Z;
  connSeen : gset Z;
  connSynced : bool;
  syncTimer : option nat;
  pendingReplay : bool;
  pinger : option nat;
  finishes : gmap nat Finish;
  timers : gmap nat (timer_action * Q);
  nextId : nat;
  log : list output;
}.

#[export] Instance eta_finish : Eta Finish := fun f => mkFinish (f_deadline f) (f_head f) (f_timer f).
#[export] Instance eta_subscriber : Eta Subscriber :=
  fun s => mkSubscriber (urls s) (node s) (measureLatency s) (lastSeq s) (ws s) (stopped s) (closedAt s) (welcomed s)
    (headAtWelcome s) (pending s) (nonce s) (everConnected s) (startedAt s) (failures s) (retryAfterMs s) (maxSeen s)
    (ahead s) (connSeen s) (connSynced s) (syncTimer s) (pendingReplay s) (pinger s) (finishes s) (timers s) (nextId s) (log s).

(** The moment a callback runs: [Date.now()] and the draws of [Math.random()]. *)
Record Env := mkEnv { now : Z; random : Q; random2 : Q }.

Definition say (o : output) (s : Subscriber) : Subscriber := s <| log ::= cons o |>.
Definition add (m : metric) (value : Z) (s : Subscriber) : Subscriber := say (OMetric m value) s.

Definition setTimeout (a : timer_action) (delay : Q) (s : Subscriber) : nat * Subscriber :=
  (nextId s, s <| timers ::= <[nextId s := (a, delay)]> |> <| nextId ::= S |>).

Definition clearTimeout (h : option nat) (s : Subscriber) : Subscriber :=
  match h with Some h => s <| timers ::= delete h |> | None => s end.

(** A member that is a number. *)
Definition num_at (key : string) (v : json) : option Q := match member key v with Some (JNum q) => Some q | _ => None end.

(** The new object: the token in every URL, the fields as declared. *)
(* @src load/lib/converger.js 89-116 constructor *)
Definition new_subscriber (base : list string) (start : nat) (token : string) (measure : bool) : Subscriber :=
  mkSubscriber (map (fun u => u +:+ "?token=" +:+ encodeURIComponent token) base) (start mod length base)%nat measure
    0 None false None false 0 None 0 false 0 0 0 0 ∅ ∅ false None false None ∅ ∅ 0 [].

(** ** Helpers *)

(* @src load/lib/converger.js 62-62 BACKOFF_MAX_MS *)
Definition BACKOFF_MAX_MS : Z := 5000.

(** The leading digits of a text and the rest. *)
Fixpoint span_digits (l : chars) : list Z * chars :=
  match l with
  | c :: l' => match digit c with Some d => let '(ds, r) := span_digits l' in (d :: ds, r) | None => ([], l) end
  | [] => ([], [])
  end.

(** [/^load (\d+) /]. *)
(* @src load/lib/converger.js 56-59 sentAt *)
Definition sentAt (text : string) : option Z :=
  if String.prefix "load " text then
    match span_digits (skipn 5 (chars_of text)) with
    | ((_ :: _) as ds, c :: _) => if Ascii.eqb c " "%char then Some (value_of_digits ds) else None
    | _ => None
    end
  else None.

(** [retryAfterMs] of a close event's reason. *)
(* @src load/lib/converger.js 66-75 retryAfterFromClose *)
Definition retryAfterFromClose (reason : option string) : option Q :=
  match reason with
  | Some (String "{" _ as r) => match parse_json (chars_of r) with Some v => num_at "retryAfterMs" v | None => None end
  | _ => None
  end.

(** [WS_URLS]: the first "http" becomes "ws". *)
(* @src load/lib/converger.js 20-20 WS_URLS *)
Definition ws_url (u : string) : string :=
  (if String.prefix "http" u then "ws" +:+ str_of (skipn 4 (chars_of u)) else u) +:+ "/socket/converger/v1".

(** ** Sending *)

(** Written only while connected and welcomed. *)
(* @src load/lib/converger.js 190-196 send *)
Definition send (frame : json) (s : Subscriber) : Subscriber :=
  match ws s with Some sk => if welcomed s then say (OSend sk frame) s else s | None => s end.

Definition ping (nonce : string) : json := JObj [("type", JStr "ping"); ("nonce", JStr nonce)].

(* @src load/lib/converger.js 273-276 sync *)
Definition sync (s : Subscriber) : Subscriber :=
  send (JObj [("type", JStr "sync"); ("watermark", JNum (inject_Z (lastSeq s)))]) (s <| connSynced := true |>).

(* @src load/lib/converger.js 278-288 scheduleSync *)
Definition scheduleSync (afterMs : Q) (s : Subscriber) : Subscriber :=
  match syncTimer s with
  | Some _ => s
  | None =>
      let '(h, s) := setTimeout TSync afterMs s in
      let s := s <| syncTimer := Some h |> in
      if (size (ahead s) =? 0)%nat then s <| pendingReplay := true |> else s
  end.

(* @src load/lib/converger.js 280-286 scheduleSync *)
Definition sync_fired (s : Subscriber) : Subscriber :=
  let s := s <| syncTimer := None |> in
  if stopped s then s
  else if (size (ahead s) =? 0)%nat && negb (pendingReplay s) then s
  else sync (s <| pendingReplay := false |>).

(** ** Connecting *)

(* @src load/lib/converger.js 124-128 connect *)
Definition connect (s : Subscriber) : Subscriber :=
  let sk := nextId s in
  say (OOpen sk (nth (node s) (urls s) "")) (s <| nextId ::= S |> <| ws := Some sk |> <| welcomed := false |> <| retryAfterMs := 0%Q |>).

(* @src load/lib/converger.js 118-122 start *)
Definition start (env : Env) (s : Subscriber) : Subscriber :=
  let s := connect (s <| startedAt := now env |>) in
  let '(h, s) := setTimeout TPing 25000%Q s in
  s <| pinger := Some h |>.

(** [ws.onopen], of whichever socket. *)
(* @src load/lib/converger.js 130-136 connect *)
Definition opened (sk : nat) (s : Subscriber) : Subscriber :=
  let s := s <| connSeen := ∅ |> <| connSynced := false |> in
  say (OSend sk (JObj ([("type", JStr "hello"); ("protocol", JStr "converger/1")]
                       ++ if 0 <? lastSeq s then [("watermark", JNum (inject_Z (lastSeq s)))] else []))) s.

(** [(node + 1 + Math.floor(Math.random() * (n - 1))) % n]. *)
Definition other_node (r : Q) (s : Subscriber) : nat :=
  let n := length (urls s) in
  ((node s + 1 + Z.to_nat (Qfloor (r * inject_Z (Z.of_nat n - 1))%Q)) mod n)%nat.

(* @src load/lib/converger.js 171-173 dropped *)
Definition reconnect_delay (r : Q) (retryAfter : Q) (failures : Z) : Q :=
  let backoff := inject_Z (Z.min BACKOFF_MAX_MS (250 * 2 ^ failures)) in
  Qmax retryAfter (backoff / 2 + r * backoff / 2)%Q.

(* @src load/lib/converger.js 154-175 dropped *)
Definition dropped (env : Env) (sk : nat) (s : Subscriber) : Subscriber :=
  if negb (bool_decide (ws s = Some sk)) then s
  else
    let s := s <| ws := None |> in
    if stopped s then s
    else
      let s := if welcomed s then add MUnexpectedCloses 1 s else s in
      let s := match closedAt s with None => s <| closedAt := Some (now env) |> | Some _ => s end in
      let s := if (1 <? length (urls s))%nat then s <| node := other_node (random env) s |> else s in
      let delay := reconnect_delay (random2 env) (retryAfterMs s) (failures s) in
      (setTimeout TConnect delay (s <| failures ::= Z.succ |>)).2.

(* @src load/lib/converger.js 177-179 noteRetryAfter *)
Definition noteRetryAfter (ms : option Q) (s : Subscriber) : Subscriber :=
  match ms with
  | Some ms => if Qlt_le_dec 0%Q ms then s <| retryAfterMs ::= fun r => Qmax r ms |> else s
  | None => s
  end.

(* @src load/lib/converger.js 142-145 connect *)
Definition errored (env : Env) (sk : nat) (s : Subscriber) : Subscriber :=
  dropped env sk (if welcomed s then s else add MConnectErrors 1 s).

(* @src load/lib/converger.js 146-149 connect *)
Definition closed (env : Env) (sk : nat) (reason : option string) (s : Subscriber) : Subscriber :=
  dropped env sk (noteRetryAfter (retryAfterFromClose reason) s).

(* @src load/lib/converger.js 181-188 forceReconnect *)
Definition forceReconnect (env : Env) (s : Subscriber) : Subscriber :=
  match ws s with
  | None => s
  | Some sk => connect (say (OClose sk) (s <| closedAt := Some (now env) |> <| ws := None |>))
  end.

(* @src load/lib/converger.js 325-333 stop *)
Definition stop (s : Subscriber) : Subscriber :=
  let s := clearTimeout (pinger s) (s <| stopped := true |>) in
  match ws s with Some sk => say (OClose sk) (s <| ws := None |>) | None => s end.

(** ** Finishing *)

(** A head that is a number above [lastSeq]. *)
Definition head_number (head : option json) : option Z :=
  match head with Some (JNum q) => if is_integer q then Some (to_integer q) else None | _ => None end.

(** [done] of the call [i]. *)
(* @src load/lib/converger.js 297-307 finish *)
Definition done (i : nat) (f : Finish) (s : Subscriber) : Subscriber :=
  match pending s with
  | None => s
  | Some _ =>
      let s := clearTimeout (syncTimer s) (clearTimeout (f_timer f) (s <| pending := None |>)) in
      let s := match f_head f with
               | Some JNull => add MUnverified 1 s
               | head => match head_number head with
                         | Some h => if lastSeq s <? h then add MLost (h - lastSeq s) s else s
                         | None => s
                         end
               end in
      say (OFinished i) (stop s)
  end.

Definition set_finish (i : nat) (f : Finish) (s : Subscriber) : Subscriber := s <| finishes ::= <[i := f]> |>.

(** [timer = setTimeout(ask, 2000)]. *)
Definition ask_later (i : nat) (f : Finish) (s : Subscriber) : Subscriber :=
  let '(h, s) := setTimeout (TAsk i) 2000%Q s in set_finish i (f <| f_timer := Some h |>) s.

(* @src load/lib/converger.js 308-312 finish *)
Definition ask (env : Env) (i : nat) (s : Subscriber) : Subscriber :=
  match finishes s !! i with
  | None => s
  | Some f => if f_deadline f <=? now env then done i f s else ask_later i f (send (ping "final") s)
  end.

(** [this.pending(headSeq)]. *)
(* @src load/lib/converger.js 313-320 finish *)
Definition got_head (env : Env) (i : nat) (headSeq : option json) (s : Subscriber) : Subscriber :=
  match finishes s !! i with
  | None => s
  | Some f =>
      let f := f <| f_head := headSeq |> in
      let s := set_finish i f (clearTimeout (f_timer f) s) in
      let reached := match headSeq with
                     | Some JNull => 0 <=? lastSeq s
                     | head => match head_number head with Some h => h <=? lastSeq s | None => false end
                     end in
      if reached || (f_deadline f <=? now env) then done i f s else ask_later i f (sync s)
  end.

(* @src load/lib/converger.js 292-323 finish *)
Definition finish (env : Env) (timeoutMs : Z) (s : Subscriber) : Subscriber :=
  let i := nextId s in
  let s := s <| nextId ::= S |> <| pending := Some i |> in
  ask env i (set_finish i (mkFinish (now env + timeoutMs) (Some JNull) None) s).

(** ** Receiving *)

(** [while (this.ahead.delete(this.lastSeq + 1)) this.lastSeq += 1]. *)
(* @src load/lib/converger.js 262-262 onPersistent *)
Fixpoint fill (fuel : nat) (last : Z) (ahead : gset Z) : Z * gset Z :=
  match fuel with
  | O => (last, ahead)
  | S fuel => if bool_decide (last + 1 ∈ ahead) then fill fuel (last + 1) (ahead ∖ {[last + 1]}) else (last, ahead)
  end.

(* @src load/lib/converger.js 245-271 onPersistent *)
Definition onPersistent (env : Env) (seq : Z) (frame : json) (s : Subscriber) : Subscriber :=
  let s := add MFramesReceived 1 s in
  let s := if bool_decide (seq ∈ connSeen s) && negb (connSynced s) then add MDuplicates 1 s else s in
  let s := s <| connSeen ::= fun l => l ∪ {[seq]} |> in
  if (seq <=? lastSeq s) || bool_decide (seq ∈ ahead s) then s
  else
    let live := (maxSeen s <? seq) && (headAtWelcome s <? seq) in
    let s := s <| maxSeen ::= Z.max seq |> in
    let s := if negb live then add MReplayed 1 s
             else if measureLatency s then
               match str_at "text" (data_of frame) ≫= sentAt with Some at_ => add MLatency (now env - at_) s | None => s end
             else s in
    if seq =? lastSeq s + 1 then
      let '(last, rest) := fill (size (ahead s)) seq (ahead s) in
      s <| lastSeq := last |> <| ahead := rest |>
    else
      let s := if (size (ahead s) =? 0)%nat then add MGapsResynced 1 s else s in
      scheduleSync 1000%Q (s <| ahead ::= fun l => l ∪ {[seq]} |>).

(** [a || b] of members that are numbers. *)
Definition or_number (a b : option Q) : option Q :=
  match a with Some q => if Qeq_dec q 0 then b else Some q | None => b end.

(** [frame.data.watermark] throws when there is no data. *)
(* @src load/lib/converger.js 200-214 onFrame *)
Definition onWelcome (env : Env) (frame : json) (s : Subscriber) : Subscriber :=
  let s := s <| welcomed := true |> in
  match member "data" frame with
  | None | Some JNull => s
  | Some data =>
      let s := add MConnected 1 (s <| headAtWelcome := int_at "watermark" data ?? 0 |>) in
      let s := if everConnected s then
                 let s := add MReconnects 1 s in
                 match closedAt s with Some t => add MReconnect (now env - t) s | None => s end
               else add MConnect (now env - startedAt s) s in
      let s := s <| everConnected := true |> <| failures := 0 |> <| closedAt := None |> in
      match pending s with Some _ => send (ping "final") s | None => s end
  end.

(* @src load/lib/converger.js 220-231 onFrame *)
Definition onError (frame : json) (s : Subscriber) : Subscriber :=
  let data := data_of frame in
  let code := str_at "code" data in
  let s := if bool_decide (code = Some "unavailable") && negb (welcomed s) then noteRetryAfter (num_at "retryAfterMs" data) s else s in
  if bool_decide (code = Some "replay_unavailable") then
    scheduleSync (or_number (num_at "retryAfterMs" data) (or_number (member "details" data ≫= num_at "retryAfterMs") None) ?? 1000%Q)
      (add MReplayUnavailable 1 s)
  else s.

(* @src load/lib/converger.js 198-241 onFrame *)
Definition onFrame (env : Env) (frame : json) (s : Subscriber) : Subscriber :=
  let type := str_at "type" frame ?? "" in
  if String.eqb type "welcome" then onWelcome env frame s
  else if String.eqb type "heartbeat" then
    match pending s with
    | Some i => if bool_decide (str_at "nonce" frame = Some "final") then got_head env i (member "headSeq" frame) s else s
    | None => s
    end
  else if String.eqb type "error" then onError frame s
  else if String.eqb type "replayTruncated" then s
  else match int_at "seq" frame with Some seq => onPersistent env seq frame s | None => s end.

(* @src load/lib/converger.js 138-140 connect *)
Definition received (env : Env) (sk : nat) (frame : json) (s : Subscriber) : Subscriber :=
  if bool_decide (ws s = Some sk) then onFrame env frame s else s.

(** ** The subscriber as a state machine *)

Inductive input :=
| IStart
| IFinish (timeoutMs : Z)
| IForceReconnect
| IStop
| IOpened (socket : nat)
| IReceived (socket : nat) (frame : json)
| IErrored (socket : nat)
| IClosed (socket : nat) (reason : option string)
| ITimer (handle : nat).

(** A timer that fires: an interval stays. *)
Definition run_timer (env : Env) (h : nat) (s : Subscriber) : Subscriber :=
  match timers s !! h with
  | None => s
  | Some (TPing, _) => let s := s <| nonce ::= Z.succ |> in send (ping ("k-" +:+ pretty.pretty (nonce s))) s
  | Some (a, _) =>
      let s := s <| timers ::= delete h |> in
      match a with
      | TConnect => if stopped s then s else connect s
      | TSync => sync_fired s
      | TAsk i => ask env i s
      | TPing => s
      end
  end.

Definition step (env : Env) (i : input) (s : Subscriber) : Subscriber :=
  match i with
  | IStart => start env s
  | IFinish t => finish env t s
  | IForceReconnect => forceReconnect env s
  | IStop => stop s
  | IOpened sk => opened sk s
  | IReceived sk f => received env sk f s
  | IErrored sk => errored env sk s
  | IClosed sk r => closed env sk r s
  | ITimer h => run_timer env h s
  end.

Definition run (l : list (Env * input)) (s : Subscriber) : Subscriber := fold_left (fun s '(env, i) => step env i s) l s.

(** ** Sending an activity over REST *)

Inductive post_output := PMetric (m : metric) | PRequest (url key : string) | PSleep (ms : Z).

(** [appUrl(i)]. *)
(* @src load/lib/converger.js 19-19 appUrl *)
Definition appUrl (app_urls : list string) (i : nat) : string := nth (i mod length app_urls)%nat app_urls "".

(** The [while] loop of [postActivity], a round per test of its condition: the
    time of the test and the status of the answer, [None] for a request that
    failed.  The result is [None] while the rounds given do not decide it. *)
(* @src load/lib/converger.js 340-374 postActivity *)
Fixpoint post_loop (app_urls : list string) (start : nat) (conversationId key : string) (deadline : Z)
    (rounds : list (Z * option Z)) (attempt : nat) (backoff : Z) : list post_output * option bool :=
  match rounds with
  | [] => ([], None)
  | (t, status) :: rounds =>
      if deadline <=? t then ([PMetric MSendFailed], Some false)
      else
        let attempt := S attempt in
        let sent := (if (1 <? attempt)%nat then [PMetric MSendRetries] else [])
                    ++ [PRequest (appUrl app_urls (start + attempt - 1) +:+ "/api/v1/conversations/" +:+ conversationId +:+ "/activities") key] in
        let again :=
          let '(out, r) := post_loop app_urls start conversationId key deadline rounds attempt (Z.min (backoff * 2) 1000) in
          (sent ++ PSleep backoff :: out, r) in
        match status with
        | Some st =>
            if (200 <=? st) && (st <? 300) then (sent ++ [PMetric MAcked], Some true)
            else if (400 <=? st) && (st <? 500) && negb (st =? 408) && negb (st =? 429) then (sent ++ [PMetric MSendFailed], Some false)
            else again
        | None => again
        end
  end.

Definition postActivity (app_urls : list string) (start : nat) (conversationId key : string) (deadline : Z)
    (rounds : list (Z * option Z)) : list post_output * option bool :=
  post_loop app_urls start conversationId key deadline rounds 0 100.
