(* ===== verification/SubscriberFacts.v ===== *)
(** * SubscriberFacts: the load tests' zero-loss accounting is exact
    ([load/lib/converger.js]).

    A load test passes on what its subscribers count.  The theorems say what
    the counts mean: a subscriber's position is the contiguous part of what it
    received, what it resumes from, and what its verdict in [finish] compares
    with the head. *)

From stdpp Require Import base gmap sets list strings.
From Stdlib Require Import ZArith QArith Qround Qminmax Lia Lqa.
From S2P Require Import Prelude AgentFrames Subscriber.

Open Scope string_scope.
Open Scope list_scope.
Open Scope Z_scope.

#[global] Arguments upd {R E} getter {Setter} f r : simpl nomatch.

(** ** What was received *)

Definition CONTROL : list string := ["welcome"; "heartbeat"; "error"; "replayTruncated"].

(** The seq of a persistent frame. *)
Definition persistent_seq (frame : json) : option Z :=
  if bool_decide (str_at "type" frame ?? "" ∈ CONTROL) then None else int_at "seq" frame.

(** The seq an input brings on the current connection. *)
Definition brings (i : input) (s : Subscriber) : gset Z :=
  match i with
  | IReceived sk f => if bool_decide (ws s = Some sk) then match persistent_seq f with Some q => {[q]} | None => ∅ end else ∅
  | _ => ∅
  end.

(** The seqs received in a run. *)
Fixpoint got (l : list (Env * input)) (s : Subscriber) : gset Z :=
  match l with
  | [] => ∅
  | (env, i) :: l => brings i s ∪ got l (step env i s)
  end.

(** The watermarks of the hellos and syncs sent. *)
Definition watermark_sent (o : output) : option Z := match o with OSend _ f => int_at "watermark" f | _ => None end.

(** The position is the contiguous part of [G], [ahead] the rest of it. *)
Record accounts (G : gset Z) (s : Subscriber) : Prop := {
  ac_low : 0 <= lastSeq s;
  ac_prefix : forall q, 1 <= q <= lastSeq s -> q ∈ G;
  ac_ahead : forall q, q ∈ ahead s -> q ∈ G /\ lastSeq s + 1 < q;
  ac_all : forall q, q ∈ G -> 1 <= q -> q <= lastSeq s \/ q ∈ ahead s;
  ac_sent : forall o w, o ∈ log s -> watermark_sent o = Some w -> forall q, 1 <= q <= w -> q ∈ G;
}.

(** Outputs that carry no watermark, or one of a prefix of [G]. *)
Definition resumes (G : gset Z) (o : output) : Prop := forall w, watermark_sent o = Some w -> forall q, 1 <= q <= w -> q ∈ G.

(** A step that leaves the position alone. *)
Definition steady (G : gset Z) (s s' : Subscriber) : Prop :=
  lastSeq s' = lastSeq s /\ ahead s' = ahead s /\ exists outs, log s' = outs ++ log s /\ Forall (resumes G) outs.

Lemma steady_accounts G s s' : steady G s s' -> accounts G s -> accounts G s'.
Proof.
  intros (Hl & Ha & outs & Ho & Hr) [H1 H2 H3 H4 H5]. split; rewrite ?Hl, ?Ha; try done.
  intros o w. rewrite Ho. intros [Hin|Hin]%elem_of_app; [|by apply H5]. rewrite Forall_forall in Hr. exact (Hr _ Hin w).
Qed.

#[export] Instance steady_preorder G : PreOrder (steady G).
Proof.
  split; [intros s; repeat split; by exists []|].
  intros s1 s2 s3 (L1 & A1 & o1 & O1 & R1) (L2 & A2 & o2 & O2 & R2). split; [congruence|]. split; [congruence|].
  exists (o2 ++ o1). rewrite O2, O1, app_assoc. split; [done|]. by apply Forall_app.
Qed.

Lemma steady_same G s s' : lastSeq s' = lastSeq s -> ahead s' = ahead s -> log s' = log s -> steady G s s'.
Proof. intros Hl Ha Ho. split; [done|]. split; [done|]. by exists []. Qed.

Lemma steady_say G o s : resumes G o -> steady G s (say o s).
Proof. intros Ho. split; [done|]. split; [done|]. exists [o]. split; [done|]. by constructor. Qed.

Lemma no_watermark G o : watermark_sent o = None -> resumes G o.
Proof. intros H w. by rewrite H. Qed.

(** ** Every step *)

Section Steady.
Context (G : gset Z).
Notation "s ~> s'" := (steady G s s') (at level 70).

Lemma int_at_watermark f z : assoc "watermark" f = Some (JNum (inject_Z z)) -> int_at "watermark" (JObj f) = Some z.
Proof. intros H. unfold int_at. cbn [member]. by rewrite H, is_integer_inject, to_integer_inject. Qed.

Lemma steady_add m v s : s ~> add m v s.
Proof. by apply steady_say, no_watermark. Qed.

Lemma steady_clear h s : s ~> clearTimeout h s.
Proof. destruct h; by apply steady_same. Qed.

Lemma steady_send f s : resumes G (OSend 0 f) -> s ~> send f s.
Proof. intros Hf. unfold send. destruct (ws s); [|done]. destruct (welcomed s); [|done]. by apply steady_say. Qed.

Lemma steady_ping n s : s ~> send (ping n) s.
Proof. by apply steady_send, no_watermark. Qed.

Lemma steady_sync s : accounts G s -> s ~> sync s.
Proof.
  intros [_ Hp _ _ _]. unfold sync. etransitivity; [|apply steady_send]; [by apply steady_same|].
  intros w. unfold watermark_sent. erewrite int_at_watermark by reflexivity. by intros [= <-].
Qed.

Lemma steady_scheduleSync d s : s ~> scheduleSync d s.
Proof. unfold scheduleSync. destruct (syncTimer s); [done|]. cbn. destruct (size (ahead s) =? 0)%nat; by apply steady_same. Qed.

Lemma steady_sync_fired s : accounts G s -> s ~> sync_fired s.
Proof.
  intros Ha. unfold sync_fired. cbv zeta. destruct (stopped _); [by apply steady_same|]. destruct (_ && _); [by apply steady_same|].
  etransitivity; [|apply steady_sync]; [by apply steady_same|]. by apply (steady_accounts G s); [apply steady_same|].
Qed.

Lemma steady_connect s : s ~> connect s.
Proof. unfold connect. etransitivity; [|by apply steady_say, no_watermark]. by apply steady_same. Qed.

Lemma steady_stop s : s ~> stop s.
Proof.
  unfold stop. cbv zeta. transitivity (clearTimeout (pinger s) (s <| stopped := true |>)).
  - cbn. destruct (pinger s); by apply steady_same.
  - destruct (ws _); [|done]. etransitivity; [|by apply steady_say, no_watermark]. by apply steady_same.
Qed.

Lemma steady_dropped env sk s : s ~> dropped env sk s.
Proof.
  unfold dropped. destruct (negb _); [done|]. cbv zeta. destruct (stopped _); [by apply steady_same|].
  etransitivity; [|by apply steady_same].
  set (s1 := s <| ws := None |>). set (s2 := if welcomed s1 then add MUnexpectedCloses 1 s1 else s1).
  transitivity s2; [transitivity s1; [by apply steady_same|subst s2; destruct (welcomed s1); [apply steady_add|done]]|].
  set (s3 := match closedAt s2 with None => _ | Some _ => s2 end).
  transitivity s3; [subst s3; destruct (closedAt s2); by apply steady_same|].
  destruct (1 <? length (urls s3))%nat; by apply steady_same.
Qed.

Lemma steady_note ms s : s ~> noteRetryAfter ms s.
Proof. unfold noteRetryAfter. destruct ms as [q|]; [|done]. destruct (Qlt_le_dec 0 q); by apply steady_same. Qed.

Lemma steady_forceReconnect env s : s ~> forceReconnect env s.
Proof.
  unfold forceReconnect. destruct (ws s); [|done]. etransitivity; [|apply steady_connect].
  etransitivity; [|by apply steady_say, no_watermark]. by apply steady_same.
Qed.

Lemma steady_opened sk s : accounts G s -> s ~> opened sk s.
Proof.
  intros [_ Hp _ _ _]. unfold opened. cbv zeta. etransitivity; [|apply steady_say]; [by apply steady_same|].
  intros w. unfold watermark_sent. simpl lastSeq. destruct (0 <? lastSeq s); [|done]. erewrite int_at_watermark by reflexivity. by intros [= <-].
Qed.

Lemma steady_done i f s : s ~> done i f s.
Proof.
  unfold done. destruct (pending s); [|reflexivity]. cbv zeta.
  etransitivity; [|by apply steady_say, no_watermark]. etransitivity; [|apply steady_stop].
  set (s1 := clearTimeout (syncTimer _) _). transitivity s1; [subst s1; destruct (f_timer f); cbn; destruct (syncTimer s); by apply steady_same|].
  destruct (f_head f) as [[]|]; cbn [head_number]; try reflexivity; try apply steady_add.
  destruct (is_integer q); [|reflexivity]. destruct (_ <? _); [apply steady_add|reflexivity].
Qed.

Lemma steady_ask_later i f s : s ~> ask_later i f s.
Proof. by apply steady_same. Qed.

Lemma steady_ask env i s : s ~> ask env i s.
Proof.
  unfold ask. destruct (finishes s !! i); [|reflexivity]. destruct (_ <=? _); [apply steady_done|].
  etransitivity; [apply steady_ping|apply steady_ask_later].
Qed.

Lemma steady_got_head env i h s : accounts G s -> s ~> got_head env i h s.
Proof.
  intros Ha. unfold got_head. destruct (finishes s !! i) as [f|]; [|reflexivity]. cbv zeta.
  set (s1 := set_finish _ _ _). assert (H1 : s ~> s1) by (subst s1; cbn; destruct (f_timer f); by apply steady_same).
  etransitivity; [exact H1|]. lazymatch goal with |- context [if ?b then _ else _] => destruct b end; [apply steady_done|].
  etransitivity; [apply steady_sync|apply steady_ask_later]. by apply (steady_accounts G s).
Qed.

Lemma steady_finish env t s : s ~> finish env t s.
Proof. unfold finish. cbv zeta. etransitivity; [|apply steady_ask]. by apply steady_same. Qed.

Lemma steady_welcome env f s : s ~> onWelcome env f s.
Proof.
  unfold onWelcome. cbv zeta. destruct (member "data" f) as [v|]; [|by apply steady_same].
  assert (Hd : forall d, s ~> (let s0 := add MConnected 1 (s <| welcomed := true |> <| headAtWelcome := int_at "watermark" d ?? 0 |>) in
    let s0 := if everConnected s0 then let s0 := add MReconnects 1 s0 in
    match closedAt s0 with Some t => add MReconnect (now env - t) s0 | None => s0 end else add MConnect (now env - startedAt s0) s0 in
    let s0 := s0 <| everConnected := true |> <| failures := 0 |> <| closedAt := None |> in
    match pending s0 with Some _ => send (ping "final") s0 | None => s0 end)).
  { intros d. cbv zeta. set (s1 := add MConnected 1 _). transitivity s1; [subst s1; etransitivity; [|apply steady_add]; by apply steady_same|].
    set (s2 := if everConnected s1 then _ else _). transitivity s2.
    { subst s2. destruct (everConnected s1); [|apply steady_add]. destruct (closedAt (add MReconnects 1 s1)); [|apply steady_add].
      etransitivity; apply steady_add. }
    destruct (pending _); [etransitivity; [|apply steady_ping]|]; by apply steady_same. }
  destruct v; [by apply steady_same|apply Hd..].
Qed.

Lemma steady_error f s : s ~> onError f s.
Proof.
  unfold onError. cbv zeta. set (s1 := if _ && _ then _ else s). transitivity s1.
  - subst s1. destruct (bool_decide (str_at "code" (data_of f) = Some "unavailable") && _); [apply steady_note|reflexivity].
  - clearbody s1. destruct (bool_decide (str_at "code" (data_of f) = Some "replay_unavailable")); [|reflexivity]. etransitivity; [apply steady_add|apply steady_scheduleSync].
Qed.
End Steady.

(** ** Persistent frames *)

Lemma fill_spec fuel last (A : gset Z) :
  (size A <= fuel)%nat -> (forall q, q ∈ A -> last < q) ->
  let r := fill fuel last A in
  last <= r.1 /\ r.2 ⊆ A /\ (forall q, last < q <= r.1 -> q ∈ A) /\ (forall q, q ∈ A -> q <= r.1 \/ q ∈ r.2) /\
  (forall q, q ∈ r.2 -> r.1 + 1 < q).
Proof.
  revert last A. induction fuel as [|fuel IH]; intros last A Hsz Hlow; simpl.
  - assert (A = ∅) as -> by (apply leibniz_equiv, size_empty_inv; lia). split; [lia|]. split; [done|]. split; [lia|]. set_solver.
  - destruct (bool_decide_reflect (last + 1 ∈ A)) as [Hin|Hn]; simpl.
    + assert (Hsz' : size (A ∖ {[last + 1]}) = (size A - 1)%nat).
      { rewrite size_difference by set_solver. by rewrite size_singleton. }
      destruct (IH (last + 1) (A ∖ {[last + 1]})) as (H1 & H2 & H3 & H4 & H5); [lia| |].
      { intros q Hq. apply elem_of_difference in Hq as [Hq Hne]. specialize (Hlow q Hq). rewrite elem_of_singleton in Hne. lia. }
      split; [lia|]. split; [set_solver|]. split.
      * intros q Hq. destruct (decide (q = last + 1)) as [->|Hne]; [done|]. specialize (H3 q ltac:(lia)). set_solver.
      * split; [|done]. intros q Hq. destruct (decide (q = last + 1)) as [->|Hne]; [left; lia|]. apply H4. set_solver.
    + split; [lia|]. split; [done|]. split; [lia|]. split; [by right|].
      intros q Hq. specialize (Hlow q Hq). assert (q <> last + 1) by (intros ->; done). lia.
Qed.

(** What [onPersistent] does before it looks at the position. *)
Lemma counted_steady G (b : bool) m s : steady G s (if b then add m 1 s else s).
Proof. destruct b; [apply steady_add|reflexivity]. Qed.

Lemma accounts_grow G G' s : G ⊆ G' -> (forall q, q ∈ G' -> q ∈ G \/ q <= lastSeq s \/ q ∈ ahead s) -> accounts G s -> accounts G' s.
Proof.
  intros Hsub Hnew [H1 H2 H3 H4 H5]. split; try done.
  - intros q Hq. by apply Hsub, H2.
  - intros q Hq. destruct (H3 q Hq). split; [by apply Hsub|done].
  - intros q Hq H. destruct (Hnew q Hq) as [?|?]; [by apply H4|done].
  - intros o w Ho Hw q Hq. apply Hsub. by eapply H5.
Qed.

(** The next seq: the position moves over what waited behind it. *)
Lemma accounts_next G s last rest :
  accounts G s -> fill (size (ahead s)) (lastSeq s + 1) (ahead s) = (last, rest) ->
  accounts ({[lastSeq s + 1]} ∪ G) (s <| lastSeq := last |> <| ahead := rest |>).
Proof.
  intros [H1 H2 H3 H4 H5] Hf.
  destruct (fill_spec (size (ahead s)) (lastSeq s + 1) (ahead s)) as (F1 & F2 & F3 & F4 & F5); [done|by intros q [_ ?]%H3|].
  rewrite Hf in *. simpl in *. split; simpl.
  - lia.
  - intros q Hq. destruct (decide (q <= lastSeq s)); [rewrite elem_of_union; right; apply H2; lia|].
    destruct (decide (q = lastSeq s + 1)) as [->|Hne]; [set_solver|]. rewrite elem_of_union. right. apply H3, F3. lia.
  - intros q Hq. split; [|by apply F5]. rewrite elem_of_union. right. by apply H3, F2.
  - intros q [->%elem_of_singleton|Hq]%elem_of_union Hpos; [left; lia|]. destruct (H4 q Hq Hpos) as [?|Hq']; [left; lia|by apply F4].
  - intros o w Ho Hw q Hq. rewrite elem_of_union. right. by eapply H5.
Qed.

(** A seq beyond a hole waits. *)
Lemma accounts_hole G s q :
  accounts G s -> lastSeq s + 1 < q -> accounts ({[q]} ∪ G) (s <| ahead ::= fun l => l ∪ {[q]} |>).
Proof.
  intros [H1 H2 H3 H4 H5] Hq. split; simpl.
  - done.
  - intros x Hx. rewrite elem_of_union. right. by apply H2.
  - intros x [Hx| ->%elem_of_singleton]%elem_of_union; [|set_solver]. destruct (H3 x Hx). set_solver.
  - intros x [->%elem_of_singleton|Hx]%elem_of_union Hpos; [right; set_solver|]. destruct (H4 x Hx Hpos); [by left|right; set_solver].
  - intros o w Ho Hw x Hx. rewrite elem_of_union. right. by eapply H5.
Qed.

Lemma accounts_persistent G env seq f s : accounts G s -> accounts ({[seq]} ∪ G) (onPersistent env seq f s).
Proof.
  intros Ha. unfold onPersistent. cbv zeta.
  set (s0 := _ <| connSeen ::= _ |>).
  assert (H0 : steady G s s0).
  { subst s0. etransitivity; [apply (steady_add G MFramesReceived 1 s)|]. etransitivity; [apply counted_steady|]. by apply steady_same. }
  apply (steady_accounts G s s0 H0) in Ha. clearbody s0. clear H0.
  destruct (_ || _) eqn:Hseen.
  - apply (accounts_grow G); [set_solver| |done]. intros q [->%elem_of_singleton|Hq]%elem_of_union; [right|by left].
    apply orb_true_iff in Hseen as [?%Z.leb_le|?%bool_decide_eq_true]; auto.
  - apply orb_false_iff in Hseen as [Hlt%Z.leb_gt Hnew%bool_decide_eq_false].
    set (s1 := s0 <| maxSeen ::= _ |>). set (s2 := if negb _ then _ else _).
    assert (H2 : steady G s0 s2).
    { subst s2. etransitivity; [by apply (steady_same G s0 s1)|]. destruct (negb _); [apply steady_add|].
      destruct (measureLatency s1); [|reflexivity]. destruct (_ ≫= _); [apply steady_add|reflexivity]. }
    assert (Hp : lastSeq s2 = lastSeq s0 /\ ahead s2 = ahead s0) by (by destruct H2 as (? & ? & _)).
    apply (steady_accounts G s0 s2 H2) in Ha. clearbody s2. destruct Hp as [Hp1 Hp2].
    destruct (Z.eqb_spec seq (lastSeq s2 + 1)) as [->|Hne].
    + destruct (fill _ _ _) as [last rest] eqn:Hf. by apply accounts_next.
    + eapply steady_accounts; [apply steady_scheduleSync|].
      assert (Hs : steady G s2 (if (size (ahead s2) =? 0)%nat then add MGapsResynced 1 s2 else s2)) by apply counted_steady.
      pose proof Hs as (Hs1 & _). apply (steady_accounts G s2 _ Hs) in Ha. apply accounts_hole; [done|]. rewrite Hs1. lia.
Qed.

Lemma control_type f t : str_at "type" f ?? "" = t -> bool_decide (t ∈ CONTROL) = true -> persistent_seq f = None.
Proof. intros Ht Hc. unfold persistent_seq. by rewrite Ht, Hc. Qed.

Lemma accounts_step G env i s : accounts G s -> accounts (brings i s ∪ G) (step env i s).
Proof.
  intros Ha. assert (Hsteady : forall s', steady G s s' -> accounts (∅ ∪ G) s').
  { intros s' Hs. rewrite union_empty_l_L. by apply (steady_accounts G s). }
  destruct i; simpl.
  - apply Hsteady. split; [done|]. split; [done|]. eexists [_]. split; [done|]. constructor; [by apply no_watermark|constructor].
  - apply Hsteady, steady_finish.
  - apply Hsteady, steady_forceReconnect.
  - apply Hsteady, steady_stop.
  - by apply Hsteady, steady_opened.
  - unfold received. case_bool_decide as Hw; [|apply Hsteady; reflexivity]. unfold onFrame. cbv zeta.
    set (t := str_at "type" frame ?? ""). assert (Ht : str_at "type" frame ?? "" = t) by done.
    destruct (String.eqb_spec t "welcome") as [He|N1]; [rewrite (control_type frame t Ht) by (by rewrite He); apply Hsteady, steady_welcome|].
    destruct (String.eqb_spec t "heartbeat") as [He|N2].
    { rewrite (control_type frame t Ht) by (by rewrite He). apply Hsteady. destruct (pending s); [|reflexivity].
      destruct (bool_decide _); [by apply steady_got_head|reflexivity]. }
    destruct (String.eqb_spec t "error") as [He|N3]; [rewrite (control_type frame t Ht) by (by rewrite He); apply Hsteady, steady_error|].
    destruct (String.eqb_spec t "replayTruncated") as [He|N4]; [rewrite (control_type frame t Ht) by (by rewrite He); apply Hsteady; reflexivity|].
    unfold persistent_seq. destruct (bool_decide _) eqn:Hc.
    { exfalso. apply bool_decide_eq_true in Hc. fold t in Hc. unfold CONTROL in Hc. rewrite !elem_of_cons in Hc.
      destruct Hc as [?|[?|[?|[?|Hc]]]]; [done..|by apply not_elem_of_nil in Hc]. }
    destruct (int_at "seq" frame) as [q|]; [by apply accounts_persistent|apply Hsteady; reflexivity].
  - apply Hsteady. unfold errored. etransitivity; [|apply steady_dropped]. destruct (welcomed s); [reflexivity|apply steady_add].
  - apply Hsteady. unfold closed. etransitivity; [apply steady_note|apply steady_dropped].
  - apply Hsteady. unfold run_timer. destruct (timers s !! handle) as [[a d]|]; [|reflexivity].
    assert (H1 : steady G s (s <| timers ::= delete handle |>)) by (by apply steady_same).
    destruct a; cbv zeta.
    + etransitivity; [exact H1|]. destruct (stopped _); [reflexivity|apply steady_connect].
    + etransitivity; [exact H1|]. by apply steady_sync_fired, (steady_accounts G s).
    + etransitivity; [exact H1|]. apply steady_ask.
    + etransitivity; [|apply steady_ping]. by apply steady_same.
Qed.

Lemma accounts_run G l s : accounts G s -> accounts (got l s ∪ G) (run l s).
Proof.
  revert G s. induction l as [|[env i] l IH]; intros G s Ha; simpl; [by rewrite union_empty_l_L|].
  rewrite (union_comm_L (brings i s)), <- union_assoc_L. by apply IH, accounts_step.
Qed.

Lemma accounts_new base start token m l :
  let s0 := new_subscriber base start token m in accounts (got l s0) (run l s0).
Proof.
  intros s0. rewrite <- (union_empty_r_L (got l s0)). apply accounts_run. split; simpl; try set_solver; lia.
Qed.

(** ** The verdict *)

(** The seqs up to the head that a subscriber never received. *)
Definition missing (G : gset Z) (h : Z) : list Z := filter (fun q => q ∉ G) (seqZ 1 h).

Lemma missing_nil G h : missing G h = [] <-> forall q, 1 <= q <= h -> q ∈ G.
Proof.
  unfold missing. split.
  - intros Hn q Hq. destruct (decide (q ∈ G)) as [|Hm]; [done|]. exfalso. apply (not_elem_of_nil q). rewrite <- Hn.
    apply list_elem_of_filter. split; [done|]. apply elem_of_seqZ. lia.
  - intros Hall. destruct (filter _ _) as [|q r] eqn:Hf; [done|]. exfalso.
    assert (Hq : q ∈ q :: r) by apply list_elem_of_here. rewrite <- Hf in Hq. apply list_elem_of_filter in Hq as [Hn Hq].
    apply elem_of_seqZ in Hq. apply Hn, Hall. lia.
Qed.

(** Nothing is missing below the position. *)
Lemma missing_length G s h : accounts G s -> lastSeq s < h -> Z.of_nat (length (missing G h)) <= h - lastSeq s.
Proof.
  intros [H1 H2 _ _ _] Hh. unfold missing. replace h with (lastSeq s + (h - lastSeq s)) at 1 by lia.
  rewrite seqZ_app by lia. rewrite filter_app.
  assert (filter (fun q => q ∉ G) (seqZ 1 (lastSeq s)) = []) as -> by (apply missing_nil; intros q Hq; apply H2; lia).
  simpl. pose proof (length_filter (fun q => q ∉ G) (seqZ (1 + lastSeq s) (h - lastSeq s))) as Hl.
  rewrite length_seqZ in Hl. lia.
Qed.

Lemma stop_log s : exists outs, log (stop s) = outs ++ log s /\ forall m v, OMetric m v ∉ outs.
Proof.
  unfold stop. cbv zeta. set (s1 := clearTimeout _ _). assert (Hl : log s1 = log s) by (subst s1; cbn; by destruct (pinger s)).
  destruct (ws s1) as [sk|]; [exists [OClose sk]|exists []]; (split; [cbn; by rewrite Hl|]); intros m v Hin.
  - by apply list_elem_of_singleton in Hin.
  - by apply not_elem_of_nil in Hin.
Qed.

(** C32. The zero-loss verdict is sound and complete.  Whatever the connections
    did, when a subscriber finishes against the head [h], it reports no loss
    exactly when it received every seq from 1 to [h]; otherwise it reports at
    least as many as it missed, and nothing else. *)
Theorem finish_verdict (base : list string) (start : nat) (token : string) (m : bool) (l : list (Env * input))
    (i k : nat) (f : Finish) (h : Z) :
  let s0 := new_subscriber base start token m in
  let s := run l s0 in
  pending s = Some k -> head_number (f_head f) = Some h ->
  exists outs, log (done i f s) = outs ++ log s /\ OFinished i ∈ outs /\
    (forall x v, OMetric x v ∈ outs -> x = MLost) /\
    (missing (got l s0) h = [] -> forall v, OMetric MLost v ∉ outs) /\
    (missing (got l s0) h <> [] -> exists v, OMetric MLost v ∈ outs /\ Z.of_nat (length (missing (got l s0) h)) <= v).
Proof.
  intros s0 s Hp Hh. pose proof (accounts_new base start token m l) as Ha. cbv zeta in Ha. fold s0 in Ha. fold s in Ha.
  set (G := got l s0) in *. clearbody G. clearbody s. clear s0. unfold done. rewrite Hp. cbv zeta.
  set (s1 := clearTimeout (syncTimer s) _).
  assert (Hs1 : log s1 = log s /\ lastSeq s1 = lastSeq s) by (subst s1; cbn; destruct (f_timer f), (syncTimer s); done).
  destruct Hs1 as [Hl1 Hq1]. destruct (f_head f) as [[| |q| | |]|] eqn:Hf; try done. rewrite Hh, Hq1.
  assert (Hmiss : missing G h = [] <-> h <= lastSeq s).
  { rewrite missing_nil. destruct Ha as [H1 H2 H3 H4 _]. split; [|intros Hle q0 Hq0; apply H2; lia].
    intros Hall. destruct (Z.le_gt_cases h (lastSeq s)) as [|Hgt]; [done|]. exfalso.
    destruct (H4 (lastSeq s + 1)) as [?|Hin]; [apply Hall; lia|lia|lia|]. destruct (H3 _ Hin). lia. }
  destruct (Z.ltb_spec (lastSeq s) h) as [Hlt|Hge].
  - destruct (stop_log (add MLost (h - lastSeq s) s1)) as (outs & Ho & Hn).
    exists (OFinished i :: outs ++ [OMetric MLost (h - lastSeq s)]). cbn [log say]. split; [|split; [apply list_elem_of_here|split; [|split]]].
    + simpl. rewrite Ho. simpl. by rewrite Hl1, <- app_assoc.
    + intros x v. rewrite elem_of_cons, elem_of_app, list_elem_of_singleton. intros [?|[Hx|[= -> _]]]; [done| |done]. by apply Hn in Hx.
    + intros Hm. apply Hmiss in Hm. lia.
    + intros _. exists (h - lastSeq s). split; [|by apply missing_length].
      rewrite elem_of_cons, elem_of_app, list_elem_of_singleton. auto.
  - destruct (stop_log s1) as (outs & Ho & Hn). exists (OFinished i :: outs). split; [|split; [apply list_elem_of_here|split; [|split]]].
    + simpl. by rewrite Ho, Hl1.
    + intros x v [?|Hx]%elem_of_cons; [done|]. by apply Hn in Hx.
    + intros _ v [?|Hx]%elem_of_cons; [done|]. by apply Hn in Hx.
    + intros Hm. exfalso. apply Hm, Hmiss. lia.
Qed.

(** C31. A subscriber resumes from the contiguous part of what it received:
    however frames arrive, every seq up to its position was received, the next
    was not, and no watermark it ever sent in a hello or a sync reached beyond
    what it had received without a gap. *)
Theorem position_exact (base : list string) (start : nat) (token : string) (m : bool) (l : list (Env * input)) :
  let s0 := new_subscriber base start token m in
  let s := run l s0 in
  (forall q, 1 <= q <= lastSeq s -> q ∈ got l s0) /\ lastSeq s + 1 ∉ got l s0 /\
  (forall o w, o ∈ log s -> watermark_sent o = Some w -> forall q, 1 <= q <= w -> q ∈ got l s0).
Proof.
  intros s0 s. destruct (accounts_new base start token m l) as [H1 H2 H3 H4 H5]. fold s0 in H1, H2, H3, H4, H5. fold s in H1, H2, H3, H4, H5.
  split; [done|]. split; [|done]. intros Hin. destruct (H4 _ Hin) as [?|Ha]; [lia|lia|]. destruct (H3 _ Ha). lia.
Qed.

(** ** A subscriber that was not stopped keeps trying *)

(** It has a socket, or a timer set to open one; no other timer's handle is
    that one's. *)
Record trying (s : Subscriber) : Prop := {
  tr_ids : forall h x, timers s !! h = Some x -> (h < nextId s)%nat;
  tr_finishes : forall i f h, finishes s !! i = Some f -> f_timer f = Some h ->
                (h < nextId s)%nat /\ forall d, timers s !! h <> Some (TConnect, d);
  tr_socket : stopped s = false -> is_Some (ws s) \/ exists h d, timers s !! h = Some (TConnect, d);
}.

Definition core (s : Subscriber) := (timers s, nextId s, finishes s, ws s, stopped s).

Lemma trying_core s s' : core s' = core s -> trying s -> trying s'.
Proof. unfold core. intros [= Ht Hn Hf Hw Hs] [H1 H2 H3]. split; rewrite ?Ht, ?Hn, ?Hf, ?Hw, ?Hs; done. Qed.

Lemma trying_timeout a d s : trying s -> trying (setTimeout a d s).2.
Proof.
  intros [H1 H2 H3]. split; simpl.
  - intros h x. rewrite lookup_insert_Some. intros [[<- _]|[_ Hx]]; [lia|]. specialize (H1 h x Hx). lia.
  - intros i f h Hf Hh. destruct (H2 i f h Hf Hh) as [Hlt Hn]. split; [lia|]. intros d'. rewrite lookup_insert_ne by lia. apply Hn.
  - intros Hs. destruct (H3 Hs) as [?|(h & d' & Hh)]; [by left|right]. exists h, d'.
    rewrite lookup_insert_ne; [done|]. specialize (H1 h _ Hh). lia.
Qed.

Lemma trying_delete h s : (forall d, timers s !! h <> Some (TConnect, d)) -> trying s -> trying (s <| timers ::= delete h |>).
Proof.
  intros Hh [H1 H2 H3]. split; simpl.
  - intros h' x. rewrite lookup_delete_Some. intros [_ Hx]. by eapply H1.
  - intros i f h' Hf Ht. destruct (H2 i f h' Hf Ht) as [Hlt Hn]. split; [done|]. intros d. rewrite lookup_delete_Some.
    intros [_ Hx]. by apply (Hn d).
  - intros Hs. destruct (H3 Hs) as [?|(h' & d & Hd)]; [by left|right]. exists h', d. rewrite lookup_delete_ne; [done|].
    intros ->. by apply (Hh d).
Qed.

(** Once stopped, timers may go as they like. *)
Lemma trying_stopped s s' :
  stopped s' = true -> timers s' ⊆ timers s -> nextId s' = nextId s -> finishes s' = finishes s -> trying s -> trying s'.
Proof.
  intros Hs Ht Hn Hf [H1 H2 H3]. split; [| |congruence].
  - intros h x Hx. rewrite Hn. eapply H1, lookup_weaken, Ht. exact Hx.
  - intros i f h. rewrite Hf, Hn. intros Hi Hh. destruct (H2 i f h Hi Hh) as [Hlt Hc]. split; [done|].
    intros d Hd. apply (Hc d). by eapply lookup_weaken.
Qed.

Lemma trying_connect s : trying s -> trying (connect s).
Proof.
  intros [H1 H2 H3]. split; simpl.
  - intros h x Hx. specialize (H1 h x Hx). lia.
  - intros i f h Hf Hh. destruct (H2 i f h Hf Hh). split; [lia|done].
  - intros _. left. by eexists.
Qed.

Lemma trying_send f s : trying s -> trying (send f s).
Proof. unfold send. destruct (ws s) eqn:?, (welcomed s); try done. by apply trying_core. Qed.

Lemma trying_sync s : trying s -> trying (sync s).
Proof. intros H. apply trying_send. by apply (trying_core s). Qed.

Lemma trying_scheduleSync d s : trying s -> trying (scheduleSync d s).
Proof.
  intros H. unfold scheduleSync. destruct (syncTimer s); [done|]. apply (trying_timeout TSync d) in H.
  cbn in *. destruct (size (ahead s) =? 0)%nat; (eapply trying_core; [|exact H]; done).
Qed.

Lemma trying_add (b : bool) m v s : trying s -> trying (if b then add m v s else s).
Proof. destruct b; [by apply trying_core|done]. Qed.

Lemma trying_dropped env sk s : trying s -> trying (dropped env sk s).
Proof.
  intros [H1 H2 H3]. unfold dropped. destruct (negb _); [done|]. cbv zeta. simpl stopped.
  destruct (stopped s) eqn:Hs; [split; try done; simpl; congruence|].
  match goal with |- trying (setTimeout _ _ (?x <| failures ::= _ |>)).2 => set (s1 := x) end.
  assert (Hc : timers s1 = timers s /\ nextId s1 = nextId s /\ finishes s1 = finishes s).
  { subst s1. simpl. destruct (welcomed s); simpl; destruct (closedAt s); simpl; by destruct (_ <? _)%nat. }
  destruct Hc as (Ht & Hn & Hf). split; simpl; rewrite ?Ht, ?Hn, ?Hf.
  - intros h x. rewrite lookup_insert_Some. intros [[<- _]|[_ Hx]]; [lia|]. specialize (H1 h x Hx). lia.
  - intros i f h Hi Hh. destruct (H2 i f h Hi Hh) as [Hlt Hd]. split; [lia|]. intros d'. rewrite lookup_insert_ne by lia. apply Hd.
  - intros _. right. eexists _, _. apply lookup_insert_eq.
Qed.

Lemma trying_done i f s : trying s -> trying (done i f s).
Proof.
  intros H. unfold done. destruct (pending s) as [k|]; [|done]. cbv zeta.
  set (s1 := clearTimeout (syncTimer s) _).
  assert (H1 : timers s1 ⊆ timers s /\ nextId s1 = nextId s /\ finishes s1 = finishes s).
  { subst s1. cbn. destruct (f_timer f), (syncTimer s); cbn; repeat split; try done; etrans; try apply delete_subseteq; done. }
  set (s2 := match f_head f with Some JNull => _ | _ => _ end).
  assert (H2 : timers s2 = timers s1 /\ nextId s2 = nextId s1 /\ finishes s2 = finishes s1).
  { subst s2. destruct (f_head f) as [[]|]; try done. destruct (head_number _); [|done]. by destruct (_ <? _). }
  destruct H1 as (Ha & Hb & Hc), H2 as (Hd & He & Hf).
  apply (trying_core (stop s2)); [done|]. apply (trying_stopped s); [| | | |done]; unfold stop; cbv zeta; cbn.
  - destruct (pinger s2); cbn; by destruct (ws s2).
  - transitivity (timers s2); [|by rewrite Hd]. destruct (pinger s2); cbn; destruct (ws s2); cbn; try done; apply delete_subseteq.
  - rewrite <- Hb, <- He. destruct (pinger s2); cbn; by destruct (ws s2).
  - rewrite <- Hc, <- Hf. destruct (pinger s2); cbn; by destruct (ws s2).
Qed.

(** A closure whose timer is its own. *)
Definition own_timer (f : Finish) (s : Subscriber) : Prop :=
  forall h, f_timer f = Some h -> (h < nextId s)%nat /\ forall d, timers s !! h <> Some (TConnect, d).

Lemma trying_set_finish i f s : own_timer f s -> trying s -> trying (set_finish i f s).
Proof.
  intros Hf [H1 H2 H3]. split; try done. simpl. intros j g h. rewrite lookup_insert_Some.
  intros [[_ <-]|[_ Hj]] Hh; [by apply Hf|by eapply H2].
Qed.

Lemma trying_ask_later i f s : trying s -> trying (ask_later i f s).
Proof.
  intros H. unfold ask_later. cbn. apply (trying_set_finish i (f <| f_timer := Some (nextId s) |>)); [|by apply (trying_timeout (TAsk i) 2000%Q)].
  intros h. simpl. intros [= <-]. split; [lia|]. intros d. by rewrite lookup_insert_eq.
Qed.

Lemma trying_ask env i s : trying s -> trying (ask env i s).
Proof.
  intros H. unfold ask. destruct (finishes s !! i); [|done]. destruct (_ <=? _); [by apply trying_done|].
  by apply trying_ask_later, trying_send.
Qed.

Lemma trying_got_head env i head s : trying s -> trying (got_head env i head s).
Proof.
  intros H. unfold got_head. destruct (finishes s !! i) as [f|] eqn:Hf; [|done]. cbv zeta.
  set (s1 := set_finish _ _ _).
  assert (H1 : trying s1).
  { subst s1. cbn. pose proof (tr_finishes s H i f) as Ht. destruct (f_timer f) as [h|] eqn:Hft; cbn.
    - destruct (Ht h Hf eq_refl) as [Hlt Hd]. apply (trying_set_finish i (f <| f_head := head |>)); [|by apply trying_delete].
      intros h'. simpl. rewrite Hft. intros [= <-]. split; [done|]. intros d. simpl. rewrite lookup_delete_eq. done.
    - apply (trying_set_finish i (f <| f_head := head |>)); [|done]. intros h'. simpl. by rewrite Hft. }
  lazymatch goal with |- context [if ?b then _ else _] => destruct b end; [by apply trying_done|].
  by apply trying_ask_later, trying_sync.
Qed.

Lemma trying_finish env t s : trying s -> trying (finish env t s).
Proof.
  intros H. unfold finish. cbv zeta. apply trying_ask, trying_set_finish; [by intros h|].
  destruct H as [H1 H2 H3]. split; simpl; [|intros i f h Hi Hh; destruct (H2 i f h Hi Hh); split; [lia|done]|done].
  intros h x Hx. specialize (H1 h x Hx). lia.
Qed.

Lemma trying_welcome env f s : trying s -> trying (onWelcome env f s).
Proof.
  intros H. unfold onWelcome. cbv zeta. apply (trying_core s (s <| welcomed := true |>)) in H; [|done].
  destruct (member "data" f) as [v|]; [|done]. destruct v; [done|..];
  match goal with |- trying (match pending ?x with _ => _ end) => set (s1 := x) end;
  (assert (trying s1) as H1 by (subst s1; apply (trying_core (s <| welcomed := true |>)); [|done]; cbn;
     destruct (everConnected s); cbn; [destruct (closedAt s)|]; done));
  clearbody s1; (destruct (pending s1); [by apply trying_send|done]).
Qed.

Lemma trying_error f s : trying s -> trying (onError f s).
Proof.
  intros H. unfold onError. cbv zeta. set (s1 := if _ && _ then _ else s).
  assert (H1 : trying s1).
  { subst s1. destruct (bool_decide (_ = Some "unavailable") && _); [|done]. unfold noteRetryAfter.
    destruct (num_at _ _) as [q|]; [|done]. destruct (Qlt_le_dec 0 q); [by apply (trying_core s)|done]. }
  clearbody s1. destruct (bool_decide (str_at "code" (data_of f) = Some "replay_unavailable")); [|done].
  by apply trying_scheduleSync, (trying_core s1).
Qed.

Lemma trying_persistent env q f s : trying s -> trying (onPersistent env q f s).
Proof.
  intros H. unfold onPersistent. cbv zeta. set (s0 := _ <| connSeen ::= _ |>).
  assert (H0 : trying s0) by (subst s0; apply (trying_core s); [|done]; cbn; by destruct (_ && _)).
  clearbody s0. destruct (_ || _); [done|]. set (s1 := s0 <| maxSeen ::= _ |>). set (s2 := if negb _ then _ else _).
  assert (H2 : trying s2).
  { apply (trying_core s0); [|done]. subst s2 s1. destruct (negb _); [done|]. cbn. destruct (measureLatency s0); [|done].
    by destruct (_ ≫= _). }
  clearbody s2. destruct (q =? lastSeq s2 + 1).
  - destruct (fill _ _ _) as [last rest]. by apply (trying_core s2).
  - apply trying_scheduleSync. apply (trying_core (if (size (ahead s2) =? 0)%nat then add MGapsResynced 1 s2 else s2)); [done|].
    by apply trying_add.
Qed.

Lemma trying_step env i s : trying s -> trying (step env i s).
Proof.
  intros H. destruct i; simpl.
  - unfold start. cbv zeta. match goal with |- context [setTimeout TPing _ ?x] =>
      assert (Hx : trying x) by (apply trying_connect; by apply (trying_core s)); generalize dependent x end.
    intros s1 H1. by apply (trying_core (setTimeout TPing 25000%Q s1).2), trying_timeout.
  - by apply trying_finish.
  - unfold forceReconnect. destruct (ws s) as [sk|] eqn:Hws; [|done]. destruct H as [H1 H2 H3]. split; simpl.
    + intros h x Hx. specialize (H1 h x Hx). lia.
    + intros i f h Hf Hh. destruct (H2 i f h Hf Hh). split; [lia|done].
    + intros _. left. by eexists.
  - apply (trying_stopped s); [| | | |done]; unfold stop; cbn; destruct (pinger s); cbn; destruct (ws s); cbn; try done; apply delete_subseteq.
  - by apply (trying_core s).
  - unfold received. case_bool_decide; [|done]. unfold onFrame. cbv zeta. destruct (String.eqb _ "welcome"); [by apply trying_welcome|].
    destruct (String.eqb _ "heartbeat"); [destruct (pending s); [|done]; destruct (bool_decide _); [by apply trying_got_head|done]|].
    destruct (String.eqb _ "error"); [by apply trying_error|]. destruct (String.eqb _ "replayTruncated"); [done|].
    destruct (int_at "seq" frame); [by apply trying_persistent|done].
  - unfold errored. apply trying_dropped. destruct (welcomed s); [done|by apply (trying_core s)].
  - unfold closed. apply trying_dropped. unfold noteRetryAfter. destruct (retryAfterFromClose reason) as [q|]; [|done].
    destruct (Qlt_le_dec 0 q); [by apply (trying_core s)|done].
  - unfold run_timer. destruct (timers s !! handle) as [[a d]|] eqn:Ht; [|done].
    assert (Hdel : a <> TConnect -> trying (s <| timers ::= delete handle |>)).
    { intros Ha. apply trying_delete; [|done]. intros d'. rewrite Ht. by intros [= -> _]. }
    destruct a; cbv zeta.
    + simpl stopped. destruct (stopped s) eqn:Hs; [apply (trying_stopped s); [done|apply delete_subseteq|done..]|].
      destruct H as [H1 H2 H3]. split; simpl.
      * intros h x Hx. apply lookup_delete_Some in Hx as [_ Hx]. specialize (H1 h x Hx). lia.
      * intros i f h Hf Hh. destruct (H2 i f h Hf Hh) as [Hlt Hd]. split; [lia|]. intros d'. rewrite lookup_delete_Some. intros [_ Hx]. by apply (Hd d').
      * intros _. left. by eexists.
    + specialize (Hdel ltac:(done)). unfold sync_fired. cbv zeta.
      apply (trying_core _ (s <| timers ::= delete handle |> <| syncTimer := None |>)) in Hdel; [|done].
      destruct (stopped _); [done|]. destruct (_ && _); [done|]. apply trying_sync. eapply trying_core; [|exact Hdel]. done.
    + by apply trying_ask, Hdel.
    + apply trying_send. by apply (trying_core s).
Qed.

(** A subscriber that was started and not stopped keeps trying: whatever
    its sockets do and however they fail, it has a current socket or a timer
    that will open one. *)
Theorem keeps_trying (base : list string) (first : nat) (token : string) (m : bool) (env : Env) (l : list (Env * input)) :
  let s := run l (start env (new_subscriber base first token m)) in
  stopped s = false -> is_Some (ws s) \/ exists h d, timers s !! h = Some (TConnect, d).
Proof.
  intros s. apply tr_socket. subst s.
  assert (H0 : trying (start env (new_subscriber base first token m))).
  { split; simpl.
    - intros h x. rewrite lookup_insert_Some, lookup_empty. intros [[<- _]|[_ ?]]; [lia|done].
    - intros i f h. by rewrite lookup_empty.
    - intros _. left. by eexists. }
  revert H0. generalize (start env (new_subscriber base first token m)) as s. induction l as [|[e i] l IH]; intros s Hs; [done|].
  by apply IH, trying_step.
Qed.

(** How long it waits: at least what the server asked for; otherwise between
    half of and the whole of a backoff that doubles from 250 ms up to 5 s. *)
Lemma reconnect_delay_bounds r retryAfter failures :
  (0 <= r)%Q -> (r <= 1)%Q -> 0 <= failures ->
  let b := inject_Z (Z.min BACKOFF_MAX_MS (250 * 2 ^ failures)) in
  (inject_Z 250 <= b)%Q /\ (b <= inject_Z 5000)%Q /\
  (Qmax retryAfter (b / 2) <= reconnect_delay r retryAfter failures)%Q /\ (reconnect_delay r retryAfter failures <= Qmax retryAfter b)%Q.
Proof.
  intros Hr0 Hr1 Hf b. assert (Hp : 1 <= 2 ^ failures) by (pose proof (Z.pow_pos_nonneg 2 failures ltac:(lia) Hf); lia).
  assert (Hb0 : (inject_Z 250 <= b)%Q) by (subst b; rewrite <- Zle_Qle; unfold BACKOFF_MAX_MS; lia).
  assert (Hb1 : (b <= inject_Z 5000)%Q) by (subst b; rewrite <- Zle_Qle; unfold BACKOFF_MAX_MS; lia).
  split; [done|]. split; [done|]. unfold reconnect_delay. fold b. clearbody b.
  assert (Hh : (b / 2 == b * (1 # 2))%Q) by field. assert (Hh' : (r * b / 2 == r * b * (1 # 2))%Q) by field.
  assert (H1 : (0 <= r * b)%Q) by (apply Qmult_le_0_compat; [done|]; change (inject_Z 250) with (250 # 1) in Hb0; lra).
  assert (H2 : (r * b <= 1 * b)%Q) by (apply Qmult_le_compat_r; [done|]; change (inject_Z 250) with (250 # 1) in Hb0; lra).
  split; apply Q.max_lub.
  - apply Q.le_max_l.
  - eapply Qle_trans; [|apply Q.le_max_r]. lra.
  - apply Q.le_max_l.
  - eapply Qle_trans; [|apply Q.le_max_r]. lra.
Qed.

(** ** The sender *)

Definition counted (m : metric) (o : post_output) : bool :=
  match o with PMetric m' => match m, m' with MAcked, MAcked | MSendRetries, MSendRetries | MSendFailed, MSendFailed => true | _, _ => false end | _ => false end.
Definition count (m : metric) (out : list post_output) : nat := length (List.filter (counted m) out).
Definition requests (out : list post_output) : list (string * string) :=
  omap (fun o => match o with PRequest u k => Some (u, k) | _ => None end) out.

Lemma count_metric_app m l k : count m (l ++ k) = (count m l + count m k)%nat.
Proof. unfold count. by rewrite List.filter_app, length_app. Qed.

Lemma requests_app l k : requests (l ++ k) = requests l ++ requests k.
Proof. apply omap_app. Qed.

Definition activities_url (urls : list string) (i : nat) (c : string) : string :=
  appUrl urls i +:+ "/api/v1/conversations/" +:+ c +:+ "/activities".

(** What a send came to, of the loop entered after [attempt] requests. *)
Record posted (urls : list string) (first attempt : nat) (c key : string) (deadline : Z) (rounds : list (Z * option Z))
    (r : list post_output * option bool) : Prop := {
  po_acked : count MAcked r.1 = (match r.2 with Some true => 1 | _ => 0 end)%nat;
  po_failed : count MSendFailed r.1 = (match r.2 with Some false => 1 | _ => 0 end)%nat;
  po_retries : count MSendRetries r.1 = (match attempt with O => pred (length (requests r.1)) | _ => length (requests r.1) end)%nat;
  po_requests : forall n u k, requests r.1 !! n = Some (u, k) -> k = key /\ u = activities_url urls (first + attempt + n) c;
  po_ends : Exists (fun x => deadline <= x.1) rounds -> is_Some r.2;
}.

Lemma post_loop_spec urls first c key deadline rounds attempt backoff :
  posted urls first attempt c key deadline rounds (post_loop urls first c key deadline rounds attempt backoff).
Proof.
  revert attempt backoff. induction rounds as [|[t st] rounds IH]; intros attempt backoff; simpl.
  { split; try done; [by destruct attempt|by inversion 1]. }
  destruct (Z.leb_spec deadline t) as [Hd|Hd].
  { split; try done; by destruct attempt. }
  set (sent := (if (1 <? S attempt)%nat then _ else _) ++ _).
  assert (Hs : count MAcked sent = 0%nat /\ count MSendFailed sent = 0%nat /\
               count MSendRetries sent = (match attempt with O => 0 | _ => 1 end)%nat /\
               requests sent = [(activities_url urls (first + attempt) c, key)]).
  { subst sent. replace (first + S attempt - 1)%nat with (first + attempt)%nat by lia. by destruct attempt. }
  destruct Hs as (Hs1 & Hs2 & Hs3 & Hs4). clearbody sent.
  assert (Hend : forall b : bool, posted urls first attempt c key deadline ((t, st) :: rounds)
    (sent ++ [PMetric (if b then MAcked else MSendFailed)], Some b)).
  { intros b. split; cbn [fst snd]; rewrite ?count_metric_app, ?requests_app, ?Hs1, ?Hs2, ?Hs3, ?Hs4; try (by destruct b, attempt).
    assert (requests [PMetric (if b then MAcked else MSendFailed)] = []) as -> by (by destruct b).
    intros [|n] u k; simpl; [|done]. intros [= <- <-]. by rewrite Nat.add_0_r. }
  assert (Hagain : posted urls first attempt c key deadline ((t, st) :: rounds)
    (let '(out, r) := post_loop urls first c key deadline rounds (S attempt) (Z.min (backoff * 2) 1000) in (sent ++ PSleep backoff :: out, r))).
  { specialize (IH (S attempt) (Z.min (backoff * 2) 1000)).
    destruct (post_loop _ _ _ _ _ _ _ _) as [out r]. destruct IH as [I1 I2 I3 I4 I5]. cbn [fst snd] in *.
    split; cbn [fst snd]; change (PSleep backoff :: out) with ([PSleep backoff] ++ out);
      rewrite ?count_metric_app, ?requests_app, ?Hs1, ?Hs2, ?Hs3, ?Hs4, ?I1, ?I2, ?I3; [done|done|by destruct attempt| |].
    - intros [|n] u k; simpl; [intros [= <- <-]; by rewrite Nat.add_0_r|]. intros [-> ->]%I4. split; [done|].
      by replace (first + S attempt + n)%nat with (first + attempt + S n)%nat by lia.
    - intros [Hx|Hx]%Exists_cons; [simpl in Hx; lia|by apply I5]. }
  destruct st as [st|]; [|exact Hagain]. destruct (_ && _); [by apply (Hend true)|].
  destruct (_ && _ && _ && _); [by apply (Hend false)|exact Hagain].
Qed.

(** A send of the load tests is counted exactly once, as acked or as never
    acked, according to what it returns; every request after the first is
    counted as a retry; all carry the idempotency key and go round the nodes in
    turn; and it returns once the clock has reached the deadline. *)
Theorem post_counted_once (urls : list string) (first : nat) (c key : string) (deadline : Z) (rounds : list (Z * option Z)) :
  let r := postActivity urls first c key deadline rounds in
  (count MAcked r.1 = match r.2 with Some true => 1 | _ => 0 end /\
   count MSendFailed r.1 = match r.2 with Some false => 1 | _ => 0 end /\
   count MSendRetries r.1 = pred (length (requests r.1)))%nat /\
  (forall n u k, requests r.1 !! n = Some (u, k) -> k = key /\ u = activities_url urls (first + n) c) /\
  (Exists (fun x => deadline <= x.1) rounds -> is_Some r.2).
Proof.
  destruct (post_loop_spec urls first c key deadline rounds 0 100) as [H1 H2 H3 H4 H5]. unfold postActivity.
  split; [done|]. split; [|done]. intros n u k Hn. destruct (H4 n u k Hn) as [-> ->]. by rewrite Nat.add_0_r.
Qed.

(** ** Examples *)

Definition ex_env (t : Z) : Env := mkEnv t 0 0.
Definition ex_frame (seq : Z) : json := JObj [("type", JStr "text"); ("seq", JNum (inject_Z seq))].
Definition ex_welcome : json := JObj [("type", JStr "welcome"); ("data", JObj [("watermark", JNum 0)])].

(** Seqs 1 and 3 arrive, then the test finishes. *)
Definition ex_hole : list (Env * input) :=
  [(ex_env 0, IStart); (ex_env 5, IOpened 0); (ex_env 10, IReceived 0 ex_welcome);
   (ex_env 20, IReceived 0 (ex_frame 1)); (ex_env 30, IReceived 0 (ex_frame 3)); (ex_env 40, IFinish 1000)].

Definition ex_subscriber : Subscriber := new_subscriber ["ws://a"; "ws://b"] 0 "t" true.
Definition ex_closure : Finish := mkFinish 1040 (Some (JNum 3)) None.

Lemma finish_verdict_witness :
  missing (got ex_hole ex_subscriber) 3 = [2] /\
  exists outs v, log (done 3 ex_closure (run ex_hole ex_subscriber)) = outs ++ log (run ex_hole ex_subscriber) /\
    OFinished 3 ∈ outs /\ OMetric MLost v ∈ outs /\ 1 <= v.
Proof.
  assert (Hm : missing (got ex_hole ex_subscriber) 3 = [2]) by (vm_compute; reflexivity). split; [exact Hm|].
  destruct (finish_verdict ["ws://a"; "ws://b"] 0 "t" true ex_hole 3 3 ex_closure 3 ltac:(vm_compute; reflexivity) ltac:(vm_compute; reflexivity))
    as (outs & Ho & Hf & _ & _ & Hlost).
  change (new_subscriber ["ws://a"; "ws://b"] 0 "t" true) with ex_subscriber in *. rewrite Hm in Hlost.
  destruct (Hlost ltac:(discriminate)) as (v & Hv & Hle). exists outs, v. split; [exact Ho|]. split; [exact Hf|]. split; [exact Hv|exact Hle].
Defined.

Lemma keeps_trying_witness :
  let s := run [(ex_env 10, IErrored 0)] (start (ex_env 0) ex_subscriber) in
  ws s = None /\ node s = 1%nat /\ (is_Some (ws s) \/ exists h d, timers s !! h = Some (TConnect, d)).
Proof.
  intros s. split; [vm_compute; reflexivity|]. split; [vm_compute; reflexivity|].
  exact (keeps_trying ["ws://a"; "ws://b"] 0 "t" true (ex_env 0) [(ex_env 10, IErrored 0)] ltac:(vm_compute; reflexivity)).
Defined.

(** The report counts every seq above the position as lost, also those that
    were received beyond the hole: here 2 of 3, though only seq 2 is missing. *)
Example verdict_overcounts :
  missing (got ex_hole ex_subscriber) 3 = [2] /\
  OMetric MLost 2 ∈ log (done 3 ex_closure (run ex_hole ex_subscriber)).
Proof.
  split; [vm_compute; reflexivity|]. assert (Hl : exists l1 l2, log (done 3 ex_closure (run ex_hole ex_subscriber)) = l1 ++ OMetric MLost 2 :: l2).
  { eexists [_; _], _. vm_compute. reflexivity. }
  destruct Hl as (l1 & l2 & ->). apply elem_of_app. right. apply list_elem_of_here.
Qed.

(** An answer without a [headSeq] past the deadline ends the check with no
    verdict at all: neither lost nor unverified is counted. *)
Example headless_verdict :
  let s := run (ex_hole ++ [(ex_env 2000, IReceived 0 (JObj [("type", JStr "heartbeat"); ("nonce", JStr "final")]))]) ex_subscriber in
  pending s = None /\
  Forall (fun o => match o with OMetric MLost _ | OMetric MUnverified _ => False | _ => True end) (log s).
Proof. split; [vm_compute; reflexivity|]. vm_compute. repeat constructor. Qed.
