(* ===== verification/LoadReport.v ===== *)
(** * LoadReport: the markdown report and the regression gate of the load
    tests ([load/report.js]).

    A results file is what [LoadResults] makes of one run.  A scenario is a
    JSON object; [scenarios] keeps the order of the file.  [threshold] is
    [None] for [NaN], which [Number] yields on a word that is not a number
    (and for an infinite one, which nothing exceeds either). *)

From Stdlib Require Import Ascii.
From stdpp Require Import base list strings pretty.
From Stdlib Require Import ZArith QArith Qround Qabs Lia Lqa.
From S2P Require Import Prelude Watermark Json Errors Stringify.

Open Scope string_scope.
Open Scope list_scope.
Open Scope Z_scope.

(** ** Numbers as text *)

(** [x.toFixed(d)] as a multiple of [10^-d]: the nearest, ties away from zero. *)
Definition fixed_units (d : Z) (x : Q) : Z :=
  let n := Qfloor (Qabs x * pow10 d + (1 # 2)) in if Qlt_le_dec x 0 then - n else n.

(** [Number(x.toFixed(d))]. *)
Definition fixed (d : Z) (x : Q) : Q := (inject_Z (fixed_units d x) * pow10 (- d))%Q.

(** [x.toFixed(0)], with the sign of a negative [x] that rounds to 0. *)
Definition fixed0_text (x : Q) : string :=
  (if Qlt_le_dec x 0 then "-" else "") +:+ pretty (Z.abs (fixed_units 0 x)).

(** [String(Number(x.toFixed(1)))]. *)
Definition fixed1_text (x : Q) : string :=
  let n := fixed_units 1 x in
  let a := Z.abs n in
  (if n <? 0 then "-" else "") +:+ pretty (a / 10) +:+ (if a mod 10 =? 0 then "" else "." +:+ pretty (a mod 10)).

(** ** Results files *)

Record Check := mkCheck { c_name : string; c_ok : bool; c_detail : string; c_warning : bool }.

(** [r_nodes] and [r_backbone] are the members of [run] the comparison uses. *)
Record Results := mkResults {
  r_nodes : Q; r_backbone : string;
  r_scenarios : list (string * json);
  r_checks : list Check;
  r_ok : bool;
  r_run : json; r_hardware : json; r_mock : option json
}.

(** ** The metrics *)

Inductive Better := Lower | Higher.

Record Metric := mkMetric {
  m_scenario : string; m_label : string; m_path : string;
  m_better : option Better; m_floor : Q; m_gated : bool
}.

(* @src load/report.js 19-72 METRICS *)
Definition METRICS : list Metric :=
  [mkMetric "e2e" "REST→WS p50 (ms)" "e2e_latency_ms.p50" (Some Lower) 5 false;
   mkMetric "e2e" "REST→WS p95 (ms)" "e2e_latency_ms.p95" (Some Lower) 5 true;
   mkMetric "e2e" "REST→WS p99 (ms)" "e2e_latency_ms.p99" (Some Lower) 5 false;
   mkMetric "e2e" "REST POST p95 (ms)" "rest_latency_ms.p95" (Some Lower) 5 true;
   mkMetric "e2e" "sustained msgs/s (acked)" "msgs_per_s" (Some Higher) 2 false;
   mkMetric "e2e" "WS frames/s delivered" "frames_per_s" (Some Higher) 10 false;
   mkMetric "e2e" "WS connections" "ws_connections" None 0 false;
   mkMetric "webhook_burst" "inbound accepted/s" "inbound_per_s" (Some Higher) 5 false;
   mkMetric "webhook_burst" "inbound POST p95 (ms)" "inbound_latency_ms.p95" (Some Lower) 5 true;
   mkMetric "webhook_burst" "inbound→provider p50 (ms)" "delivery_latency_ms.p50" (Some Lower) 10 false;
   mkMetric "webhook_burst" "inbound→provider p95 (ms)" "delivery_latency_ms.p95" (Some Lower) 10 true;
   mkMetric "webhook_burst" "inbound→provider p99 (ms)" "delivery_latency_ms.p99" (Some Lower) 10 false;
   mkMetric "webhook_burst" "deliveries/s" "deliveries_per_s" (Some Higher) 5 false;
   mkMetric "webhook_burst" "queue drained after burst (s)" "drain_after_burst_s" (Some Lower) 2 false;
   mkMetric "idle" "idle sockets connected" "ws_connections" None 0 false;
   mkMetric "idle" "connect p95 (ms)" "ws_connect_ms.p95" (Some Lower) 5 false;
   mkMetric "idle" "memory per idle socket (KiB)" "kib_per_socket" (Some Lower) 2 true;
   mkMetric "reconnect_storm" "reconnect p95 (ms)" "ws_reconnect_ms.p95" (Some Lower) 50 true;
   mkMetric "reconnect_storm" "reconnect max (ms)" "ws_reconnect_ms.max" (Some Lower) 100 false;
   mkMetric "reconnect_storm" "REST→WS p95 during storms (ms)" "e2e_latency_ms.p95" (Some Lower) 5 false;
   mkMetric "rolling_restart" "node back to ready, max (s)" "recovery_max_s" (Some Lower) 2 false;
   mkMetric "rolling_restart" "client reconnect p95 (ms)" "ws_reconnect_ms.p95" (Some Lower) 500 false;
   mkMetric "rolling_restart" "client reconnect max (ms)" "ws_reconnect_ms.max" (Some Lower) 500 false;
   mkMetric "rolling_restart" "reconnects" "reconnects" None 0 false;
   mkMetric "rolling_restart" "sockets verified (zero-loss)" "params.sockets" None 0 false;
   mkMetric "node_kill" "killed node back to ready (s)" "recovery_max_s" (Some Lower) 2 false;
   mkMetric "node_kill" "client reconnect max (ms)" "ws_reconnect_ms.max" (Some Lower) 500 false;
   mkMetric "backbone" "activity events observed / expected" "events_observed" None 0 false;
   mkMetric "backbone" "duplicate events at the subscriber" "duplicate_events" None 0 false;
   mkMetric "backbone" "send→backbone subscriber p50 (ms)" "publish_to_subscriber_ms.p50" (Some Lower) 10 false;
   mkMetric "backbone" "send→backbone subscriber p95 (ms)" "publish_to_subscriber_ms.p95" (Some Lower) 10 false;
   mkMetric "backbone" "send→backbone subscriber p99 (ms)" "publish_to_subscriber_ms.p99" (Some Lower) 10 false;
   mkMetric "backbone" "caught up after the delivery queues drained (s)" "caught_up_after_drain_s" (Some Lower) 2 false;
   mkMetric "dead_channel" "healthy tenant p50, baseline (ms)" "baseline.latency_ms.p50" (Some Lower) 10 false;
   mkMetric "dead_channel" "healthy tenant p95, baseline (ms)" "baseline.latency_ms.p95" (Some Lower) 10 false;
   mkMetric "dead_channel" "healthy tenant p99, baseline (ms)" "baseline.latency_ms.p99" (Some Lower) 10 false;
   mkMetric "dead_channel" "healthy tenant deliveries/s, baseline" "baseline.deliveries_per_s" (Some Higher) 2 false;
   mkMetric "dead_channel" "healthy tenant p50, dead channel (ms)" "dead.latency_ms.p50" (Some Lower) 10 false;
   mkMetric "dead_channel" "healthy tenant p95, dead channel (ms)" "dead.latency_ms.p95" (Some Lower) 10 true;
   mkMetric "dead_channel" "healthy tenant p99, dead channel (ms)" "dead.latency_ms.p99" (Some Lower) 10 false;
   mkMetric "dead_channel" "healthy tenant max, dead channel (ms)" "dead.latency_ms.max" (Some Lower) 10 false;
   mkMetric "dead_channel" "healthy tenant deliveries/s, dead channel" "dead.deliveries_per_s" (Some Higher) 2 false;
   mkMetric "dead_channel" "p95 limit (ms)" "p95_limit_ms" None 0 false;
   mkMetric "dead_channel" "p95 sent while the backlog was parked (ms)" "dead.transient_latency_ms.p95" (Some Lower) 10 false;
   mkMetric "dead_channel" "p95 sent after the backlog was parked (ms)" "dead.steady_latency_ms.p95" (Some Lower) 10 false;
   mkMetric "dead_channel" "healthy messages over the p95 limit" "dead.over_limit_messages" None 0 false;
   mkMetric "dead_channel" "over the limit: first message sent at (s)" "dead.degraded_from_s" None 0 false;
   mkMetric "dead_channel" "over the limit: last message sent at (s)" "dead.degraded_until_s" (Some Lower) 2 false;
   mkMetric "dead_channel" "breaker opened after (s)" "breaker.opened_after_s" (Some Lower) 2 false;
   mkMetric "dead_channel" "backlog parked after (s)" "breaker.backlog_parked_after_s" (Some Lower) 2 false;
   mkMetric "dead_channel" "dead channel deliveries in flight, max" "breaker.max_dead_executing" None 0 false;
   mkMetric "dead_channel" "requests that reached the dead provider" "breaker.dead_provider_requests" None 0 false].

(* @src load/report.js 74-74 LOSS *)
Definition LOSS : list string :=
  ["e2e"; "webhook_burst"; "reconnect_storm"; "rolling_restart"; "node_kill"; "backbone"; "dead_channel"].

(** [path.split(".")]. *)
Fixpoint split_dot (l cur : chars) : list string :=
  match l with
  | [] => [str_of (rev cur)]
  | c :: l => if code c =? 46 then str_of (rev cur) :: split_dot l [] else split_dot l (c :: cur)
  end.

(* @src load/report.js 76-76 get *)
Definition get (obj : option json) (path : string) : option json :=
  fold_left (fun o k => v ← o; member k v) (split_dot (chars_of path) []) obj.

(* @src load/report.js 77-77 fmt *)
Definition fmt (v : option json) : string :=
  match v with
  | None | Some JNull => "–"
  | Some (JNum q) => fixed1_text q
  | Some v => js_string v
  end.

(* @src load/report.js 78-78 topology *)
Definition topology (r : Results) : string :=
  js_num (r_nodes r) +:+ " node" +:+ (if Qlt_le_dec 1 (r_nodes r) then "s" else "") +:+ ", " +:+ r_backbone r.

(* @src load/report.js 79-79 key *)
Definition key (r : Results) : string := js_num (r_nodes r) +:+ ":" +:+ r_backbone r.
(** ** Comparing with a baseline *)

Record Comparison := mkComparison { text : string; regressed : bool }.

(** [a > b], false when [b] is [NaN]. *)
Definition above (a : Q) (b : option Q) : bool :=
  match b with Some b => if Qlt_le_dec b a then true else false | None => false end.

(* @src load/report.js 81-89 compare *)
Definition compare (current before : option json) (better : option Better) (floor : Q) (threshold : option Q) : Comparison :=
  match current, before, better with
  | Some (JNum current), Some (JNum before), Some better =>
      let delta := (current - before)%Q in
      let rel := if Qeq_dec before 0 then 0%Q else (delta / before)%Q in
      let worse := match better with Lower => above delta (Some 0%Q) | Higher => above 0%Q (Some delta) end in
      let regressed := worse && above (Qabs rel) threshold && above (Qabs delta) (Some floor) in
      let sign := if Qlt_le_dec 0 rel then "+" else "" in
      mkComparison (fmt (Some (JNum before)) +:+ " (" +:+ sign +:+ fixed0_text (rel * 100)%Q +:+ " %"
                    +:+ (if regressed then " ⚠" else "") +:+ ")") regressed
  | _, _, _ => mkComparison "" false
  end.

(** ** The main table *)

Record Options := mkOptions { o_baseline : list Results; o_threshold : option Q }.

Definition scenario_of (r : Results) (scenario : string) : option json := assoc scenario (r_scenarios r).

(** [runs.some((r) => r.scenarios[scenario])]: a scenario is an object. *)
Definition seen_in (runs : list Results) (scenario : string) : bool :=
  existsb (fun r => match scenario_of r scenario with Some (JObj _) => true | _ => false end) runs.

(** [a || b] of strings. *)
Definition or_text (a b : string) : string := if String.eqb a "" then b else a.

Definition has_baseline (o : Options) : bool := match o_baseline o with [] => false | _ => true end.

(* @src load/report.js 104-108 render *)
Definition header (runs : list Results) (o : Options) : list string :=
  ["Scenario"; "Metric"] ++ flat_map (fun r => topology r :: (if has_baseline o then ["baseline (Δ)"] else [])) runs.

(** The baseline of a run's topology. *)
(* @src load/report.js 115-119 render *)
Definition compared (o : Options) (m : Metric) (r : Results) : Comparison :=
  let b := find (fun x => String.eqb (key x) (key r)) (o_baseline o) in
  compare (get (scenario_of r (m_scenario m)) (m_path m)) (b ← b; get (scenario_of b (m_scenario m)) (m_path m))
    (m_better m) (m_floor m) (o_threshold o).

(** The row of a metric and the regressions it adds. *)
(* @src load/report.js 112-125 render *)
Definition metric_row (runs : list Results) (o : Options) (m : Metric) : list (list string) * list string :=
  if negb (seen_in runs (m_scenario m)) then ([], [])
  else
    ([[m_scenario m; m_label m] ++
      flat_map (fun r => fmt (get (scenario_of r (m_scenario m)) (m_path m)) ::
                         (if has_baseline o then [or_text (text (compared o m r)) "–"] else [])) runs],
     flat_map (fun r => if has_baseline o && m_gated m && regressed (compared o m r)
                        then [topology r +:+ ": " +:+ m_scenario m +:+ " " +:+ m_label m +:+ " " +:+ text (compared o m r)]
                        else []) runs).

(** Truthiness. *)
Definition js_true (v : option json) : bool :=
  match v with
  | None | Some JNull | Some (JBool false) | Some (JStr "") => false
  | Some (JNum q) => if Qeq_dec q 0 then false else true
  | Some _ => true
  end.

(* @src load/report.js 128-146 render *)
Definition loss_rows (runs : list Results) (o : Options) (scenario : string) : list (list string) :=
  if negb (seen_in runs scenario) then []
  else
    let at_ (r : Results) (path : string) := get (scenario_of r scenario) path in
    ([scenario; "**lost acked messages**"] ++
      flat_map (fun r => fmt (at_ r "lost_acked_messages") :: (if has_baseline o then ["must be 0"] else [])) runs)
    :: (if existsb (fun r => js_true (at_ r "gaps_resynced")) runs
        then [[scenario; "holes recovered with `sync` / `replay_unavailable` errors"] ++
              flat_map (fun r => (fmt (at_ r "gaps_resynced") +:+ " / " +:+ fmt (at_ r "replay_unavailable"))
                                 :: (if has_baseline o then ["–"] else [])) runs]
        else []).

(** [`| ${row.join(" | ")} |`]. *)
Definition table_line (row : list string) : string := "| " +:+ String.concat " | " row +:+ " |".

(* @src load/report.js 103-147 render *)
Definition main_table (runs : list Results) (o : Options) : list string :=
  let h := header runs o in
  [table_line h; table_line (map (fun _ => "---") h)] ++
  map table_line (flat_map (fun m => (metric_row runs o m).1) METRICS) ++
  map table_line (flat_map (loss_rows runs o) LOSS) ++ [""].

(* @src load/report.js 111-125 render *)
Definition regressions (runs : list Results) (o : Options) : list string :=
  flat_map (fun m => (metric_row runs o m).2) METRICS.

(** ** Resources *)

Definition members (v : option json) : list (string * json) :=
  match v with Some (JObj l) => l | _ => [] end.

(* @src load/report.js 153-164 render *)
Definition resource_lines (r : Results) : list string :=
  flat_map (fun '(scenario, s) =>
    let res := member "resources" s in
    if negb (js_true res) then []
    else
      map (fun '(node, n) =>
        let own (name : string) := fmt (member name n) in
        let shared (name : string) :=
          if String.eqb node "db" || String.eqb node "kafka" then "–" else fmt (v ← res; member name v) in
        table_line [topology r; scenario; node; own "cpu_avg_pct"; own "cpu_max_pct"; own "rss_max_mib";
                    shared "db_pool_wait_max_ms"; shared "db_background_pool_wait_max_ms"; shared "oban_depth_max"])
        (members (v ← res; member "nodes" v)))
    (r_scenarios r).

(* @src load/report.js 149-165 render *)
Definition resources (runs : list Results) : list string :=
  ["### Resources"; ""; "Highest values sampled while the scenario ran (CPU and RSS about every 2.5 s, the rest every second)."; "";
   "| Topology | Scenario | Node | CPU avg % | CPU max % | RSS max (MiB) | DB pool wait max (ms) | Background pool wait max (ms) | Oban queue depth max |";
   "| --- | --- | --- | --- | --- | --- | --- | --- | --- |"] ++
  flat_map resource_lines runs ++ [""].

(** ** Checks *)

Definition percent (threshold : option Q) : string :=
  match threshold with Some t => js_num (t * 100)%Q | None => "NaN" end.

(* @src load/report.js 184-195 render *)
Definition checks_section (runs : list Results) (o : Options) : list string :=
  ["### Checks"; ""] ++
  flat_map (fun r => map (fun c =>
    "- " +:+ (if c_ok c then "✅" else if c_warning c then "⚠️" else "❌") +:+ " " +:+ topology r +:+ ": "
    +:+ c_name c +:+ " (" +:+ c_detail c +:+ ")") (r_checks r)) runs ++
  (if has_baseline o then
     match regressions runs o with
     | [] => ["- ✅ no gated metric regressed beyond " +:+ percent (o_threshold o) +:+ " % against the baseline"]
     | l => ["- ❌ p95 regressions beyond " +:+ percent (o_threshold o) +:+ " %: " +:+ String.concat "; " l]
     end
   else []) ++ [""].

(** ** Setup *)

(** [`${v}`]. *)
Definition show (v : option json) : string := match v with Some v => js_string v | None => "undefined" end.

(** [fmt(v / d)]: the quotient of a missing member is [NaN], of [null] 0. *)
Definition fmt_quotient (v : option json) (d : Q) : string :=
  match v with Some (JNum q) => fmt (Some (JNum (q / d))) | Some JNull => "0" | _ => "NaN" end.

(* @src load/report.js 169-180 render *)
Definition setup_lines (r : Results) : list string :=
  let h (name : string) := member name (r_hardware r) in
  ("- **" +:+ topology r +:+ "**: " +:+ show (h "docker_cpus") +:+ " vCPU and " +:+ fmt_quotient (h "docker_memory_bytes") (inject_Z (1024 ^ 3))
   +:+ " GiB visible to Docker (" +:+ show (h "runner_os") +:+ ", " +:+ show (h "runner") +:+ ", kernel " +:+ show (h "kernel") +:+ ", Docker "
   +:+ show (h "docker_version") +:+ "); per-node limits CPU " +:+ show (h "app_cpus_limit") +:+ ", memory " +:+ show (h "app_memory_limit")
   +:+ "; Postgres " +:+ show (h "postgres_version") +:+ ", " +:+ fmt_quotient (h "database_size_bytes") (inject_Z (1024 ^ 2))
   +:+ " MiB after the run; pool size " +:+ show (h "pool_size")
   +:+ (match h "background_pool_size" with Some b => " + " +:+ js_string b +:+ " background" | None => "" end)
   +:+ "; mock provider latency "
   +:+ (if js_true (r_mock r)
        then let m (name : string) := show (v ← r_mock r; member name v) in m "latencyMs" +:+ "+" +:+ m "jitterMs" +:+ " ms, error rate " +:+ m "errorRate"
        else "–") +:+ ".")
  :: map (fun '(scenario, s) =>
       "  - `" +:+ scenario +:+ "`: " +:+ String.concat ", " (map (fun '(k, v) => k +:+ "=" +:+ js_string v) (members (member "params" s))))
       (r_scenarios r).

(* @src load/report.js 167-182 render *)
Definition setup_section (runs : list Results) : list string := ["### Setup"; ""] ++ flat_map setup_lines runs ++ [""].

(** ** The report *)

(** The lines of the report; of no runs it throws. *)
(* @src load/report.js 91-198 render *)
Definition render (runs : list Results) (o : Options) (title : option string) : option (list string) :=
  first ← head runs;
  Some ((match title with None | Some "" => [] | Some t => ["# " +:+ t; ""] end) ++
        ["Commit `" +:+ show (member "commit" (r_run first)) +:+ "`, " +:+ show (member "date" (r_run first)) +:+ ", profile `"
         +:+ show (member "profile" (r_run first)) +:+ "`. Generated by `load/run.sh` (see [Benchmarks](index.md))."; ""] ++
        main_table runs o ++ resources runs ++ setup_section runs ++ checks_section runs o).

(** ** The command *)

Record Args := mkArgs {
  a_baseline : list string; a_threshold : option Q; a_out : option string; a_title : option string; a_files : list string
}.

#[export] Instance eta_Args : Eta Args :=
  fun r => mkArgs (a_baseline r) (a_threshold r) (a_out r) (a_title r) (a_files r).

(** The options of [argv]; [None] when [--baseline] has no file, which throws. *)
(* @src load/report.js 203-214 main *)
Fixpoint parse_args (args : list string) (a : Args) : option Args :=
  match args with
  | [] => Some a
  | "--baseline" :: args => match args with f :: args => parse_args args (a <| a_baseline ::= fun l => l ++ [f] |>) | [] => None end
  | "--threshold" :: args =>
      match args with t :: args => parse_args args (a <| a_threshold := finite_number t |>) | [] => Some (a <| a_threshold := None |>) end
  | "--out" :: args => match args with f :: args => parse_args args (a <| a_out := Some f |>) | [] => Some (a <| a_out := None |>) end
  | "--title" :: args => match args with t :: args => parse_args args (a <| a_title := Some t |>) | [] => Some (a <| a_title := None |>) end
  | f :: args => parse_args args (a <| a_files ::= fun l => l ++ [f] |>)
  end.

Definition no_args : Args := mkArgs [] (Some (15 # 100)) None None [].

(** [process.exit(failed.length || regressions.length ? 1 : 0)]. *)
(* @src load/report.js 224-227 main *)
Definition exit_code (runs : list Results) (o : Options) : Z :=
  match filter (fun r => r_ok r = false) runs, regressions runs o with [], [] => 0 | _, _ => 1 end.

(** The exit status; [read] is the file system with [JSON.parse]. *)
(* @src load/report.js 203-227 main *)
Definition main (read : string -> option Results) (argv : list string) : Z :=
  match parse_args argv no_args ≫= fun a => baseline ← mapM read (a_baseline a); Some (a, baseline) with
  | None => 1
  | Some (a, baseline) =>
      match a_files a with
      | [] => 2
      | files => match mapM read files with
                 | None => 1
                 | Some runs => exit_code runs (mkOptions baseline (a_threshold a))
                 end
      end
  end.
