(* ===== verification/LoadResults.v ===== *)
(** * LoadResults: from a load test's raw files to its checks
    ([load/results.js]).

    The files of a run are a [Dir]: the text files, the JSON files, and the
    clock.  [json_file] and [csv] are [None] for a missing file (or an empty
    JSON one); one that does not parse ends the program and is not modelled.
    A number is an [option Q]: [None] is [NaN], [undefined] or infinite, all of
    which [round] and [JSON.stringify] turn into [null].  Where the JSON files
    hold numbers the program reads numbers: any other value is read as
    [undefined].  The lists of a scenario's samples are those of the mock
    provider.  [r_checks], in order, decide the run. *)

From Stdlib Require Import Ascii.
From stdpp Require Import base gmap list sorting strings pretty.
From Stdlib Require Import ZArith QArith Qround Qabs Qminmax Lia Lqa.
From S2P Require Import Prelude Watermark Json Errors Stringify Sse LoadReport.

Open Scope string_scope.
Open Scope list_scope.
Open Scope Z_scope.

(** ** Files *)

Record Dir := mkDir { csv : string -> option string; json_file : string -> option json; now : Q }.

Fixpoint split_semi (l cur : chars) : list string :=
  match l with
  | [] => [str_of (rev cur)]
  | c :: l => if code c =? 59 then str_of (rev cur) :: split_semi l [] else split_semi l (c :: cur)
  end.

(** The rows of a file, without the blank lines. *)
(* @src load/results.js 24-28 lines *)
Definition lines (d : Dir) (name : string) : list (list string) :=
  map (fun l => split_semi l [])
    (filter (fun l => trim l <> []) (split_lines (chars_of (csv d name ?? "")) [])).

(** [row[i]], and [Number(row[i])]. *)
Definition cell (row : list string) (i : nat) : string := nth i row "".
Definition ncell (row : list string) (i : nat) : option Q := x ← row !! i; finite_number x.

(** ** Numbers *)

Definition num (v : option json) : option Q := match v with Some (JNum q) => Some q | _ => None end.

(** [x || 0]. *)
Definition or0 (x : option Q) : Q := x ?? 0%Q.

(** [a || b]. *)
Definition or_else (a b : option Q) : option Q :=
  match a with Some q => if Qeq_dec q 0 then b else Some q | None => b end.

Definition nonzero (a : option Q) : bool := match or_else a None with Some _ => true | None => false end.

Definition div (a b : option Q) : option Q :=
  a ← a; b ← b; if Qeq_dec b 0 then None else Some (a / b)%Q.

Definition minus (a b : option Q) : option Q := a ← a; b ← b; Some (a - b)%Q.

(** [Math.max(x, ...l)]. *)
Definition max_of (x : Q) (l : list (option Q)) : option Q :=
  foldr (fun a m => a ← a; m ← m; Some (Qmax a m)) (Some x) l.

Definition qlt (a b : Q) : bool := if Qlt_le_dec a b then true else false.
Definition qle (a b : Q) : bool := Qle_bool a b.
Definition qeq (a b : Q) : bool := Qeq_bool a b.

(* @src load/results.js 30-30 round *)
Definition round (x : option Q) (d : Z) : json := match x with Some x => JNum (fixed d x) | None => JNull end.

Definition round1 (x : option Q) : json := round x 1.

(** An object: a member that is [undefined] is not written. *)
Definition obj (l : list (string * option json)) : json :=
  JObj (omap (fun '(k, v) => v ← v; Some (k, v)) l).

(** [`${x}`]. *)
Definition shown (q : Q) : string := js_num q.

(** ** k6 summaries *)

(* @src load/results.js 31-31 metric *)
Definition metric (k6 : json) (name stat : string) : option Q :=
  ms ← member "metrics" k6; m ← member name ms; num (member stat m).

(* @src load/results.js 32-32 count *)
Definition count (k6 : json) (name : string) : Q := or0 (metric k6 name "count").

(* @src load/results.js 188-195 trend *)
Definition trend (k6 : json) (name : string) : json :=
  obj [("p50", Some (round1 (metric k6 name "med"))); ("p95", Some (round1 (metric k6 name "p(95)")));
       ("p99", Some (round1 (metric k6 name "p(99)"))); ("max", Some (round1 (metric k6 name "max")))].

Definition param (k6 : json) (name : string) : option Q := p ← member "params" k6; num (member name p).

(** ** Marks, exit codes, restarts *)

(** The value of the last row with a key: [o[key] = value] for each row. *)
Definition last_row {A} (p : list string -> bool) (f : list string -> A) (rows : list (list string)) : option A :=
  fold_left (fun acc row => if p row then Some (f row) else acc) rows None.

(** [(marks[scenario] || {})[kind]]. *)
(* @src load/results.js 41-45 marks *)
Definition mark (d : Dir) (scenario kind : string) : option Q :=
  v ← last_row (fun r => String.eqb (cell r 0) scenario && String.eqb (cell r 1) kind) (fun r => ncell r 2) (lines d "marks.csv"); v.

(* @src load/results.js 46-46 exitCodes *)
Definition exitCode (d : Dir) (scenario : string) : option Q :=
  v ← last_row (fun r => String.eqb (cell r 0) scenario) (fun r => ncell r 1) (lines d "exit_codes.csv"); v.

(* @src load/results.js 47-47 restarts *)
Definition restarts (d : Dir) (scenario : string) : list (string * option Q) :=
  omap (fun r => if String.eqb (cell r 0) scenario then Some (cell r 1, ncell r 2) else None) (lines d "restarts.csv").

(** ** Samples of the containers *)

Definition is_num_char (c : ascii) : bool := (48 <=? code c) && (code c <=? 57) || (code c =? 46).

Fixpoint span (p : ascii -> bool) (l : chars) : chars * chars :=
  match l with
  | c :: l' => if p c then let '(a, b) := span p l' in (c :: a, b) else ([], l)
  | [] => ([], [])
  end.

(** [[KMGT]?i?B] at the start: its factor, 1 for a unit that is not listed. *)
Definition unit_of (l : chars) : option Q :=
  let '(prefix, l) := match l with
                      | c :: l' => if bool_decide (code c ∈ [75; 77; 71; 84]) then (Some (code c), l') else (None, l)
                      | [] => (None, l)
                      end in
  let '(binary, l) := match l with c :: l' => if code c =? 105 then (true, l') else (false, l) | [] => (false, l) end in
  match l with
  | c :: _ =>
      if negb (code c =? 66) then None
      else Some (inject_Z match prefix, binary with
                          | Some 75, true => 1024 | Some 77, true => 1024 ^ 2 | Some 71, true => 1024 ^ 3 | Some 84, true => 1024 ^ 4
                          | Some 75, false => 1000 | Some 77, false => 1000 ^ 2 | Some 71, false => 1000 ^ 3
                          | _, _ => 1
                          end)
  | [] => None
  end.

(** The first match in the text; the second [option] is [NaN]. *)
Fixpoint find_bytes (fuel : nat) (l : chars) : option (option Q) :=
  match fuel, l with
  | S fuel, c :: rest =>
      if is_num_char c then
        let '(ds, after) := span is_num_char l in
        match unit_of (drop_space after) with
        | Some u => Some (x ← finite_number (str_of ds); Some (x * u)%Q)
        | None => find_bytes fuel after
        end
      else find_bytes fuel rest
  | _, _ => None
  end.

(* @src load/results.js 52-57 bytes *)
Definition bytes (s : string) : option (option Q) := find_bytes (String.length s) (chars_of s).

(** [row[2].replace(/^.*-(app\d?|db|kafka)-\d+$/, "$1")]; the text is read
    backwards from its end. *)
Definition node_name (s : string) : string :=
  let is_digit (c : ascii) := (48 <=? code c) && (code c <=? 57) in
  let r := rev (chars_of s) in
  let '(ds, r) := span is_digit r in
  let after_dash (l : chars) := match l with c :: l => if code c =? 45 then Some l else None | [] => None end in
  let ends (name : string) (l : chars) := rest ← strip_prefix (rev (chars_of name)) l; after_dash rest in
  match ds, after_dash r with
  | _ :: _, Some r =>
      match ends "app" r, ends "db" r, ends "kafka" r with
      | Some _, _, _ => "app"
      | _, Some _, _ => "db"
      | _, _, Some _ => "kafka"
      | _, _, _ => match r with
                   | c :: r' => if is_digit c then match ends "app" r' with Some _ => "app" +:+ str_of [c] | None => s end else s
                   | [] => s
                   end
      end
  | _, _ => s
  end.

(** [parseFloat(text)]: the longest decimal at the start. *)
Definition parse_float (s : string) : option Q :=
  let '(sign, l) := match drop_space (chars_of s) with
                    | c :: l => if code c =? 45 then ((-1)%Z, l) else if code c =? 43 then (1, l) else (1, c :: l)
                    | [] => (1, [])
                    end in
  let '(ip, r) := take_digits l in
  let '(fp, r) := match r with c :: r' => if code c =? 46 then take_digits r' else ([], r) | [] => ([], []) end in
  match ip ++ fp with
  | [] => None
  | ds => Some (Qred (inject_Z (sign * value_of_digits ds) *
                      pow10 (match exponent r with Some (e, _) => e | None => 0 end - Z.of_nat (length fp))))
  end.

Record Stat := mkStat { st_ts : option Q; st_node : string; st_cpu : option Q; st_rss : option (option Q) }.
Record Wait := mkWait { w_ts : option Q; w_node : string; w_ms : option Q }.

(** [samples], and [queuePrev]: the last counters of each histogram. *)
Record Samples := mkSamples {
  stats : list Stat; oban : list (option Q * option Q); queue : list Wait; bgqueue : list Wait;
  queuePrev : gmap string (option Q * option Q)
}.

#[export] Instance eta_Samples : Eta Samples := fun r => mkSamples (stats r) (oban r) (queue r) (bgqueue r) (queuePrev r).

(** The mean wait between two readings of a histogram; none when the counters
    went back (the node restarted). *)
(* @src load/results.js 77-79 samples *)
Definition wait_between (prev : option Q * option Q) (sum n : option Q) : option (option Q) :=
  match prev, sum, n with
  | (Some psum, Some pn), Some sum, Some n =>
      if qle pn n && qle psum sum then Some (Some (if qlt pn n then (sum - psum) / (n - pn) else 0)%Q) else None
  | _, _, _ => None
  end.

(* @src load/results.js 67-79 samples *)
Definition add_hist (ts : option Q) (node kind : string) (sum n : option Q) (s : Samples) : Samples :=
  let key := node +:+ ":" +:+ kind in
  let prev := queuePrev s !! key in
  let s := s <| queuePrev ::= <[key := (sum, n)]> |> in
  match p ← prev; wait_between p sum n with
  | Some ms =>
      let w := mkWait ts node ms in
      if String.eqb kind "hist" then s <| queue ::= fun l => l ++ [w] |> else s <| bgqueue ::= fun l => l ++ [w] |>
  | None => s
  end.

(* @src load/results.js 60-83 samples *)
Definition add_sample (s : Samples) (row : list string) : Samples :=
  let ts := ncell row 0 in
  let is1 (k : string) := bool_decide (row !! 1%nat = Some k) in
  let is3 (k : string) := bool_decide (row !! 3%nat = Some k) in
  if is1 "stats" then
    s <| stats ::= fun l => l ++ [mkStat ts (node_name (cell row 2)) (parse_float (cell row 3)) (bytes (cell row 4))] |>
  else if is1 "oban" && negb (bool_decide (row !! 2%nat = Some "")) then s <| oban ::= fun l => l ++ [(ts, ncell row 2)] |>
  else if is1 "queue" && (is3 "hist" || is3 "bghist") then add_hist ts (cell row 2) (cell row 3) (ncell row 4) (ncell row 5) s
  else if is1 "queue" && is3 "last" then s <| queue ::= fun l => l ++ [mkWait ts (cell row 2) (ncell row 4)] |>
  else s.

Definition samples (d : Dir) : Samples := fold_left add_sample (lines d "samples.csv") (mkSamples [] [] [] [] ∅).

(** ** Resources of a window *)

(* @src load/results.js 113-117 windowOf *)
Definition windowOf (d : Dir) (scenario : string) (extraEnd : option string) : option (Q * Q) :=
  match or_else (mark d scenario "start") None with
  | None => None
  | Some from =>
      Some (from, or_else (k ← extraEnd; mark d scenario k) (or_else (mark d scenario "end") None) ?? now d)
  end.

Definition in_window (w : Q * Q) (ts : option Q) : bool :=
  match ts with Some t => qle w.1 t && qle t w.2 | None => false end.

(** The names in the order in which they first occur. *)
Definition first_seen (l : list string) : list string :=
  fold_left (fun acc x => if bool_decide (x ∈ acc) then acc else acc ++ [x]) l [].

Definition node_usage (l : list Stat) (node : string) : json :=
  let mine := filter (fun s => st_node s = node) l in
  let cpu := omap st_cpu mine in
  let rss := omap st_rss mine in
  let avg := (foldr Qplus 0 cpu / inject_Z (Z.max 1 (Z.of_nat (length cpu))))%Q in
  obj [("cpu_avg_pct", Some (round1 (Some avg)));
       ("cpu_max_pct", Some (round1 (max_of 0 (map Some cpu))));
       ("rss_max_mib", Some (round1 (div (max_of 0 rss) (Some (inject_Z (1024 ^ 2))))))].

(** [l.length ? Math.max(...l) : null]. *)
Definition max_or_null (l : list (option Q)) : option Q :=
  match l with [] => None | x :: l => x ← x; max_of x l end.

(* @src load/results.js 85-111 resources *)
Definition resources (s : Samples) (window : option (Q * Q)) : json :=
  match window with
  | None => JNull
  | Some w =>
      let here := filter (fun x => in_window w (st_ts x) = true) (stats s) in
      let waits (l : list Wait) := map w_ms (filter (fun x => in_window w (w_ts x) = true) l) in
      let depths := map snd (filter (fun x => in_window w x.1 = true) (oban s)) in
      obj [("nodes", Some (JObj (map (fun n => (n, node_usage here n)) (first_seen (map st_node here)))));
           ("oban_depth_max", Some match max_or_null depths with Some q => JNum q | None => JNull end);
           ("db_pool_wait_max_ms", Some (round (max_or_null (waits (queue s))) 2));
           ("db_background_pool_wait_max_ms", Some (round (max_or_null (waits (bgqueue s))) 2))]
  end.

(* @src load/results.js 120-126 rssBefore *)
Definition rssBefore (s : Samples) (ts : Q) : gmap string (option Q) :=
  fold_left (fun out x =>
    match st_ts x, st_rss x with
    | Some t, Some rss => if qlt t ts && qle (ts - 10000)%Q t && negb (String.eqb (st_node x) "db") then <[st_node x := rss]> out else out
    | _, _ => out
    end) (stats s) ∅.
