(* ===== verification/LoadScenarios.v ===== *)
(** * LoadScenarios: the scenarios and the checks of a load test run
    ([load/results.js], from its scenarios on).

    Each block of the program that looks at one scenario is a function from
    the files to the checks it appends and the scenario it adds ([Block]); the
    run is their concatenation, in the program's order, and [results] is what
    [results.json] holds. *)

From Stdlib Require Import Ascii.
From stdpp Require Import base gmap list sorting strings pretty.
From Stdlib Require Import ZArith QArith Qround Qabs Qminmax Lia Lqa.
From S2P Require Import Prelude Watermark Json Errors Stringify Sse LoadReport LoadResults.

Open Scope string_scope.
Open Scope list_scope.
Open Scope Z_scope.

Definition Block : Type := list Check * list (string * json).
Definition no_block : Block := ([], []).

Definition Members : Type := list (string * option json).

(* @src load/results.js 131-131 check *)
Definition check (name : string) (ok : bool) (detail : string) : Check := mkCheck name ok detail false.

Definition jnum (q : Q) : option json := Some (JNum q).
Definition or_null (q : option Q) : option json := Some match q with Some q => JNum q | None => JNull end.

(** ** What every scenario has *)

(* @src load/results.js 138-145 CORRECTNESS *)
Definition CORRECTNESS : list string :=
  ["lost_acked_messages"; "seq_duplicates"; "messages_never_acked"; "subscribers_unverified"; "ws_connected"; "ws_unexpected_closes"].

(** [t.split(":")[0]]. *)
Definition metric_of (t : string) : string := str_of (span (fun c => negb (code c =? 58)) (chars_of t)).1.

(* @src load/results.js 149-151 base *)
Definition failed (k6 : json) : list string :=
  map fst (filter (fun x => js_true (Some x.2) = false) (members (member "thresholds" k6))).

Definition guards (t : string) : bool := bool_decide (metric_of t ∈ CORRECTNESS).

(** k6's exit codes: 99 when a threshold failed. *)
Definition ran (exit : option Q) : bool := match exit with Some e => qeq e 0 || qeq e 99 | None => false end.

(* @src load/results.js 147-167 base *)
Definition base (d : Dir) (scenario : string) (k6 : json) : list Check * Members :=
  let exit := exitCode d scenario in
  let broken := List.filter guards (failed k6) in
  let missed := List.filter (fun t => negb (guards t)) (failed k6) in
  (check (scenario +:+ ": k6 ran and correctness thresholds passed") (ran exit && bool_decide (broken = []))
     (match broken with [] => "k6 exit " +:+ show (JNum <$> exit) | _ => String.concat ", " broken end)
   :: match missed with
      | [] => []
      | _ => [mkCheck (scenario +:+ ": performance targets") false ("missed: " +:+ String.concat ", " missed) true]
      end,
   [("params", member "params" k6);
    ("duration_s", Some (round1 (div (num (member "duration_ms" k6)) (Some 1000%Q))));
    ("targets_missed", Some (JArr (map JStr missed)));
    ("resources", Some (resources (samples d) (windowOf d scenario (if String.eqb scenario "webhook_burst" then Some "drained" else None))))]).

(* @src load/results.js 171-175 measured *)
Definition measured (scenario : string) (k6 : json) : Check :=
  let acked := count k6 "messages_acked" in
  let samples := count k6 "e2e_latency_ms" in
  check (scenario +:+ ": messages sent and received live") (qlt 0 acked && qlt 0 samples)
    (shown acked +:+ " acked, " +:+ shown samples +:+ " latency samples").

(* @src load/results.js 177-186 lossOf *)
Definition lossOf (k6 : json) : Members :=
  [("lost_acked_messages", jnum (count k6 "lost_acked_messages"));
   ("gaps_resynced", jnum (count k6 "seq_gaps_resynced"));
   ("replay_unavailable", jnum (count k6 "replay_unavailable"));
   ("seq_duplicates", jnum (count k6 "seq_duplicates"));
   ("never_acked", jnum (count k6 "messages_never_acked"));
   ("unverified_subscribers", jnum (count k6 "subscribers_unverified"))].

(** ** The scenarios *)

Definition with_file (d : Dir) (name : string) (f : json -> Block) : Block :=
  match json_file d (name +:+ ".json") with Some k6 => f k6 | None => no_block end.

(* @src load/results.js 197-209 e2e *)
Definition e2e (d : Dir) : Block :=
  with_file d "e2e" (fun k6 =>
    let '(checks, s) := base d "e2e" k6 in
    let acked := count k6 "messages_acked" in
    let per_s (x : Q) := Some (round1 (div (Some x) (param k6 "duration_s"))) in
    (checks ++ [measured "e2e" k6],
     [("e2e", obj (s ++
        [("e2e_latency_ms", Some (trend k6 "e2e_latency_ms"));
         ("rest_latency_ms", Some (trend k6 "http_req_duration{name:POST /activities}"));
         ("messages_acked", jnum acked); ("msgs_per_s", per_s acked);
         ("frames_per_s", per_s (count k6 "frames_received" - count k6 "frames_replayed")%Q);
         ("ws_connections", jnum (count k6 "ws_connected"))] ++ lossOf k6))])).

Definition file_or (d : Dir) (name : string) : json := json_file d name ?? JObj [].

Definition elems (v : option json) : list json := match v with Some (JArr l) => l | _ => [] end.
Definition text_at (name : string) (v : json) : string := match member name v with Some (JStr s) => s | _ => "" end.

(** [mock.paths[p]], when it is an object. *)
Definition mock_path (mock : json) (p : string) : option json :=
  ps ← member "paths" mock; match member p ps with Some (JObj l) => Some (JObj l) | _ => None end.

Definition delivered_at (mock : json) (p : string) : Q := or0 (s ← mock_path mock p; num (member "delivered" s)).

Definition latency_at (mock : json) (p stat : string) : option Q :=
  s ← mock_path mock p; l ← member "latency_ms" s; num (member stat l).

Definition pos (x : Q) : Q := Qmax 0 x.

(** [a && b ? round((a - b) / 1000) : null]. *)
Definition seconds_between (a b : option Q) : json :=
  if nonzero a && nonzero b then round1 (div (minus a b) (Some 1000%Q)) else JNull.

(* @src load/results.js 211-238 webhook_burst *)
Definition webhook_burst (d : Dir) : Block :=
  with_file d "webhook_burst" (fun k6 =>
    let '(checks, s) := base d "webhook_burst" k6 in
    let mock := file_or d "mock_stats.json" in
    let targets := map (text_at "path") (elems (member "targets" (file_or d "setup.json"))) in
    let delivered := foldr Qplus 0%Q (map (delivered_at mock) targets) in
    let stored := num (member "burst_activities" (file_or d "db.json")) in
    let expected := (or0 stored * inject_Z (Z.of_nat (length targets)))%Q in
    let worst (k : string) := Some (round1 (max_of 0 (map (fun p => Some (or0 (latency_at mock p k))) targets))) in
    let accepted := count k6 "inbound_accepted" in
    let m := mark d "webhook_burst" in
    let lost := (pos (accepted - or0 stored) + pos (expected - delivered))%Q in
    (checks ++
       [check "webhook_burst: every accepted message stored and delivered to every target" (qeq lost 0)
          ("accepted " +:+ shown accepted +:+ ", stored " +:+ show (JNum <$> stored) +:+ ", delivered "
           +:+ shown delivered +:+ "/" +:+ shown expected)],
     [("webhook_burst", obj (s ++
        [("inbound_accepted", jnum accepted); ("inbound_rejected", jnum (count k6 "inbound_rejected"));
         ("inbound_per_s", Some (round1 (div (Some accepted) (param k6 "duration_s"))));
         ("inbound_latency_ms", Some (trend k6 "http_req_duration{name:POST /inbound}"));
         ("stored", JNum <$> stored); ("deliveries_expected", jnum expected); ("deliveries_delivered", jnum delivered);
         ("delivery_latency_ms", Some (obj [("p50", worst "p50"); ("p95", worst "p95"); ("p99", worst "p99"); ("max", worst "max")]));
         ("drain_after_burst_s", Some (seconds_between (m "drained") (m "end")));
         ("deliveries_per_s", Some (if nonzero (m "drained") && nonzero (m "start")
                                    then round1 (div (Some delivered) (div (minus (m "drained") (m "start")) (Some 1000%Q))) else JNull));
         ("lost_acked_messages", jnum lost)]))])).

(* @src load/results.js 249-252 idle *)
Definition rss_growth (s : Members) (before : gmap string (option Q)) : option Q :=
  let nodes := members (r ← assoc "resources" s; r ← r; member "nodes" r) in
  foldl (fun delta '(node, r) =>
    match before !! node with
    | Some b => if String.eqb node "db" then delta
                else d ← delta; b ← b; Some (d + (or0 (num (member "rss_max_mib" r)) * inject_Z (1024 ^ 2) - b))%Q
    | None => delta
    end) (Some 0%Q) nodes.

(* @src load/results.js 240-256 idle *)
Definition idle (d : Dir) : Block :=
  with_file d "idle" (fun k6 =>
    let '(checks, s) := base d "idle" k6 in
    let connections := count k6 "ws_connected" in
    let sockets := param k6 "sockets" in
    let delta := rss_growth s (rssBefore (samples d) (or0 (mark d "idle" "start"))) in
    (checks,
     [("idle", obj (s ++
        [("sockets", JNum <$> sockets); ("ws_connections", jnum connections);
         ("ws_connect_ms", Some (trend k6 "ws_connect_ms")); ("unexpected_closes", jnum (count k6 "ws_unexpected_closes"));
         ("rss_growth_mib", Some (round1 (div delta (Some (inject_Z (1024 ^ 2))))));
         ("kib_per_socket", Some (if nonzero (Some connections) then round1 (div (div delta (Some 1024%Q)) sockets) else JNull))]))])).

(* @src load/results.js 258-275 reconnect_scenarios *)
Definition reconnects (d : Dir) (name : string) : Block :=
  with_file d name (fun k6 =>
    let '(checks, s) := base d name k6 in
    let r := restarts d name in
    (checks ++ [measured name k6],
     [(name, obj (s ++
        [("e2e_latency_ms", Some (trend k6 "e2e_latency_ms")); ("ws_reconnect_ms", Some (trend k6 "ws_reconnect_ms"));
         ("reconnects", jnum (count k6 "ws_reconnects")); ("messages_acked", jnum (count k6 "messages_acked"));
         ("send_retries", jnum (count k6 "send_retries"))] ++
        match r with
        | [] => []
        | _ => [("node_recovery_s", Some (JObj (fold_left (fun l '(n, ms) => set_member n (round1 (div ms (Some 1000%Q))) l) r [])));
                ("recovery_max_s", Some (round1 (div (max_or_null (map snd r)) (Some 1000%Q))))]
        end ++ lossOf k6))])).

(* @src load/results.js 283-313 backbone *)
Definition backbone (d : Dir) : Block :=
  let db := file_or d "db.json" in
  match member "tenant_activities" db, member "backbone_webhook_events" db with
  | Some expected, Some rows =>
      let name := text_at "backbone" (file_or d "run.json") in
      let mock := file_or d "mock_stats.json" in
      let expected := or0 (num (Some expected)) in
      let rows := num (Some rows) in
      let distinct := num (member "backbone_webhook_events_distinct" db) in
      let delivered := delivered_at mock "backbone" in
      let duplicates := minus rows distinct in
      let redelivered := or0 (s ← mock_path mock "backbone"; num (member "duplicates" s)) in
      let p (k : string) := Some (round1 (latency_at mock "backbone" k)) in
      let lost := pos (expected - delivered)%Q in
      let equals (x : option Q) (q : Q) := match x with Some x => qeq x q | None => false end in
      ([check ("backbone (" +:+ name +:+ "): every activity observed by the subscriber exactly once")
          (qeq lost 0 && equals duplicates 0%Q && equals distinct expected)
          (shown delivered +:+ "/" +:+ shown expected +:+ " observed, " +:+ show (JNum <$> rows) +:+ " webhook events ("
           +:+ show (JNum <$> duplicates) +:+ " duplicates), " +:+ shown redelivered +:+ " HTTP redeliveries")],
       [("backbone", obj
          [("params", Some (obj [("backbone", Some (JStr name)); ("subscriber", Some (JStr "platform webhook (activity.created)"))]));
           ("backbone", Some (JStr name)); ("events_expected", jnum expected); ("events_observed", jnum delivered);
           ("webhook_event_rows", JNum <$> rows); ("duplicate_events", or_null duplicates); ("http_redeliveries", jnum redelivered);
           ("parked_jobs", member "backbone_parked_jobs" db);
           ("publish_to_subscriber_ms", Some (obj [("p50", p "p50"); ("p95", p "p95"); ("p99", p "p99"); ("max", p "max")]));
           ("caught_up_after_drain_s", Some (seconds_between (mark d "backbone" "caught_up") (mark d "backbone" "deliveries_drained")));
           ("lost_acked_messages", jnum lost)])])
  | _, _ => no_block
  end.

(** ** Dead-channel isolation *)

(* @src load/results.js 322-322 ISOLATION_TOLERANCE *)
Definition ISOLATION_TOLERANCE : Q := 2 # 10.
(* @src load/results.js 323-323 ISOLATION_TOLERANCE_MS *)
Definition ISOLATION_TOLERANCE_MS : Q := 50.

#[export] Instance Qle_dec : RelDecision Qle := fun x y =>
  match Qlt_le_dec y x with left H => right (Qlt_not_le _ _ H) | right H => left H end.

(** The index of the nearest rank of [p] percent among [n] values. *)
(* @src load/results.js 325-326 pctOf *)
Definition rank (n p : Z) : Z := Z.min (n - 1) (Z.max 0 (Qceiling ((inject_Z p / 100) * inject_Z n) - 1)).

(* @src load/results.js 325-326 pctOf *)
Definition pctOf (sorted : list Q) (p : Z) : option Q :=
  match sorted with [] => None | _ => sorted !! Z.to_nat (rank (Z.of_nat (length sorted)) p) end.

Record Latency := mkLatency { l_count : nat; l_p50 : option Q; l_p95 : option Q; l_p99 : option Q; l_max : option Q }.

Definition sorted_values (values : list Q) : list Q := merge_sort Qle values.

(* @src load/results.js 327-336 latencyOf *)
Definition latencyOf (values : list Q) : Latency :=
  let sorted := sorted_values values in
  let r (x : option Q) := fixed 1 <$> x in
  mkLatency (length sorted) (r (pctOf sorted 50)) (r (pctOf sorted 95)) (r (pctOf sorted 99)) (r (last sorted)).

Definition latency_json (l : Latency) : json :=
  obj [("count", jnum (inject_Z (Z.of_nat (l_count l)))); ("p50", or_null (l_p50 l)); ("p95", or_null (l_p95 l));
       ("p99", or_null (l_p99 l)); ("max", or_null (l_max l))].

(** The scenario object of a phase, with the members other code reads. *)
Record Phase := mkPhase {
  p_members : Members; p_acked : Q; p_delivered : nat; p_duplicates : option Q; p_latency : Latency;
  p_lost : Q; p_never_acked : Q; p_samples : list (Q * Q); p_dead_provider : option json
}.

(** [[arrived, latency]]. *)
Definition sample_of (v : json) : option (Q * Q) := match v with JArr [JNum a; JNum l] => Some (a, l) | _ => None end.

Definition sentAt (x : Q * Q) : Q := (x.1 - x.2)%Q.

(* @src load/results.js 338-366 isolationPhase *)
Definition isolationPhase (d : Dir) (phase : string) : list Check * option Phase :=
  let name := "dead_channel_" +:+ phase in
  match json_file d (name +:+ ".json") with
  | None => ([], None)
  | Some k6 =>
      let '(checks, s) := base d name k6 in
      let m := mark d name in
      let from := if String.eqb phase "baseline" then 0%Q
                  else or0 (or_else (mark d "dead_channel_baseline" "drained") (or_else (m "start") None)) in
      let samples := List.filter (fun x => qle from (sentAt x)) (omap sample_of (elems (json_file d (name +:+ ".samples.json")))) in
      let mockStats := file_or d (name +:+ ".mock.json") in
      let healthy := mock_path mockStats "healthy" in
      let duplicates := match healthy with Some h => num (member "duplicates" h) | None => Some 0%Q end in
      let lastArrival := fst <$> last samples in
      let acked := count k6 "messages_acked" in
      let delivered := inject_Z (Z.of_nat (length samples)) in
      let latency := latencyOf (map snd samples) in
      let lost := pos (acked - delivered)%Q in
      let never := count k6 "messages_never_acked" in
      (checks,
       Some (mkPhase
         (s ++ [("messages_acked", jnum acked); ("delivered", jnum delivered); ("duplicates", JNum <$> duplicates);
                ("latency_ms", Some (latency_json latency));
                ("deliveries_per_s", Some (if nonzero lastArrival && nonzero (m "start")
                                           then round1 (div (Some delivered) (div (minus lastArrival (m "start")) (Some 1000%Q))) else JNull));
                ("drained_after_send_s", Some (seconds_between (m "drained") (m "end")));
                ("lost_acked_messages", jnum lost); ("never_acked", jnum never);
                ("dead_provider", Some (mock_path mockStats "hang-dead" ?? JNull))])
         acked (length samples) duplicates latency lost never samples (mock_path mockStats "hang-dead")))
  end.

Record Circuit := mkCircuit { ci_ts : option Q; ci_state : string; ci_executing : option Q; ci_available : option Q; ci_parked : option Q }.

(* @src load/results.js 383-396 circuit *)
Definition circuit (d : Dir) : list Circuit :=
  map (fun r => mkCircuit (ncell r 0) (cell r 1) (ncell r 3) (ncell r 4) (ncell r 5))
    (List.filter (fun r => (9 <=? length r)%nat) (lines d "dead_channel_circuit.csv")).

(* @src load/results.js 398-398 opened *)
Definition opened (d : Dir) : option Circuit :=
  find (fun c => String.eqb (ci_state c) "open" || String.eqb (ci_state c) "half_open") (circuit d).

(* @src load/results.js 401-401 parkedAt *)
Definition parkedAt (d : Dir) : option Circuit :=
  match or_else (mark d "dead_channel" "backlog_created") None with
  | None => None
  | Some t => find (fun c => match ci_ts c, ci_available c with Some ts, Some a => qle t ts && qeq a 0 | _, _ => false end) (circuit d)
  end.

(* @src load/results.js 402-402 sinceStart *)
Definition sinceStart (d : Dir) (c : option Circuit) : json :=
  match c with
  | Some c => let t0 := mark d "dead_channel" "backlog_start" in
              if nonzero t0 then round1 (div (minus (ci_ts c) t0) (Some 1000%Q)) else JNull
  | None => JNull
  end.

(* @src load/results.js 429-429 p95_limit_ms *)
Definition p95_limit (b95 : option Q) : option Q :=
  (fun b => fixed 1 (Qmax (b * (1 + ISOLATION_TOLERANCE)) (b + ISOLATION_TOLERANCE_MS)))%Q <$> b95.

(** The checks of the isolation; [d95] and the limit are [null] without
    samples. *)
(* @src load/results.js 437-454 isolation_checks *)
Definition isolation_checks (d : Dir) (b x : Phase) : list Check :=
  let b95 := l_p95 (p_latency b) in
  let d95 := l_p95 (p_latency x) in
  let limit := p95_limit b95 in
  let zero (q : option Q) := match q with Some q => qeq q 0 | None => false end in
  let ratio (p : Phase) := pretty (p_delivered p) +:+ "/" +:+ shown (p_acked p) in
  [check "dead_channel: healthy tenant p95 with a dead channel within tolerance of the baseline"
     (match d95, limit with Some x, Some l => qle x l | _, _ => false end)
     ("baseline p95 " +:+ show (or_null b95) +:+ " ms, dead p95 " +:+ show (or_null d95) +:+ " ms, limit " +:+ show (or_null limit) +:+ " ms");
   check "dead_channel: every healthy-tenant message delivered once"
     (qeq (p_lost b + p_lost x) 0 && zero (p_duplicates b) && zero (p_duplicates x))
     ("baseline " +:+ ratio b +:+ ", dead " +:+ ratio x);
   check "dead_channel: the dead channel's breaker opened" (match opened d with Some _ => true | None => false end)
     (match opened d with
      | Some c => "open " +:+ js_string (sinceStart d (Some c)) +:+ " s after the backlog started"
      | None => "breaker never opened"
      end)].

Definition min_or_null (l : list Q) : option Q := match l with [] => None | x :: l => Some (foldr Qmin x l) end.

(** The samples over the limit, and the healthy tenant before and after the
    backlog was parked. *)
(* @src load/results.js 419-436 degraded *)
Definition degradation (d : Dir) (limit : option Q) (x : Phase) : Members :=
  let t0 := mark d "dead_channel" "backlog_start" in
  let latencies (p : Q -> bool) := Some (latency_json (latencyOf (map snd (List.filter (fun x => p (sentAt x)) (p_samples x))))) in
  let over := map sentAt (List.filter (fun x => match limit with Some l => qlt l x.2 | None => false end) (p_samples x)) in
  let since (t : option Q) := match t with
                              | Some _ => Some (if nonzero t0 then round1 (div (minus t t0) (Some 1000%Q)) else JNull)
                              | None => Some JNull
                              end in
  match c ← parkedAt d; ci_ts c with
  | Some ts => [("transient_latency_ms", latencies (fun t => qlt t ts)); ("steady_latency_ms", latencies (fun t => qle ts t))]
  | None => []
  end ++
  [("over_limit_messages", jnum (inject_Z (Z.of_nat (length over))));
   ("degraded_from_s", since (min_or_null over));
   ("degraded_until_s", since (max_or_null (map Some over)))].

(* @src load/results.js 408-417 breaker *)
Definition breaker (d : Dir) (backlog : json) (x : Phase) : Members :=
  let some_nonzero (q : option Q) := or_null (or_else q None) in
  [("backlog", Some (obj [("deliveries", some_nonzero (num (member "created" backlog)));
                          ("created_in_s", Some (if nonzero (num (member "ms" backlog))
                                                 then round1 (div (num (member "ms" backlog)) (Some 1000%Q)) else JNull))]));
   ("breaker", Some (obj
      [("opened_after_s", Some (sinceStart d (opened d)));
       ("backlog_parked_after_s", Some (sinceStart d (parkedAt d)));
       ("max_dead_executing", or_null (max_or_null (map ci_executing (circuit d))));
       ("max_parked", or_null (max_or_null (map ci_parked (circuit d))));
       ("states", Some (JArr (map JStr (first_seen (map ci_state (circuit d))))));
       ("final", Some (JStr (str_of (trim (chars_of (csv d "dead_channel_final.txt" ?? ""))))));
       ("dead_provider_requests", match p_dead_provider x with Some p => member "requests" p | None => Some JNull end)]))].

(* @src load/results.js 368-456 dead_channel *)
Definition dead_channel (d : Dir) : Block :=
  let '(bchecks, b) := isolationPhase d "baseline" in
  let '(xchecks, x) := isolationPhase d "dead" in
  match b, x with
  | Some b, Some x =>
      let fixtures := file_or d "isolation.json" in
      let backlog := file_or d "dead_channel_backlog.json" in
      let b95 := l_p95 (p_latency b) in
      let limit := p95_limit b95 in
      let params := members (p ← assoc "params" (p_members x); p) in
      (bchecks ++ xchecks ++ isolation_checks d b x,
       [("dead_channel", obj (
          [("params", Some (obj (map (fun '(k, v) => (k, Some v)) params ++
              [("backlog", member "created" backlog); ("healthy_tier", member "tier" fixtures); ("dead_tier", member "dead_tier" fixtures);
               ("tolerance", Some (JStr (shown (ISOLATION_TOLERANCE * 100) +:+ " % or " +:+ shown ISOLATION_TOLERANCE_MS +:+ " ms")))])));
           ("baseline", Some (obj (p_members b)));
           ("dead", Some (obj (p_members x ++ degradation d limit x)))] ++ breaker d backlog x ++
          [("p95_limit_ms", or_null limit);
           ("p95_change_pct", Some (match or_else b95 None with
                                    | Some q => round1 (Some ((or0 (l_p95 (p_latency x)) - q) / q * 100)%Q)
                                    | None => JNull
                                    end));
           ("lost_acked_messages", jnum (p_lost b + p_lost x)%Q);
           ("never_acked", jnum (p_never_acked b + p_never_acked x)%Q);
           ("resources", r ← assoc "resources" (p_members x); r)]))])
  | _, _ => (bchecks ++ xchecks, [])
  end.

(** ** The run *)

Definition add_block (a b : Block) : Block := (a.1 ++ b.1, a.2 ++ b.2).

(** The blocks of the program, in order. *)
Definition blocks (d : Dir) : list Block :=
  [e2e d; webhook_burst d; idle d] ++ map (reconnects d) ["reconnect_storm"; "rolling_restart"; "node_kill"] ++
  [backbone d; dead_channel d].

Definition all_blocks (d : Dir) : Block := foldr add_block no_block (blocks d).

(** The zero-loss check of a scenario. *)
(* @src load/results.js 458-462 zero_lost *)
Definition loss_check (s : string * json) : option Check :=
  let '(name, s) := s in
  if String.eqb name "webhook_burst" || String.eqb name "backbone" then None
  else
    lost ← member "lost_acked_messages" s;
    let never := member "never_acked" s in
    Some (check (name +:+ ": zero lost acked messages")
            (match num (Some lost) with Some q => qeq q 0 | None => false end && negb (js_true never))
            ("lost " +:+ js_string lost +:+ ", never acked " +:+ (if js_true never then show never else "0"))).

(* @src load/results.js 465-472 fanout *)
Definition fanout_checks (d : Dir) : list Check :=
  let mock := file_or d "mock_stats.json" in
  let db := file_or d "db.json" in
  let stored := num (member "fanout_activities" db) in
  match mock_path mock "fanout", nonzero stored with
  | None, false => []
  | _, _ =>
      let delivered := delivered_at mock "fanout" in
      [check "fan-out channel: every activity delivered to the outbound webhook"
         (match stored with Some s => qle s delivered | None => false end)
         (shown delivered +:+ "/" +:+ show (JNum <$> stored) +:+ " delivered, "
          +:+ show (member "open_delivery_jobs" db) +:+ " jobs still open")]
  end.

Definition all_checks (d : Dir) : list Check :=
  (all_blocks d).1 ++ omap loss_check (all_blocks d).2 ++ fanout_checks d.

(** [c.ok || c.warning]. *)
Definition passes (c : Check) : bool := c_ok c || c_warning c.

(* @src load/results.js 474-481 results *)
Definition results (d : Dir) : Results :=
  let run := file_or d "run.json" in
  mkResults (or0 (num (member "nodes" run))) (text_at "backbone" run) (all_blocks d).2 (all_checks d)
    (forallb passes (all_checks d)) run
    (obj (map (fun '(k, v) => (k, Some v)) (members (Some (file_or d "hardware.json"))) ++
          [("postgres_version", member "postgres_version" (file_or d "db.json"));
           ("database_size_bytes", member "database_size_bytes" (file_or d "db.json"))]))
    (member "config" (file_or d "mock_stats.json")).
