(* ===== verification/LoadFacts.v ===== *)
(** * LoadFacts: when a load test passes
    ([load/results.js] and [load/report.js]).

    [clean], [live], [lossless] and the records below say what a run must have
    done; [run_ok_iff] is that the checks of [LoadScenarios] decide exactly
    that, [percentile_nearest_rank] what its percentiles are, and
    [gate_exit_iff] when the report fails a build. *)

From stdpp Require Import base gmap list sorting strings.
From Stdlib Require Import ZArith QArith Qround Qabs Qminmax Lia Lqa.
From S2P Require Import Prelude Watermark Json Errors Stringify Sse LoadReport LoadResults LoadScenarios.

Open Scope string_scope.
Open Scope list_scope.
Open Scope Z_scope.

(** ** Percentiles *)

(** How many of the values are at most [v]. *)
Definition at_most (v : Q) (l : list Q) : nat := length (List.filter (fun x => qle x v) l).

Lemma at_most_perm v l k : l ≡ₚ k -> at_most v l = at_most v k.
Proof.
  unfold at_most. induction 1 as [|x l k _ IH|x y l|l k m _ IH1 _ IH2]; simpl; [done| | |by rewrite IH1].
  - destruct (qle x v); simpl; by rewrite IH.
  - by destruct (qle x v), (qle y v).
Qed.

Lemma qle_true x y : qle x y = true <-> (x <= y)%Q.
Proof. apply Qle_bool_iff. Qed.

Lemma at_most_all v l : Forall (fun x => (x <= v)%Q) l -> at_most v l = length l.
Proof. unfold at_most. induction 1 as [|x l Hx _ IH]; [done|]. simpl. apply qle_true in Hx. rewrite Hx. simpl. by rewrite IH. Qed.

Lemma at_most_none v l : Forall (fun x => ~ (x <= v)%Q) l -> at_most v l = 0%nat.
Proof.
  unfold at_most. induction 1 as [|x l Hx _ IH]; [done|]. simpl. rewrite <- qle_true in Hx. by destruct (qle x v).
Qed.

Lemma at_most_app v l k : at_most v (l ++ k) = (at_most v l + at_most v k)%nat.
Proof. unfold at_most. by rewrite List.filter_app, length_app. Qed.

#[local] Instance Qle_trans_inst : Transitive Qle := Qle_trans.
#[local] Instance Qle_total : Total Qle.
Proof. intros x y. destruct (Qlt_le_dec x y) as [H|H]; [left; by apply Qlt_le_weak|by right]. Qed.

(** In a sorted list at least [i + 1] values are at most the one at [i], and
    at most [i] are below it. *)
Lemma sorted_split l i v : StronglySorted Qle l -> l !! i = Some v ->
  (S i <= at_most v l)%nat /\ forall u, (u < v)%Q -> (at_most u l <= i)%nat.
Proof.
  intros Hs Hi. assert (Hlen := lookup_lt_Some _ _ _ Hi). rewrite <- (take_drop_middle _ _ _ Hi) in Hs.
  assert (Hlow : Forall (fun x => (x <= v)%Q) (take i l)).
  { apply Forall_forall. intros x Hx. eapply (StronglySorted_app_1_elem_of Qle); [exact Hs|exact Hx|]. left. }
  assert (Hhigh : Forall (fun x => (v <= x)%Q) (v :: drop (S i) l)).
  { apply StronglySorted_app_1_r, StronglySorted_inv in Hs as [_ Hs]. by constructor; [apply Qle_refl|]. }
  rewrite <- (take_drop_middle _ _ _ Hi). split.
  - rewrite at_most_app, at_most_all, length_take by done. unfold at_most. simpl.
    replace (qle v v) with true by (symmetry; apply qle_true, Qle_refl). simpl. lia.
  - intros u Hu. rewrite at_most_app, (at_most_none _ (v :: _)).
    + unfold at_most. pose proof (filter_length_le (fun x => qle x u) (take i l)). rewrite length_take in *. lia.
    + eapply Forall_impl; [exact Hhigh|]. simpl. intros x Hx Hxu. apply (Qlt_not_le _ _ Hu). by eapply Qle_trans.
Qed.

Lemma rank_spec n p : 0 < n -> 0 < p <= 100 ->
  0 <= rank n p < n /\ p * n <= 100 * (rank n p + 1) /\ forall k, p * n <= 100 * k -> rank n p < k.
Proof.
  intros Hn Hp. unfold rank. set (x := (inject_Z p / 100 * inject_Z n)%Q).
  assert (Hx : (x * 100 == inject_Z (p * n))%Q) by (unfold x; rewrite inject_Z_mult; field).
  assert (Hc : forall k, p * n <= 100 * k <-> Qceiling x <= k).
  { intros k. transitivity (x <= inject_Z k)%Q.
    - rewrite Zle_Qle, <- Hx, inject_Z_mult. change (inject_Z 100) with 100%Q. split; intros; nra.
    - split; intros H.
      + apply Z.lt_succ_r. rewrite Zlt_Qlt. eapply Qlt_le_trans; [|unfold Z.succ; rewrite inject_Z_plus; apply Qplus_le_compat; [exact H|apply Qle_refl]].
        pose proof (Qceiling_lt x) as Hl. unfold Z.sub in Hl. rewrite inject_Z_plus in Hl. change (inject_Z (- (1))) with (-1)%Q in Hl.
        change (inject_Z 1) with 1%Q. lra.
      + eapply Qle_trans; [apply Qle_ceiling|]. by rewrite <- Zle_Qle. }
  assert (H1 : 1 <= Qceiling x). { destruct (Z.le_gt_cases 1 (Qceiling x)) as [|Hle]; [done|]. assert (p * n <= 100 * 0) by (apply Hc; lia). nia. }
  assert (H2 : Qceiling x <= n) by (apply Hc; nia).
  split; [lia|]. split; [apply Hc; lia|]. intros k Hk. apply Hc in Hk. lia.
Qed.

(** The percentiles are nearest-rank percentiles.  For any non-empty list
    of latencies, [pctOf] of the sorted list is one of them, at least [p]
    percent of the latencies are at most it, and it is the least number with
    that property. *)
Theorem percentile_nearest_rank (values : list Q) (p : Z) :
  values <> [] -> 0 < p <= 100 ->
  exists v, pctOf (sorted_values values) p = Some v /\ v ∈ values /\
    p * Z.of_nat (length values) <= 100 * Z.of_nat (at_most v values) /\
    forall u, p * Z.of_nat (length values) <= 100 * Z.of_nat (at_most u values) -> (v <= u)%Q.
Proof.
  intros Hne Hp. unfold pctOf, sorted_values. pose proof (StronglySorted_merge_sort Qle values) as Hs.
  pose proof (merge_sort_Permutation Qle values) as Hm. set (l := merge_sort Qle values) in *. clearbody l.
  rewrite <- (Permutation_length Hm). destruct (rank_spec (Z.of_nat (length l)) p) as ((H1 & H2) & H3 & H4); [|done|].
  { destruct l; [by apply Permutation_nil_l in Hm|simpl; lia]. }
  set (r := rank _ p) in *. clearbody r. destruct (lookup_lt_is_Some_2 l (Z.to_nat r)) as [v Hv]; [lia|].
  exists v. destruct l as [|x l0] eqn:E; [simpl in *; lia|]. rewrite <- E in *. split; [exact Hv|].
  destruct (sorted_split _ _ _ Hs Hv) as [Ha Hb].
  split; [rewrite <- Hm; by apply list_elem_of_lookup_2 in Hv|]. split; [rewrite <- (at_most_perm _ _ _ Hm); lia|].
  intros u Hu. rewrite <- (at_most_perm _ _ _ Hm) in Hu. apply H4 in Hu. destruct (Qlt_le_dec u v) as [Hlt|]; [|done].
  apply Hb in Hlt. lia.
Qed.

Lemma percentile_nearest_rank_witness :
  pctOf (sorted_values [30%Q; 10%Q; 20%Q; 40%Q]) 50 = Some 20%Q /\
  exists v, pctOf (sorted_values [30%Q; 10%Q; 20%Q; 40%Q]) 50 = Some v /\ 50 * 4 <= 100 * Z.of_nat (at_most v [30%Q; 10%Q; 20%Q; 40%Q]).
Proof.
  split; [vm_compute; reflexivity|].
  destruct (percentile_nearest_rank [30%Q; 10%Q; 20%Q; 40%Q] 50 ltac:(discriminate) ltac:(lia)) as (v & H1 & _ & H2 & _).
  exists v. split; [exact H1|exact H2].
Defined.

(** ** What a run must have done *)

(** k6 ended by itself and no correctness threshold failed. *)
Definition clean (d : Dir) (name : string) (k6 : json) : Prop :=
  ran (exitCode d name) = true /\
  forall t v, (t, v) ∈ members (member "thresholds" k6) -> metric_of t ∈ CORRECTNESS -> js_true (Some v) = true.

(** Messages were sent and seen live. *)
Definition live (k6 : json) : Prop := (0 < count k6 "messages_acked")%Q /\ (0 < count k6 "e2e_latency_ms")%Q.

(** No acked message was lost and every message was acked. *)
Definition lossless (k6 : json) : Prop := (count k6 "lost_acked_messages" == 0)%Q /\ (count k6 "messages_never_acked" == 0)%Q.

(** Every accepted message was stored and delivered to every target. *)
Definition burst_delivered (d : Dir) (k6 : json) : Prop :=
  let stored := or0 (num (member "burst_activities" (file_or d "db.json"))) in
  let targets := map (text_at "path") (elems (member "targets" (file_or d "setup.json"))) in
  (count k6 "inbound_accepted" <= stored)%Q /\
  (stored * inject_Z (Z.of_nat (length targets)) <=
   foldr Qplus 0 (map (delivered_at (file_or d "mock_stats.json")) targets))%Q.

(** The subscriber of the backbone saw every activity, once. *)
Definition observed_once (d : Dir) (expected rows : json) : Prop :=
  (or0 (num (Some expected)) <= delivered_at (file_or d "mock_stats.json") "backbone")%Q /\
  exists r k, num (Some rows) = Some r /\ num (member "backbone_webhook_events_distinct" (file_or d "db.json")) = Some k /\
    (r == k)%Q /\ (k == or0 (num (Some expected)))%Q.

(** The dead channel left the healthy tenant alone. *)
Record isolated (d : Dir) (b x : Phase) : Prop := {
  iso_p95 : exists b95 x95, l_p95 (p_latency b) = Some b95 /\ l_p95 (p_latency x) = Some x95 /\
            (x95 <= fixed 1 (Qmax (b95 * (1 + ISOLATION_TOLERANCE)) (b95 + ISOLATION_TOLERANCE_MS)))%Q;
  iso_lost : (p_lost b + p_lost x == 0)%Q;
  iso_acked : (p_never_acked b + p_never_acked x == 0)%Q;
  iso_once : exists q r, p_duplicates b = Some q /\ p_duplicates x = Some r /\ (q == 0)%Q /\ (r == 0)%Q;
  iso_opened : is_Some (opened d)
}.

(** Every stored activity of the fan-out channel was delivered. *)
Definition fanned_out (d : Dir) : Prop :=
  exists s, num (member "fanout_activities" (file_or d "db.json")) = Some s /\
    (s <= delivered_at (file_or d "mock_stats.json") "fanout")%Q.

Definition e2e_like : list string := ["e2e"; "reconnect_storm"; "rolling_restart"; "node_kill"].

Record run_passed (d : Dir) : Prop := {
  rp_messages : forall name k6, name ∈ e2e_like -> json_file d (name +:+ ".json") = Some k6 -> clean d name k6 /\ live k6 /\ lossless k6;
  rp_burst : forall k6, json_file d "webhook_burst.json" = Some k6 -> clean d "webhook_burst" k6 /\ burst_delivered d k6;
  rp_idle : forall k6, json_file d "idle.json" = Some k6 -> clean d "idle" k6;
  rp_backbone : forall expected rows, member "tenant_activities" (file_or d "db.json") = Some expected ->
                member "backbone_webhook_events" (file_or d "db.json") = Some rows -> observed_once d expected rows;
  rp_phases : forall phase k6, phase ∈ ["baseline"; "dead"] -> json_file d ("dead_channel_" +:+ phase +:+ ".json") = Some k6 ->
              clean d ("dead_channel_" +:+ phase) k6;
  rp_isolated : forall b x, (isolationPhase d "baseline").2 = Some b -> (isolationPhase d "dead").2 = Some x -> isolated d b x;
  rp_fanout : is_Some (mock_path (file_or d "mock_stats.json") "fanout") \/
              nonzero (num (member "fanout_activities" (file_or d "db.json"))) = true -> fanned_out d
}.

(** ** The checks decide it *)

Definition block_ok (b : Block) : bool := forallb passes b.1 && forallb passes (omap loss_check b.2).

Lemma all_blocks_ok l :
  forallb passes (foldr add_block no_block l).1 && forallb passes (omap loss_check (foldr add_block no_block l).2) = forallb block_ok l.
Proof.
  induction l as [|b l IH]; [done|]. cbn [foldr forallb].
  set (r := foldr add_block no_block l) in *. unfold add_block. cbn [fst snd].
  rewrite omap_app, !forallb_app, <- IH. unfold block_ok.
  by destruct (forallb passes b.1), (forallb passes (omap loss_check b.2)), (forallb passes r.1).
Qed.

Lemma run_ok_blocks d : r_ok (results d) = forallb block_ok (blocks d) && forallb passes (fanout_checks d).
Proof.
  rewrite <- all_blocks_ok. unfold results, all_checks, all_blocks. cbn [r_ok].
  by rewrite forallb_app, (forallb_app passes (omap _ _)), andb_assoc.
Qed.

Lemma base_ok d name k6 : forallb passes (base d name k6).1 = true <-> clean d name k6.
Proof.
  unfold base, clean. cbn [fst forallb]. unfold passes at 1. cbn [check c_ok c_warning]. rewrite orb_false_r.
  transitivity (ran (exitCode d name) && bool_decide (List.filter guards (failed k6) = []) = true).
  { by destruct (List.filter (fun t => negb (guards t)) (failed k6)); simpl; rewrite andb_true_r. }
  rewrite andb_true_iff, bool_decide_eq_true. apply and_iff_compat_l. unfold failed. split.
  - intros Hf t v Hin Hg. destruct (js_true (Some v)) eqn:E; [done|]. exfalso.
    assert (Hx : List.In t (List.filter guards (map fst (filter (fun x => js_true (Some x.2) = false) (members (member "thresholds" k6)))))).
    { apply filter_In. split; [|by apply bool_decide_eq_true]. apply (in_map fst _ (t, v)), list_elem_of_In, list_elem_of_filter. done. }
    rewrite Hf in Hx. destruct Hx.
  - intros H. destruct (List.filter guards _) as [|t l] eqn:E; [done|]. exfalso.
    assert (Hx : List.In t (t :: l)) by (by left). rewrite <- E in Hx. apply filter_In in Hx as [Hx Hg].
    apply in_map_iff in Hx as ([t' v] & <- & Hx). apply list_elem_of_In, list_elem_of_filter in Hx as [Hv Hx].
    apply bool_decide_eq_true in Hg. specialize (H _ _ Hx Hg). change (js_true (Some v) = false) in Hv. rewrite H in Hv. discriminate.
Qed.

Lemma qlt_true x y : qlt x y = true <-> (x < y)%Q.
Proof. unfold qlt. destruct (Qlt_le_dec x y) as [H|H]; [done|]. split; [done|]. intros Hl. by destruct (Qlt_not_le _ _ Hl). Qed.

Lemma qeq_true x y : qeq x y = true <-> (x == y)%Q.
Proof. apply Qeq_bool_iff. Qed.

Lemma js_true_num q : negb (js_true (Some (JNum q))) = qeq q 0.
Proof.
  simpl. destruct (Qeq_dec q 0) as [H|H]; [by symmetry; apply qeq_true|]. symmetry. apply not_true_iff_false. by rewrite qeq_true.
Qed.

Lemma pos_zero x : (pos x == 0)%Q <-> (x <= 0)%Q.
Proof.
  unfold pos. split; intros H.
  - rewrite <- H. apply Q.le_max_r.
  - by apply Q.max_l.
Qed.

Lemma pos_sum_zero x y : (pos x + pos y == 0)%Q <-> (x <= 0)%Q /\ (y <= 0)%Q.
Proof.
  assert (Hx := Q.le_max_l 0 x). assert (Hy := Q.le_max_l 0 y). fold (pos x) in Hx. fold (pos y) in Hy.
  rewrite <- !pos_zero. split; [intros; split; lra|intros [H1 H2]; lra].
Qed.

Lemma member_obj key l v : assoc key l = Some (Some v) -> member key (obj l) = Some v.
Proof.
  unfold obj. cbn [member]. induction l as [|[k w] l IH]; [done|]. simpl.
  destruct (k =? key)%string eqn:E; [intros [= ->]; simpl; by rewrite E|]. destruct w as [w|]; simpl; [by rewrite E|done].
Qed.

Lemma member_obj_none key l : assoc key l = None -> member key (obj l) = None.
Proof.
  unfold obj. cbn [member]. induction l as [|[k w] l IH]; [done|]. simpl.
  destruct (k =? key)%string eqn:E; [done|]. destruct w as [w|]; simpl; [by rewrite E|done].
Qed.

Lemma loss_checked name s l n :
  (String.eqb name "webhook_burst" || String.eqb name "backbone") = false ->
  member "lost_acked_messages" s = Some (JNum l) -> member "never_acked" s = Some (JNum n) ->
  forallb passes (omap loss_check [(name, s)]) = qeq l 0 && qeq n 0.
Proof.
  intros Hn Hl Hm. cbn [omap list_omap]. unfold loss_check. rewrite Hn, Hl. cbn [mbind option_bind]. rewrite Hm.
  cbn [forallb]. unfold passes. cbn [c_ok c_warning check]. rewrite js_true_num. cbn [num]. by rewrite orb_false_r, andb_true_r.
Qed.

Lemma measured_ok name k6 : passes (measured name k6) = true <-> live k6.
Proof. unfold passes, measured, live. cbn. by rewrite orb_false_r, andb_true_iff, !qlt_true. Qed.

(** A block that is there only with its file. *)
Lemma with_file_ok d name f (P : json -> Prop) :
  (forall k6, block_ok (f k6) = true <-> P k6) ->
  block_ok (with_file d name f) = true <-> forall k6, json_file d (name +:+ ".json") = Some k6 -> P k6.
Proof.
  intros Hf. unfold with_file. destruct (json_file d (name +:+ ".json")) as [k6|]; [|by split].
  rewrite Hf. split; [by intros H ? [= <-]|by intros H; apply H].
Qed.

Lemma messages_ok d name k6 s :
  (String.eqb name "webhook_burst" || String.eqb name "backbone") = false ->
  assoc "lost_acked_messages" s = Some (jnum (count k6 "lost_acked_messages")) ->
  assoc "never_acked" s = Some (jnum (count k6 "messages_never_acked")) ->
  block_ok ((base d name k6).1 ++ [measured name k6], [(name, obj s)]) = true <-> clean d name k6 /\ live k6 /\ lossless k6.
Proof.
  intros Hn Hl Hm. unfold block_ok, lossless. cbn [fst snd].
  rewrite (loss_checked name _ _ _ Hn (member_obj _ _ _ Hl) (member_obj _ _ _ Hm)), forallb_app.
  cbn [forallb]. rewrite andb_true_r, !andb_true_iff, base_ok, measured_ok, !qeq_true. tauto.
Qed.

Lemma e2e_ok d : block_ok (e2e d) = true <->
  forall k6, json_file d "e2e.json" = Some k6 -> clean d "e2e" k6 /\ live k6 /\ lossless k6.
Proof. apply (with_file_ok d "e2e"). intros k6. by apply messages_ok. Qed.

Lemma reconnects_ok d name :
  (String.eqb name "webhook_burst" || String.eqb name "backbone") = false ->
  block_ok (reconnects d name) = true <->
  forall k6, json_file d (name +:+ ".json") = Some k6 -> clean d name k6 /\ live k6 /\ lossless k6.
Proof.
  intros Hn. apply with_file_ok. intros k6. by apply messages_ok; [|destruct (restarts d name)..].
Qed.

Lemma eq_iff_true (a b : bool) : a = b -> (a = true <-> b = true).
Proof. by intros ->. Qed.

(** A block whose scenario has no count of lost messages. *)
Lemma unchecked_ok checks name s : assoc "lost_acked_messages" s = None -> block_ok (checks, [(name, obj s)]) = forallb passes checks.
Proof.
  intros Hs. unfold block_ok. cbn [fst snd omap list_omap]. unfold loss_check. rewrite (member_obj_none _ _ Hs).
  destruct (_ || _); by rewrite andb_true_r.
Qed.

Lemma excluded_ok checks name s :
  (String.eqb name "webhook_burst" || String.eqb name "backbone") = true -> block_ok (checks, [(name, s)]) = forallb passes checks.
Proof. intros Hn. unfold block_ok. cbn [fst snd omap list_omap]. unfold loss_check. by rewrite Hn, andb_true_r. Qed.

Lemma idle_ok d : block_ok (idle d) = true <-> forall k6, json_file d "idle.json" = Some k6 -> clean d "idle" k6.
Proof. apply (with_file_ok d "idle"). intros k6. rewrite <- base_ok. apply eq_iff_true, (unchecked_ok _ "idle"). reflexivity. Qed.

Lemma burst_ok d : block_ok (webhook_burst d) = true <->
  forall k6, json_file d "webhook_burst.json" = Some k6 -> clean d "webhook_burst" k6 /\ burst_delivered d k6.
Proof.
  apply (with_file_ok d "webhook_burst"). intros k6. cbn [base]. rewrite excluded_ok by done.
  rewrite <- (base_ok d "webhook_burst"), (forallb_app passes (_ :: _)), andb_true_iff. apply and_iff_compat_l.
  unfold burst_delivered. cbn [forallb]. rewrite andb_true_r. unfold passes. cbn [c_ok c_warning check].
  rewrite orb_false_r, qeq_true, pos_sum_zero. split; intros [H1 H2]; split; lra.
Qed.

Lemma backbone_ok d : block_ok (backbone d) = true <->
  forall expected rows, member "tenant_activities" (file_or d "db.json") = Some expected ->
    member "backbone_webhook_events" (file_or d "db.json") = Some rows -> observed_once d expected rows.
Proof.
  unfold backbone. destruct (member "tenant_activities" _) as [expected|]; [|by split].
  destruct (member "backbone_webhook_events" _) as [rows|]; [|by split].
  rewrite excluded_ok by done. transitivity (observed_once d expected rows); [|by split; [intros H ? ? [= <-] [= <-]|intros H; apply H]].
  cbn [forallb]. rewrite andb_true_r. unfold passes. cbn [c_ok c_warning check]. rewrite orb_false_r, !andb_true_iff, qeq_true, pos_zero.
  unfold observed_once. set (k := num (member "backbone_webhook_events_distinct" _)). set (r := num (Some rows)).
  split.
  - intros [[H1 H2] H3]. split; [lra|]. destruct k as [k|]; [|done]. destruct r as [r|]; [|done]. apply qeq_true in H2, H3.
    exists r, k. repeat split; [lra|done].
  - intros [H1 (r' & k' & -> & -> & H2 & H3)]. repeat split; [lra| |by apply qeq_true]. apply qeq_true. lra.
Qed.

Lemma fanout_ok d : forallb passes (fanout_checks d) = true <->
  (is_Some (mock_path (file_or d "mock_stats.json") "fanout") \/
   nonzero (num (member "fanout_activities" (file_or d "db.json"))) = true -> fanned_out d).
Proof.
  unfold fanout_checks, fanned_out. set (s := num _). set (m := mock_path _ _). set (del := delivered_at _ _).
  assert (H : forall x y, forallb passes [check x match s with Some s => qle s del | None => false end y] = true <->
              exists q, s = Some q /\ (q <= del)%Q).
  { intros x y. cbn [forallb]. rewrite andb_true_r. unfold passes. cbn [c_ok c_warning check]. rewrite orb_false_r.
    destruct s as [q|]; [rewrite qle_true; split; [intros; by exists q|by intros (? & [= <-] & ?)]|]. split; [done|by intros (? & ? & _)]. }
  destruct m as [x|], (nonzero s).
  4: { split; [by intros _ [[? ?]|]|done]. }
  all: rewrite H; split; [by auto|intros Hi; apply Hi; eauto].
Qed.

Lemma phase_ok d phase : forallb passes (isolationPhase d phase).1 = true <->
  forall k6, json_file d ("dead_channel_" +:+ phase +:+ ".json") = Some k6 -> clean d ("dead_channel_" +:+ phase) k6.
Proof.
  unfold isolationPhase. change (("dead_channel_" +:+ phase) +:+ ".json") with ("dead_channel_" +:+ (phase +:+ ".json")).
  destruct (json_file d _) as [k6|]; [|by split]. cbn [base fst].
  transitivity (clean d ("dead_channel_" +:+ phase) k6); [apply base_ok|]. by split; [intros H ? [= <-]|intros H; apply H].
Qed.

Lemma isolation_ok d b x : forallb passes (isolation_checks d b x) = true /\ (p_never_acked b + p_never_acked x == 0)%Q <-> isolated d b x.
Proof.
  unfold isolation_checks. cbn [forallb]. unfold passes. cbn [c_ok c_warning check]. rewrite !orb_false_r, !andb_true_iff, qeq_true.
  split.
  - intros [(H1 & ((H2 & H3) & H4) & H5 & _) H6]. split.
    + destruct (l_p95 (p_latency x)) as [x95|]; [|done]. destruct (l_p95 (p_latency b)) as [b95|]; [|done].
      exists b95, x95. by apply qle_true in H1.
    + done.
    + done.
    + destruct (p_duplicates b) as [q|]; [|done]. destruct (p_duplicates x) as [r|]; [|done]. apply qeq_true in H3, H4. by exists q, r.
    + by destruct (opened d).
  - intros [(b95 & x95 & -> & -> & H1) H2 H3 (q & r & -> & -> & H4 & H5) [c ->]]. apply qeq_true in H4, H5. apply qle_true in H1. done.
Qed.

Lemma dead_channel_ok d : block_ok (dead_channel d) = true <->
  (forall phase k6, phase ∈ ["baseline"; "dead"] -> json_file d ("dead_channel_" +:+ phase +:+ ".json") = Some k6 ->
     clean d ("dead_channel_" +:+ phase) k6) /\
  (forall b x, (isolationPhase d "baseline").2 = Some b -> (isolationPhase d "dead").2 = Some x -> isolated d b x).
Proof.
  assert (Hphases : forallb passes ((isolationPhase d "baseline").1 ++ (isolationPhase d "dead").1) = true <->
    forall phase k6, phase ∈ ["baseline"; "dead"] -> json_file d ("dead_channel_" +:+ phase +:+ ".json") = Some k6 ->
     clean d ("dead_channel_" +:+ phase) k6).
  { rewrite forallb_app, andb_true_iff, !phase_ok. split; [|intros H; split; intros k6; apply H; set_solver].
    intros [H1 H2] phase k6 [->|[->|[]%elem_of_nil]%elem_of_cons]%elem_of_cons; [apply H1|apply H2]. }
  rewrite <- Hphases. clear Hphases. unfold dead_channel.
  destruct (isolationPhase d "baseline") as [bc [b|]], (isolationPhase d "dead") as [xc [x|]]; cbn [fst snd].
  2,3,4: unfold block_ok; cbn; rewrite andb_true_r; by (split; [|intros [? _]]).
  transitivity (forallb passes (bc ++ xc) = true /\ isolated d b x);
    [|apply and_iff_compat_l; by split; [intros H ? ? [= <-] [= <-]|intros H; apply H]].
  unfold block_ok. cbn [fst snd].
  rewrite (loss_checked _ _ (p_lost b + p_lost x)%Q (p_never_acked b + p_never_acked x)%Q); [|done|by apply member_obj..].
  rewrite app_assoc, forallb_app, !andb_true_iff, !qeq_true, <- isolation_ok. pose proof (isolation_ok d b x) as Hi.
  split; [tauto|]. intros [H1 H2]. pose proof (iso_lost _ _ _ (proj1 Hi H2)). tauto.
Qed.

(** C33. [results.ok] is [true] exactly when the files show what [run_passed]
    lists, which is what [results.js] looks at and no more.  Each summary that
    exists has an acceptable exit code and its correctness thresholds met.  An
    end-to-end scenario (e2e, reconnect_storm, rolling_restart, node_kill) with
    a summary also acked and received something, and lost no acked message and
    left none unacked; of idle and of a single phase of dead_channel nothing
    more is asked.  Every webhook that webhook_burst had accepted was stored and
    delivered; the backbone observed every activity, once; when both phases of
    dead_channel ran, the dead channel did not slow its neighbour beyond the
    limit, and the phases lost, doubled and left unacked nothing; every stored
    activity of the fan-out was delivered.  A scenario without a summary is not looked
    at, crashed or not ([crash_without_summary_passes]), and unverified
    subscribers of e2e do not count ([LoadScriptFacts.unverified_e2e_passes]). *)
Theorem run_ok_iff (d : Dir) : r_ok (results d) = true <-> run_passed d.
Proof.
  rewrite run_ok_blocks. unfold blocks. cbn [app map forallb]. rewrite !andb_true_iff.
  rewrite e2e_ok, burst_ok, idle_ok, !reconnects_ok, backbone_ok, dead_channel_ok, fanout_ok by done. split.
  - intros [(H1 & H2 & H3 & H4 & H5 & H6 & H7 & [H8 H9] & _) H10]. split; try done.
    intros name k6 Hn. unfold e2e_like in Hn. rewrite !elem_of_cons in Hn.
    destruct Hn as [->|[->|[->|[->|[]%elem_of_nil]]]]; [apply H1|apply H4|apply H5|apply H6].
  - intros [H1 H2 H3 H4 H5 H6 H7].
    exact (conj (conj (fun k => H1 "e2e" k ltac:(left)) (conj H2 (conj H3
      (conj (fun k => H1 "reconnect_storm" k ltac:(right; left))
      (conj (fun k => H1 "rolling_restart" k ltac:(right; right; left))
      (conj (fun k => H1 "node_kill" k ltac:(right; right; right; left)) (conj H4 (conj (conj H5 H6) eq_refl)))))))) H7).
Qed.

(** A run that passes: one scenario, with its summary and exit code. *)
Definition ex_summary (lost : Q) : json :=
  JObj [("params", JObj [("duration_s", JNum 60)]); ("duration_ms", JNum 60000);
        ("metrics", JObj [("messages_acked", JObj [("count", JNum 100)]); ("e2e_latency_ms", JObj [("count", JNum 400)]);
                          ("lost_acked_messages", JObj [("count", JNum lost)])]);
        ("thresholds", JObj [("e2e_latency_ms: p(95)<250", JBool false); ("lost_acked_messages: count<1", JBool true)])].

Definition ex_dir (exit : string) (summary : option json) : Dir :=
  mkDir (fun name => if String.eqb name "exit_codes.csv" then Some ("e2e;" +:+ exit) else None)
        (fun name => if String.eqb name "e2e.json" then summary else None) 0.

(** A missed performance target does not fail a run, a lost message does. *)
Example run_verdicts :
  r_ok (results (ex_dir "99" (Some (ex_summary 0)))) = true /\ r_ok (results (ex_dir "99" (Some (ex_summary 1)))) = false /\
  r_ok (results (ex_dir "107" (Some (ex_summary 0)))) = false.
Proof. vm_compute. done. Qed.

(** A scenario that crashes before it writes its summary is not checked at
    all, though its exit code is recorded: the run passes. *)
Example crash_without_summary_passes :
  exitCode (ex_dir "107" None) "e2e" = Some 107%Q /\ ran (exitCode (ex_dir "107" None) "e2e") = false /\
  r_ok (results (ex_dir "107" None)) = true.
Proof. vm_compute. done. Qed.

(** ** The regression gate *)

(** Of two runs on the same topology, the metric got worse by more than the
    threshold, relative to the baseline, and by more than its noise floor. *)
Definition got_worse (t : Q) (m : Metric) (r b : Results) : Prop :=
  exists before current, get (scenario_of b (m_scenario m)) (m_path m) = Some (JNum before) /\
    get (scenario_of r (m_scenario m)) (m_path m) = Some (JNum current) /\
    ~ (before == 0)%Q /\ (t * Qabs before < current - before)%Q /\ (m_floor m < current - before)%Q.

Lemma above_some a b : above a (Some b) = true <-> (b < a)%Q.
Proof. unfold above. destruct (Qlt_le_dec b a) as [H|H]; [done|]. split; [done|]. intros Hl. by destruct (Qlt_not_le _ _ Hl). Qed.

Lemma Qabs_nonzero x : ~ (x == 0)%Q -> (0 < Qabs x)%Q.
Proof.
  intros Hx. destruct (Q_dec x 0) as [[H|H]|H]; [| |done].
  - rewrite Qabs_neg by lra. lra.
  - rewrite Qabs_pos by lra. lra.
Qed.

(** A change exceeds [t] relative to [before] exactly when it exceeds [t]
    times [before]. *)
Lemma relative_change delta before t : ~ (before == 0)%Q -> (t < Qabs (delta / before) <-> t * Qabs before < Qabs delta)%Q.
Proof.
  intros Hb. apply Qabs_nonzero in Hb. unfold Qdiv. rewrite Qabs_Qmult, Qabs_Qinv. split; intros H.
  - apply (Qmult_lt_r _ _ _ Hb) in H. assert (E : (Qabs delta * / Qabs before * Qabs before == Qabs delta)%Q) by (field; lra). by rewrite E in H.
  - by apply Qlt_shift_div_l.
Qed.

Lemma compare_regressed current before floor t : (0 <= t)%Q ->
  regressed (compare current before (Some Lower) floor (Some t)) = true <->
  exists b c, before = Some (JNum b) /\ current = Some (JNum c) /\ ~ (b == 0)%Q /\ (t * Qabs b < c - b)%Q /\ (floor < c - b)%Q.
Proof.
  intros Ht. destruct current as [[|?|cur|?|?|?]|], before as [[|?|bef|?|?|?]|].
  all: try (split; [done|by intros (? & ? & ? & ? & _)]).
  unfold compare. cbn [regressed]. rewrite !andb_true_iff, !above_some.
  assert (Hm : (0 <= t * Qabs bef)%Q) by (apply Qmult_le_0_compat; [done|apply Qabs_nonneg]).
  destruct (Qeq_dec bef 0) as [Hb|Hb].
  - split; [|by intros (? & ? & [= <-] & _ & ? & _)]. intros [[_ H] _]. change (Qabs 0) with 0%Q in H. lra.
  - rewrite relative_change by done. split.
    + intros [[H1 H2] H3]. rewrite (Qabs_pos (cur - bef)%Q) in H2, H3 by lra. by exists bef, cur.
    + intros (? & ? & [= <-] & [= <-] & _ & H1 & H2). rewrite (Qabs_pos (cur - bef)%Q) by lra. repeat split; lra.
Qed.

Lemma gated_lower m : m ∈ METRICS -> m_gated m = true -> m_better m = Some Lower.
Proof.
  intros Hm. assert (H : forallb (fun m => implb (m_gated m) (match m_better m with Some Lower => true | _ => false end)) METRICS = true) by reflexivity.
  rewrite forallb_forall in H. apply list_elem_of_In, H in Hm. destruct (m_gated m), (m_better m) as [[|]|]; done.
Qed.

Lemma split_dot_cons l cur : exists k ks, split_dot l cur = k :: ks.
Proof. revert cur. induction l as [|c l IH]; intros cur; simpl; [eauto|]. destruct (code c =? 46); eauto. Qed.

(** What has a member at a path is an object. *)
Lemma get_object o path v : get o path = Some v -> exists l, o = Some (JObj l).
Proof.
  unfold get. destruct (split_dot_cons (chars_of path) []) as (k & ks & ->). simpl.
  assert (Hnone : forall ks, fold_left (fun o k => v ← o; member k v) ks None <> Some v) by (induction ks0; done).
  destruct o as [[| | | | |l]|]; [try by intros ?%Hnone..|eauto|by intros ?%Hnone].
Qed.

Lemma compared_regressed o m r t : m ∈ METRICS -> m_gated m = true -> o_threshold o = Some t -> (0 <= t)%Q ->
  regressed (compared o m r) = true <->
  exists b, find (fun x => String.eqb (key x) (key r)) (o_baseline o) = Some b /\ got_worse t m r b.
Proof.
  intros Hm Hg Hth Ht. unfold compared, got_worse. rewrite (gated_lower _ Hm Hg), Hth, compare_regressed by done.
  destruct (find _ _) as [b|]; simpl; [|split; [by intros (? & ? & [=] & _)|by intros (? & [=] & _)]].
  split; [by intros (x & y & H); exists b; split; [done|]; exists x, y|by intros (? & [= <-] & H)].
Qed.

Lemma regression_in_row runs o m t : m ∈ METRICS -> o_threshold o = Some t -> (0 <= t)%Q ->
  (exists x, x ∈ (metric_row runs o m).2) <->
  m_gated m = true /\ exists r b, r ∈ runs /\ find (fun x => String.eqb (key x) (key r)) (o_baseline o) = Some b /\ got_worse t m r b.
Proof.
  intros Hm Hth Ht. unfold metric_row. destruct (seen_in runs (m_scenario m)) eqn:Hseen; cbn [negb snd].
  - split.
    + intros (x & Hx). apply list_elem_of_In, in_flat_map in Hx as (r & Hr & Hx). apply list_elem_of_In in Hr.
      destruct (has_baseline o); [|done]. destruct (m_gated m) eqn:Hg; [|done]. cbn [andb] in Hx.
      destruct (regressed (compared o m r)) eqn:E; [|done]. apply (compared_regressed _ _ _ t) in E as (b & Hb & Hw); [|done..].
      split; [done|]. by exists r, b.
    + intros (Hg & r & b & Hr & Hb & Hw). eexists. apply list_elem_of_In, in_flat_map. exists r. split; [by apply list_elem_of_In|].
      assert (E : regressed (compared o m r) = true) by (apply (compared_regressed _ _ _ t); eauto).
      rewrite E, Hg. unfold has_baseline. destruct (o_baseline o); [done|]. by left.
  - split; [by intros (x & Hx%elem_of_nil)|]. intros (Hg & r & b & Hr & Hb & x & y & _ & Hw & _). exfalso.
    apply get_object in Hw as [l Hl]. unfold seen_in in Hseen. rewrite <- not_true_iff_false, existsb_exists in Hseen.
    apply Hseen. exists r. rewrite Hl. split; [by apply list_elem_of_In|done].
Qed.


(** Two runs on one node: the p95 went from 40 ms to the given one. *)
Definition ex_result (p95 : Q) : Results :=
  mkResults 1 "native" [("e2e", JObj [("e2e_latency_ms", JObj [("p95", JNum p95)])])] [] true (JObj []) (JObj []) None.


(** A threshold that is not a number turns the gate off; so does a baseline of
    0, and a metric that is missing now. *)
Example gate_blind_spots :
  exit_code [ex_result 4000] (mkOptions [ex_result 40] (finite_number "15%")) = 0 /\
  exit_code [ex_result 4000] (mkOptions [ex_result 0] (Some (15 # 100)%Q)) = 0 /\
  exit_code [mkResults 1 "native" [("e2e", JObj [])] [] true (JObj []) (JObj []) None] (mkOptions [ex_result 40] (Some (15 # 100)%Q)) = 0.
Proof. vm_compute. done. Qed.

(** The text of a comparison, and how the command reads its arguments. *)
Example report_texts :
  text (compare (Some (JNum 50)) (Some (JNum 40)) (Some Lower) 5 (Some (15 # 100)%Q)) = "40 (+25 % ⚠)" /\
  fmt (Some (JNum (1234 # 100))) = "12.3" /\ fmt None = "–" /\
  main (fun f => if String.eqb f "new.json" then Some (ex_result 50) else Some (ex_result 40)) ["--baseline"; "old.json"; "new.json"] = 1 /\
  main (fun f => if String.eqb f "new.json" then Some (ex_result 50) else Some (ex_result 40))
    ["--threshold"; "0.3"; "--baseline"; "old.json"; "new.json"] = 0.
Proof. vm_compute. done. Qed.

(** ** Waits *)

(** The mean wait times the number of queries is the time they waited, and is
    not negative; a restart yields no mean. *)
Lemma wait_between_exact psum pn sum n ms :
  wait_between (Some psum, Some pn) (Some sum) (Some n) = Some (Some ms) ->
  (0 <= ms)%Q /\ (pn <= n)%Q /\ (psum <= sum)%Q /\ ((pn < n)%Q -> (ms * (n - pn) == sum - psum)%Q).
Proof.
  unfold wait_between. destruct (qle pn n) eqn:E1; [|done]. destruct (qle psum sum) eqn:E2; [|done]. cbn [andb].
  apply qle_true in E1, E2. destruct (qlt pn n) eqn:E3; intros [= <-].
  - apply qlt_true in E3. split; [apply Qle_shift_div_l; lra|]. split; [done|]. split; [done|]. intros _. field. lra.
  - split; [done|]. split; [done|]. split; [done|]. intros H. apply qlt_true in H. congruence.
Qed.
