(* ===== verification/MockProvider.v ===== *)
(** * MockProvider: the endpoint the load tests deliver to
    ([load/mock_provider/server.js]).

    A request handler keeps the counters object of its path in a closure, and
    [POST /reset] replaces the map of paths, not the objects: an answer that was
    under way then still counts in the old object.  So the objects live in a
    store, [heap], and [paths] maps a path to its object's number.  An answer
    that is delayed is a task; a request to a path that hangs is held until its
    connection closes.  [responses] is what was answered, newest first.  A body
    is what [JSON.parse] makes of it, [None] when it throws; ids and texts are
    strings. *)

From Stdlib Require Import Ascii.
From stdpp Require Import base gmap sets list sorting strings.
From Stdlib Require Import ZArith QArith Qround Qminmax Lia Lqa.
From S2P Require Import Prelude Watermark JsMap Json LoadScenarios LoadFacts Subscriber.

Open Scope string_scope.
Open Scope list_scope.
Open Scope Z_scope.

(** ** State *)

(* @src load/mock_provider/server.js 34-41 pathStats *)
Record PathStats := mkPathStats {
  requests : nat; failed : nat; duplicates : nat; hanging : Z;
  seen : gset string; latencies : list Z; samples : list (Z * Z)
}.

#[export] Instance eta_PathStats : Eta PathStats :=
  fun s => mkPathStats (requests s) (failed s) (duplicates s) (hanging s) (seen s) (latencies s) (samples s).

Record Task := mkTask { t_stats : nat; t_fail : bool; t_body : option json; t_header : option string }.

Inductive response :=
| R200 (stats : nat) (id : option string)
| R500 (stats : nat)
| RBody (status : Z).

Record Mock := mkMock {
  heap : gmap nat PathStats; paths : list (string * nat);
  tasks : gmap nat Task; held : gmap nat nat; next : nat;
  crashed : bool; responses : list response
}.

#[export] Instance eta_Mock : Eta Mock :=
  fun s => mkMock (heap s) (paths s) (tasks s) (held s) (next s) (crashed s) (responses s).

Record Config := mkConfig { latencyMs : Q; jitterMs : Q; errorRate : Q }.

(** [Date.now()] and the draws of [Math.random()]. *)
Record Env := mkEnv { env_now : Z; draw_fail : Q; draw_delay : Q }.

Definition no_stats : PathStats := mkPathStats 0 0 0 0 ∅ [] [].
Definition start_mock : Mock := mkMock ∅ [] ∅ ∅ 0 false [].

Definition update (k : nat) (f : PathStats -> PathStats) (s : Mock) : Mock := s <| heap ::= alter f k |>.

(** The object of a path, made when it is not there. *)
(* @src load/mock_provider/server.js 34-41 pathStats *)
Definition pathStats (path : string) (s : Mock) : nat * Mock :=
  match assoc path (paths s) with
  | Some k => (k, s)
  | None => let k := next s in
            (k, s <| next ::= S |> <| paths ::= map_set path k |> <| heap ::= <[k := no_stats]> |>)
  end.

(** ** Summaries *)

(* @src load/mock_provider/server.js 43-47 percentile *)
Definition percentile (sorted : list Q) (p : Z) : option Q :=
  match sorted with
  | [] => None
  | _ => let n := Z.of_nat (length sorted) in
         sorted !! Z.to_nat (Z.max 0 (Z.min (n - 1) (Qceiling ((inject_Z p / 100) * inject_Z n) - 1)))
  end.

Record Summary := mkSummary {
  s_requests : nat; s_failed : nat; s_delivered : nat; s_duplicates : nat; s_hanging : Z;
  s_count : nat; s_p50 : option Q; s_p95 : option Q; s_p99 : option Q; s_max : option Q
}.

(* @src load/mock_provider/server.js 49-65 summarise *)
Definition summarise (s : PathStats) : Summary :=
  let sorted := sorted_values (map inject_Z (latencies s)) in
  mkSummary (requests s) (failed s) (size (seen s)) (duplicates s) (hanging s) (length sorted)
    (percentile sorted 50) (percentile sorted 95) (percentile sorted 99) (last sorted).

Definition current (s : Mock) : list (string * PathStats) :=
  omap (fun '(p, k) => x ← heap s !! k; Some (p, x)) (paths s).

(* @src load/mock_provider/server.js 67-80 stats *)
Definition stats (s : Mock) : list (string * Summary) * Summary :=
  (map (fun '(p, x) => (p, summarise x)) (current s),
   summarise (foldl (fun all '(p, x) =>
     mkPathStats (requests all + requests x) (failed all + failed x) (duplicates all + duplicates x) 0
       (seen all ∪ set_map (fun id => p +:+ "/" +:+ id) (seen x)) (latencies all ++ latencies x) []) no_stats (current s))).

(** ** Requests *)

Inductive route := RStats | RSamples (path : string) | RReset | RHook (path : string) | RNone.

Definition path_char (c : ascii) : bool :=
  ((48 <=? code c) && (code c <=? 57)) || ((65 <=? code c) && (code c <=? 90)) || ((97 <=? code c) && (code c <=? 122))
  || (code c =? 95) || (code c =? 45).

(** [^<prefix>([A-Za-z0-9_-]+)$]. *)
Definition path_after (prefix url : string) : option string :=
  match strip_prefix (chars_of prefix) (chars_of url) with
  | Some (c :: l) => if forallb path_char (c :: l) then Some (str_of (c :: l)) else None
  | _ => None
  end.

(* @src load/mock_provider/server.js 87-101 server *)
Definition route_of (method url : string) : route :=
  if String.eqb method "GET" then
    if String.eqb url "/stats" then RStats
    else match path_after "/samples/" url with Some p => RSamples p | None => RNone end
  else if String.eqb method "POST" then
    if String.eqb url "/reset" then RReset
    else match path_after "/hook/" url with Some p => RHook p | None => RNone end
  else RNone.

Definition say (r : response) (s : Mock) : Mock := s <| responses ::= cons r |>.

Definition str_member (name : string) (v : json) : option string :=
  match member name v with Some (JStr s) => if String.eqb s "" then None else Some s | _ => None end.

(** [body.id || header]. *)
Definition id_of (body : json) (header : option string) : option string :=
  match str_member "id" body with
  | Some id => Some id
  | None => h ← header; if String.eqb h "" then None else Some h
  end.

(** [body.text || (body.data && body.data.text) || ""]. *)
Definition text_of (body : json) : string :=
  match str_member "text" body with
  | Some t => t
  | None => (d ← member "data" body; str_member "text" d) ?? ""
  end.

(** A first delivery: [/^load (\d+) /] gives the time it was sent. *)
(* @src load/mock_provider/server.js 134-145 answer *)
Definition deliver (now : Z) (id : string) (body : json) (x : PathStats) : PathStats :=
  let x := x <| seen ::= fun l => l ∪ {[id]} |> in
  match sentAt (text_of body) with
  | Some at_ => x <| latencies ::= fun l => l ++ [now - at_] |> <| samples ::= fun l => l ++ [(now, now - at_)] |>
  | None => x
  end.

(** A body that is [null] has no [id]: the read throws and ends the process. *)
(* @src load/mock_provider/server.js 120-147 answer *)
Definition answer (env : Env) (t : Task) (s : Mock) : Mock :=
  let k := t_stats t in
  if t_fail t then say (R500 k) (update k (fun x => x <| failed ::= S |>) s)
  else
    match t_body t ?? JObj [] with
    | JNull => s <| crashed := true |>
    | body =>
        let id := id_of body (t_header t) in
        let f (x : PathStats) :=
          match id with
          | Some id => if bool_decide (id ∈ seen x) then x <| duplicates ::= S |> else deliver (env_now env) id body x
          | None => x
          end in
        say (R200 k id) (update k f s)
    end.

(** [match[1].startsWith("hang")]. *)
Definition hangs (path : string) : bool := match strip_prefix (chars_of "hang") (chars_of path) with Some _ => true | None => false end.

(* @src load/mock_provider/server.js 103-151 server *)
Definition hook (cfg : Config) (env : Env) (path : string) (body : option json) (header : option string) (s : Mock) : Mock :=
  let '(k, s) := pathStats path s in
  let s := update k (fun x => x <| requests ::= S |>) s in
  if hangs path then
    (update k (fun x => x <| hanging ::= Z.succ |>) s) <| held ::= <[next s := k]> |> <| next ::= S |>
  else
    let fail := (if Qlt_le_dec 0 (errorRate cfg) then true else false) && (if Qlt_le_dec (draw_fail env) (errorRate cfg) then true else false) in
    let delay := (latencyMs cfg + (if Qlt_le_dec 0 (jitterMs cfg) then draw_delay env * jitterMs cfg else 0))%Q in
    let t := mkTask k fail body header in
    if Qlt_le_dec 0 delay then s <| tasks ::= <[next s := t]> |> <| next ::= S |> else answer env t s.

Inductive input :=
| IRequest (method url : string) (body : option json) (header : option string)
| ITimer (task : nat)
| IClosed (request : nat).

(* @src load/mock_provider/server.js 87-152 server *)
Definition step (cfg : Config) (env : Env) (i : input) (s : Mock) : Mock :=
  if crashed s then s
  else
    match i with
    | IRequest method url body header =>
        match route_of method url with
        | RStats | RSamples _ => say (RBody 200) s
        | RReset => say (RBody 200) (s <| paths := [] |>)
        | RHook path => hook cfg env path body header s
        | RNone => say (RBody 404) s
        end
    | ITimer h => match tasks s !! h with Some t => answer env t (s <| tasks ::= delete h |>) | None => s end
    | IClosed h =>
        match held s !! h with
        | Some k => (update k (fun x => x <| hanging ::= Z.pred |>) s) <| held ::= delete h |>
        | None => s
        end
    end.

Definition run (cfg : Config) (l : list (Env * input)) (s : Mock) : Mock := fold_left (fun s '(env, i) => step cfg env i s) l s.
