(* ===== verification/MockFacts.v ===== *)
(** * MockFacts: what the mock provider's counters count
    ([load/mock_provider/server.js]). *)

From stdpp Require Import base gmap sets list sorting strings.
From Stdlib Require Import ZArith QArith Qround Qminmax Lia Lqa.
From S2P Require Import Prelude Watermark JsMap Json LoadScenarios LoadFacts Subscriber MockProvider.

Open Scope string_scope.
Open Scope list_scope.
Open Scope Z_scope.

(** The ids answered with a 2xx on the object [k], with repetitions, and its
    failures. *)
Definition ids (k : nat) (l : list response) : list string :=
  omap (fun r => match r with R200 j (Some id) => if (j =? k)%nat then Some id else None | _ => None end) l.

Definition failures (k : nat) (l : list response) : nat :=
  length (List.filter (fun r => match r with R500 j => (j =? k)%nat | _ => false end) l).

#[local] Arguments ids : simpl never.
#[local] Arguments failures : simpl never.

(** The counters of an object, against the answers. *)
Record tally (k : nat) (l : list response) (x : PathStats) : Prop := {
  ta_seen : seen x = list_to_set (ids k l);
  ta_ids : (size (seen x) + duplicates x = length (ids k l))%nat;
  ta_failed : failed x = failures k l;
  ta_latencies : (length (latencies x) <= size (seen x))%nat;
  ta_samples : map snd (samples x) = latencies x
}.

Record counted (s : Mock) : Prop := {
  co_tally : forall k x, heap s !! k = Some x -> tally k (responses s) x;
  co_old : forall k, is_Some (heap s !! k) -> (k < next s)%nat;
  co_said : forall k, (next s <= k)%nat -> ids k (responses s) = [] /\ failures k (responses s) = 0%nat;
  co_paths : forall p k, assoc p (paths s) = Some k -> is_Some (heap s !! k);
  co_tasks : forall h t, tasks s !! h = Some t -> is_Some (heap s !! t_stats t)
}.

Lemma tally_new k l : ids k l = [] -> failures k l = 0%nat -> tally k l no_stats.
Proof. intros Hi Hf. by split; rewrite ?Hi, ?Hf. Qed.

Lemma ids_other k r l : (forall i, r <> R200 k (Some i)) -> ids k (r :: l) = ids k l.
Proof.
  intros H. unfold ids. cbn [omap list_omap]. destruct r as [j [i|]| |]; try done. destruct (j =? k)%nat eqn:E; [|done].
  apply Nat.eqb_eq in E as ->. by destruct (H i).
Qed.

Lemma failures_other k r l : r <> R500 k -> failures k (r :: l) = failures k l.
Proof. intros H. unfold failures. cbn. destruct r as [|j|]; try done. destruct (j =? k)%nat eqn:E; [|done]. by apply Nat.eqb_eq in E as ->. Qed.

Lemma tally_other k r l x : (forall i, r <> R200 k (Some i)) -> r <> R500 k -> tally k l x -> tally k (r :: l) x.
Proof. intros H1 H2 [? ? ? ? ?]. by split; rewrite ?ids_other, ?failures_other. Qed.

(** One more answer on the object itself. *)
Lemma tally_failed k l x : tally k l x -> tally k (R500 k :: l) (x <| failed ::= S |>).
Proof.
  intros [? ? Hf ? ?]. split; try done. simpl. rewrite Hf. unfold failures. cbn. by rewrite Nat.eqb_refl.
Qed.

Lemma ids_same k i l : ids k (R200 k (Some i) :: l) = i :: ids k l.
Proof. unfold ids. cbn. by rewrite Nat.eqb_refl. Qed.

Lemma tally_delivered now body k l i x : i ∉ seen x -> tally k l x -> tally k (R200 k (Some i) :: l) (deliver now i body x).
Proof.
  intros Hi [H1 H2 H3 H4 H5].
  assert (Hsize : size (seen x ∪ {[i]}) = S (size (seen x))) by (rewrite size_union by set_solver; rewrite size_singleton; lia).
  unfold deliver. destruct (sentAt _) as [a|]; (split; cbn; rewrite ?ids_same, ?Hsize, ?failures_other; try done; try lia).
  all: try (rewrite H1; cbn; set_solver). all: try (simpl; lia).
  - rewrite length_app; simpl; lia.
  - by rewrite map_app, H5.
Qed.

Lemma tally_duplicate k l i x : i ∈ seen x -> tally k l x -> tally k (R200 k (Some i) :: l) (x <| duplicates ::= S |>).
Proof.
  intros Hi [H1 H2 H3 H4 H5]. split; cbn; rewrite ?ids_same, ?failures_other; try done; simpl; [|lia].
  rewrite H1 in *. set_solver.
Qed.

(** An answer on the object [k] changes that object alone. *)
Lemma counted_answered k r f s : counted s -> is_Some (heap s !! k) ->
  (forall j, j <> k -> (forall i, r <> R200 j (Some i)) /\ r <> R500 j) ->
  (forall x, heap s !! k = Some x -> tally k (responses s) x -> tally k (r :: responses s) (f x)) ->
  counted (say r (update k f s)).
Proof.
  intros [H1 H2 H3 H4 H5] Hk Hr Hf.
  assert (Hdom : forall j, is_Some (alter f k (heap s) !! j) <-> is_Some (heap s !! j)) by (intros j; apply lookup_alter_is_Some).
  split; simpl.
  - intros j y. destruct (decide (k = j)) as [<-|Hne].
    + rewrite lookup_alter_eq. intros (x & Hx & ->)%fmap_Some. eauto.
    + rewrite lookup_alter_ne by done. intros Hj. destruct (Hr j) as [? ?]; [done|]. apply tally_other; eauto.
  - intros j Hj%Hdom. eauto.
  - intros j Hj. assert (Hne : j <> k) by (intros ->; apply H2 in Hk; lia). destruct (Hr j Hne).
    rewrite ids_other, failures_other by done. eauto.
  - intros p j Hj. apply Hdom. eauto.
  - intros h t Ht. apply Hdom. eauto.
Qed.

Lemma counted_say r s : counted s -> (forall j i, r <> R200 j i) -> (forall j, r <> R500 j) -> counted (say r s).
Proof.
  intros [H1 H2 H3 H4 H5] Ha Hb. split; simpl; try done.
  - intros k x Hx. apply tally_other; eauto.
  - intros k Hk. rewrite ids_other, failures_other by eauto. eauto.
Qed.

(** An update that leaves the counters of answers alone. *)
Lemma counted_update k f s : counted s -> (forall l x, tally k l x -> tally k l (f x)) -> counted (update k f s).
Proof.
  intros [H1 H2 H3 H4 H5] Hf.
  assert (Hdom : forall j, is_Some (alter f k (heap s) !! j) <-> is_Some (heap s !! j)) by (intros j; apply lookup_alter_is_Some).
  split; simpl; try done.
  - intros j y. destruct (decide (k = j)) as [<-|Hne]; [|rewrite lookup_alter_ne by done; eauto].
    rewrite lookup_alter_eq. intros (x & Hx & ->)%fmap_Some. eauto.
  - intros j Hj%Hdom. eauto.
  - intros p j Hj. apply Hdom. eauto.
  - intros h t Ht. apply Hdom. eauto.
Qed.

Lemma ids_silent k l : ids k (R200 k None :: l) = ids k l.
Proof. done. Qed.

Lemma counted_answer env t s : counted s -> is_Some (heap s !! t_stats t) -> counted (answer env t s).
Proof.
  intros Hc Hk. unfold answer. destruct (t_fail t).
  { apply counted_answered; [done..| |intros x _; apply tally_failed]. intros j Hj. split; congruence. }
  assert (Hbody : forall body, let id := id_of body (t_header t) in
    counted (say (R200 (t_stats t) id) (update (t_stats t) (fun x =>
      match id with
      | Some id => if bool_decide (id ∈ seen x) then x <| duplicates ::= S |> else deliver (env_now env) id body x
      | None => x
      end) s))).
  { intros body id. apply counted_answered; [done..|intros j Hj; split; congruence|].
    intros x _ Hx. destruct id as [i|]; [case_bool_decide; [by apply tally_duplicate|by apply tally_delivered]|].
    destruct Hx as [? ? ? ? ?]. by split; rewrite ?ids_silent, ?failures_other. }
  destruct (t_body t ?? JObj []); [by destruct Hc|apply Hbody..].
Qed.

Lemma counted_path path s : counted s -> counted (pathStats path s).2 /\ is_Some (heap (pathStats path s).2 !! (pathStats path s).1).
Proof.
  intros Hc. unfold pathStats. destruct (assoc path (paths s)) as [k|] eqn:E.
  - split; [done|]. by apply (co_paths _ Hc path).
  - destruct Hc as [H1 H2 H3 H4 H5].
    assert (Hold : forall j, is_Some (heap s !! j) -> is_Some (<[next s := no_stats]> (heap s) !! j)).
    { intros j Hj. apply lookup_insert_is_Some. destruct (decide (next s = j)); auto. }
    split; [split; simpl|simpl; rewrite lookup_insert_eq; eauto].
    + intros k x. rewrite lookup_insert_Some. intros [[<- <-]|[_ Hx]]; [|eauto]. destruct (H3 (next s)); [lia|]. by apply tally_new.
    + intros k. rewrite lookup_insert_is_Some. intros [<-|[_ Hk%H2]]; lia.
    + intros k Hk. apply H3. lia.
    + intros p k. rewrite assoc_set. destruct (path =? p)%string; [intros [= <-]; rewrite lookup_insert_eq; eauto|eauto].
    + eauto.
Qed.

Lemma counted_hook cfg env path body header s : counted s -> counted (hook cfg env path body header s).
Proof.
  intros Hc. unfold hook. destruct (counted_path path s Hc) as [Hc1 Hk]. destruct (pathStats path s) as [k s1]. simpl in Hc1, Hk.
  assert (Hk2 : is_Some (heap (update k (fun x => x <| requests ::= S |>) s1) !! k)) by by apply lookup_alter_is_Some.
  assert (Hc2 : counted (update k (fun x => x <| requests ::= S |>) s1)) by (apply counted_update; [done|]; intros l x [? ? ? ? ?]; by split).
  set (s2 := update k (fun x => x <| requests ::= S |>) s1) in *. clearbody s2. destruct (hangs path).
  - assert (Hc3 : counted (update k (fun x => x <| hanging ::= Z.succ |>) s2)) by (apply counted_update; [done|]; intros l x [? ? ? ? ?]; by split).
    destruct Hc3 as [H1 H2 H3 H4 H5]. split; try done; intros j Hj; unfold update in *; simpl in *; [apply H2 in Hj; lia|apply H3; lia].
  - destruct (Qlt_le_dec 0 _); [|by apply counted_answer]. destruct Hc2 as [H1 H2 H3 H4 H5]. split; try done.
    + intros j Hj. apply H2 in Hj. simpl. lia.
    + intros j Hj. apply H3. simpl in Hj. lia.
    + intros h t. simpl. rewrite lookup_insert_Some. intros [[_ <-]|[_ Ht]]; [done|eauto].
Qed.

Lemma counted_step cfg env i s : counted s -> counted (step cfg env i s).
Proof.
  intros Hc. unfold step. destruct (crashed s); [done|]. destruct i as [method url body header|h|h].
  - destruct (route_of method url).
    1, 2, 5: by apply counted_say.
    + apply counted_say; [|done..]. destruct Hc as [H1 H2 H3 H4 H5]. by split.
    + by apply counted_hook.
  - destruct (tasks s !! h) as [t|] eqn:Ht; [|done]. apply counted_answer; [|by apply (co_tasks _ Hc h)].
    destruct Hc as [H1 H2 H3 H4 H5]. split; simpl; try done. intros h' t'. rewrite lookup_delete_Some. intros [_ Ht']. eauto.
  - destruct (held s !! h) as [k|]; [|done].
    assert (Hc3 : counted (update k (fun x => x <| hanging ::= Z.pred |>) s)) by (apply counted_update; [done|]; intros l x [? ? ? ? ?]; by split).
    by destruct Hc3.
Qed.

Lemma counted_run cfg l : counted (run cfg l start_mock).
Proof.
  assert (H0 : counted start_mock) by (by split; simpl; intros *; rewrite ?lookup_empty; try intros [? ?]).
  revert H0. generalize start_mock as s. induction l as [|[e i] l IH]; intros s Hs; [done|]. by apply IH, counted_step.
Qed.

(** The mock provider reports what it answered.  Whatever requests, timers
    and resets come, the summary of every path counts as delivered the distinct
    ids it answered with a 2xx, as duplicates all further answers to those ids,
    as failed its 500s, and has at most one latency per delivery. *)
Theorem deliveries_counted (cfg : Config) (l : list (Env * input)) (p : string) (k : nat) :
  let s := run cfg l start_mock in
  assoc p (paths s) = Some k ->
  exists x, heap s !! k = Some x /\
    seen x = list_to_set (ids k (responses s)) /\
    (s_delivered (summarise x) + s_duplicates (summarise x) = length (ids k (responses s)))%nat /\
    s_failed (summarise x) = failures k (responses s) /\ (s_count (summarise x) <= s_delivered (summarise x))%nat.
Proof.
  intros s Hp. assert (Hc : counted s) by apply counted_run. destruct (co_paths _ Hc _ _ Hp) as [x Hx].
  destruct (co_tally _ Hc _ _ Hx) as [H1 H2 H3 H4 _]. exists x. repeat split; try done.
  simpl. unfold sorted_values. by rewrite merge_sort_Permutation, length_map.
Qed.

(** Its percentiles are those of the results. *)
Lemma percentile_pctOf sorted p : percentile sorted p = pctOf sorted p.
Proof.
  unfold percentile, pctOf, rank. destruct sorted as [|x l]; [done|]. simpl length. set (c := Qceiling _). f_equal. lia.
Qed.

Definition ex_cfg : Config := mkConfig 20 10 (1 # 10).
Definition ex_menv (t : Z) (f : Q) : Env := mkEnv t f (1 # 2).
Definition ex_body (id : string) : option json := Some (JObj [("id", JStr id); ("text", JStr "load 1000 k1")]).

(** A delivery fails, is retried, and a third request repeats it. *)
Definition ex_retry : list (Env * input) :=
  [(ex_menv 1005 0, IRequest "POST" "/hook/fanout" (ex_body "a") None); (ex_menv 1030 0, ITimer 1);
   (ex_menv 1100 1, IRequest "POST" "/hook/fanout" (ex_body "a") None); (ex_menv 1125 0, ITimer 2);
   (ex_menv 1130 1, IRequest "POST" "/hook/fanout" (ex_body "a") None); (ex_menv 1155 0, ITimer 3)].

Lemma deliveries_counted_witness :
  responses (run ex_cfg ex_retry start_mock) = [R200 0 (Some "a"); R200 0 (Some "a"); R500 0] /\
  exists x, heap (run ex_cfg ex_retry start_mock) !! 0%nat = Some x /\
    (s_delivered (summarise x) + s_duplicates (summarise x) = 2)%nat /\ s_failed (summarise x) = 1%nat.
Proof.
  assert (Hr : responses (run ex_cfg ex_retry start_mock) = [R200 0 (Some "a"); R200 0 (Some "a"); R500 0]) by (vm_compute; reflexivity).
  split; [exact Hr|].
  destruct (deliveries_counted ex_cfg ex_retry "fanout" 0 ltac:(vm_compute; reflexivity)) as (x & H1 & _ & H2 & H3 & _).
  rewrite Hr in H2, H3. exists x. split; [exact H1|]. split; [exact H2|exact H3].
Defined.

(** An answer under way when the counters are reset counts in the old object:
    the path starts again from nothing. *)
Example late_answer_after_reset :
  let s := run ex_cfg (take 3 ex_retry ++ [(ex_menv 1110 0, IRequest "POST" "/reset" None None); (ex_menv 1125 0, ITimer 2)]) start_mock in
  paths s = [] /\ (stats s).1 = [] /\ hd_error (responses s) = Some (R200 0 (Some "a")).
Proof. vm_compute. done. Qed.
