(* ===== verification/Scaffold.v ===== *)
(** * Scaffold: creating an agent project
    ([packages/create-converger-agent/src/scaffold.mjs]).

    The template is a tree; [scaffold] returns the files it writes, in order,
    under the target directory, or the error it throws before it writes
    anything.  [path.resolve] and the state of the target directory are
    arguments.  Flags are kept in the order in which they were given, so the
    unknown option an error names is the first one given. *)

From Stdlib Require Import Ascii.
From stdpp Require Import base sets list sorting strings.
From Stdlib Require Import ZArith QArith Lia.
From S2P Require Import Prelude JsMap Watermark Json Rest Stringify.

Open Scope string_scope.
Open Scope list_scope.
Open Scope Z_scope.

(** ** Package names *)

Definition name_start (c : ascii) : bool :=
  ((97 <=? code c) && (code c <=? 122)) || ((48 <=? code c) && (code c <=? 57)) || (code c =? 45) || (code c =? 126).
Definition name_char (c : ascii) : bool := name_start c || (code c =? 46) || (code c =? 95).

(** [[a-z0-9-~][a-z0-9-._~]*] up to the end. *)
Definition plain_name (l : chars) : bool :=
  match l with c :: l => name_start c && forallb name_char l | [] => false end.

(** The text before the first character [x], and the text after it. *)
Fixpoint cut (x : Z) (l : chars) : option (chars * chars) :=
  match l with
  | [] => None
  | c :: l => if code c =? x then Some ([], l) else '(a, b) ← cut x l; Some (c :: a, b)
  end.

(* @src packages/create-converger-agent/src/scaffold.mjs 32-34 validPackageName *)
Definition validPackageName (name : string) : bool :=
  match chars_of name with
  | c :: l =>
      if code c =? 64 then match cut 47 l with Some (scope, l) => plain_name scope && plain_name l | None => false end
      else plain_name (c :: l)
  | [] => false
  end && (String.length name <=? 214)%nat.

(** ** Options *)

Record ScaffoldOptions := mkOptions {
  directory : string; name : option string; url : option string; group : option string;
  sdkVersion : option string; force : bool
}.

Inductive Parsed := Help | Options (o : ScaffoldOptions).

Inductive flag := FTrue | FText (s : string).

(** [arg.slice(2).split("=", 2)]: what follows a second [=] is dropped. *)
Definition split_flag (arg : chars) : string * option string :=
  match cut 61 arg with
  | None => (str_of arg, None)
  | Some (key, rest) => (str_of key, Some match cut 61 rest with Some (v, _) => str_of v | None => str_of rest end)
  end.

(* @src packages/create-converger-agent/src/scaffold.mjs 91-101 parseArgs *)
Fixpoint read_args (argv : list string) (flags : list (string * flag)) (positional : list string) :
    string + list (string * flag) * list string :=
  match argv with
  | [] => inr (flags, positional)
  | arg :: argv =>
      if String.eqb arg "-h" || String.eqb arg "--help" then read_args argv (map_set "help" FTrue flags) positional
      else if String.eqb arg "--force" || String.eqb arg "-f" then read_args argv (map_set "force" FTrue flags) positional
      else
        match strip_prefix (chars_of "--") (chars_of arg) with
        | Some rest =>
            match split_flag rest with
            | (key, Some value) => read_args argv (map_set key (FText value) flags) positional
            | (key, None) =>
                match argv with
                | value :: argv => read_args argv (map_set key (FText value) flags) positional
                | [] => inl ("--" +:+ key +:+ " needs a value")
                end
            end
        | None => read_args argv flags (positional ++ [arg])
        end
  end.

Definition known : list string := ["help"; "force"; "name"; "url"; "group"; "sdk-version"].

Definition text_flag (key : string) (flags : list (string * flag)) : option string :=
  match assoc key flags with Some (FText s) => Some s | _ => None end.

(** [flags[key]] is truthy. *)
Definition flag_set (key : string) (flags : list (string * flag)) : bool :=
  match assoc key flags with Some (FText s) => negb (String.eqb s "") | Some FTrue => true | None => false end.

(* @src packages/create-converger-agent/src/scaffold.mjs 86-114 parseArgs *)
Definition parseArgs (argv : list string) : string + Parsed :=
  match read_args argv [] [] with
  | inl e => inl e
  | inr (flags, positional) =>
      match List.filter (fun k => negb (bool_decide (k ∈ known))) (map fst flags) with
      | k :: _ => inl ("unknown option --" +:+ k)
      | [] =>
          if flag_set "help" flags then inr Help
          else
            match positional with
            | [] | "" :: _ => inl "missing the project directory"
            | directory :: _ =>
                inr (Options (mkOptions directory (text_flag "name" flags) (text_flag "url" flags) (text_flag "group" flags)
                                (text_flag "sdk-version" flags)
                                (match assoc "force" flags with Some FTrue => true | _ => false end)))
            end
      end
  end.

(** ** Substitution *)

(** [content.split(key).join(value)]. *)
Fixpoint replace_all (fuel : nat) (key value l : chars) : chars :=
  match fuel, l with
  | S fuel, c :: l' =>
      match strip_prefix key l with
      | Some rest => value ++ replace_all fuel key value rest
      | None => c :: replace_all fuel key value l'
      end
  | _, _ => l
  end.

Definition replaceAll (key value : string) (content : chars) : chars :=
  replace_all (length content) (chars_of key) (chars_of value) content.

(** [JSON.stringify(value).slice(1, -1)]. *)
(* @src packages/create-converger-agent/src/scaffold.mjs 70-70 scaffold *)
Definition json_escape (value : string) : string := str_of (concat (map json_escape_char (chars_of value))).

Definition values_for (json : bool) (values : list (string * string)) : list (string * string) :=
  map (fun '(k, v) => (k, if json then json_escape v else v)) values.

(** The text of a file. *)
(* @src packages/create-converger-agent/src/scaffold.mjs 67-70 scaffold *)
Definition fill_in (json : bool) (values : list (string * string)) (content : string) : string :=
  str_of (fold_left (fun c '(key, value) => replaceAll key value c) (values_for json values) (chars_of content)).

(** ** Copying the template *)

Inductive node := File (content : string) | Directory (entries : list (string * node)).

(* @src packages/create-converger-agent/src/scaffold.mjs 13-13 RENAMES *)
Definition RENAMES : list (string * string) := [("gitignore", ".gitignore"); ("env.example", ".env.example")].

(* @src packages/create-converger-agent/src/scaffold.mjs 16-16 DEFAULT_SDK_VERSION *)
Definition DEFAULT_SDK_VERSION : string := "^0.1.0".

Definition ends_with (suffix s : string) : bool :=
  match strip_prefix (rev (chars_of suffix)) (rev (chars_of s)) with Some _ => true | None => false end.

(** [path.join(path.dirname(relative), RENAMES[base] ?? base)]. *)
(* @src packages/create-converger-agent/src/scaffold.mjs 65-66 scaffold *)
Definition renamed (prefix base : string) : string := prefix +:+ (assoc base RENAMES ?? base).

(** [prefix] is the directory of the file, with its slash. *)
(* @src packages/create-converger-agent/src/scaffold.mjs 59-75 scaffold *)
Fixpoint copy (values : list (string * string)) (prefix base : string) (n : node) : list (string * string) :=
  match n with
  | File content => [(renamed prefix base, fill_in (ends_with ".json" base) values content)]
  | Directory entries =>
      flat_map (fun '(entry, n) => copy values (if String.eqb base "" then "" else prefix +:+ base +:+ "/") entry n) entries
  end.

(** [path.basename]. *)
Definition basename (target : string) : string :=
  str_of (rev (match cut 47 (rev (chars_of target)) with Some (l, _) => l | None => rev (chars_of target) end)).

Definition default_name (target : string) : string :=
  str_of (map (fun c => if name_char c then c else chr 45) (lower (chars_of (basename target)))).

(** [name.replace(/^@[^/]+\//, "")]. *)
Definition unscoped (n : string) : string :=
  match chars_of n with
  | c :: l => if code c =? 64 then match cut 47 l with Some (_ :: _, r) => str_of r | _ => n end else n
  | [] => n
  end.

(** [/^.{1,128}$/]. *)
Definition valid_group (g : string) : bool :=
  let l := chars_of g in
  (1 <=? length l)%nat && (length l <=? 128)%nat && forallb (fun c => negb (bool_decide (code c ∈ [10; 13]))) l.

Definition text_le (a b : string) : Prop := String.leb a b = true.
#[export] Instance text_le_dec : RelDecision text_le := fun a b => decide (String.leb a b = true).

(** The files written, with their text, and the list returned. [existing] is
    the number of entries of the target directory. *)
(* @src packages/create-converger-agent/src/scaffold.mjs 41-79 scaffold *)
Definition scaffold (TEMPLATE : node) (resolve : string -> string) (existing : nat) (options : ScaffoldOptions) :
    string + list (string * string) * list string :=
  let target := resolve (directory options) in
  let name := name options ?? default_name target in
  if negb (validPackageName name) then inl ("invalid package name: " +:+ name +:+ " (use --name)")
  else if (0 <? existing)%nat && negb (force options) then inl (target +:+ " is not empty (use --force to write into it)")
  else
    let group := group options ?? unscoped name in
    if negb (valid_group group) then inl "the agent group must be 1 to 128 characters"
    else
      let values := [("__PACKAGE_NAME__", name); ("__CONVERGER_URL__", url options ?? "http://localhost:4000");
                     ("__AGENT_GROUP__", group); ("__SDK_VERSION__", sdkVersion options ?? DEFAULT_SDK_VERSION)] in
      let writes := copy values "" "" TEMPLATE in
      inr (writes, merge_sort text_le (map fst writes)).

(** ** Escaped values *)

(** A value put into a JSON file reads back: between quotes, what
    [json_escape] makes of any string parses to that string, whatever control
    characters, quotes and backslashes it holds. *)
Theorem escaped_value_parses (v : string) :
  parse_json (chr 34 :: chars_of (json_escape v) ++ [chr 34]) = Some (JStr v).
Proof.
  unfold json_escape. rewrite chars_of_str_of. set (e := concat (map json_escape_char (chars_of v))).
  assert (He : (length (chars_of v) <= length e)%nat) by apply escape_length.
  unfold parse_json. cbn [length value]. change (skip_ws (chr 34 :: e ++ [chr 34])) with (chr 34 :: e ++ [chr 34]). cbn iota.
  change (code (chr 34) =? 123) with false. change (code (chr 34) =? 91) with false. change (code (chr 34) =? 34) with true. cbn iota.
  subst e. rewrite string_body_escaped by (rewrite length_app; simpl in *; lia). cbn [skip_ws].
  unfold str_of, chars_of. by rewrite String.string_of_list_ascii_of_string.
Qed.

(** ** Arguments *)

(** The arguments that ask for the options [o]. *)
Definition render_option (key : string) (v : option string) : list string :=
  match v with Some v => ["--" +:+ key; v] | None => [] end.

Definition render_args (o : ScaffoldOptions) : list string :=
  (if force o then ["--force"] else []) ++ render_option "name" (name o) ++ render_option "url" (url o) ++
  render_option "group" (group o) ++ render_option "sdk-version" (sdkVersion o) ++ [directory o].

Lemma read_option key v argv flags pos : key ∈ ["name"; "url"; "group"; "sdk-version"] ->
  read_args (render_option key v ++ argv) flags pos =
  read_args argv (match v with Some v => map_set key (FText v) flags | None => flags end) pos.
Proof. destruct v; [|done]. rewrite !elem_of_cons. by intros [->|[->|[->|[->|[]%elem_of_nil]]]]. Qed.

Lemma read_directory dir flags : dir ∉ ["-h"; "-f"] -> strip_prefix (chars_of "--") (chars_of dir) = None ->
  read_args [dir] flags [] = inr (flags, [dir]).
Proof.
  intros Hd Hs. unfold read_args.
  assert (Hneq : forall x, x ∈ ["-h"; "--help"; "--force"; "-f"] -> String.eqb dir x = false).
  { intros x Hx. apply String.eqb_neq. intros ->. rewrite !elem_of_cons in Hx.
    destruct Hx as [->|[->|[->|[->|[]%elem_of_nil]]]]; try done; apply Hd; set_solver. }
  rewrite !Hneq by (rewrite !elem_of_cons; tauto). cbn [orb]. by rewrite Hs.
Qed.

(** The command line carries any options: what [render_args] writes,
    [parseArgs] reads back, whatever the values are (also values that start
    with dashes, or hold an equals sign). *)
Theorem parseArgs_render (o : ScaffoldOptions) :
  directory o <> "" -> directory o ∉ ["-h"; "-f"] -> strip_prefix (chars_of "--") (chars_of (directory o)) = None ->
  parseArgs (render_args o) = inr (Options o).
Proof.
  destruct o as [dir n u g v f]. cbn [directory]. intros Hne Hd Hs. unfold parseArgs, render_args. cbn [force name url group sdkVersion directory].
  assert (Hf : forall argv, read_args ((if f then ["--force"] else []) ++ argv) [] [] = read_args argv (if f then [("force", FTrue)] else []) [])
    by (by destruct f).
  rewrite Hf, !read_option, read_directory by (done || set_solver). clear Hf Hd Hs.
  destruct dir as [|c dir]; [done|]. by destruct f, n, u, g, v.
Qed.

Lemma parseArgs_render_witness :
  render_args (mkOptions "my-agent" (Some "@acme/bot") (Some "http://h/?a=b") None (Some "--x") true) =
    ["--force"; "--name"; "@acme/bot"; "--url"; "http://h/?a=b"; "--sdk-version"; "--x"; "my-agent"] /\
  parseArgs (render_args (mkOptions "my-agent" (Some "@acme/bot") (Some "http://h/?a=b") None (Some "--x") true)) =
    inr (Options (mkOptions "my-agent" (Some "@acme/bot") (Some "http://h/?a=b") None (Some "--x") true)).
Proof.
  split; [reflexivity|].
  exact (parseArgs_render (mkOptions "my-agent" (Some "@acme/bot") (Some "http://h/?a=b") None (Some "--x") true)
    ltac:(discriminate) ltac:(refine (bool_decide_eq_true_1 _ _); reflexivity) eq_refl).
Defined.

(** A value given with an equals sign loses what follows a second one. *)
Example inline_value_truncated :
  parseArgs ["--url=http://h/?a=b"; "d"] = inr (Options (mkOptions "d" None (Some "http://h/?a") None None false)).
Proof. reflexivity. Qed.

Example parse_errors :
  parseArgs ["--colour"; "red"; "d"] = inl "unknown option --colour" /\ parseArgs ["d"; "--name"] = inl "--name needs a value" /\
  parseArgs ["--force"] = inl "missing the project directory" /\ parseArgs ["d"; "-h"] = inr Help.
Proof. done. Qed.

(** ** Scaffolding *)

#[local] Instance text_le_total : Total text_le.
Proof. intros a b. unfold text_le. apply String.leb_total. Qed.

(** [scaffold] writes a project exactly when the package name and the agent
    group are valid and the target is empty (or [force] is given); the files it
    returns are then, in order, those it wrote. *)
Theorem scaffold_writes (T : node) (resolve : string -> string) (existing : nat) (o : ScaffoldOptions) :
  let n := name o ?? default_name (resolve (directory o)) in
  ((exists r, scaffold T resolve existing o = inr r) <->
   validPackageName n = true /\ (existing = 0%nat \/ force o = true) /\ valid_group (group o ?? unscoped n) = true) /\
  forall writes files, scaffold T resolve existing o = inr (writes, files) ->
    files ≡ₚ map fst writes /\ Sorted text_le files.
Proof.
  intros n. unfold scaffold. fold n. split.
  - destruct (validPackageName n); [|by split; [intros [? [=]]|intros (? & _)]]. cbn [negb].
    destruct existing as [|e]; cbn [Nat.ltb Nat.leb andb].
    + destruct (valid_group _); cbn [negb]; [|by split; [intros [? [=]]|intros (_ & _ & ?)]]. split; [by auto|eauto].
    + destruct (force o); cbn [negb]; [|by split; [intros [? [=]]|intros (_ & [?|?] & _)]].
      destruct (valid_group _); cbn [negb]; [|by split; [intros [? [=]]|intros (_ & _ & ?)]]. split; [by auto|eauto].
  - intros writes files. destruct (negb _); [done|]. destruct (_ && _); [done|]. destruct (negb _); [done|]. intros [= <- <-].
    split; [apply merge_sort_Permutation|apply (Sorted_merge_sort text_le)].
Qed.

(** The template's files, and a scoped name. *)
Definition ex_template : node :=
  Directory [("gitignore", File "node_modules"); ("package.json", File "{'name': '__PACKAGE_NAME__'}");
             ("src", Directory [("main.ts", File "const group = '__AGENT_GROUP__';")])].

Example scaffold_example :
  scaffold ex_template (fun d => "/tmp/" +:+ d) 0 (mkOptions "My Agent" None None None None false) =
  inr ([(".gitignore", "node_modules"); ("package.json", "{'name': 'my-agent'}"); ("src/main.ts", "const group = 'my-agent';")],
       [".gitignore"; "package.json"; "src/main.ts"]).
Proof. vm_compute. reflexivity. Qed.

(** Outside JSON files a value is put between the quotes of a string literal
    as it is: a group that ends in a backslash leaves the literal open. *)
Example literal_not_escaped :
  validPackageName "@acme/bot" = true /\ valid_group "team\" = true /\
  fill_in false [("__AGENT_GROUP__", "team\")] "const group = '__AGENT_GROUP__';" = "const group = 'team\';".
Proof. vm_compute. done. Qed.
