(* ===== verification/LoadScripts.v ===== *)
(** * LoadScripts: the k6 scripts of the load tests ([load/e2e.js],
    [load/reconnect.js], [load/idle.js], [load/webhook_burst.js],
    [load/dead_channel.js], [load/lib/summary.js]).

    What a script configures (its thresholds), what a virtual user does (its
    sockets, when they open, when it sends and with which keys), and the summary
    it leaves for [load/results.js].  k6 itself runs the scripts and evaluates
    the thresholds; here its results are data.  Times are in milliseconds, as
    rationals: [Date.now()] is their integer part. *)

From stdpp Require Import base list strings pretty.
From Stdlib Require Import ZArith QArith Qround Qminmax Lia Lqa.
From S2P Require Import Prelude Errors Watermark Json Stringify LoadReport LoadResults Subscriber.

Open Scope string_scope.
Open Scope list_scope.
Open Scope Z_scope.

(** ** Environment *)

Definition Environ : Type := string -> option string.

(** [None]: not a finite number. *)
(* @src load/lib/converger.js 15-15 num *)
Definition num_env (env : Environ) (name : string) (fallback : Q) : option Q :=
  match env name with Some s => finite_number s | None => Some fallback end.

(** [__ENV[name] || fallback]. *)
Definition text_env (env : Environ) (name fallback : string) : string :=
  match env name with Some s => if String.eqb s "" then fallback else s | None => fallback end.

(** A count of virtual users or sockets; only whole numbers are modelled (k6
    refuses others for virtual users). *)
Definition count_env (env : Environ) (name : string) (fallback : nat) : option nat :=
  q ← num_env env name (inject_Z (Z.of_nat fallback)); if is_integer q && Qle_bool 0 q then Some (Z.to_nat (Qfloor q)) else None.

Record FixtureConversation := mkConversation { fx_id : string; fx_tokens : list string }.

Record Config := mkConfig { CONVERSATIONS : nat; SUBSCRIBERS : nat; RATE : Q; DURATION_S : Q; DRAIN_S : Q }.

(** The variables the message scenarios share; [fixtures.conversations[0]] of no
    conversations throws. *)
(* @src load/e2e.js 17-21 config *)
Definition config (env : Environ) (conversations : list FixtureConversation) (drain : Q) : option Config :=
  first ← head conversations;
  c ← count_env env "CONVERSATIONS" (length conversations);
  s ← count_env env "SUBSCRIBERS" (length (fx_tokens first));
  r ← num_env env "RATE" 1;
  d ← num_env env "DURATION_S" 60;
  w ← num_env env "DRAIN_S" drain;
  Some (mkConfig (Nat.min c (length conversations)) s r d w).

(** ** Options *)

Record K6Options := mkOptions { vus : nat; iterations : nat; maxDuration : string; thresholds : list (string * list string) }.

(** [count<1]. *)
Definition none : list string := ["count<1"].
Definition below (stat : string) (limit : Q) : list string := ["p(" +:+ stat +:+ ")<" +:+ js_num limit].

(* @src load/e2e.js 23-40 options *)
Definition e2e_options (env : Environ) (c : Config) : option K6Options :=
  p95 ← num_env env "E2E_P95_MS" 250;
  rest ← num_env env "REST_P95_MS" 1000;
  Some (mkOptions (CONVERSATIONS c) 1 (js_num (DURATION_S c + DRAIN_S c + 120) +:+ "s")
          [("e2e_latency_ms", below "95" p95); ("lost_acked_messages", none); ("seq_duplicates", none); ("messages_never_acked", none);
           ("http_req_duration{name:POST /activities}", below "95" rest)]).

Record Storms := mkStorms { MODE : string; STORM_AT_S : Q; STORM_EVERY_S : Q; CONNECT_RATE : Q; SCENARIO : string }.

(* @src load/reconnect.js 31-41 config *)
Definition storms_config (env : Environ) : option Storms :=
  let mode := text_env env "MODE" "storm" in
  at_s ← num_env env "STORM_AT_S" 15;
  every ← num_env env "STORM_EVERY_S" 15;
  rate ← num_env env "CONNECT_RATE" 0;
  Some (mkStorms mode at_s every rate (text_env env "SCENARIO" (if String.eqb mode "storm" then "reconnect_storm" else "rolling_restart"))).

(** How long opening all the sockets takes. *)
(* @src load/reconnect.js 40-40 RAMP_S *)
Definition ramp_s (c : Config) (rate : Q) : Q :=
  if Qlt_le_dec 0 rate then inject_Z (Z.of_nat (CONVERSATIONS c * SUBSCRIBERS c)) / rate else 0.

(* @src load/reconnect.js 43-59 options *)
Definition reconnect_options (c : Config) (s : Storms) : K6Options :=
  mkOptions (CONVERSATIONS c) 1 (pretty (Qceiling (ramp_s c (CONNECT_RATE s) + DURATION_S c + DRAIN_S c) + 300) +:+ "s")
    [("lost_acked_messages", none); ("seq_duplicates", none); ("subscribers_unverified", none); ("messages_never_acked", none)].

(** The variables of the dead-channel scenario, and its phase. *)
(* @src load/dead_channel.js 20-23 config *)
Definition dead_channel_config (env : Environ) (conversations : list FixtureConversation) : option (Config * string) :=
  c ← count_env env "CONVERSATIONS" (length conversations);
  r ← num_env env "RATE" 1;
  d ← num_env env "DURATION_S" 90;
  Some (mkConfig (Nat.min c (length conversations)) 0 r d 0, text_env env "PHASE" "baseline").

(* @src load/dead_channel.js 25-38 options *)
Definition dead_channel_options (c : Config) : K6Options :=
  mkOptions (CONVERSATIONS c) 1 (js_num (DURATION_S c + 120) +:+ "s") [("messages_never_acked", none)].

(** ** The sockets of a virtual user *)

(** Socket [j] of conversation [index]: the node it starts at and its token. *)
(* @src load/e2e.js 46-48 sockets *)
Definition vu_sockets (subscribers index : nat) (tokens : list string) : list (nat * string) :=
  imap (fun j token => (index * subscribers + j, token)%nat) (take subscribers tokens).

(* @src load/e2e.js 46-49 sockets *)
Definition vu_subscribers (app_urls : list string) (subscribers index : nat) (tokens : list string) : list Subscriber :=
  map (fun '(start, token) => new_subscriber (map ws_url app_urls) start token true) (vu_sockets subscribers index tokens).

(** How long socket [k] still waits at [now], in a run that started at [t0]. *)
(* @src load/reconnect.js 70-70 ramp *)
Definition connect_wait (rate t0 now : Q) (k : nat) : Q :=
  if Qlt_le_dec 0 rate then Qmax 0 (t0 + inject_Z (Z.of_nat k * 1000) / rate - now) else 0.

(** ** Storms *)

(** The [for] loop, [None] when [fuel] rounds do not end it. *)
(* @src load/reconnect.js 87-87 storms *)
Fixpoint storms (fuel : nat) (at_s every duration : Q) : option (list Q) :=
  match fuel with
  | O => None
  | S fuel => if Qlt_le_dec at_s duration then l ← storms fuel (at_s + every)%Q every duration; Some (at_s :: l) else Some []
  end.

(** ** Sending *)

(** A send: its number and [started]. *)
Record Send := mkSend { sd_n : nat; sd_started : Z }.

Section Sends.
(** What each [postActivity] takes, and how late the timer of each pause is. *)
Context (interval stopAt : Q) (post late : nat -> Q).

(** [await sleepMs(Math.max(0, interval - (Date.now() - started)))]. *)
Definition pause (started now : Z) : Q := Qmax 0 (interval - inject_Z (now - started)).

(** The [while] loop of a virtual user from time [t] on, after [n] sends. *)
(* @src load/e2e.js 60-72 sends *)
Fixpoint sends (fuel n : nat) (t : Q) : option (list Send) :=
  match fuel with
  | O => None
  | S fuel =>
      let started := Qfloor t in
      if Qlt_le_dec (inject_Z started) stopAt then
        let acked := (t + post n)%Q in
        l ← sends fuel (S n) (acked + pause started (Qfloor acked) + late n)%Q;
        Some (mkSend (S n) started :: l)
      else Some []
  end.
End Sends.

(** [conversation.id.slice(0, 8)]. *)
Definition short (id : string) : string := str_of (firstn 8 (chars_of id)).

(** The idempotency key of a send: [prefix] is "e2e", the scenario, or "iso-" and the phase. *)
(* @src load/e2e.js 64-70 key *)
Definition send_key (prefix run_id conversation : string) (n : nat) : string :=
  prefix +:+ "-" +:+ run_id +:+ "-" +:+ short conversation +:+ "-" +:+ pretty n.

(* @src load/lib/converger.js 55-55 loadText *)
Definition loadText (now : nat) (key : string) : string := "load " +:+ pretty now +:+ " " +:+ key.

(** The activities of a virtual user: each send is a [postActivity] whose
    attempts are [rounds n], until [grace] after the end. *)
(* @src load/e2e.js 64-70 postActivity *)
Definition vu_posts (app_urls : list string) (index : nat) (prefix run_id : string) (c : FixtureConversation) (stopAt grace : Z)
    (rounds : nat -> list (Z * option Z)) (l : list Send) : list (list post_output * option bool) :=
  map (fun x => postActivity app_urls index (fx_id c) (send_key prefix run_id (fx_id c) (sd_n x)) (stopAt + grace) (rounds (sd_n x))) l.

(** What the three scenarios post, until half a minute after the end, or long
    enough to outlast a restarted node. *)
(* @src load/e2e.js 61-72 posts *)
Definition e2e_posts (app_urls : list string) (index : nat) (run_id : string) (c : FixtureConversation) (stopAt : Z)
    (rounds : nat -> list (Z * option Z)) (l : list Send) : list (list post_output * option bool) :=
  vu_posts app_urls index "e2e" run_id c stopAt 30000 rounds l.

(* @src load/reconnect.js 93-106 posts *)
Definition reconnect_posts (app_urls : list string) (index : nat) (s : Storms) (run_id : string) (c : FixtureConversation) (stopAt : Z)
    (rounds : nat -> list (Z * option Z)) (l : list Send) : list (list post_output * option bool) :=
  vu_posts app_urls index (SCENARIO s) run_id c stopAt 120000 rounds l.

(* @src load/dead_channel.js 47-59 posts *)
Definition dead_channel_posts (app_urls : list string) (index : nat) (phase run_id : string) (c : FixtureConversation) (stopAt : Z)
    (rounds : nat -> list (Z * option Z)) (l : list Send) : list (list post_output * option bool) :=
  vu_posts app_urls index ("iso-" +:+ phase) run_id c stopAt 30000 rounds l.

(** How long the storm at [at_s] still waits at [now], in a run that began at [begin]. *)
(* @src load/reconnect.js 83-86 storm *)
Definition storm_wait (begin at_s now : Q) : Q := Qmax 0 (begin + at_s * 1000 - now).

(** A storm: every socket drops its connection. *)
(* @src load/reconnect.js 83-86 storm *)
Definition storm (env : Subscriber.Env) (l : list Subscriber) : list Subscriber := map (forceReconnect env) l.

(** The wait for the sockets: every 50 ms, until all are in or 15 s have
    passed; [welcomed] says whether they are at each time. *)
(* @src load/e2e.js 51-53 join *)
Fixpoint join_wait (fuel : nat) (deadline : Z) (t : Q) (welcomed : Q -> bool) (late : nat -> Q) : option Q :=
  match fuel with
  | O => None
  | S fuel => if (Qfloor t <? deadline) && negb (welcomed t) then join_wait fuel deadline (t + 50 + late fuel)%Q welcomed late else Some t
  end.

(** ** Idle sockets *)

(* @src load/idle.js 21-21 VUS *)
Definition idle_vus (sockets per_vu : nat) : nat := Z.to_nat (Qceiling (inject_Z (Z.of_nat sockets) / inject_Z (Z.of_nat per_vu))).

(** The numbers of the sockets of virtual user [vu], counted from 0. *)
(* @src load/idle.js 41-50 sockets *)
Definition idle_sockets (sockets per_vu vu : nat) : list nat :=
  let first := (vu * per_vu)%nat in
  seq first (Nat.min per_vu (sockets - first)).

(* @src load/idle.js 52-53 socket *)
Definition idle_subscriber (app_urls : list string) (conversations : list FixtureConversation) (k : nat) : option Subscriber :=
  c ← conversations !! (k mod length conversations)%nat;
  token ← head (fx_tokens c);
  Some (new_subscriber (map ws_url app_urls) k token false).

(* @src load/idle.js 24-39 options *)
Definition idle_options (sockets per_vu : nat) (rate hold : Q) : K6Options :=
  mkOptions (idle_vus sockets per_vu) 1 (pretty (Qceiling (inject_Z (Z.of_nat sockets) / rate + hold) + 180) +:+ "s")
    [("ws_connected", ["count>=" +:+ pretty sockets]); ("ws_unexpected_closes", none)].

(** ** The webhook burst *)

Section Burst.
(** [crypto.hmac("sha256", secret, text, "hex")], of k6. *)
Context (hmac : string -> string -> string).

Record Ingress := mkIngress { in_id : string; in_secret : string }.
Record Request := mkRequest { rq_url : string; rq_body : string; rq_signature : string }.

(** Iteration [n] of the burst, at [now]. *)
(* @src load/webhook_burst.js 48-63 request *)
Definition burst_request (app_urls : list string) (ingress : Ingress) (run_id : string) (participants n now : nat) : Request :=
  let key := "burst-" +:+ run_id +:+ "-" +:+ pretty n in
  let body := stringify (JObj [("sender", JStr "load"); ("text", JStr (loadText now key));
                               ("external_id", JStr ("participant-" +:+ pretty (n mod participants)%nat)); ("idempotency_key", JStr key)]) in
  let t := pretty (now / 1000)%nat in
  mkRequest (appUrl app_urls n +:+ "/api/v1/channels/" +:+ in_id ingress +:+ "/inbound") body
    ("t=" +:+ t +:+ ",v1=" +:+ hmac (in_secret ingress) (t +:+ "." +:+ body)).
End Burst.

(** The executor of the burst starts iterations at a rate. *)
Record BurstOptions := mkBurstOptions { br_rate : Q; br_duration : string; br_preAllocatedVUs : Q; br_maxVUs : Q; br_thresholds : list (string * list string) }.

Record BurstConfig := mkBurst { BURST_RATE : Q; BURST_S : Q; PARTICIPANTS : Q }.

(* @src load/webhook_burst.js 20-22 config *)
Definition burst_config (env : Environ) : option BurstConfig :=
  r ← num_env env "BURST_RATE" 500; d ← num_env env "BURST_S" 30; p ← num_env env "PARTICIPANTS" 200; Some (mkBurst r d p).

(* @src load/webhook_burst.js 27-46 options *)
Definition burst_options (env : Environ) (c : BurstConfig) : option BurstOptions :=
  most ← num_env env "MAX_VUS" 500;
  Some (mkBurstOptions (BURST_RATE c) (js_num (BURST_S c) +:+ "s") (Qmin most (Qmax 20 (BURST_RATE c))) most
          [("inbound_rejected", none); ("dropped_iterations", none); ("http_req_duration{name:POST /inbound}", below "95" 500)]).

(** Which counter the answer adds to. *)
(* @src load/webhook_burst.js 66-70 accepted *)
Definition burst_counter (status : Z) : string := if (200 <=? status) && (status <? 300) then "inbound_accepted" else "inbound_rejected".

(** ** The summary *)

(** [new Date(ms).toISOString()], for the years 0 to 9999. *)
Definition pad (width : nat) (x : Z) : string := let s := pretty x in str_of (repeat (chr 48) (width - String.length s)) +:+ s.

(** Year, month and day of a day counted from 1970-01-01, in eras of 400 years
    that start on the first of March of year 0. *)
Definition civil (days : Z) : Z * Z * Z :=
  let z := days + 719468 in
  let era := z / 146097 in
  let doe := z mod 146097 in
  let yoe := (doe - doe / 1460 + doe / 36524 - doe / 146096) / 365 in
  let doy := doe - (365 * yoe + yoe / 4 - yoe / 100) in
  let mp := (5 * doy + 2) / 153 in
  let m := if mp <? 10 then mp + 3 else mp - 9 in
  (yoe + era * 400 + (if m <=? 2 then 1 else 0), m, doy - (153 * mp + 2) / 5 + 1).

Definition toISOString (ms : Z) : string :=
  let '(y, m, d) := civil (ms / 86400000) in
  let r := ms mod 86400000 in
  pad 4 y +:+ "-" +:+ pad 2 m +:+ "-" +:+ pad 2 d +:+ "T" +:+ pad 2 (r / 3600000) +:+ ":" +:+ pad 2 (r / 60000 mod 60) +:+ ":"
  +:+ pad 2 (r / 1000 mod 60) +:+ "." +:+ pad 3 (r mod 1000) +:+ "Z".

(** What k6 gives [handleSummary]. *)
Record K6Metric := mkMetric { mt_name : string; mt_values : json; mt_thresholds : list (string * bool) }.
Record SummaryData := mkData { sm_metrics : list K6Metric; sm_duration_ms : Q }.

(** [metrics[name] = values]; [thresholds[`${name}: ${expr}`] = ok]. *)
(* @src load/lib/summary.js 8-15 summary *)
Definition summary_metrics (data : SummaryData) : list (string * json) :=
  fold_left (fun l m => set_member (mt_name m) (mt_values m) l) (sm_metrics data) [].

(* @src load/lib/summary.js 11-15 summary *)
Definition summary_thresholds (data : SummaryData) : list (string * json) :=
  fold_left (fun l '(k, ok) => set_member k (JBool ok) l)
    (flat_map (fun m => map (fun '(expr, ok) => (mt_name m +:+ ": " +:+ expr, ok)) (mt_thresholds m)) (sm_metrics data)) [].

(** The content of [$OUT_DIR/<scenario>.json]. *)
(* @src load/lib/summary.js 6-33 summary *)
Definition summary (scenario : string) (params : list (string * json)) (now : Z) (data : SummaryData) : json :=
  JObj [("scenario", JStr scenario); ("params", JObj params);
        ("started_at", JStr (toISOString (Qfloor (inject_Z now - sm_duration_ms data))));
        ("duration_ms", JNum (sm_duration_ms data));
        ("metrics", JObj (summary_metrics data)); ("thresholds", JObj (summary_thresholds data))].

Definition jnat (n : nat) : json := JNum (inject_Z (Z.of_nat n)).

(* @src load/e2e.js 78-84 handleSummary *)
Definition e2e_params (c : Config) : list (string * json) :=
  [("conversations", jnat (CONVERSATIONS c)); ("subscribers_per_conversation", jnat (SUBSCRIBERS c));
   ("sockets", jnat (CONVERSATIONS c * SUBSCRIBERS c)); ("rate_per_conversation", JNum (RATE c)); ("duration_s", JNum (DURATION_S c))].

(* @src load/dead_channel.js 62-67 handleSummary *)
Definition dead_channel_params (c : Config) (phase : string) : list (string * json) :=
  [("phase", JStr phase); ("conversations", jnat (CONVERSATIONS c)); ("rate_per_conversation", JNum (RATE c)); ("duration_s", JNum (DURATION_S c))].

(* @src load/webhook_burst.js 73-78 handleSummary *)
Definition burst_params (c : BurstConfig) (targets : nat) : list (string * json) :=
  [("rate", JNum (BURST_RATE c)); ("duration_s", JNum (BURST_S c)); ("participants", JNum (PARTICIPANTS c)); ("targets", jnat targets)].

(* @src load/idle.js 63-69 handleSummary *)
Definition idle_params (sockets per_vu : nat) (rate hold : Q) : list (string * json) :=
  [("sockets", jnat sockets); ("sockets_per_vu", jnat per_vu); ("connect_rate", JNum rate);
   ("ramp_s", JNum (Qred (inject_Z (Z.of_nat sockets) / rate))); ("hold_s", JNum hold)].

(* @src load/reconnect.js 112-122 handleSummary *)
Definition reconnect_params (c : Config) (s : Storms) : list (string * json) :=
  let storm (x : Q) := if String.eqb (MODE s) "storm" then JNum x else JNull in
  [("mode", JStr (MODE s)); ("conversations", jnat (CONVERSATIONS c)); ("subscribers_per_conversation", jnat (SUBSCRIBERS c));
   ("sockets", jnat (CONVERSATIONS c * SUBSCRIBERS c)); ("connect_rate", if Qeq_bool (CONNECT_RATE s) 0 then JNull else JNum (CONNECT_RATE s));
   ("rate_per_conversation", JNum (RATE c)); ("duration_s", JNum (DURATION_S c));
   ("storm_at_s", storm (STORM_AT_S s)); ("storm_every_s", storm (STORM_EVERY_S s))].

Example a_date : toISOString 1766188799123 = "2025-12-19T23:59:59.123Z" /\ toISOString 951782400000 = "2000-02-29T00:00:00.000Z".
Proof. vm_compute. auto. Qed.
