(* ===== verification/LoadScriptFacts.v ===== *)
(** * LoadScriptFacts: what the k6 scripts of the load tests do, and what a
    passing run of them shows ([load/*.js], [load/lib/summary.js],
    [load/results.js]). *)

From stdpp Require Import base list strings pretty.
From Stdlib Require Import ZArith QArith Qround Qminmax Lia Lqa.
From S2P Require Import Prelude Errors Watermark Json Stringify LoadReport LoadResults LoadScenarios LoadFacts Subscriber LoadScripts.

Open Scope string_scope.
Open Scope list_scope.
Open Scope Z_scope.

(** ** Sends are paced *)

Lemma Qfloor_add x y : Qfloor x + Qfloor y <= Qfloor (x + y).
Proof.
  rewrite <- (Qfloor_Z (Qfloor x + Qfloor y)). apply Qfloor_resp_le. rewrite inject_Z_plus.
  apply Qplus_le_compat; apply Qfloor_le.
Qed.

Section Paced.
Context (interval stopAt : Q) (post late : nat -> Q).
Context (Hlate : forall n, (0 <= late n)%Q) (Hint : (1 <= interval)%Q).

Notation step := (Qfloor interval).

Lemma step_pos : 1 <= step.
Proof. change 1 with (Qfloor 1). by apply Qfloor_resp_le. Qed.

(** The next test of the loop comes at least an interval after this send. *)
Lemma next_later n t : let acked := (t + post n)%Q in
  Qfloor t + step <= Qfloor (acked + pause interval (Qfloor t) (Qfloor acked) + late n).
Proof.
  intros acked. assert (H1 : (inject_Z (Qfloor t) + interval <= acked + pause interval (Qfloor t) (Qfloor acked) + late n)%Q).
  { unfold pause. pose proof (Qfloor_le acked). pose proof (Hlate n).
    pose proof (Q.le_max_r 0 (interval - inject_Z (Qfloor acked - Qfloor t))) as Hm.
    set (m := Qmax 0 _) in *. clearbody m. unfold Z.sub in Hm. rewrite inject_Z_plus, inject_Z_opp in Hm. lra. }
  apply Qfloor_resp_le in H1. pose proof (Qfloor_add (inject_Z (Qfloor t)) interval) as H2. rewrite Qfloor_Z in H2. lia.
Qed.

Lemma sends_end fuel n t : Z.max 0 (Qceiling stopAt - Qfloor t) < Z.of_nat fuel -> is_Some (sends interval stopAt post late fuel n t).
Proof.
  revert n t. induction fuel as [|fuel IH]; intros n t Hf; [lia|]. cbn [sends].
  destruct (Qlt_le_dec _ _) as [Hlt|]; [|by eexists]. pose proof (next_later n t) as Hn. cbn zeta in Hn. pose proof step_pos.
  assert (Hc : Qfloor t < Qceiling stopAt) by (rewrite Zlt_Qlt; eapply Qlt_le_trans; [exact Hlt|apply Qle_ceiling]).
  edestruct (IH (S n)) as [l ->]; [|by eexists]. set (t' := Qplus _ (late n)) in *. lia.
Qed.

(** The sends are numbered on and each comes at least an interval after the one before. *)
Lemma sends_spaced fuel n t l : sends interval stopAt post late fuel n t = Some l ->
  forall k x, l !! k = Some x -> sd_n x = S (n + k) /\ Qfloor t + Z.of_nat k * step <= sd_started x /\ (inject_Z (sd_started x) < stopAt)%Q /\
    forall y, l !! S k = Some y -> sd_started x + step <= sd_started y.
Proof.
  revert n t l. induction fuel as [|fuel IH]; intros n t l; [done|]. cbn [sends].
  destruct (Qlt_le_dec _ _) as [Hlt|]; [|intros [= <-] k x; by rewrite lookup_nil].
  pose proof (next_later n t) as Hn. cbn zeta in Hn. set (t' := Qplus _ (late n)) in *.
  destruct (sends interval stopAt post late fuel (S n) t') as [l'|] eqn:E; [|done]. intros [= <-].
  pose proof (IH _ _ _ E) as Hl. intros [|k] x.
  - intros [= <-]. cbn [sd_n sd_started]. split; [lia|]. split; [lia|]. split; [done|]. intros y Hy. apply (Hl 0%nat) in Hy. lia.
  - intros Hx. apply (Hl k) in Hx as (H1 & H2 & H3 & H4). split; [lia|]. split; [lia|]. split; [done|]. apply H4.
Qed.
End Paced.

Lemma app_inj_l (s a b : string) : s +:+ a = s +:+ b -> a = b.
Proof. induction s as [|c s IH]; [done|]. intros [= H]. by apply IH. Qed.

Lemma send_key_inj prefix run_id c n m : send_key prefix run_id c n = send_key prefix run_id c m -> n = m.
Proof. unfold send_key. intros H%app_inj_l%app_inj_l%app_inj_l%app_inj_l%app_inj_l%app_inj_l. by apply (inj pretty) in H. Qed.

(** A virtual user keeps its rate: the loop ends, whatever the requests
    take; each send starts at least an interval after the one before, so that
    their number is bounded by the duration; and each has an idempotency key of
    its own, so that none is answered as a repeat of another. *)
Theorem sends_keep_rate (interval stopAt : Q) (post late : nat -> Q) (t : Q) (prefix run_id c : string) :
  (forall n, 0 <= late n)%Q -> (1 <= interval)%Q ->
  exists l, sends interval stopAt post late (S (Z.to_nat (Qceiling stopAt - Qfloor t))) 0 t = Some l /\
    (forall k x y, l !! k = Some x -> l !! S k = Some y -> sd_started x + Qfloor interval <= sd_started y) /\
    (forall k x, l !! k = Some x -> (inject_Z (Qfloor t + Z.of_nat k * Qfloor interval) < stopAt)%Q) /\
    NoDup (map (fun x => send_key prefix run_id c (sd_n x)) l).
Proof.
  intros Hl Hi. destruct (sends_end interval stopAt post late Hl Hi (S (Z.to_nat (Qceiling stopAt - Qfloor t))) 0 t) as [l E]; [lia|].
  exists l. split; [done|]. pose proof (sends_spaced interval stopAt post late Hl _ _ _ _ E) as Hs. split; [|split].
  - intros k x y Hx Hy. by apply (Hs k x Hx).
  - intros k x Hx. destruct (Hs k x Hx) as (_ & H2 & H3 & _). eapply Qle_lt_trans; [|exact H3]. by rewrite <- Zle_Qle.
  - apply NoDup_alt. intros i j k Hi' Hj'. change (map ?f l) with (f <$> l) in *. rewrite list_lookup_fmap in Hi', Hj'.
    apply fmap_Some in Hi' as (x & Hx & ->). apply fmap_Some in Hj' as (y & Hy & Hk). apply send_key_inj in Hk.
    apply Hs in Hx as [Hx _]. apply Hs in Hy as [Hy _]. lia.
Qed.

Lemma sends_keep_rate_witness :
  map sd_started (sends 1000 5500 (fun n => inject_Z (Z.of_nat n) * 700)%Q (fun _ => 3 # 10) 9 0 (1 # 2) ?? []) = [0; 1000; 2001; 3401] /\
  exists l, sends 1000 5500 (fun n => inject_Z (Z.of_nat n) * 700)%Q (fun _ => 3 # 10) (S (Z.to_nat (Qceiling 5500 - Qfloor (1 # 2)))) 0 (1 # 2) = Some l /\
    NoDup (map (fun x => send_key "e2e" "r1" "c0ffee00-1" (sd_n x)) l).
Proof.
  split; [vm_compute; reflexivity|].
  destruct (sends_keep_rate 1000 5500 (fun n => inject_Z (Z.of_nat n) * 700)%Q (fun _ => 3 # 10) (1 # 2) "e2e" "r1" "c0ffee00-1"
    ltac:(intros ?; discriminate) ltac:(discriminate)) as (l & H1 & _ & _ & H2).
  exists l. split; [exact H1|exact H2].
Defined.

(** ** Storms *)

(** The storms are at [at_s], [at_s + every], ..., before the end. *)
Lemma storms_at fuel at_s every duration l : storms fuel at_s every duration = Some l ->
  forall k, match l !! k with
            | Some x => (x == at_s + inject_Z (Z.of_nat k) * every)%Q /\ (x < duration)%Q
            | None => k = length l -> (duration <= at_s + inject_Z (Z.of_nat k) * every)%Q
            end.
Proof.
  revert at_s l. induction fuel as [|fuel IH]; intros at_s l; [done|]. cbn [storms]. destruct (Qlt_le_dec at_s duration) as [Hlt|Hle].
  - destruct (storms fuel (at_s + every) every duration) as [l'|] eqn:E; [|done]. intros [= <-] [|k]; simpl.
    + split; [ring|done].
    + specialize (IH _ _ E k). rewrite Nat2Z.inj_succ. unfold Z.succ. rewrite inject_Z_plus. change (inject_Z 1) with 1%Q.
      destruct (l' !! k) as [x|]; [destruct IH as [IH Hx]; split; [lra|done]|]. intros [= Hk]. specialize (IH Hk). lra.
  - intros [= <-] k. rewrite lookup_nil. intros ->. change (inject_Z (Z.of_nat (length []))) with 0%Q. lra.
Qed.

Lemma storms_end at_s every duration : (0 < every)%Q ->
  is_Some (storms (S (Z.to_nat (Qceiling ((duration - at_s) / every)))) at_s every duration).
Proof.
  intros He. remember (Z.to_nat _) as m eqn:Hm.
  assert (Hb : (duration <= at_s + inject_Z (Z.of_nat m) * every)%Q).
  { assert (H : ((duration - at_s) / every <= inject_Z (Z.of_nat m))%Q).
    { eapply Qle_trans; [apply Qle_ceiling|]. rewrite <- Zle_Qle. lia. }
    assert (H2 : (duration - at_s == (duration - at_s) / every * every)%Q) by (field; lra).
    assert (H3 : ((duration - at_s) / every * every <= inject_Z (Z.of_nat m) * every)%Q) by (apply Qmult_le_compat_r; lra). lra. }
  clear Hm. revert at_s Hb. induction m as [|m IH]; intros at_s Hb; cbn [storms]; destruct (Qlt_le_dec at_s duration) as [Hlt|]; try by eexists.
  - change (inject_Z (Z.of_nat 0)) with 0%Q in Hb. lra.
  - edestruct (IH (at_s + every)%Q) as [l Hl]; [|cbn [storms] in Hl; rewrite Hl; by eexists].
    rewrite Nat2Z.inj_succ in Hb. unfold Z.succ in Hb. rewrite inject_Z_plus in Hb. change (inject_Z 1) with 1%Q in Hb. lra.
Qed.

(** The storms of a run are exactly the times [at], [at + every],
    [at + 2 every], ... before its end, and computing them ends, as long as
    [every] is positive. *)
Theorem storms_schedule (at_s every duration : Q) : (0 < every)%Q ->
  exists l, storms (S (Z.to_nat (Qceiling ((duration - at_s) / every)))) at_s every duration = Some l /\
    forall k, match l !! k with
              | Some x => (x == at_s + inject_Z (Z.of_nat k) * every)%Q /\ (x < duration)%Q
              | None => k = length l -> (duration <= at_s + inject_Z (Z.of_nat k) * every)%Q
              end.
Proof. intros He. destruct (storms_end at_s every duration He) as [l Hl]. exists l. split; [done|]. by apply (storms_at _ _ _ _ _ Hl). Qed.

(** With [STORM_EVERY_S=0] the loop does not end. *)
Lemma storms_forever fuel at_s duration : (at_s < duration)%Q -> storms fuel at_s 0 duration = None.
Proof.
  revert at_s. induction fuel as [|fuel IH]; intros at_s H; [done|]. cbn [storms]. destruct (Qlt_le_dec _ _) as [_|Hle]; [|lra].
  rewrite IH; [done|lra].
Qed.

(** ** Idle sockets *)

Lemma seq_app_min a n m : (seq a (Nat.min m n) ++ seq (a + m) (n - m))%nat = seq a n.
Proof.
  destruct (Nat.le_ge_cases m n).
  - rewrite Nat.min_l by done. rewrite <- seq_app. f_equal. lia.
  - rewrite Nat.min_r by done. replace (n - m)%nat with 0%nat by lia. apply app_nil_r.
Qed.

Lemma idle_from sockets per_vu v n : (sockets <= (v + n) * per_vu)%nat ->
  concat (map (idle_sockets sockets per_vu) (seq v n)) = seq (v * per_vu) (sockets - v * per_vu).
Proof.
  revert v. induction n as [|n IH]; intros v Hn; simpl.
  - by replace (sockets - v * per_vu)%nat with 0%nat by lia.
  - rewrite IH by lia. unfold idle_sockets. rewrite <- (seq_app_min (v * per_vu) (sockets - v * per_vu) per_vu). f_equal. f_equal; lia.
Qed.

Lemma idle_vus_enough sockets per_vu : (0 < per_vu)%nat -> (sockets <= idle_vus sockets per_vu * per_vu)%nat.
Proof.
  intros Hp. unfold idle_vus. set (x := (_ / _)%Q). pose proof (Qle_ceiling x) as Hc.
  assert (Hx : (x * inject_Z (Z.of_nat per_vu) == inject_Z (Z.of_nat sockets))%Q).
  { unfold x. field. change 0%Q with (inject_Z 0). rewrite inject_Z_injective. lia. }
  assert (H : (inject_Z (Z.of_nat sockets) <= inject_Z (Qceiling x) * inject_Z (Z.of_nat per_vu))%Q).
  { rewrite <- Hx. apply Qmult_le_compat_r; [done|]. change 0%Q with (inject_Z 0). rewrite <- Zle_Qle. lia. }
  rewrite <- inject_Z_mult, <- Zle_Qle in H. nia.
Qed.

(** The virtual users of the idle scenario open each socket once: put
    together, their shares are the sockets 0, 1, ... up to the number asked for. *)
Theorem idle_sockets_partition (sockets per_vu : nat) : (0 < per_vu)%nat ->
  concat (map (idle_sockets sockets per_vu) (seq 0 (idle_vus sockets per_vu))) = seq 0 sockets.
Proof. intros Hp. rewrite idle_from by (by apply idle_vus_enough). f_equal. lia. Qed.

(** ** Send times in texts *)

Lemma pretty_char_digit y : (y < 10)%N -> pretty_N_char y = digit_char (Z.of_N y).
Proof. intros Hy. destruct y as [|y]; [done|]. do 4 (destruct y as [y|y|]; try done; try lia). Qed.

Lemma pretty_go_digits x s : exists ds, chars_of (pretty_N_go x s) = map digit_char ds ++ chars_of s /\
  Forall (fun d => 0 <= d < 10) ds /\ value_of_digits ds = Z.of_N x /\ (ds = [] -> x = 0%N).
Proof.
  revert s. induction (N.lt_wf_0 x) as [x _ IH]. intros s. destruct (decide (x = 0)%N) as [->|Hx].
  { exists []. by rewrite pretty_N_go_0. }
  rewrite pretty_N_go_step by lia. destruct (IH (x / 10)%N ltac:(apply N.div_lt; lia) (String (pretty_N_char (x mod 10)) s)) as (ds & H1 & H2 & H3 & _).
  pose proof (N.mod_lt x 10 ltac:(done)) as Hm. exists (ds ++ [Z.of_N (x mod 10)]). rewrite H1. split.
  - rewrite map_app, <- app_assoc. f_equal. simpl. f_equal.
    apply pretty_char_digit. done.
  - split; [apply Forall_app; split; [done|]; apply Forall_singleton; clear -Hm; revert Hm; generalize (x mod 10)%N; lia|]. split; [|by destruct ds].
    rewrite value_of_digits_snoc, H3. pose proof (N.div_mod x 10 ltac:(done)). lia.
Qed.

Lemma pretty_nat_digits (n : nat) : exists ds, chars_of (pretty n) = map digit_char ds /\
  Forall (fun d => 0 <= d < 10) ds /\ value_of_digits ds = Z.of_nat n /\ ds <> [].
Proof.
  unfold pretty, pretty_nat, pretty, pretty_N. case_decide as Hd.
  - exists [0]. replace n with 0%nat by lia. repeat split; [|done]. apply Forall_singleton; lia.
  - destruct (pretty_go_digits (N.of_nat n) "") as (ds & H1 & H2 & H3 & H4). exists ds. rewrite H1, app_nil_r. repeat split; [done|lia|].
    intros ->. by specialize (H4 eq_refl).
Qed.

Lemma span_digits_all ds l : Forall (fun d => 0 <= d < 10) ds -> match l with c :: _ => digit c = None | [] => True end ->
  span_digits (map digit_char ds ++ l) = (ds, l).
Proof.
  intros Hd Hl. induction Hd as [|d ds Hd0 Hd IH]; simpl.
  - destruct l as [|c l]; [done|]. simpl. by rewrite Hl.
  - by rewrite digit_of_char, IH.
Qed.

Lemma chars_app a b : chars_of (a +:+ b) = chars_of a ++ chars_of b.
Proof. unfold chars_of. induction a as [|c a IH]; [done|]. simpl. by rewrite IH. Qed.

(** A receiver reads the send time back from a text the scripts send, so
    that the latency it measures is from the time of the send. *)
Theorem load_text_send_time (now : nat) (key : string) : sentAt (loadText now key) = Some (Z.of_nat now).
Proof.
  unfold sentAt, loadText. destruct (pretty_nat_digits now) as (ds & H1 & H2 & H3 & H4).
  assert (Hp : String.prefix "load " ("load " +:+ pretty now +:+ " " +:+ key) = true) by (simpl; by destruct (pretty now +:+ " " +:+ key)).
  rewrite Hp, !chars_app, H1. change (skipn 5 (chars_of "load " ++ ?l)) with l.
  rewrite span_digits_all by done. destruct ds as [|d ds]; [done|]. cbn [chars_of app]. by rewrite H3.
Qed.

(** ** What a passing run shows *)

(** k6 judged the thresholds of a script by its own metrics: each is in the
    summary with the judgement [judge] of its values. *)
Definition judged (judge : string -> json -> bool) (th : list (string * list string)) (data : SummaryData) : Prop :=
  forall name exprs, (name, exprs) ∈ th -> exists m, m ∈ sm_metrics data /\ mt_name m = name /\
    forall e, e ∈ exprs -> (e, judge e (mt_values m)) ∈ mt_thresholds m.

(** The members of k6's objects have different names. *)
Definition threshold_names (data : SummaryData) : list (string * bool) :=
  flat_map (fun m => map (fun '(expr, ok) => (mt_name m +:+ ": " +:+ expr, ok)) (mt_thresholds m)) (sm_metrics data).

Definition well_named (data : SummaryData) : Prop := NoDup (map mt_name (sm_metrics data)) /\ NoDup (map fst (threshold_names data)).

Lemma set_member_fresh k v l : k ∉ map fst l -> set_member k v l = l ++ [(k, v)].
Proof.
  induction l as [|[k' v'] l IH]; [done|]. simpl. intros [Hk Hn]%not_elem_of_cons.
  rewrite (proj2 (String.eqb_neq k' k)) by congruence. by rewrite IH.
Qed.

Lemma set_members {A} (key : A -> string) (val : A -> json) (l : list A) acc : NoDup (map fst acc ++ map key l) ->
  fold_left (fun l x => set_member (key x) (val x) l) l acc = acc ++ map (fun x => (key x, val x)) l.
Proof.
  revert acc. induction l as [|x l IH]; intros acc Hn; simpl; [by rewrite app_nil_r|].
  apply NoDup_app in Hn as (H1 & H2 & H3). apply NoDup_cons in H3 as [H3 H4].
  rewrite set_member_fresh by (intros Hk; apply (H2 _ Hk); left). rewrite IH.
  - by rewrite <- app_assoc.
  - rewrite map_app, <- app_assoc. apply NoDup_app. split; [done|]. split; [|by apply NoDup_cons]. intros k Hk Hk'. by apply (H2 k Hk).
Qed.

Lemma summary_metrics_named data : well_named data -> summary_metrics data = map (fun m => (mt_name m, mt_values m)) (sm_metrics data).
Proof. intros [Hn _]. apply (set_members mt_name mt_values (sm_metrics data) []). done. Qed.

Lemma summary_thresholds_named data : well_named data -> summary_thresholds data = map (fun '(k, ok) => (k, JBool ok)) (threshold_names data).
Proof.
  intros [_ Hn]. unfold summary_thresholds. fold (threshold_names data).
  pose proof (set_members fst (fun x => JBool x.2) (threshold_names data) [] Hn) as H.
  transitivity (map (fun x => (x.1, JBool x.2)) (threshold_names data)); [|by apply map_ext; intros []]. cbn [app] in H. rewrite <- H.
  generalize (@nil (string * json)). generalize (threshold_names data). intros l. induction l as [|[k ok] l IH]; intros acc; [done|apply IH].
Qed.

Section Passing.
(** [judge]: k6's evaluation of a threshold expression on a metric's values; a
    [count<1] that holds is a count below 1. *)
Context (judge : string -> json -> bool) (Hjudge : forall v, judge "count<1" v = true -> exists c, LoadResults.num (member "count" v) = Some c /\ (c < 1)%Q).

(** A judged [count<1] of a correctness metric in a clean run. *)
Lemma clean_count d name scenario params now data th m : well_named data -> judged judge th data -> (m, none) ∈ th -> metric_of (m +:+ ": count<1") ∈ CORRECTNESS ->
  clean d name (summary scenario params now data) -> (count (summary scenario params now data) m < 1)%Q.
Proof.
  intros Hw Hj Hin Hc [_ Hclean]. destruct (Hj _ _ Hin) as (mt & Hm & Hname & He).
  assert (Ht : ("count<1", judge "count<1" (mt_values mt)) ∈ mt_thresholds mt) by (apply He; left).
  assert (Hok : judge "count<1" (mt_values mt) = true).
  { specialize (Hclean (m +:+ ": count<1") (JBool (judge "count<1" (mt_values mt)))). assert (Hb : forall b, js_true (Some (JBool b)) = b) by by intros [].
    rewrite Hb in Hclean. apply Hclean; [|done].
    cbn [summary member assoc String.eqb Ascii.eqb Bool.eqb members]. rewrite summary_thresholds_named by done.
    apply list_elem_of_fmap. exists (m +:+ ": count<1", judge "count<1" (mt_values mt)). split; [done|].
    unfold threshold_names. apply list_elem_of_In, in_flat_map. exists mt. split; [by apply list_elem_of_In|].
    apply in_map_iff. exists ("count<1", judge "count<1" (mt_values mt)). split; [by rewrite <- Hname|by apply list_elem_of_In]. }
  apply Hjudge in Hok as (c & Hv & Hlt). unfold count, LoadResults.metric.
  cbn [summary member assoc String.eqb Ascii.eqb Bool.eqb mbind option_bind]. rewrite summary_metrics_named by done.
  assert (Ha : assoc m (map (fun m => (mt_name m, mt_values m)) (sm_metrics data)) = Some (mt_values mt)).
  { apply JsMap.assoc_elem; [rewrite map_map; apply Hw|]. apply list_elem_of_fmap. exists mt. by rewrite Hname. }
  cbn [member]. rewrite Ha. cbn. by rewrite Hv.
Qed.
End Passing.

(** C35. A run that the results call [ok] and that left the summary of a
    reconnect scenario, with thresholds as [reconnect.js] configures them and
    judged by k6, lost no acked message and delivered none twice, left none
    unacked, and checked every subscriber to the end. *)
Theorem passing_reconnects_verified (judge : string -> json -> bool) (d : Dir) (c : Config) (s : Storms) (params : list (string * json))
    (now : Z) (data : SummaryData) :
  (forall v, judge "count<1" v = true -> exists q, LoadResults.num (member "count" v) = Some q /\ (q < 1)%Q) ->
  SCENARIO s ∈ ["reconnect_storm"; "rolling_restart"; "node_kill"] -> well_named data -> judged judge (thresholds (reconnect_options c s)) data ->
  let k6 := summary (SCENARIO s) params now data in
  json_file d (SCENARIO s +:+ ".json") = Some k6 -> r_ok (results d) = true ->
  (count k6 "lost_acked_messages" < 1)%Q /\ (count k6 "seq_duplicates" < 1)%Q /\ (count k6 "messages_never_acked" < 1)%Q /\
  (count k6 "subscribers_unverified" < 1)%Q /\ (0 < count k6 "messages_acked")%Q.
Proof.
  intros Hjudge Hs Hw Hj k6 Hf Hok. rewrite run_ok_blocks in Hok. apply andb_prop in Hok as [Hok _].
  assert (Hb : block_ok (reconnects d (SCENARIO s)) = true).
  { rewrite forallb_forall in Hok. apply Hok. unfold blocks. apply in_or_app. right. apply in_or_app. left.
    by apply (in_map (reconnects d)), list_elem_of_In. }
  assert (Hneq : (String.eqb (SCENARIO s) "webhook_burst" || String.eqb (SCENARIO s) "backbone") = false).
  { rewrite !elem_of_cons in Hs. destruct Hs as [->|[->|[->|[]%elem_of_nil]]]; done. }
  destruct (proj1 (reconnects_ok d (SCENARIO s) Hneq) Hb k6 Hf) as (Hclean & [Hlive _] & _).
  pose proof (fun m Hm Hc => clean_count judge Hjudge d (SCENARIO s) (SCENARIO s) params now data _ m Hw Hj Hm Hc Hclean) as H.
  repeat split; [apply H..|done].
  all: first [by apply (bool_decide_eq_true_1 (_ ∈ CORRECTNESS)); vm_compute|repeat (first [apply list_elem_of_here|apply list_elem_of_further])].
Qed.

(** ** Examples *)

(** A k6 that judges counts. *)
Definition ex_judge (e : string) (v : json) : bool :=
  String.eqb e "count<1" && match LoadResults.num (member "count" v) with Some c => qlt c 1 | None => false end.

Lemma ex_judge_count v : ex_judge "count<1" v = true -> exists q, LoadResults.num (member "count" v) = Some q /\ (q < 1)%Q.
Proof. unfold ex_judge. destruct (LoadResults.num _) as [c|]; [|done]. intros H. exists c. split; [done|]. by apply qlt_true. Qed.

Definition counter (name : string) (c : Q) (th : list string) : K6Metric :=
  let v := JObj [("count", JNum c)] in mkMetric name v (map (fun e => (e, ex_judge e v)) th).

(** What k6 gives for thresholds on counters: their judged metrics, then two others. *)
Definition ex_data (th : list (string * list string)) (counts : string -> Q) : SummaryData :=
  mkData (map (fun '(m, exprs) => counter m (counts m) exprs) th ++ [counter "messages_acked" 120 []; counter "e2e_latency_ms" 480 []]) 75000.

Definition ex_config : Config := mkConfig 2 2 1 60 10.
Definition ex_storms : Storms := mkStorms "storm" 15 15 0 "reconnect_storm".

Definition scenario_dir (name : string) (k6 : json) : Dir :=
  mkDir (fun f => if String.eqb f "exit_codes.csv" then Some (name +:+ ";0") else None)
        (fun f => if String.eqb f (name +:+ ".json") then Some k6 else None) 0.

Definition storm_data : SummaryData := ex_data (thresholds (reconnect_options ex_config ex_storms)) (fun _ => 0%Q).
Definition storm_dir : Dir := scenario_dir "reconnect_storm" (summary "reconnect_storm" (reconnect_params ex_config ex_storms) 1766188799123 storm_data).

Lemma storm_named : well_named storm_data.
Proof. split; apply (bool_decide_eq_true_1 (NoDup _)); vm_compute; reflexivity. Qed.

Lemma storm_judged : judged ex_judge (thresholds (reconnect_options ex_config ex_storms)) storm_data.
Proof.
  intros name exprs Hin. exists (counter name 0 exprs). split; [|split; [done|]].
  - apply elem_of_app. left. apply list_elem_of_fmap. by exists (name, exprs).
  - intros e He. apply (list_elem_of_fmap_2 (fun e => (e, ex_judge e (JObj [("count", JNum 0)])))). done.
Qed.

Lemma storm_passes : r_ok (results storm_dir) = true.
Proof. vm_compute. reflexivity. Qed.

Lemma passing_reconnects_verified_witness :
  let k6 := summary "reconnect_storm" (reconnect_params ex_config ex_storms) 1766188799123 storm_data in
  (count k6 "lost_acked_messages" < 1)%Q /\ (count k6 "seq_duplicates" < 1)%Q /\ (count k6 "messages_never_acked" < 1)%Q /\
  (count k6 "subscribers_unverified" < 1)%Q /\ (0 < count k6 "messages_acked")%Q.
Proof.
  exact (passing_reconnects_verified ex_judge storm_dir ex_config ex_storms _ 1766188799123 storm_data ex_judge_count
    ltac:(left) storm_named storm_judged eq_refl storm_passes).
Defined.

(** A duplicate fails the run. *)
Example duplicate_fails :
  r_ok (results (scenario_dir "reconnect_storm" (summary "reconnect_storm" [] 0
    (ex_data (thresholds (reconnect_options ex_config ex_storms)) (fun m => if String.eqb m "seq_duplicates" then 1%Q else 0%Q))))) = false.
Proof. vm_compute. reflexivity. Qed.

(** [e2e.js] has no threshold on [subscribers_unverified], and the results do
    not look at its count: an e2e run in which no subscriber could be checked
    passes. *)
Example unverified_e2e_passes :
  exists o, e2e_options (fun _ => None) ex_config = Some o /\
    let data := ex_data (thresholds o) (fun _ => 0%Q) in
    let k6 := summary "e2e" (e2e_params ex_config) 0 (mkData (counter "subscribers_unverified" 4 [] :: sm_metrics data) 65000) in
    count k6 "subscribers_unverified" = 4%Q /\ r_ok (results (scenario_dir "e2e" k6)) = true.
Proof. eexists. split; [reflexivity|]. split; vm_compute; reflexivity. Qed.
