(* ===== verification/ToolLoop.v ===== *)
(** * ToolLoop: the example agent that runs a model's tool calls
    ([examples/agents/llm-tool-loop-ts], [loop.ts] and [tools.ts]).

    The loop talks to the end user (through a [Reply] of the agent SDK), to the
    model and to the tools, and changes one shared array, [messages].  It is a
    program in a free monad: an [action] is what it asks of the others, the
    answer is what they say, or the error they throw.  [exec] runs a program
    against any answers.  The answer to [AFinal] is what [finalMessage] resolves
    to, with the text deltas streamed meanwhile. *)

From Stdlib Require Import Ascii.
From stdpp Require Import base list strings.
From Stdlib Require Import ZArith QArith Lia.
From S2P Require Import Prelude Watermark Json Stringify.

Open Scope string_scope.
Open Scope list_scope.
Open Scope Z_scope.

(** ** Messages *)

Record ToolUse := mkUse { u_id : string; u_name : string; u_input : json }.

Inductive block := BText (text : string) | BToolUse (u : ToolUse) | BOther (v : json).

Record BetaMessage := mkMessage { stop_reason : option string; content : list block }.

Record ToolResult := mkResult { tool_use_id : string; is_error : bool; result_content : string }.

(** What the history holds. *)
Inductive MessageParam :=
| PUser (text : string)
| PAssistant (content : list block)
| PResults (results : list ToolResult).

(** ** Errors *)

Inductive error_kind := KRateLimit | KApi | KOther.
Record error := mkError { e_kind : error_kind; e_message : string }.

Definition plain_error (message : string) : error := mkError KOther message.

(** ** Tools *)

(* @src examples/agents/llm-tool-loop-ts/src/tools.ts 8-15 ToolSpec *)
Record ToolSpec := mkTool { needsApproval : bool; parse : json -> option json }.

(** ** Programs *)

(** [AToolCall id status data]: [reply.toolCall]; [ARun u input]:
    [tool.run(input)] for the tool use [u]; [APush]: [messages.push]; [ADrop]:
    [conversations.delete]. *)
Inductive action :=
| ATyping | AStream | ACreateStream | AFinal | AWrite (delta : string) | AEnd
| AText (text : string)
| AAsk (u : ToolUse) (title : string) (input : json)
| AToolCall (id status : string) (data : json)
| ARun (u : ToolUse) (input : json)
| APush (m : MessageParam)
| ADrop.

Definition result (a : action) : Type :=
  match a with
  | AFinal => list string * (error + BetaMessage)
  | AAsk _ _ _ => option json
  | ARun _ _ => json
  | _ => unit
  end.

Definition answer (a : action) : Type := error + result a.

Inductive prog (A : Type) : Type :=
| Ret (x : A)
| Throw (e : error)
| Do (a : action) (k : answer a -> prog A).
Arguments Ret {A} x.
Arguments Throw {A} e.
Arguments Do {A} a k.

Fixpoint bind {A B} (p : prog A) (f : A -> prog B) : prog B :=
  match p with
  | Ret x => f x
  | Throw e => Throw e
  | Do a k => Do a (fun r => bind (k r) f)
  end.

(** [try { p } catch (e) { h(e) }]. *)
Fixpoint catch {A} (p : prog A) (h : error -> prog A) : prog A :=
  match p with
  | Ret x => Ret x
  | Throw e => h e
  | Do a k => Do a (fun r => catch (k r) h)
  end.

(** [await] an action: its error is thrown. *)
Definition perform (a : action) : prog (result a) :=
  Do a (fun r => match r with inl e => Throw e | inr x => Ret x end).

Notation "'let!' x := p 'in' q" := (bind p (fun x => q)) (at level 200, x name, p at level 100, q at level 200, right associativity) : converger_scope.

(** [try { p } finally { q }]: an error of [q] replaces the one of [p]. *)
Definition finally {A} (p : prog A) (q : prog unit) : prog A :=
  let! x := catch (let! y := p in Ret (inr y)) (fun e => Ret (inl e)) in
  let! _ := q in
  match x with inl e => Throw e | inr y => Ret y end.

(** ** The demo tools *)

Definition is_digit (c : ascii) : bool := (48 <=? code c) && (code c <=? 57).

(** [/^ORD-\d+$/]. *)
Definition order_id_format (id : string) : bool :=
  match strip_prefix (chars_of "ORD-") (chars_of id) with
  | Some (c :: l) => forallb is_digit (c :: l)
  | _ => false
  end.

(* @src examples/agents/llm-tool-loop-ts/src/tools.ts 22-26 orderId *)
Definition orderId (input : json) : option json :=
  match member "order_id" input with
  | Some (JStr id) => if order_id_format id then Some (JObj [("order_id", JStr id)]) else None
  | _ => None
  end.

(* @src examples/agents/llm-tool-loop-ts/src/tools.ts 17-20 ORDERS *)
Definition ORDERS : list (string * json) :=
  [("ORD-42", JObj [("id", JStr "ORD-42"); ("item", JStr "Espresso machine"); ("total", JNum (2499 # 10)); ("currency", JStr "TRY"); ("status", JStr "delivered")]);
   ("ORD-43", JObj [("id", JStr "ORD-43"); ("item", JStr "Grinder"); ("total", JNum (895 # 10)); ("currency", JStr "TRY"); ("status", JStr "shipped")])].

(* @src examples/agents/llm-tool-loop-ts/src/tools.ts 28-62 TOOLS *)
Definition TOOLS : list (string * ToolSpec) := [("lookup_order", mkTool false orderId); ("refund_order", mkTool true orderId)].

Definition order_of (input : json) : option json := match member "order_id" input with Some (JStr id) => assoc id ORDERS | _ => None end.

Definition not_found : json := JObj [("error", JStr "order not found")].

(** [run] of the demo tools. *)
(* @src examples/agents/llm-tool-loop-ts/src/tools.ts 28-62 TOOLS *)
Definition run_demo (name : string) (input : json) : json :=
  match order_of input with
  | None => not_found
  | Some order =>
      if String.eqb name "refund_order"
      then JObj [("refunded", JBool true); ("order_id", member "id" order ?? JNull); ("amount", member "total" order ?? JNull);
                 ("currency", member "currency" order ?? JNull)]
      else order
  end.

(** ** The loop *)

Section Loop.
Context (tools : list (string * ToolSpec)).

(** The names an object literal inherits: [tools[name]] is then not a tool. *)
Definition inherited : list string :=
  ["constructor"; "__proto__"; "toString"; "toLocaleString"; "valueOf"; "hasOwnProperty"; "isPrototypeOf"; "propertyIsEnumerable";
   "__defineGetter__"; "__defineSetter__"; "__lookupGetter__"; "__lookupSetter__"].

Definition underscores_out (s : string) : string := str_of (map (fun c => if code c =? 95 then chr 32 else c) (chars_of s)).

(** [String(input["order_id"] ?? "")]. *)
Definition shown_order (input : json) : string :=
  match member "order_id" input with Some JNull | None => "" | Some v => js_string v end.

(* @src examples/agents/llm-tool-loop-ts/src/loop.ts 96-96 runToolLoop *)
Definition title_of (u : ToolUse) (input : json) : string := underscores_out (u_name u) +:+ " " +:+ shown_order input +:+ "?".

(** [answer?.approved === true]. *)
Definition approves (v : option json) : bool :=
  match v with Some v => match member "approved" v with Some (JBool b) => b | _ => false end | None => false end.

(** [JSON.stringify(result)] and the reports around the call. *)
(* @src examples/agents/llm-tool-loop-ts/src/loop.ts 110-119 runToolLoop *)
Definition run_tool (u : ToolUse) (input : json) : prog ToolResult :=
  let! _ := perform (AToolCall (u_id u) "running" (JObj [("name", JStr (u_name u)); ("params", input)])) in
  catch
    (let! r := perform (ARun u input) in
     let! _ := perform (AToolCall (u_id u) "completed" (JObj [("result", r)])) in
     Ret (mkResult (u_id u) false (stringify r)))
    (fun e =>
       let! _ := perform (AToolCall (u_id u) "error" (JObj [("error", JStr (e_message e))])) in
       Ret (mkResult (u_id u) true (e_message e))).

(** One round of [for (const use of uses)]. *)
(* @src examples/agents/llm-tool-loop-ts/src/loop.ts 88-119 runToolLoop *)
Definition answer_use (u : ToolUse) : prog ToolResult :=
  if bool_decide (u_name u ∈ inherited /\ assoc (u_name u) tools = None) then Throw (plain_error "tool?.parse is not a function")
  else
    match tool ← assoc (u_name u) tools; input ← parse tool (u_input u); Some (tool, input) with
    | None => Ret (mkResult (u_id u) true ("invalid call to " +:+ u_name u))
    | Some (tool, input) =>
        if needsApproval tool then
          let! answer := perform (AAsk u (title_of u input) input) in
          if approves answer then run_tool u input else Ret (mkResult (u_id u) false "The user rejected this action.")
        else run_tool u input
    end.

(* @src examples/agents/llm-tool-loop-ts/src/loop.ts 86-120 runToolLoop *)
Fixpoint answer_uses (uses : list ToolUse) : prog (list ToolResult) :=
  match uses with
  | [] => Ret []
  | u :: uses => let! r := answer_use u in let! rs := answer_uses uses in Ret (r :: rs)
  end.

Definition tool_uses (c : list block) : list ToolUse := omap (fun b => match b with BToolUse u => Some u | _ => None end) c.

Fixpoint write_all (deltas : list string) : prog unit :=
  match deltas with
  | [] => Ret tt
  | d :: deltas => Do (AWrite d) (fun _ => write_all deltas)
  end.

(** The stream of one answer: the listener writes the deltas while the message
    is awaited. *)
(* @src examples/agents/llm-tool-loop-ts/src/loop.ts 62-71 runToolLoop *)
Definition ask_model : prog BetaMessage :=
  let! _ := perform ATyping in
  let! _ := perform AStream in
  let! _ := perform ACreateStream in
  finally
    (let! fin := perform AFinal in
     let! _ := write_all (fst fin) in
     match snd fin with inl e => Throw e | inr m => Ret m end)
    (perform AEnd).

Inductive next := Continue | Return.

(** One iteration. *)
(* @src examples/agents/llm-tool-loop-ts/src/loop.ts 61-122 runToolLoop *)
Definition iteration : prog next :=
  let! m := ask_model in
  if bool_decide (stop_reason m = Some "refusal") then let! _ := perform (AText "Sorry, I can't help with that.") in Ret Return
  else if bool_decide (stop_reason m = Some "pause_turn") then let! _ := perform (APush (PAssistant (content m))) in Ret Continue
  else
    let! _ := perform (APush (PAssistant (content m))) in
    match tool_uses (content m) with
    | [] => Ret Return
    | uses =>
        if bool_decide (stop_reason m = Some "max_tokens") then Throw (plain_error "tool input truncated at max_tokens")
        else let! rs := answer_uses uses in let! _ := perform (APush (PResults rs)) in Ret Continue
    end.

(* @src examples/agents/llm-tool-loop-ts/src/loop.ts 44-44 MAX_ITERATIONS *)
Definition MAX_ITERATIONS : nat := 8.

(* @src examples/agents/llm-tool-loop-ts/src/loop.ts 61-123 runToolLoop *)
Fixpoint iterate (left_ : nat) : prog unit :=
  match left_ with
  | O => perform (AText "I stopped after too many steps; please rephrase your request.")
  | S left_ => let! n := iteration in match n with Return => Ret tt | Continue => iterate left_ end
  end.

(* @src examples/agents/llm-tool-loop-ts/src/loop.ts 51-124 runToolLoop *)
Definition runToolLoop : prog unit := iterate MAX_ITERATIONS.
End Loop.

(** ** Running a program *)

(** What happened at an action. *)
Record event := mkEvent { ev_action : action; ev_answer : answer ev_action }.

(** Anything that answers actions, given what happened before (newest first). *)
Definition world : Type := list event -> forall a, answer a.

Fixpoint exec {A} (w : world) (p : prog A) (tr : list event) : list event * (error + A) :=
  match p with
  | Ret x => (tr, inr x)
  | Throw e => (tr, inl e)
  | Do a k => exec w (k (w tr a)) (mkEvent a (w tr a) :: tr)
  end.
