(* ===== verification/ToolFacts.v ===== *)
(** * ToolFacts: what the tool loop never does
    ([examples/agents/llm-tool-loop-ts/src/loop.ts]).

    [wp] is the weakest precondition of a program: whatever the answers that
    [ok] allows, each action is done in a state in which [pre] allows it, and
    the program ends in a state and with a result that satisfy [Q]; [upd] is the
    state after an action.  [wp_exec] relates it to [exec]. *)

From stdpp Require Import base list strings.
From Stdlib Require Import ZArith QArith Lia.
From S2P Require Import Prelude Watermark Json Stringify ToolLoop.

Open Scope string_scope.
Open Scope list_scope.
Open Scope Z_scope.

(** ** Weakest preconditions *)

Section Wp.
Context {S : Type} (pre : S -> action -> Prop) (ok : forall a, answer a -> Prop) (upd : S -> forall a, answer a -> S).

Fixpoint wp {A} (p : prog A) (s : S) (Q : S -> error + A -> Prop) : Prop :=
  match p with
  | Ret x => Q s (inr x)
  | Throw e => Q s (inl e)
  | Do a k => pre s a /\ forall r, ok a r -> wp (k r) (upd s a r) Q
  end.

Lemma wp_weaken {A} (p : prog A) s (Q R : S -> error + A -> Prop) : wp p s Q -> (forall s r, Q s r -> R s r) -> wp p s R.
Proof. intros Hp HQ. revert s Hp. induction p as [x|e|a k IH]; intros s; simpl; [auto..|]. intros [? Hp]. split; [done|]. intros r Hr. by apply IH, Hp. Qed.

Lemma wp_bind {A B} (p : prog A) (f : A -> prog B) s (Q : S -> error + B -> Prop) :
  wp p s (fun s r => match r with inl e => Q s (inl e) | inr x => wp (f x) s Q end) -> wp (bind p f) s Q.
Proof. revert s. induction p as [x|e|a k IH]; intros s; simpl; [done..|]. intros [? Hp]. split; [done|]. intros r Hr. by apply IH, Hp. Qed.

Lemma wp_catch {A} (p : prog A) (h : error -> prog A) s (Q : S -> error + A -> Prop) :
  wp p s (fun s r => match r with inl e => wp (h e) s Q | inr x => Q s (inr x) end) -> wp (catch p h) s Q.
Proof. revert s. induction p as [x|e|a k IH]; intros s; simpl; [done..|]. intros [? Hp]. split; [done|]. intros r Hr. by apply IH, Hp. Qed.

Lemma wp_perform a s (Q : S -> error + result a -> Prop) : pre s a -> (forall r, ok a r -> Q (upd s a r) r) -> wp (perform a) s Q.
Proof. intros Ha H. split; [done|]. intros r Hr. by destruct r; apply H. Qed.

(** [finally]: the first program, then the second with either result. *)
Lemma wp_finally {A} (p : prog A) q s (Q : S -> error + A -> Prop) :
  wp p s (fun s r => wp q s (fun s t => Q s (match t with inl e => inl e | inr _ => r end))) -> wp (finally p q) s Q.
Proof.
  intros Hp. apply wp_bind, wp_catch, wp_bind. eapply wp_weaken; [exact Hp|]. intros s' [e|x] Hq; simpl.
  - apply wp_bind. eapply wp_weaken; [exact Hq|]. by intros s'' [e'|[]].
  - apply wp_bind. eapply wp_weaken; [exact Hq|]. by intros s'' [e'|[]].
Qed.

(** The state after a trace (newest first). *)
Definition after (s : S) (tr : list event) : S := foldr (fun ev s => upd s (ev_action ev) (ev_answer ev)) s tr.

(** Each action of a trace was allowed where it was done. *)
Fixpoint all_allowed (s : S) (tr : list event) : Prop :=
  match tr with [] => True | ev :: tr => pre (after s tr) (ev_action ev) /\ all_allowed s tr end.

Lemma all_allowed_split s l2 ev l1 : all_allowed s (l2 ++ ev :: l1) -> pre (after s l1) (ev_action ev).
Proof. induction l2 as [|ev' l2 IH]; simpl; [by intros [? _]|]. intros [_ H]. by apply IH. Qed.

Lemma wp_exec {A} (w : world) (p : prog A) s tr (Q : S -> error + A -> Prop) :
  (forall tr a, ok a (w tr a)) -> wp p (after s tr) Q -> all_allowed s tr ->
  let '(tr', r) := exec w p tr in all_allowed s tr' /\ Q (after s tr') r.
Proof.
  intros Hw. revert tr. induction p as [x|e|a k IH]; intros tr Hp Ht; simpl in *; [done..|]. destruct Hp as [Ha Hp].
  apply IH; [by apply Hp|by split].
Qed.

(** The state is kept by the actions of the program. *)
Definition keeps {A} (I : S -> Prop) (p : prog A) (s : S) : Prop := wp p s (fun s _ => I s).

Lemma keeps_bind {A B} (I : S -> Prop) (p : prog A) (f : A -> prog B) s :
  keeps I p s -> (forall x s, I s -> keeps I (f x) s) -> keeps I (bind p f) s.
Proof. intros Hp Hf. apply wp_bind. eapply wp_weaken; [exact Hp|]. intros s' [e|x] Hs; [done|by apply Hf]. Qed.

Lemma keeps_perform (I : S -> Prop) a s : pre s a -> (forall r, ok a r -> I (upd s a r)) -> keeps I (perform a) s.
Proof. intros. by apply wp_perform. Qed.
End Wp.
#[local] Arguments wp : simpl never.
#[local] Arguments bind : simpl never.
#[local] Arguments perform : simpl never.

(** ** A tool that needs approval runs only when approved *)

Definition any (a : action) (r : answer a) : Prop := True.
Definition note (tr : list event) (a : action) (r : answer a) : list event := mkEvent a r :: tr.

Lemma after_note tr : after note [] tr = tr.
Proof. induction tr as [|[a r] tr IH]; [done|]. simpl. by rewrite IH. Qed.

(** Just before, the end user was shown this call and approved it. *)
Definition just_approved (u : ToolUse) (i : json) (l : list event) : Prop :=
  exists data r t v l0, l = mkEvent (AToolCall (u_id u) "running" data) r :: mkEvent (AAsk u t i) (inr v) :: l0 /\ approves v = true.

Section Approval.
Context (tools : list (string * ToolSpec)).

Definition run_allowed (l : list event) (a : action) : Prop :=
  match a with
  | ARun u i => exists tool, assoc (u_name u) tools = Some tool /\ parse tool (u_input u) = Some i /\ (needsApproval tool = true -> just_approved u i l)
  | _ => True
  end.

(** Every action is allowed. *)
Notation careful p tr := (keeps run_allowed any note (fun _ => True) p tr).

Lemma careful_perform a tr : run_allowed tr a -> careful (perform a) tr.
Proof. intros Ha. by apply keeps_perform. Qed.

Ltac quiet := first [exact I | by apply careful_perform].
Ltac step := apply keeps_bind; [quiet|]; intros ? ? _.

Lemma run_tool_careful u i tool tr : assoc (u_name u) tools = Some tool -> parse tool (u_input u) = Some i ->
  (needsApproval tool = true -> exists t v l, tr = mkEvent (AAsk u t i) (inr v) :: l /\ approves v = true) ->
  careful (run_tool u i) tr.
Proof.
  intros Ht Hp Ha. unfold run_tool. apply wp_bind, wp_perform; [done|]. intros r _. destruct r as [e|[]]; [done|].
  assert (Herr : forall e tr, careful (bind (perform (AToolCall (u_id u) "error" (JObj [("error", JStr (e_message e))])))
                    (fun _ => Ret (mkResult (u_id u) true (e_message e)))) tr).
  { intros e tr'. step. quiet. }
  apply wp_catch, wp_bind, wp_perform.
  { exists tool. split; [done|]. split; [done|]. intros Hn. destruct (Ha Hn) as (t & v & l & -> & Hv). by eexists _, _, t, v, l. }
  intros [e|r] _; [apply Herr|]. apply wp_bind, wp_perform; [done|]. intros [e|[]] _; [apply Herr|done].
Qed.

Lemma answer_use_careful u tr : careful (answer_use tools u) tr.
Proof.
  unfold answer_use. case_bool_decide; [quiet|].
  destruct (assoc (u_name u) tools) as [tool|] eqn:Ht; cbn [mbind option_bind]; [|quiet].
  destruct (parse tool (u_input u)) as [i|] eqn:Hp; cbn [mbind option_bind]; [|quiet].
  destruct (needsApproval tool) eqn:Hn; [|apply (run_tool_careful u i tool); [done..|congruence]].
  apply wp_bind, wp_perform; [done|]. intros [e|v] _; [done|]. destruct (approves v) eqn:Hv; [|done].
  apply (run_tool_careful u i tool); [done..|]. intros _. by eexists _, v, tr.
Qed.

Lemma answer_uses_careful uses tr : careful (answer_uses tools uses) tr.
Proof.
  revert tr. induction uses as [|u uses IH]; intros tr; [quiet|]. cbn [answer_uses].
  apply keeps_bind; [apply answer_use_careful|]. intros r tr1 _. apply keeps_bind; [apply IH|]. intros. quiet.
Qed.

Lemma ask_model_careful tr : careful ask_model tr.
Proof.
  unfold ask_model. do 3 step. apply wp_finally. eapply (wp_weaken _ _ _ _ _ (fun tr _ => True)).
  - step. apply keeps_bind; [|by intros _ ? _; destruct (snd _)].
    match goal with |- careful (write_all ?l) ?tr => generalize l, tr end. intros l. induction l as [|d l IH]; intros tr'; [quiet|].
    split; [done|]. intros r _. apply IH.
  - intros tr1 r _. quiet.
Qed.

Lemma iteration_careful tr : careful (iteration tools) tr.
Proof.
  unfold iteration. apply keeps_bind; [apply ask_model_careful|]. intros m tr' _.
  case_bool_decide; [step; quiet|]. case_bool_decide; [step; quiet|]. step.
  destruct (tool_uses (content m)) as [|u uses]; [quiet|]. case_bool_decide; [quiet|].
  apply keeps_bind; [apply answer_uses_careful|]. intros rs tr2 _. step. quiet.
Qed.

Lemma iterate_careful n tr : careful (iterate tools n) tr.
Proof.
  revert tr. induction n as [|n IH]; intros tr; cbn [iterate]; [quiet|].
  apply keeps_bind; [apply iteration_careful|]. intros [|] tr1 _; [apply IH|quiet].
Qed.
End Approval.

(** C19. No tool that needs approval runs without it.  Whatever the model, the
    end user, the network and the tools answer, each time a tool runs it is a
    listed tool, on the input its own check accepted; and when it needs
    approval, the end user was shown exactly this call just before, with this
    input, and approved it. *)
Theorem approved_before_run (tools : list (string * ToolSpec)) (w : world) (l1 l2 : list event) (u : ToolUse) (i : json) r :
  (exec w (runToolLoop tools) []).1 = l2 ++ mkEvent (ARun u i) r :: l1 ->
  exists tool, assoc (u_name u) tools = Some tool /\ parse tool (u_input u) = Some i /\
    (needsApproval tool = true -> just_approved u i l1).
Proof.
  intros Htr. pose proof (wp_exec (run_allowed tools) any note w (runToolLoop tools) [] [] _ (fun _ _ => I)
    (iterate_careful tools MAX_ITERATIONS []) I) as H.
  destruct (exec w (runToolLoop tools) []) as [tr res]. simpl in Htr. subst tr. destruct H as [H _].
  apply all_allowed_split in H. by rewrite after_note in H.
Qed.

(** ** An example: a refund *)

Definition refund_use : ToolUse := mkUse "tu_1" "refund_order" (JObj [("order_id", JStr "ORD-42")]).

Definition refunding : BetaMessage := mkMessage (Some "tool_use") [BText "One moment."; BToolUse refund_use].
Definition refunded : BetaMessage := mkMessage (Some "end_turn") [BText "Done."].

(** The model asks for a refund first; the end user approves everything. *)
Definition refund_world : world := fun tr a =>
  match a return answer a with
  | AFinal => inr ([], inr (if existsb (fun ev => match ev_action ev with AFinal => true | _ => false end) tr then refunded else refunding))
  | AAsk _ _ _ => inr (Some (JObj [("approved", JBool true)]))
  | ARun u i => inr (run_demo (u_name u) i)
  | _ => inr tt
  end.

Definition refund_trace : list event := (exec refund_world (runToolLoop TOOLS) []).1.

(** What was asked of the others, oldest first. *)
Example refund_run : map (fun ev => match ev_action ev with
    | ATyping => "typing" | AStream => "stream" | ACreateStream => "request" | AFinal => "answer" | AWrite _ => "delta" | AEnd => "end"
    | AText t => "text " +:+ t | AAsk _ t _ => "ask " +:+ t | AToolCall _ s _ => s | ARun u _ => "run " +:+ u_name u
    | APush _ => "push" | ADrop => "drop" end) (rev refund_trace) =
  ["typing"; "stream"; "request"; "answer"; "end"; "push"; "ask refund order ORD-42?"; "running"; "run refund_order"; "completed"; "push";
   "typing"; "stream"; "request"; "answer"; "end"; "push"].
Proof. vm_compute. reflexivity. Qed.

(** The refund of the example. *)
Lemma refund_split : exists l2 r l1, refund_trace = l2 ++ mkEvent (ARun refund_use (JObj [("order_id", JStr "ORD-42")])) r :: l1.
Proof. exists (take 8 refund_trace). eexists _, (drop 9 refund_trace). vm_compute. reflexivity. Qed.

Lemma approved_before_run_witness : exists l2 r l1,
  refund_trace = l2 ++ mkEvent (ARun refund_use (JObj [("order_id", JStr "ORD-42")])) r :: l1 /\
  exists tool, assoc (u_name refund_use) TOOLS = Some tool /\ parse tool (u_input refund_use) = Some (JObj [("order_id", JStr "ORD-42")]) /\
    (needsApproval tool = true -> just_approved refund_use (JObj [("order_id", JStr "ORD-42")]) l1).
Proof.
  destruct refund_split as (l2 & r & l1 & E). exists l2, r, l1. split; [exact E|].
  exact (approved_before_run TOOLS refund_world l1 l2 refund_use _ r E).
Defined.
