(* ===== verification/ToolHistory.v ===== *)
(** * ToolHistory: the history the tool loop sends to the model
    ([examples/agents/llm-tool-loop-ts/src/loop.ts]).

    A history is [complete] when every tool call in it is answered, in order, by
    the message after it: what the model's API accepts.  The loop requests with
    complete histories only, at most eight times, and leaves one behind unless
    an error of its own or of the reply stops it in between. *)

From stdpp Require Import base list strings.
From Stdlib Require Import ZArith QArith Lia.
From S2P Require Import Prelude Watermark Json Stringify ToolLoop ToolFacts.

Open Scope string_scope.
Open Scope list_scope.

#[local] Arguments wp : simpl never.
#[local] Arguments bind : simpl never.
#[local] Arguments perform : simpl never.

(** ** Histories *)

(** The tool calls still to answer after a message; [None]: the history is not valid. *)
Definition owe (due : option (list string)) (m : MessageParam) : option (list string) :=
  match due, m with
  | Some [], PUser _ => Some []
  | Some [], PAssistant c => Some (map u_id (tool_uses c))
  | Some (i :: ids), PResults rs => if decide (map tool_use_id rs = i :: ids) then Some [] else None
  | _, _ => None
  end.

Definition pending (h : list MessageParam) : option (list string) := foldl owe (Some []) h.

Lemma pending_snoc h m : pending (h ++ [m]) = owe (pending h) m.
Proof. unfold pending. by rewrite foldl_app. Qed.

Definition complete (h : list MessageParam) : Prop := pending h = Some [].

Lemma complete_user h text : complete h -> complete (h ++ [PUser text]).
Proof. unfold complete. intros H. by rewrite pending_snoc, H. Qed.

Lemma pending_assistant h c : complete h -> pending (h ++ [PAssistant c]) = Some (map u_id (tool_uses c)).
Proof. unfold complete. intros H. by rewrite pending_snoc, H. Qed.

Lemma complete_results h rs : pending h = Some (map tool_use_id rs) -> rs <> [] -> complete (h ++ [PResults rs]).
Proof.
  unfold complete. intros H Hn. rewrite pending_snoc, H. destruct rs as [|r rs]; [done|]. simpl. by rewrite decide_True.
Qed.

(** ** The state of a turn *)

Record Turn := mkTurn { asked : nat; hist : list MessageParam; dropped : bool }.

Definition upd (s : Turn) (a : action) (r : answer a) : Turn :=
  match a with
  | ACreateStream => mkTurn (S (asked s)) (hist s) (dropped s)
  | APush m => mkTurn (asked s) (hist s ++ [m]) (dropped s)
  | ADrop => mkTurn (asked s) (hist s) true
  | _ => s
  end.

(** The answers assumed: the model pauses for its own tools only, an error of
    the reply is not one of the model's client, and a push cannot fail. *)
Definition honest (a : action) : answer a -> Prop :=
  match a with
  | AFinal => fun r => match r with
                       | inr (_, inr m) => stop_reason m = Some "pause_turn" -> tool_uses (content m) = []
                       | _ => True
                       end
  | AAsk _ _ _ => fun r => match r with inl e => e_kind e = KOther | inr _ => True end
  | AToolCall _ _ _ => fun r => match r with inl e => e_kind e = KOther | inr _ => True end
  | APush _ | ADrop => fun r => r = inr tt
  | _ => fun _ => True
  end.

(** A request is made for a complete history, and it is one of the first eight. *)
Definition sendable (s : Turn) (a : action) : Prop :=
  match a with ACreateStream => (asked s < MAX_ITERATIONS)%nat /\ complete (hist s) | _ => True end.

Notation hwp p s Q := (wp sendable honest upd p s Q).

(** Actions that leave the turn's state alone. *)
Definition neutral (a : action) : Prop := match a with ACreateStream | APush _ | ADrop => False | _ => True end.

Lemma upd_neutral s a r : neutral a -> upd s a r = s.
Proof. by destruct a. Qed.

Lemma hwp_perform a s (Q : Turn -> error + result a -> Prop) : neutral a -> (forall r, honest a r -> Q s r) -> hwp (perform a) s Q.
Proof. intros Ha H. apply wp_perform; [by destruct a|]. intros r Hr. rewrite upd_neutral by done. by apply H. Qed.

Lemma hwp_do {B} a (f : result a -> prog B) s (Q : Turn -> error + B -> Prop) :
  neutral a -> (forall e, honest a (inl e) -> Q s (inl e)) -> (forall x, honest a (inr x) -> hwp (f x) s Q) -> hwp (bind (perform a) f) s Q.
Proof. intros Ha He Hf. apply wp_bind, hwp_perform; [done|]. intros [e|x] Hr; auto. Qed.

Lemma hwp_push {B} m (f : unit -> prog B) s (Q : Turn -> error + B -> Prop) :
  hwp (f tt) (mkTurn (asked s) (hist s ++ [m]) (dropped s)) Q -> hwp (bind (perform (APush m)) f) s Q.
Proof. intros H. apply wp_bind, wp_perform; [done|]. by intros ? ->. Qed.

(** ** Answering the tool calls *)

(** The turn is as before; the result, or an error that is not the client's. *)
Definition same {A} (P : A -> Prop) (s s' : Turn) (r : error + A) : Prop :=
  s' = s /\ match r with inl e => e_kind e = KOther | inr x => P x end.

Lemma run_tool_history u i s : hwp (run_tool u i) s (same (fun t => tool_use_id t = u_id u) s).
Proof.
  unfold run_tool. apply hwp_do; [done|by split|]. intros _ _.
  assert (Herr : forall e, hwp (bind (perform (AToolCall (u_id u) "error" (JObj [("error", JStr (e_message e))])))
            (fun _ => Ret (mkResult (u_id u) true (e_message e)))) s (same (fun t => tool_use_id t = u_id u) s)).
  { intros e. apply hwp_do; [done|by split|]. by split. }
  apply wp_catch. apply hwp_do; [done|intros e _; apply Herr|]. intros r _.
  apply hwp_do; [done|intros e _; apply Herr|]. by split.
Qed.

Lemma answer_use_history tools u s : hwp (answer_use tools u) s (same (fun t => tool_use_id t = u_id u) s).
Proof.
  unfold answer_use. case_bool_decide; [by split|].
  destruct (_ ≫= _) as [[tool i]|]; [|by split]. destruct (needsApproval tool); [|apply run_tool_history].
  apply hwp_do; [done|by split|]. intros v _. destruct (approves v); [apply run_tool_history|by split].
Qed.

Lemma answer_uses_history tools uses s : hwp (answer_uses tools uses) s (same (fun rs => map tool_use_id rs = map u_id uses) s).
Proof.
  induction uses as [|u uses IH]; [by split|]. cbn [answer_uses]. apply wp_bind.
  eapply wp_weaken; [apply answer_use_history|]. intros ? [e|r] [-> Hr]; [by split|].
  apply wp_bind. eapply wp_weaken; [exact IH|]. intros ? [e|rs] [-> Hrs]; [by split|]. split; [done|]. simpl. by rewrite Hr, Hrs.
Qed.

(** ** Asking the model *)

(** What a program leaves behind: at most [n] requests made, nothing dropped,
    and a complete history, unless it threw an error that is not the client's. *)
Definition settled {A} (n : nat) (d : bool) (s : Turn) (r : error + A) : Prop :=
  (asked s <= n)%nat /\ dropped s = d /\ match r with inl e => e_kind e = KOther \/ complete (hist s) | inr _ => complete (hist s) end.

Definition answered (m : BetaMessage) : Prop := stop_reason m = Some "pause_turn" -> tool_uses (content m) = [].

Lemma ask_model_history s : (asked s < MAX_ITERATIONS)%nat -> complete (hist s) ->
  hwp ask_model s (fun s' r => settled (S (asked s)) (dropped s) s' r /\ hist s' = hist s /\ match r with inr m => answered m | inl _ => True end).
Proof.
  intros Ha Hc. assert (He : forall e : error, settled (A := BetaMessage) (S (asked s)) (dropped s) s (inl e)).
  { intros e. split; [lia|]. split; [done|]. by right. }
  unfold ask_model. do 2 (apply hwp_do; [done|intros e _; split; [apply He|done]|intros _ _]).
  apply wp_bind, wp_perform; [done|]. set (s1 := mkTurn (S (asked s)) (hist s) (dropped s)). assert (He1 : forall e : error, settled (A := BetaMessage) (S (asked s)) (dropped s) s1 (inl e)).
  { intros e. split; [done|]. split; [done|]. by right. }
  intros r _. change (upd s ACreateStream r) with s1. destruct r as [e|[]]; [split; [apply He1|done]|].
  apply wp_finally. eapply (wp_weaken _ _ _ _ _ (fun s' r => s' = s1 /\ match r with inr m => answered m | inl _ => True end)).
  - apply hwp_do; [done|done|]. intros [l o] Hm. simpl. apply wp_bind. clear -Hm.
    induction l as [|d l IH]; [by destruct o|]. split; [done|]. intros r _. by apply IH.
  - intros s' r [-> Hr]. apply hwp_perform; [done|]. intros [e|[]] _; [split; [apply He1|done]|].
    split; [|done]. destruct r as [e|m]; [apply He1|]. by split.
Qed.

(** ** The loop *)

Lemma settled_error {A} n (s : Turn) e : (asked s <= n)%nat -> e_kind e = KOther \/ complete (hist s) -> settled (A := A) n (dropped s) s (inl e).
Proof. by split. Qed.

Lemma iteration_history tools s : (asked s < MAX_ITERATIONS)%nat -> complete (hist s) ->
  hwp (iteration tools) s (settled (S (asked s)) (dropped s)).
Proof.
  intros Ha Hc. unfold iteration. apply wp_bind. eapply wp_weaken; [by apply ask_model_history|].
  intros s1 [e|m] ((Hn & Hd & Hr) & Hh & Hm); [by split|]. rewrite <- Hd in *. clear Hd.
  case_bool_decide; [by apply hwp_do; [done|intros e _; split; auto|]|].
  case_bool_decide as Hp.
  { apply hwp_push. split; [done|]. split; [done|]. unfold complete. simpl. rewrite pending_assistant by done. by rewrite (Hm Hp). }
  apply hwp_push. pose proof (pending_assistant _ (content m) Hr) as Hpend.
  set (s2 := mkTurn _ _ _). assert (Hd2 : dropped s1 = dropped s2) by done. assert (Hn2 : (asked s2 <= S (asked s))%nat) by done.
  change (pending (hist s2) = Some (map u_id (tool_uses (content m)))) in Hpend. rewrite Hd2. clearbody s2. clear -Hpend Hn2.
  destruct (tool_uses (content m)) as [|u uses]; [by split|].
  case_bool_decide; [apply settled_error; auto|]. apply wp_bind. eapply wp_weaken; [apply answer_uses_history|].
  intros ? [e|rs] [-> Hrs]; [apply settled_error; auto|].
  apply hwp_push. split; [done|]. split; [done|]. apply complete_results; [by rewrite Hpend, Hrs|]. by intros ->.
Qed.

Lemma iterate_history tools n s : (asked s + n <= MAX_ITERATIONS)%nat -> complete (hist s) ->
  hwp (iterate tools n) s (settled (asked s + n) (dropped s)).
Proof.
  revert s. induction n as [|n IH]; intros s Hn Hc; cbn [iterate].
  { apply hwp_perform; [done|]. intros [e|[]] _; split; [lia|auto|lia|auto]. }
  apply wp_bind. eapply wp_weaken; [apply iteration_history; [lia|done]|].
  intros s1 [e|[]] (Hn1 & Hd & Hr); [split; [lia|done]| |split; [lia|done]].
  eapply wp_weaken; [apply IH; [lia|done]|]. intros s2 r (Hn2 & Hd2 & Hr2). split; [lia|]. split; [congruence|done].
Qed.

Lemma runToolLoop_history tools h d : complete h -> hwp (runToolLoop tools) (mkTurn 0 h d) (settled MAX_ITERATIONS d).
Proof. intros Hc. by apply (iterate_history tools MAX_ITERATIONS (mkTurn 0 h d)). Qed.

(** ** Runs of the loop *)

Definition pushed (tr : list event) : list MessageParam :=
  rev (omap (fun ev => match ev_action ev with APush m => Some m | _ => None end) tr).

Definition is_request (ev : event) : bool := match ev_action ev with ACreateStream => true | _ => false end.
Definition requests (tr : list event) : nat := length (List.filter is_request tr).

Lemma after_turn n h d tr : exists d', after upd (mkTurn n h d) tr = mkTurn (n + requests tr) (h ++ pushed tr) d'.
Proof.
  induction tr as [|[a r] tr [d' IH]]; simpl.
  { exists d. by rewrite Nat.add_0_r, app_nil_r. }
  rewrite IH. unfold requests, pushed. destruct a; simpl; try by exists d'.
  - exists d'. f_equal. lia.
  - exists d'. f_equal. by rewrite app_assoc.
  - by exists true.
Qed.

(** The loop asks the model at most eight times, each time with a history
    in which every tool call is answered, in order, by the message after it.
    When it ends without an error, the history it leaves is such a one; so it
    is when the error came from the model's client. *)
Theorem requests_bounded_and_valid (tools : list (string * ToolSpec)) (w : world) (h : list MessageParam) :
  (forall tr a, honest a (w tr a)) -> complete h ->
  let '(tr, r) := exec w (runToolLoop tools) [] in
  (requests tr <= 8)%nat /\
  (forall l2 x l1, tr = l2 ++ mkEvent ACreateStream x :: l1 -> complete (h ++ pushed l1)) /\
  match r with inr _ => complete (h ++ pushed tr) | inl e => e_kind e = KOther \/ complete (h ++ pushed tr) end.
Proof.
  intros Hw Hc. pose proof (wp_exec sendable honest upd w (runToolLoop tools) (mkTurn 0 h false) [] _ Hw
    (runToolLoop_history tools h false Hc) I) as H.
  destruct (exec w (runToolLoop tools) []) as [tr r]. destruct H as [Hall (Hn & _ & Hr)].
  destruct (after_turn 0 h false tr) as [d' E]. rewrite E in Hn, Hr. split; [done|]. split; [|done].
  intros l2 x l1 ->. apply all_allowed_split in Hall as [_ Hl]. destruct (after_turn 0 h false l1) as [d1 E1].
  by rewrite E1 in Hl.
Qed.

Lemma refund_world_honest tr a : honest a (refund_world tr a).
Proof. destruct a; try done. unfold honest, refund_world. by destruct (existsb _ _). Qed.

Lemma requests_bounded_and_valid_witness :
  let '(tr, r) := exec refund_world (runToolLoop TOOLS) [] in
  (requests tr <= 8)%nat /\
  (forall l2 x l1, tr = l2 ++ mkEvent ACreateStream x :: l1 -> complete ([PUser "Refund ORD-42"] ++ pushed l1)) /\
  match r with inr _ => complete ([PUser "Refund ORD-42"] ++ pushed tr)
  | inl e => e_kind e = KOther \/ complete ([PUser "Refund ORD-42"] ++ pushed tr) end.
Proof. exact (requests_bounded_and_valid TOOLS refund_world [PUser "Refund ORD-42"] refund_world_honest eq_refl). Defined.

(** A tool name that every object has is not an unknown tool: the loop throws,
    and the turn ends without the model being told. *)
Example inherited_name_throws :
  (exec (fun tr a => match a return answer a with
                     | AFinal => inr ([], inr (mkMessage (Some "tool_use") [BToolUse (mkUse "tu_1" "toString" (JObj []))]))
                     | AAsk _ _ _ => inr None | ARun _ _ => inr JNull | _ => inr tt end) (runToolLoop TOOLS) []).2 =
  inl (plain_error "tool?.parse is not a function").
Proof. vm_compute. reflexivity. Qed.

(** A tool that ran is reported to the model as failed when the report of its
    success to the end user fails. *)
Example refund_reported_as_failed :
  (exec (fun tr a => match a return answer a with
                     | AToolCall _ status _ => if String.eqb status "completed" then inl (plain_error "closed") else inr tt
                     | a => refund_world tr a end) (run_tool refund_use (JObj [("order_id", JStr "ORD-42")])) []).2 =
  inr (mkResult "tu_1" true "closed").
Proof. vm_compute. reflexivity. Qed.
