(* ===== verification/ToolAgent.v ===== *)
(** * ToolAgent: the agent around the tool loop
    ([examples/agents/llm-tool-loop-ts/src/agent.ts]).

    Turns of different conversations run at the same time: a running turn is
    the rest of its program, and any of them may take the next step.  The
    histories are arrays of a heap, shared by the map of conversations and the
    turns.  The agent SDK runs one turn of a conversation at a time
    ([AgentTurns.turns_in_order]), which is the premise of [begin]. *)

From stdpp Require Import base sets list strings.
From Stdlib Require Import ZArith QArith Lia.
From S2P Require Import Prelude JsMap Watermark Json Stringify ToolLoop ToolFacts ToolHistory.

Open Scope string_scope.
Open Scope list_scope.
Open Scope nat_scope.

#[local] Arguments wp : simpl never.
#[local] Arguments bind : simpl never.
#[local] Arguments perform : simpl never.

(** ** The state *)

Record Running := mkRunning { r_conversation : string; r_array : nat; r_rest : prog unit }.

Record App := mkApp { heap : list (list MessageParam); conversations : list (string * nat); running : list Running }.

Definition fresh_app : App := mkApp [] [] [].

(* @src examples/agents/llm-tool-loop-ts/src/agent.ts 23-23 MAX_CONVERSATIONS *)
Definition MAX_CONVERSATIONS : nat := 1000.

(** ** A turn *)

(** The loop, and what an error of it leads to. *)
(* @src examples/agents/llm-tool-loop-ts/src/agent.ts 41-49 onTurn *)
Definition turn_program (tools : list (string * ToolSpec)) : prog unit :=
  catch (runToolLoop tools) (fun e =>
    let! _ := match e_kind e return prog unit with
              | KRateLimit => perform (AText "I'm busy right now, please try again in a minute.")
              | KApi => perform (AText "Something went wrong on my side.")
              | KOther => Ret tt
              end in
    let! _ := perform ADrop in
    Throw e).

(** The array of a conversation: a new one evicts the oldest conversation of a
    full map. *)
(* @src examples/agents/llm-tool-loop-ts/src/agent.ts 34-39 onTurn *)
Definition array_of (c : string) (a : App) : nat * App :=
  match assoc c (conversations a) with
  | Some i => (i, a)
  | None =>
      let i := length (heap a) in
      let kept := if bool_decide (MAX_CONVERSATIONS <= length (conversations a)) then tail (conversations a) else conversations a in
      (i, mkApp (heap a ++ [[]]) (map_set c i kept) (running a))
  end.

Definition push (i : nat) (m : MessageParam) (a : App) : App :=
  mkApp (alter (fun h => h ++ [m]) i (heap a)) (conversations a) (running a).

(** [onTurn], up to the first action of the loop. *)
(* @src examples/agents/llm-tool-loop-ts/src/agent.ts 32-50 onTurn *)
Definition begin_turn (tools : list (string * ToolSpec)) (c : string) (text : option string) (a : App) : App :=
  match text with
  | None | Some "" => a
  | Some text =>
      let '(i, a) := array_of c a in
      let a := push i (PUser text) a in
      mkApp (heap a) (conversations a) (mkRunning c i (turn_program tools) :: running a)
  end.

(** What an action of a turn does to the shared state. *)
Definition effect (c : string) (i : nat) (act : action) (a : App) : App :=
  match act with
  | APush m => push i m a
  | ADrop => mkApp (heap a) (map_delete c (conversations a)) (running a)
  | _ => a
  end.

Definition with_running (l : list Running) (a : App) : App := mkApp (heap a) (conversations a) l.

Definition over (p : prog unit) : Prop := match p with Do _ _ => False | _ => True end.

Section Steps.
Context (tools : list (string * ToolSpec)).

Inductive step (a : App) : App -> Prop :=
| begin c text : c ∉ map r_conversation (running a) -> step a (begin_turn tools c text a)
| act c i x k r l1 l2 : running a = l1 ++ mkRunning c i (Do x k) :: l2 -> honest x r ->
    step a (effect c i x (with_running (l1 ++ mkRunning c i (k r) :: l2) a))
| finish t l1 l2 : running a = l1 ++ t :: l2 -> over (r_rest t) -> step a (with_running (l1 ++ l2) a).

Inductive reachable : App -> Prop :=
| reach_start : reachable fresh_app
| reach_step a a' : reachable a -> step a a' -> reachable a'.

(** ** The rest of a turn *)

(** A turn ends with a complete history, or without one in the map. *)
Definition closed (s : Turn) (r : error + unit) : Prop := dropped s = true \/ complete (hist s).

Definition on_course (p : prog unit) (s : Turn) : Prop := wp sendable honest upd p s closed.

Lemma turn_program_on_course h : complete h -> on_course (turn_program tools) (mkTurn 0 h false).
Proof.
  intros Hc. apply wp_catch. eapply wp_weaken; [by apply runToolLoop_history|].
  intros s [e|[]] (_ & _ & Hr); [|by right]. assert (Hdrop : hwp (bind (perform ADrop) (fun _ => Throw e)) s closed).
  { apply wp_bind, wp_perform; [done|]. intros ? ->. by left. }
  apply wp_bind. destruct (e_kind e); [| |exact Hdrop]; (destruct Hr as [|Hr]; [done|]).
  - apply (hwp_perform (AText "I'm busy right now, please try again in a minute.")); [done|]. intros [e'|[]] _; [by right|exact Hdrop].
  - apply (hwp_perform (AText "Something went wrong on my side.")); [done|]. intros [e'|[]] _; [by right|exact Hdrop].
Qed.

(** ** The invariant *)

(** [o]: the conversation each array was made for. *)
Record Inv (o : list string) (a : App) : Prop := mkInv {
  inv_heap : length o = length (heap a);
  inv_keys : NoDup (conversations a).*1;
  inv_size : length (conversations a) <= MAX_CONVERSATIONS;
  inv_turns : NoDup (map r_conversation (running a));
  inv_owner : forall c i, (c, i) ∈ conversations a -> o !! i = Some c;
  inv_towner : forall t, t ∈ running a -> o !! r_array t = Some (r_conversation t);
  inv_same : forall t i, t ∈ running a -> (r_conversation t, i) ∈ conversations a -> i = r_array t;
  inv_idle : forall c i, (c, i) ∈ conversations a -> c ∉ map r_conversation (running a) -> exists h, heap a !! i = Some h /\ complete h;
  inv_course : forall t, t ∈ running a -> exists n h d, heap a !! r_array t = Some h /\ on_course (r_rest t) (mkTurn n h d) /\
    (d = true -> r_conversation t ∉ (conversations a).*1);
}.

Lemma inv_fresh : Inv [] fresh_app.
Proof. split; simpl; try by intros; set_solver. all: try done; try constructor. unfold MAX_CONVERSATIONS. lia. Qed.

Lemma sub_keys (m m' : list (string * nat)) c : m' `sublist_of` m -> c ∈ m'.*1 -> c ∈ m.*1.
Proof. intros Hs Hc. eapply elem_of_sublist; [exact Hc|]. by apply sublist_map. Qed.

(** Fewer conversations in the map. *)
Lemma inv_evict o a m : m `sublist_of` conversations a -> Inv o a -> Inv o (mkApp (heap a) m (running a)).
Proof.
  intros Hs Hi. assert (Hin : forall kv, kv ∈ m -> kv ∈ conversations a) by (intros kv Hkv; by eapply elem_of_sublist).
  destruct Hi. split; simpl; eauto.
  - eapply sublist_NoDup; [exact inv_keys0|]. by apply sublist_map.
  - apply sublist_length in Hs. lia.
  - intros t Ht. destruct (inv_course0 t Ht) as (n & h & d & Hh & Hw & Hd). exists n, h, d. split; [done|]. split; [done|].
    intros E Hc. by apply (Hd E), (sub_keys _ m).
Qed.

Lemma in_middle {A} (l1 l2 : list A) x y : x ∈ l1 ++ y :: l2 <-> x = y \/ x ∈ l1 ++ l2.
Proof. rewrite !elem_of_app, elem_of_cons. tauto. Qed.

(** The turns of the other conversations. *)
Lemma others o a l1 c i p l2 t : Inv o a -> running a = l1 ++ mkRunning c i p :: l2 -> t ∈ l1 ++ l2 ->
  t ∈ running a /\ r_conversation t <> c /\ r_array t <> i.
Proof.
  intros Hi Hr Ht. assert (Hin : t ∈ running a) by (rewrite Hr, in_middle; auto). split; [done|].
  assert (Hc : r_conversation t <> c).
  { intros E. pose proof (inv_turns _ _ Hi) as Hnd. rewrite Hr, map_app in Hnd. simpl in Hnd.
    apply NoDup_app in Hnd as (_ & Hd & Hnd). apply NoDup_cons in Hnd as [Hn _].
    apply elem_of_app in Ht as [Ht|Ht]; apply (list_elem_of_fmap_2 r_conversation) in Ht; rewrite E in Ht; [|done].
    apply (Hd _ Ht). set_solver. }
  split; [done|]. intros E. apply Hc. pose proof (inv_towner _ _ Hi t Hin) as H1.
  assert (H2 : o !! i = Some c) by (apply (inv_towner _ _ Hi (mkRunning c i p)); rewrite Hr, in_middle; auto).
  rewrite E in H1. congruence.
Qed.

(** A running turn goes on. *)
Lemma inv_advance o a l1 l2 c i p p' f m : Inv o a -> running a = l1 ++ mkRunning c i p :: l2 -> m `sublist_of` conversations a ->
  (forall n h d, heap a !! i = Some h -> on_course p (mkTurn n h d) -> (d = true -> c ∉ (conversations a).*1) ->
    exists n' d', on_course p' (mkTurn n' (f h) d') /\ (d' = true -> c ∉ m.*1)) ->
  Inv o (mkApp (alter f i (heap a)) m (l1 ++ mkRunning c i p' :: l2)).
Proof.
  intros Hi0 Hr Hs Hp. pose proof (inv_evict _ _ _ Hs Hi0) as Hi. pose proof (fun t => others _ _ _ _ _ _ _ t Hi0 Hr) as Ho.
  assert (Hrun : mkRunning c i p ∈ running a) by (rewrite Hr, in_middle; auto).
  assert (Hkeys : map r_conversation (l1 ++ mkRunning c i p' :: l2) = map r_conversation (running a)) by (rewrite Hr, !map_app; done).
  pose proof (inv_towner _ _ Hi _ Hrun) as Hown. simpl in Hown.
  destruct Hi. split; simpl in *; rewrite ?Hkeys; try done.
  - by rewrite length_alter.
  - intros t [->|Ht]%in_middle; [done|]. by apply inv_towner0, Ho.
  - intros t j [->|Ht]%in_middle Hj; [by apply (inv_same0 _ _ Hrun)|]. apply inv_same0; [by apply Ho|done].
  - intros c' j Hj Hc'. rewrite list_lookup_alter_ne; [by apply (inv_idle0 c')|]. intros <-.
    pose proof (inv_owner0 c' i Hj) as E. apply Hc'. assert (c' = c) as -> by congruence. by apply (list_elem_of_fmap_2 r_conversation) in Hrun.
  - intros t [->|Ht]%in_middle.
    + destruct (inv_course _ _ Hi0 _ Hrun) as (n & h & d & Hh & Hw & Hd). destruct (Hp n h d Hh Hw Hd) as (n' & d' & Hw' & Hd').
      exists n', (f h), d'. split; [|done]. simpl in *. by rewrite list_lookup_alter_eq, Hh.
    + destruct (Ho t Ht) as (Hin & _ & Hne). rewrite list_lookup_alter_ne by done. by apply inv_course0.
Qed.

Lemma inv_act o a c i x k r l1 l2 : Inv o a -> running a = l1 ++ mkRunning c i (Do x k) :: l2 -> honest x r ->
  Inv o (effect c i x (with_running (l1 ++ mkRunning c i (k r) :: l2) a)).
Proof.
  intros Hi Hr Hok.
  assert (Hstill : (forall s, hist (upd s x r) = hist s /\ dropped (upd s x r) = dropped s) ->
    Inv o (with_running (l1 ++ mkRunning c i (k r) :: l2) a)).
  { intros Hx. unfold with_running. rewrite <- (list_alter_id id (heap a) i) by done.
    apply (inv_advance o a l1 l2 c i (Do x k)); [done..|]. intros n h d _ [_ Hw] Hd. specialize (Hw r Hok).
    destruct (Hx (mkTurn n h d)) as [Hh Hdd]. destruct (upd _ x r) as [n' h' d']. simpl in *. subst. by exists n', d. }
  destruct x; try (apply Hstill; by intros []).
  - apply (inv_advance o a l1 l2 c i (Do (APush m) k)); [done..|]. intros n h d _ [_ Hw] Hd. exists n, d. split; [|done]. by apply (Hw r).
  - unfold effect. change (heap (with_running _ a)) with (heap a). rewrite <- (list_alter_id id (heap a) i) by done.
    apply (inv_advance o a l1 l2 c i (Do ADrop k)); [done..|apply delete_sublist|]. intros n h d _ [_ Hw] _. exists n, true.
    split; [by apply (Hw r)|]. intros _ Hc. pose proof (inv_keys _ _ Hi) as Hnd.
    apply list_elem_of_fmap in Hc as ([c' j] & -> & Hj). simpl in *.
    apply (assoc_elem c') in Hj; [|by apply nodup_delete]. by rewrite assoc_delete, String.eqb_refl in Hj.
Qed.

Lemma inv_finish o a t l1 l2 : Inv o a -> running a = l1 ++ t :: l2 -> over (r_rest t) -> Inv o (with_running (l1 ++ l2) a).
Proof.
  intros Hi Hr Hover. destruct t as [c i p]. simpl in Hover. pose proof (fun t => others _ _ _ _ _ _ _ t Hi Hr) as Ho.
  assert (Hrun : mkRunning c i p ∈ running a) by (rewrite Hr, in_middle; auto).
  destruct Hi. split; simpl in *; try done.
  - eapply sublist_NoDup; [exact inv_turns0|]. rewrite Hr. apply sublist_map, sublist_app; [done|]. by apply sublist_cons.
  - intros t Ht. by apply inv_towner0, Ho.
  - intros t j Ht. apply inv_same0. by apply Ho.
  - intros c' j Hj Hn. destruct (decide (c' = c)) as [->|Hne].
    + assert (j = i) as -> by by apply (inv_same0 _ _ Hrun). destruct (inv_course0 _ Hrun) as (n & h & d & Hh & Hw & Hd).
      simpl in *. exists h. split; [done|]. assert (Hcl : d = true \/ complete h) by by destruct p.
      destruct Hcl as [->|]; [|done]. exfalso. apply Hd; [done|]. by apply (list_elem_of_fmap_2 fst) in Hj.
    + apply (inv_idle0 c'); [done|]. rewrite Hr, map_app. rewrite map_app in Hn. simpl. rewrite in_middle. tauto.
  - intros t Ht. by apply inv_course0, Ho.
Qed.

Lemma tail_sublist {A} (l : list A) : tail l `sublist_of` l.
Proof. destruct l; [done|by apply sublist_cons]. Qed.

(** A new conversation, with an empty history. *)
Lemma inv_new o a c : Inv o a -> c ∉ map r_conversation (running a) -> c ∉ (conversations a).*1 -> length (conversations a) < MAX_CONVERSATIONS ->
  Inv (o ++ [c]) (mkApp (heap a ++ [[]]) (conversations a ++ [(c, length (heap a))]) (running a)).
Proof.
  intros Hi Hrun Hc Hlen. destruct Hi.
  assert (Hold : forall i (x : string), o !! i = Some x -> (o ++ [c]) !! i = Some x) by (intros i x; apply lookup_app_l_Some).
  assert (Hin : forall c' i, (c', i) ∈ conversations a ++ [(c, length (heap a))] -> (c', i) ∈ conversations a \/ c' = c /\ i = length (heap a)).
  { intros c' i [?|[= -> ->]%list_elem_of_singleton]%elem_of_app; auto. }
  split; simpl.
  - rewrite !length_app. simpl. lia.
  - rewrite fmap_app. apply NoDup_app. split; [done|]. split; [|apply NoDup_singleton]. by intros x Hx ->%list_elem_of_singleton.
  - rewrite length_app. simpl. lia.
  - done.
  - intros c' i [Hj|[-> ->]]%Hin; [auto|]. rewrite <- inv_heap0. by apply list_lookup_middle.
  - auto.
  - intros t i Ht [Hj|[E ->]]%Hin; [auto|]. exfalso. apply Hrun. rewrite <- E. by apply (list_elem_of_fmap_2 r_conversation).
  - intros c' i [Hj|[-> ->]]%Hin Hn; [|exists []; split; [by apply list_lookup_middle|done]].
    destruct (inv_idle0 c' i Hj Hn) as (h & Hh & Hd). exists h. split; [|done]. by apply lookup_app_l_Some.
  - intros t Ht. destruct (inv_course0 t Ht) as (n & h & d & Hh & Hw & Hd). exists n, h, d. split; [by apply lookup_app_l_Some|].
    split; [done|]. intros E. rewrite fmap_app. intros [Hk|Hk%list_elem_of_singleton]%elem_of_app; [by apply Hd|].
    simpl in Hk. apply Hrun. rewrite <- Hk. by apply (list_elem_of_fmap_2 r_conversation).
Qed.

Lemma inv_array_of o a c : Inv o a -> c ∉ map r_conversation (running a) ->
  let '(i, a') := array_of c a in exists o', Inv o' a' /\ running a' = running a /\ (c, i) ∈ conversations a'.
Proof.
  intros Hi Hrun. unfold array_of. destruct (assoc c (conversations a)) as [i|] eqn:E.
  { exists o. split; [done|]. split; [done|]. by apply assoc_In. }
  apply assoc_none in E. set (kept := if bool_decide _ then _ else _).
  assert (Hs : kept `sublist_of` conversations a) by (unfold kept; case_bool_decide; [apply tail_sublist|done]).
  assert (Hl : length kept < MAX_CONVERSATIONS).
  { pose proof (inv_size _ _ Hi) as Hsz. unfold kept. case_bool_decide as Hb; [|lia].
    destruct (conversations a) as [|x l]; simpl in *; [|lia]. unfold MAX_CONVERSATIONS. lia. }
  assert (Hk : c ∉ kept.*1) by by intros Hk%(sub_keys (conversations a)).
  assert (Hset : assoc c kept = None).
  { destruct (assoc c kept) eqn:Ek; [|done]. apply assoc_In, (list_elem_of_fmap_2 fst) in Ek. done. }
  rewrite (set_Permutation _ _ _ Hset). exists (o ++ [c]). split; [|split; [done|]].
  - by apply (inv_new o (mkApp (heap a) kept (running a))), Hl; [apply inv_evict|..].
  - simpl. rewrite elem_of_app, list_elem_of_singleton. auto.
Qed.

Lemma inv_start o a c i text : Inv o a -> c ∉ map r_conversation (running a) -> (c, i) ∈ conversations a ->
  Inv o (mkApp (heap (push i (PUser text) a)) (conversations a) (mkRunning c i (turn_program tools) :: running a)).
Proof.
  intros Hi Hrun Hc. destruct (inv_idle _ _ Hi c i Hc Hrun) as (h & Hh & Hcomplete). destruct Hi.
  assert (Hne : forall t, t ∈ running a -> i <> r_array t).
  { intros t Ht E. apply Hrun. pose proof (inv_towner0 t Ht) as H1. rewrite <- E, (inv_owner0 c i Hc) in H1. injection H1 as ->.
    by apply (list_elem_of_fmap_2 r_conversation). }
  split; simpl; try done.
  - by rewrite length_alter.
  - by constructor.
  - intros t [->|Ht]%elem_of_cons; [by apply inv_owner0|auto].
  - intros t j [->|Ht]%elem_of_cons Hj; [|auto]. simpl in *.
    apply (assoc_elem c) in Hj, Hc; [|done..]. congruence.
  - intros c' j Hj [Hne' Hn]%not_elem_of_cons. rewrite list_lookup_alter_ne; [by apply (inv_idle0 c')|]. intros <-.
    apply Hne'. pose proof (inv_owner0 _ _ Hj) as E. rewrite (inv_owner0 _ _ Hc) in E. by injection E.
  - intros t [->|Ht]%elem_of_cons.
    + exists 0, (h ++ [PUser text]), false. simpl. rewrite list_lookup_alter_eq, Hh. split; [done|]. split; [|done].
      by apply turn_program_on_course, complete_user.
    + rewrite list_lookup_alter_ne by auto. auto.
Qed.

Lemma inv_reachable a : reachable a -> exists o, Inv o a.
Proof.
  induction 1 as [|a a' _ [o Hi] Hs]; [exists []; apply inv_fresh|]. destruct Hs as [c text Hc|c i x k r l1 l2 Hr Hok|t l1 l2 Hr Ho].
  - unfold begin_turn. destruct text as [text|]; [|by exists o]. pose proof (inv_array_of _ _ _ Hi Hc) as Hi'.
    destruct text as [|x text]; [by exists o|]. destruct (array_of c a) as [i a']. destruct Hi' as (o' & Hi' & Hr & Hin).
    exists o'. by apply (inv_start o' a'); rewrite ?Hr.
  - exists o. by apply inv_act.
  - exists o. by apply (inv_finish o a t).
Qed.
End Steps.

(** C29. However the turns of the example agent interleave, and whatever the
    models, tools and users answer, it keeps at most a thousand conversations;
    the history of a conversation that no turn is running on is one the next
    turn can start from (each tool call in it is answered); and every request to
    the model is made with such a history, whatever errors came before. *)
Theorem histories_stay_valid (tools : list (string * ToolSpec)) (a : App) : reachable tools a ->
  length (conversations a) <= 1000 /\
  (forall c i, (c, i) ∈ conversations a -> c ∉ map r_conversation (running a) -> exists h, heap a !! i = Some h /\ complete h) /\
  (forall c i k, mkRunning c i (Do ACreateStream k) ∈ running a -> exists h, heap a !! i = Some h /\ complete h).
Proof.
  intros [o Hi]%inv_reachable. split; [apply (inv_size _ _ Hi)|]. split; [apply (inv_idle _ _ Hi)|].
  intros c i k Hin. destruct (inv_course _ _ Hi _ Hin) as (n & h & d & Hh & [Hpre _] & _). exists h. split; [done|]. apply Hpre.
Qed.

(** ** An example *)

(** A turn of [alice], up to its request. *)
Definition alice_begins : App := begin_turn TOOLS "alice" (Some "Refund ORD-42") fresh_app.

Definition perform_next (t : Running) : Running :=
  match r_rest t with
  | Do a k => mkRunning (r_conversation t) (r_array t) (k (refund_world [] a))
  | _ => t
  end.

Definition alice_types : App := with_running (map perform_next (running alice_begins)) alice_begins.
Definition alice_requests : App := with_running (map perform_next (running alice_types)) alice_types.

Lemma alice_reachable : reachable TOOLS alice_requests.
Proof.
  apply (reach_step _ alice_types); [apply (reach_step _ alice_begins); [apply (reach_step _ fresh_app); [apply reach_start|]|]|].
  - apply begin, not_elem_of_nil.
  - exact (act TOOLS alice_begins "alice" 0 ATyping _ (inr tt) [] [] eq_refl I).
  - exact (act TOOLS alice_types "alice" 0 AStream _ (inr tt) [] [] eq_refl I).
Qed.

Lemma histories_stay_valid_witness :
  reachable TOOLS alice_requests /\ length (conversations alice_requests) <= 1000 /\
  (forall c i, (c, i) ∈ conversations alice_requests -> c ∉ map r_conversation (running alice_requests) ->
    exists h, heap alice_requests !! i = Some h /\ complete h) /\
  (forall c i k, mkRunning c i (Do ACreateStream k) ∈ running alice_requests -> exists h, heap alice_requests !! i = Some h /\ complete h).
Proof. split; [exact alice_reachable|exact (histories_stay_valid TOOLS alice_requests alice_reachable)]. Defined.

(** The turn is at its request. *)
Example alice_at_request : match map r_rest (running alice_requests) with [Do ACreateStream _] => True | _ => False end.
Proof. exact I. Qed.

(** When the apology for an error of the model's client fails, the turn is not
    dropped. *)
Example failing_apology_keeps_turn :
  map ev_action (exec (fun tr a => match a return answer a with
      | ACreateStream => inl (mkError KApi "overloaded") | AText _ => inl (plain_error "closed")
      | AFinal => inl (plain_error "") | AAsk _ _ _ => inr None | ARun _ _ => inr JNull | _ => inr tt end) (turn_program TOOLS) []).1 =
  [AText "Something went wrong on my side."; ACreateStream; AStream; ATyping].
Proof. vm_compute. reflexivity. Qed.
