(* ===== verification/Widget.v ===== *)
(** * Widget: the message list of the example widget
    ([examples/typescript/react-widget/src/useConversation.js]).

    React applies the queued updates of [setMessages] one after the other, so
    the list is a fold over what happens: frames of the conversation, sends, and
    what their promises settle to.  A send is the [i]th call of [send]; its
    closure keeps the key it made.  [show] is the list the user means to see:
    the outcome of a send goes to the entry of that send.  [widget_shows] says
    when the code, which finds entries by key, shows that. *)

From stdpp Require Import base list strings pretty.
From Stdlib Require Import ZArith Lia.
From S2P Require Import Prelude JsMap.

Open Scope string_scope.
Open Scope list_scope.
Open Scope Z_scope.

(** ** The list *)

(** [pending] and [read] are [undefined] until set. *)
Record Entry := mkEntry {
  e_key : string; e_seq : option Z; e_from : string; e_text : string;
  e_pending : option bool; e_failed : option string; e_read : bool
}.

Record TextFrame := mkText { t_type : string; t_id : string; t_seq : Z; t_from : string; t_text : string }.

Inductive happening :=
| Activity (f : TextFrame)
| ReadUpTo (status : string) (upToSeq : option Z)
| SendCall (now : nat) (text : string)
| Resolved (i : nat) (id : string) (seq : Z)
| Rejected (i : nat) (message : string).

(** A new entry of a frame. *)
(* @src examples/typescript/react-widget/src/useConversation.js 39-42 useConversation *)
Definition on_activity (f : TextFrame) : list Entry :=
  if String.eqb (t_type f) "text" then [mkEntry (t_id f) (Some (t_seq f)) (t_from f) (t_text f) None None false] else [].

(* @src examples/typescript/react-widget/src/useConversation.js 44-48 useConversation *)
Definition on_delivery (status : string) (upToSeq : option Z) (m : Entry) : Entry :=
  match upToSeq with
  | Some upTo =>
      if String.eqb status "read" && String.eqb (e_from m) "user" && match e_seq m with Some q => q <=? upTo | None => false end
      then mkEntry (e_key m) (e_seq m) (e_from m) (e_text m) (e_pending m) (e_failed m) true else m
  | None => m
  end.

(* @src examples/typescript/react-widget/src/useConversation.js 63-64 send *)
Definition local_key (now : nat) : string := "local-" +:+ pretty now.
Definition local_entry (now : nat) (text : string) : Entry := mkEntry (local_key now) None "user" text (Some true) None false.

(* @src examples/typescript/react-widget/src/useConversation.js 66-67 send *)
Definition acked (id : string) (seq : Z) (m : Entry) : Entry := mkEntry id (Some seq) (e_from m) (e_text m) (Some false) (e_failed m) (e_read m).

(* @src examples/typescript/react-widget/src/useConversation.js 68-69 send *)
Definition failed (message : string) (m : Entry) : Entry := mkEntry (e_key m) (e_seq m) (e_from m) (e_text m) (Some false) (Some message) (e_read m).

(** [list.map((m) => (m.key === key ? f(m) : m))], of the send's own key. *)
Definition update_key (key : option string) (f : Entry -> Entry) (l : list Entry) : list Entry :=
  match key with Some key => map (fun m => if String.eqb (e_key m) key then f m else m) l | None => l end.

(** The list, and the keys of the sends so far. *)
(* @src examples/typescript/react-widget/src/useConversation.js 38-71 useConversation *)
Definition widget_step (s : list Entry * list string) (h : happening) : list Entry * list string :=
  let '(l, keys) := s in
  match h with
  | Activity f => (l ++ on_activity f, keys)
  | ReadUpTo status upTo => (map (on_delivery status upTo) l, keys)
  | SendCall now text => (l ++ [local_entry now text], keys ++ [local_key now])
  | Resolved i id seq => (update_key (keys !! i) (acked id seq) l, keys)
  | Rejected i message => (update_key (keys !! i) (failed message) l, keys)
  end.

Definition widget (hs : list happening) : list Entry := (fold_left widget_step hs ([], [])).1.

(** ** What the user is to see *)

(** An entry and, of a send, which one it is and whether it was acked. *)
Record Shown := mkShown { s_send : option nat; s_acked : bool; s_entry : Entry }.

Definition update_send (i : nat) (f : Shown -> Shown) (l : list Shown) : list Shown :=
  map (fun m => if bool_decide (s_send m = Some i) && negb (s_acked m) then f m else m) l.

Definition show_step (s : list Shown * nat) (h : happening) : list Shown * nat :=
  let '(l, n) := s in
  match h with
  | Activity f => (l ++ map (mkShown None false) (on_activity f), n)
  | ReadUpTo status upTo => (map (fun m => mkShown (s_send m) (s_acked m) (on_delivery status upTo (s_entry m))) l, n)
  | SendCall now text => (l ++ [mkShown (Some n) false (local_entry now text)], S n)
  | Resolved i id seq => (update_send i (fun m => mkShown (s_send m) true (acked id seq (s_entry m))) l, n)
  | Rejected i message => (update_send i (fun m => mkShown (s_send m) (s_acked m) (failed message (s_entry m))) l, n)
  end.

Definition show (hs : list happening) : list Entry := map s_entry (fold_left show_step hs ([], 0%nat)).1.

(** ** When they agree *)

Definition local (key : string) : bool := String.prefix "local-" key.

(** The ids the server gives are not local keys. *)
Definition server_ids (h : happening) : Prop :=
  match h with Activity f => local (t_id f) = false | Resolved _ id _ => local id = false | _ => True end.

Definition times (hs : list happening) : list nat := omap (fun h => match h with SendCall now _ => Some now | _ => None end) hs.

Lemma local_key_local now : local (local_key now) = true.
Proof. unfold local, local_key. simpl. by destruct (pretty now). Qed.

Lemma local_key_inj a b : local_key a = local_key b -> a = b.
Proof. unfold local_key. intros [= H]. change (pretty a = pretty b) in H. by apply (inj pretty). Qed.

(** An entry of send [i] has its key until it is acked; no other has a local key. *)
Definition keyed (keys : list string) (m : Shown) : Prop :=
  match s_send m with
  | Some i => if s_acked m then local (e_key (s_entry m)) = false else keys !! i = Some (e_key (s_entry m))
  | None => local (e_key (s_entry m)) = false
  end.

Record agree (l : list Entry) (keys : list string) (ms : list Shown) (n : nat) (seen : list nat) : Prop := mkAgree {
  ag_entries : l = map s_entry ms;
  ag_keys : keys = map local_key seen;
  ag_count : n = length seen;
  ag_keyed : Forall (keyed keys) ms
}.

(** Finding the entry of a send by its key. *)
Lemma keyed_key seen ms i key : NoDup seen -> map local_key seen !! i = Some key -> Forall (keyed (map local_key seen)) ms ->
  forall m, m ∈ ms -> String.eqb (e_key (s_entry m)) key = bool_decide (s_send m = Some i) && negb (s_acked m).
Proof.
  intros Hn Hi Hk m Hm. rewrite Forall_forall in Hk. specialize (Hk m Hm). unfold keyed in Hk.
  assert (Hloc : local key = true).
  { change (map ?f seen) with (f <$> seen) in Hi. rewrite list_lookup_fmap in Hi. apply fmap_Some in Hi as (t & _ & ->). apply local_key_local. }
  assert (Hne : local (e_key (s_entry m)) = false -> String.eqb (e_key (s_entry m)) key = false).
  { intros E. apply String.eqb_neq. congruence. }
  destruct (s_send m) as [j|]; [|rewrite Hne by done; by rewrite bool_decide_eq_false_2].
  destruct (s_acked m); [by rewrite Hne, andb_false_r by done|]. rewrite andb_true_r. case_bool_decide as E.
  - injection E as ->. apply String.eqb_eq. congruence.
  - apply String.eqb_neq. intros Heq. apply E. f_equal. rewrite Heq in Hk.
    assert (NoDup (map local_key seen)) as Hnd by by apply NoDup_fmap_2_strong; [intros ? ? _ _; apply local_key_inj|].
    by apply (NoDup_lookup _ _ _ _ Hnd Hk).
Qed.

Lemma update_agree seen ms i f g : NoDup seen -> Forall (keyed (map local_key seen)) ms ->
  (forall m, f (s_entry m) = s_entry (g m)) ->
  update_key (map local_key seen !! i) f (map s_entry ms) = map s_entry (if decide (i < length seen)%nat then update_send i g ms else ms).
Proof.
  intros Hn Hk Hfg. case_decide as Hi.
  - destruct (lookup_lt_is_Some_2 (map local_key seen) i) as [key Hkey]; [by rewrite length_map|]. rewrite Hkey.
    unfold update_key, update_send. rewrite !map_map. apply map_ext_in. intros m Hm%list_elem_of_In.
    rewrite (keyed_key seen ms i key Hn Hkey Hk m Hm). by destruct (_ && _).
  - by rewrite lookup_ge_None_2 by (rewrite length_map; lia).
Qed.

(** An update of a send that is not there changes nothing. *)
Lemma update_missing seen ms i g : Forall (keyed (map local_key seen)) ms -> ~ (i < length seen)%nat -> update_send i g ms = ms.
Proof.
  intros Hk Hi. unfold update_send. rewrite <- (map_id ms) at 2. apply map_ext_in. intros m Hm%list_elem_of_In.
  rewrite Forall_forall in Hk. specialize (Hk m Hm). unfold keyed in Hk. case_bool_decide as E; [|done].
  rewrite E in Hk. destruct (s_acked m); [done|]. apply lookup_lt_Some in Hk. rewrite length_map in Hk. done.
Qed.

Lemma update_shown seen ms i f g : NoDup seen -> Forall (keyed (map local_key seen)) ms ->
  (forall m, f (s_entry m) = s_entry (g m)) ->
  update_key (map local_key seen !! i) f (map s_entry ms) = map s_entry (update_send i g ms).
Proof.
  intros Hn Hk Hfg. rewrite (update_agree _ _ _ _ g) by done. case_decide; [done|]. by rewrite (update_missing seen).
Qed.

Lemma keyed_update keys i g ms : Forall (keyed keys) ms -> (forall m, keyed keys m -> s_acked m = false -> keyed keys (g m)) ->
  Forall (keyed keys) (update_send i g ms).
Proof.
  intros Hk Hg. unfold update_send. apply Forall_fmap. eapply Forall_impl; [exact Hk|]. intros m Hm. simpl.
  destruct (bool_decide _); [|done]. destruct (s_acked m) eqn:E; [done|]. by apply Hg.
Qed.

Lemma keyed_more keys key m : keyed keys m -> keyed (keys ++ [key]) m.
Proof. unfold keyed. destruct (s_send m) as [i|]; [|done]. destruct (s_acked m); [done|]. apply lookup_app_l_Some. Qed.

Lemma step_agree l keys ms n seen h : agree l keys ms n seen -> server_ids h -> NoDup (seen ++ times [h]) ->
  let '(l', keys') := widget_step (l, keys) h in let '(ms', n') := show_step (ms, n) h in agree l' keys' ms' n' (seen ++ times [h]).
Proof.
  intros [-> -> -> Hk] Hids Hn. destruct h as [f|status upTo|now text|i id seq|i message]; simpl in *; rewrite ?app_nil_r in *.
  - split; [by rewrite map_app, map_map, map_id|done..|]. apply Forall_app. split; [done|]. unfold on_activity.
    destruct (String.eqb _ _); [|done]. by apply Forall_singleton.
  - split; [by rewrite !map_map|done..|]. apply Forall_fmap. eapply Forall_impl; [exact Hk|]. intros m Hm. unfold keyed in *. simpl.
    unfold on_delivery. destruct upTo; [|done]. by destruct (_ && _).
  - split; [by rewrite map_app|by rewrite map_app|rewrite length_app; simpl; lia|]. apply Forall_app. split.
    + eapply Forall_impl; [exact Hk|]. intros m. apply keyed_more.
    + apply Forall_singleton. unfold keyed. simpl. rewrite <- (length_map local_key). by apply list_lookup_middle.
  - split; [by apply update_shown|done..|]. apply keyed_update; [done|]. intros m _ _. unfold keyed. simpl. by destruct (s_send m).
  - split; [by apply update_shown|done..|]. by apply keyed_update.
Qed.

(** The widget shows what happened: every text of the conversation and
    every send once, in order, each send with its own outcome, as long as no two
    sends are made in the same millisecond (a send is known by the time it was
    made) and the server's ids are not of the form of such a key. *)
Theorem widget_shows (hs : list happening) : Forall server_ids hs -> NoDup (times hs) -> widget hs = show hs.
Proof.
  assert (H : forall s t seen, Forall server_ids hs -> NoDup (seen ++ times hs) -> agree s.1 s.2 t.1 t.2 seen ->
    (fold_left widget_step hs s).1 = map s_entry (fold_left show_step hs t).1).
  { induction hs as [|h hs IH]; intros [l keys] [ms n] seen Hs Hn Ha; [apply Ha|]. apply Forall_cons in Hs as [Hh Hs].
    assert (Ht : times (h :: hs) = times [h] ++ times hs) by by destruct h. rewrite Ht, app_assoc in Hn.
    pose proof (step_agree l keys ms n seen h Ha Hh (proj1 (proj1 (NoDup_app _ _) Hn))) as Hstep.
    change (fold_left widget_step (h :: hs) (l, keys)) with (fold_left widget_step hs (widget_step (l, keys) h)).
    change (fold_left show_step (h :: hs) (ms, n)) with (fold_left show_step hs (show_step (ms, n) h)).
    destruct (widget_step (l, keys) h) as [l' keys'], (show_step (ms, n) h) as [ms' n']. by apply (IH _ _ (seen ++ times [h])). }
  intros Hs Hn. by apply (H ([], []) ([], 0%nat) []).
Qed.

Definition ex_happenings : list happening :=
  [SendCall 1000 "hi"; Activity (mkText "text" "a1" 2 "bot" "hello"); SendCall 1001 "how are you"; Resolved 0 "m1" 1;
   Rejected 1 "closed"; ReadUpTo "read" (Some 2)].

Lemma widget_shows_witness : map e_key (widget ex_happenings) = ["m1"; "a1"; "local-1001"] /\ widget ex_happenings = show ex_happenings.
Proof.
  split; [vm_compute; reflexivity|]. apply widget_shows.
  - repeat constructor.
  - apply (bool_decide_eq_true_1 (NoDup _)). vm_compute. reflexivity.
Defined.

(** Two sends in one millisecond have one key: the ack of the first marks
    both as sent, under its own id, and the failure of the second is lost. *)
Example sends_in_one_millisecond :
  map (fun m => (e_text m, e_key m, e_failed m)) (widget [SendCall 5 "a"; SendCall 5 "b"; Resolved 0 "m1" 1; Rejected 1 "closed"]) =
    [("a", "m1", None); ("b", "m1", None)] /\
  map (fun m => (e_text m, e_key m, e_failed m)) (show [SendCall 5 "a"; SendCall 5 "b"; Resolved 0 "m1" 1; Rejected 1 "closed"]) =
    [("a", "m1", None); ("b", "local-5", Some "closed")].
Proof. vm_compute. auto. Qed.
