(* ===== verification/TypeGen.v ===== *)
(** * TypeGen: the generator of the agent SDK's protocol types
    ([packages/agent-ts/scripts/generate-types.mjs]): the names it gives to the
    schemas, and what it makes of a schema before json-schema-to-typescript,
    which is not modelled, turns it into [generated/protocol.ts].

    A schema is the JSON of its file.  The generator changes objects in place;
    each is read anew, so the changed object is the result here. *)

From Stdlib Require Import Ascii.
From stdpp Require Import base list strings.
From Stdlib Require Import ZArith QArith Lia.
From S2P Require Import Prelude JsMap Watermark Json Stringify LoadReport.

Open Scope string_scope.
Open Scope list_scope.
Open Scope Z_scope.

(** ** Names *)

Definition alphanumeric (c : ascii) : bool :=
  let z := code c in (48 <=? z) && (z <=? 57) || (65 <=? z) && (z <=? 90) || (97 <=? z) && (z <=? 122).

(** [s.split(/[^A-Za-z0-9]+/).filter(Boolean)]. *)
Fixpoint words (l word : chars) : list chars :=
  let keep := match word with [] => [] | _ => [rev word] end in
  match l with
  | [] => keep
  | c :: l => if alphanumeric c then words l (c :: word) else keep ++ words l []
  end.

Definition upper (c : ascii) : ascii := let z := code c in if (97 <=? z) && (z <=? 122) then chr (z - 32) else c.

Definition capitalize (w : chars) : chars := match w with c :: w => upper c :: w | [] => [] end.

Definition suffix : chars := chars_of ".schema.json".

(** [name.replace(/\.schema\.json$/, "")]. *)
Definition strip_suffix (l : chars) : chars :=
  match strip_prefix (rev suffix) (rev l) with Some r => rev r | None => l end.

(* @src packages/agent-ts/scripts/generate-types.mjs 29-35 pascal *)
Definition pascal (name : string) : string := str_of (concat (map capitalize (words (strip_suffix (chars_of name)) []))).

(** [file.split("/")]. *)
Fixpoint split_slash (l part : chars) : list string :=
  match l with
  | [] => [str_of (rev part)]
  | c :: l => if code c =? 47 then str_of (rev part) :: split_slash l [] else split_slash l (c :: part)
  end.

(** [Throws]: a part of the path that [pascal] needs is missing. *)
Inductive naming := Named (name : string) | Unnamed | Throws.

Definition name_part (part : option string) (f : string -> string) : naming :=
  match part with Some p => Named (f (pascal p)) | None => Throws end.

(* @src packages/agent-ts/scripts/generate-types.mjs 38-45 typeName *)
Definition typeName (file : string) : naming :=
  let parts := split_slash (chars_of file) [] in
  let group := nth 0 parts "" in
  let kind := parts !! 1%nat in
  let name := parts !! 2%nat in
  if String.eqb group "messages" then name_part kind (fun p => p +:+ "MessageData")
  else if String.eqb group "frames" && bool_decide (kind = Some "server") then name_part name (fun p => "Server" +:+ p +:+ "Frame")
  else if String.eqb group "frames" && bool_decide (kind = Some "client") then name_part name (fun p => "Client" +:+ p +:+ "Frame")
  else if String.eqb group "frames" && bool_decide (kind = Some "channel") then name_part name (fun p => "Channel" +:+ p)
  else match assoc file [("server-frame.schema.json", "ServerFrame"); ("client-frame.schema.json", "ClientFrame"); ("activity.schema.json", "Activity")] with
       | Some n => Named n
       | None => Unnamed
       end.

(** ** Schemas *)

Definition is_ref (v : option json) : bool := match v with Some (JStr _) => true | _ => false end.

(* @src packages/agent-ts/scripts/generate-types.mjs 93-101 stripRefSiblings *)
Fixpoint stripRefSiblings (node : json) : json :=
  match node with
  | JArr l => JArr (map stripRefSiblings l)
  | JObj l => if is_ref (assoc "$ref" l) then JObj (List.filter (fun kv => String.eqb (fst kv) "$ref") l)
              else JObj (map (fun '(k, v) => (k, stripRefSiblings v)) l)
  | v => v
  end.

(** [schema[key] = v]. *)
Definition assign (key : string) (v : json) (schema : json) : json :=
  match schema with JObj l => JObj (set_member key v l) | v => v end.

(** [[schema.title, schema.description].filter(Boolean).join(". ")]. *)
Definition prose (schema : json) : string :=
  String.concat ". " (map js_string (List.filter (fun v => js_true (Some v)) (omap (fun k => member k schema) ["title"; "description"]))).

(* @src packages/agent-ts/scripts/generate-types.mjs 67-71 load *)
Definition entitle (name : naming) (schema : json) : json :=
  match name with
  | Named n =>
      let p := prose schema in
      let schema := assign "title" (JStr n) schema in
      if String.eqb p "" then schema else assign "description" (JStr p) schema
  | _ => schema
  end.

(** The name of a server frame's inline [data]. *)
(* @src packages/agent-ts/scripts/generate-types.mjs 77-80 load *)
Definition name_data (file : string) (schema : json) : json :=
  match properties ← member "properties" schema; data ← member "data" properties; Some (properties, data) with
  | Some (properties, data) =>
      if String.prefix "frames/server/" file && negb (js_true (member "$ref" data)) && match member "type" data with Some (JStr t) => String.eqb t "object" | _ => false end
      then assign "properties" (assign "data" (assign "title" (JStr (pascal (nth 2 (split_slash (chars_of file) []) "") +:+ "Data")) data) properties) schema
      else schema
  | None => schema
  end.

Definition drop_examples (schema : json) : json := match schema with JObj l => JObj (map_delete "examples" l) | v => v end.

(** The definitions of [common.schema.json] are named by their keys. *)
(* @src packages/agent-ts/scripts/generate-types.mjs 84-86 load *)
Definition name_defs (file : string) (schema : json) : json :=
  if String.eqb file "common.schema.json"
  then match member "$defs" schema with
       | Some (JObj defs) => assign "$defs" (JObj (map (fun '(key, def) => (key, assign "title" (JStr (pascal key)) def)) defs)) schema
       | _ => schema
       end
  else schema.

(** [load] of a file with this content. *)
(* @src packages/agent-ts/scripts/generate-types.mjs 63-89 load *)
Definition load (file : string) (schema : json) : option json :=
  match typeName file with
  | Throws => None
  | name => Some (name_defs file (drop_examples (name_data file (stripRefSiblings (entitle name schema)))))
  end.

(** The schemas the generated module is made of: [list dir] is what the
    directory holds, in order. *)
(* @src packages/agent-ts/scripts/generate-types.mjs 47-58 generated *)
Definition generated (list : string -> list string) : Datatypes.list string :=
  flat_map (fun dir => map (fun file => dir +:+ "/" +:+ file)
      (List.filter (fun file => bool_decide (is_Some (strip_prefix (rev suffix) (rev (chars_of file))))) (list dir)))
    ["messages"; "frames/server"; "frames/client"; "frames/channel"].

(* @src packages/agent-ts/scripts/generate-types.mjs 110-118 root *)
Definition root (files : list string) : json :=
  JObj [("title", JStr "ConvergerProtocolV1"); ("type", JStr "object"); ("additionalProperties", JBool false); ("properties", JObj []);
        ("$defs", JObj (fold_left (fun l file => match typeName file with
                                                 | Named n => set_member n (JObj [("$ref", JStr file)]) l
                                                 | _ => set_member "undefined" (JObj [("$ref", JStr file)]) l end) files []))].

(** ** References stand alone *)

(** Every object with a reference holds nothing else. *)
Fixpoint refs_alone (v : json) : bool :=
  match v with
  | JArr l => forallb refs_alone l
  | JObj l => if is_ref (assoc "$ref" l) then forallb (fun kv => String.eqb (fst kv) "$ref") l else forallb (fun '(_, v) => refs_alone v) l
  | _ => true
  end.

Section Induction.
Context (P : json -> Prop) (Hother : forall v, match v with JArr _ | JObj _ => True | _ => P v end)
  (Harr : forall l, Forall P l -> P (JArr l)) (Hobj : forall l, Forall (fun kv => P kv.2) l -> P (JObj l)).

Fixpoint json_deep (v : json) : P v :=
  match v return P v with
  | JArr l => Harr l ((fix go l : Forall P l := match l with [] => Forall_nil_2 P | v :: l => Forall_cons_2 P v l (json_deep v) (go l) end) l)
  | JObj l => Hobj l ((fix go l : Forall (fun kv => P kv.2) l :=
      match l with [] => Forall_nil_2 _ | (k, v) :: l => Forall_cons_2 (fun kv => P kv.2) (k, v) l (json_deep v) (go l) end) l)
  | JNull => Hother JNull | JBool b => Hother (JBool b) | JNum q => Hother (JNum q) | JStr s => Hother (JStr s)
  end.
End Induction.

Lemma assoc_map_values (f : json -> json) k l : assoc k (map (fun '(k, v) => (k, f v)) l) = f <$> assoc k l.
Proof. induction l as [|[k' v] l IH]; [done|]. simpl. by destruct (k' =? k)%string. Qed.

Lemma assoc_filter_key {A} k (l : list (string * A)) : assoc k (List.filter (fun kv => String.eqb (fst kv) k) l) = assoc k l.
Proof. induction l as [|[k' v] l IH]; [done|]. simpl. destruct (k' =? k)%string eqn:E; simpl; by rewrite ?E. Qed.

Lemma strip_alone v : refs_alone (stripRefSiblings v) = true.
Proof.
  revert v. apply json_deep; [by intros []|intros l IH|intros l IH]; simpl.
  - apply forallb_forall. intros y (x & <- & Hx%list_elem_of_In)%in_map_iff. rewrite Forall_forall in IH. by apply IH.
  - destruct (is_ref (assoc "$ref" l)) eqn:E; simpl.
    + rewrite assoc_filter_key, E. apply forallb_forall. by intros x [_ Hx]%filter_In.
    + rewrite assoc_map_values. replace (is_ref (stripRefSiblings <$> assoc "$ref" l)) with false.
      * apply forallb_forall. intros y ([k x] & <- & Hx%list_elem_of_In)%in_map_iff. rewrite Forall_forall in IH. by apply (IH (k, x)).
      * destruct (assoc "$ref" l) as [[| | | | |m]|]; try done. simpl. by destruct (is_ref (assoc "$ref" m)).
Qed.

(** A schema whose references stand alone is left as it is. *)
Lemma strip_id v : refs_alone v = true -> stripRefSiblings v = v.
Proof.
  revert v. apply (json_deep (fun v => refs_alone v = true -> stripRefSiblings v = v)); [by intros []|intros l IH|intros l IH]; simpl.
  - rewrite forallb_forall. intros H. f_equal. rewrite <- (map_id l) at 2. apply map_ext_in. intros x Hx.
    rewrite Forall_forall in IH. apply IH; [by apply list_elem_of_In|by apply H].
  - destruct (is_ref (assoc "$ref" l)); rewrite forallb_forall; intros H; f_equal.
    + clear IH. induction l as [|kv l IH]; [done|]. simpl. rewrite (H kv) by (by left). f_equal. apply IH. intros x Hx. apply H. by right.
    + rewrite <- (map_id l) at 2. apply map_ext_in. intros [k x] Hx. f_equal. rewrite Forall_forall in IH.
      apply (IH (k, x)); [by apply list_elem_of_In|by apply (H (k, x))].
Qed.

(** After [stripRefSiblings] every object with a reference holds only the
    reference, which is the one it had; a schema in which that holds already
    is left as it is, so that doing it again changes nothing. *)
Theorem strip_ref_siblings_spec (v : json) :
  refs_alone (stripRefSiblings v) = true /\ (is_ref (member "$ref" v) = true -> member "$ref" (stripRefSiblings v) = member "$ref" v) /\
  (refs_alone v = true -> stripRefSiblings v = v) /\ stripRefSiblings (stripRefSiblings v) = stripRefSiblings v.
Proof.
  split; [apply strip_alone|]. split; [|split; [apply strip_id|apply strip_id, strip_alone]].
  destruct v as [| | | | |l]; try done. simpl. intros E. rewrite E. simpl. by rewrite assoc_filter_key.
Qed.

(** ** The schemas of the protocol *)

(** The schemas of [priv/protocol/v1], by directory. *)
Definition schema_dir (dir : string) : Datatypes.list string :=
  map (fun n => n +:+ ".schema.json")
    (if String.eqb dir "messages" then ["audio"; "buttons"; "card"; "carousel"; "contact"; "file"; "image"; "location"; "quick-reply"; "text"; "tool-call"; "video"]
     else if String.eqb dir "frames/server" then
       ["ack"; "conversationUpdate"; "deliveryStatus"; "error"; "event"; "genui"; "genui_components"; "heartbeat"; "interrupt"; "interrupt_resolved";
        "message"; "presence"; "replayTruncated"; "run"; "skill"; "skills"; "tokenRefreshed"; "tool_call"; "typing"; "welcome"]
     else if String.eqb dir "frames/client" then
       ["abort"; "auth"; "client_skills"; "client_tools"; "edit"; "genui_event"; "hello"; "message"; "ping"; "read"; "regenerate"; "resume"; "survey";
        "sync"; "typing"]
     else ["agent-frame"; "client-envelope"; "server-envelope"]).

(** Each schema has a name of its own: the root refers to all fifty. *)
Example schema_names :
  let names := omap (fun f => match typeName f with Named n => Some n | _ => None end) (generated schema_dir) in
  length names = 50%nat /\ bool_decide (NoDup names) = true /\
  (match member "$defs" (root (generated schema_dir)) with Some (JObj l) => map fst l | _ => [] end) = names /\
  typeName "frames/server/tool_call.schema.json" = Named "ServerToolCallFrame" /\ typeName "messages/quick-reply.schema.json" = Named "QuickReplyMessageData".
Proof. vm_compute. auto 10. Qed.
