(* ===== verification/Ids.v ===== *)
(** * Ids: the identifiers the SDKs make up ([randomClientId] of the client's
    [conversation.ts]; [randomHex], the prefix of client ids and [randomId] of
    the agent's [agent.ts]).

    The bytes of [crypto.getRandomValues], the id of [crypto.randomUUID] and the
    draws of [Math.random] are arguments.  A draw is at least 0 and below 1. *)

From Stdlib Require Import Ascii.
From stdpp Require Import base list strings pretty.
From Stdlib Require Import ZArith QArith Qround Lia Lqa.
From S2P Require Import Prelude Watermark Conversation.

Open Scope string_scope.
Open Scope list_scope.
Open Scope Z_scope.

(** ** Digits *)

(** A digit in a base of at most 36. *)
Definition digit36 (d : Z) : ascii := chr (if d <? 10 then 48 + d else 87 + d).

(** [b.toString(16).padStart(2, "0")]. *)
Definition hex_byte (b : Z) : chars := [digit36 (b / 16); digit36 (b mod 16)].

(** [Math.floor(Math.random() * n)]. *)
Definition draw (n : Z) (r : Q) : Z := Qfloor (r * inject_Z n).

(** [bytes] bytes of [crypto], or one per draw without it. *)
(* @src packages/agent-ts/src/agent.ts 175-180 randomHex *)
Definition randomHex (crypto : option (nat -> list Z)) (random : nat -> Q) (bytes : nat) : string :=
  let array := match crypto with Some getRandomValues => getRandomValues bytes | None => map (fun i => draw 256 (random i)) (seq 0 bytes) end in
  str_of (concat (map hex_byte array)).

(* @src packages/agent-ts/src/agent.ts 199-199 clientPrefix *)
Definition clientPrefix (hex : nat -> string) : string := "ag" +:+ hex 6%nat.

(* @src packages/agent-ts/src/agent.ts 242-242 randomId *)
Definition randomId (hex : nat -> string) (prefix : string) : string := prefix +:+ "-" +:+ hex 8%nat.

(* @src packages/client-ts/src/conversation.ts 135-141 randomClientId *)
Definition randomClientId (randomUUID : option string) (random : nat -> Q) : string :=
  match randomUUID with
  | Some id => id
  | None => "c-" +:+ str_of (map (fun i => digit36 (draw 36 (random i))) (seq 0 24))
  end.

(** ** Facts *)

Definition draws (random : nat -> Q) : Prop := forall i, (0 <= random i)%Q /\ (random i < 1)%Q.

Lemma draw_range n r : 0 < n -> (0 <= r)%Q -> (r < 1)%Q -> 0 <= draw n r < n.
Proof.
  intros Hn H0 H1. unfold draw. assert (Hp : (0 < inject_Z n)%Q) by (change 0%Q with (inject_Z 0); by rewrite <- Zlt_Qlt). split.
  - rewrite <- (Qfloor_Z 0). apply Qfloor_resp_le. change (inject_Z 0) with 0%Q. nra.
  - rewrite Zlt_Qlt. eapply Qle_lt_trans; [apply Qfloor_le|]. nra.
Qed.

Definition hex_digit (c : ascii) : bool := let z := code c in (48 <=? z) && (z <=? 57) || (97 <=? z) && (z <=? 102).

Lemma digit36_below (P : ascii -> bool) n : forallb (fun d => P (digit36 (Z.of_nat d))) (seq 0 n) = true -> forall d, 0 <= d < Z.of_nat n -> P (digit36 d) = true.
Proof.
  intros H d Hd. rewrite forallb_forall in H. specialize (H (Z.to_nat d)). rewrite Z2Nat.id in H by lia. apply H, in_seq. lia.
Qed.

Lemma hex_byte_digits b : 0 <= b < 256 -> forallb hex_digit (hex_byte b) = true.
Proof.
  intros Hb. assert (Hd : forall d, 0 <= d < Z.of_nat 16 -> hex_digit (digit36 d) = true) by (apply digit36_below; vm_compute; reflexivity).
  simpl. rewrite !Hd; [done|pose proof (Z.mod_pos_bound b 16); lia|]. split; [apply Z.div_pos; lia|apply Z.div_lt_upper_bound; lia].
Qed.

(** Two hexadecimal digits per byte. *)
Lemma randomHex_digits crypto random bytes : draws random ->
  match crypto with Some g => length (g bytes) = bytes /\ Forall (fun b => 0 <= b < 256) (g bytes) | None => True end ->
  String.length (randomHex crypto random bytes) = (2 * bytes)%nat /\ forallb hex_digit (chars_of (randomHex crypto random bytes)) = true.
Proof.
  intros Hr Hc. unfold randomHex. set (array := match crypto with Some _ => _ | None => _ end).
  assert (Ha : length array = bytes /\ Forall (fun b => 0 <= b < 256) array).
  { unfold array. destruct crypto as [g|]; [done|]. rewrite length_map, length_seq. split; [done|]. apply Forall_fmap, Forall_true.
    intros i. simpl. apply draw_range; [done|apply Hr..]. }
  clearbody array. clear Hc. destruct Ha as [<- Ha]. unfold chars_of, str_of. rewrite String.list_ascii_of_string_of_list_ascii.
  assert (Hlen : forall l, String.length (String.string_of_list_ascii l) = length l) by (intros l; induction l; simpl; congruence).
  rewrite Hlen. induction Ha as [|b l Hb Ha IH]; [done|]. cbn [map concat]. rewrite length_app, forallb_app, hex_byte_digits by done.
  destruct IH as [IH1 IH2]. rewrite IH1, IH2. simpl. split; [lia|done].
Qed.

(** A session's own client ids are ones it accepts: whatever
    [Math.random] draws, the id made without [crypto.randomUUID] passes the
    check of [send]. *)
Theorem random_client_id_valid (random : nat -> Q) : draws random -> CLIENT_ID (randomClientId None random) = true.
Proof.
  intros Hr. unfold randomClientId. set (l := map _ (seq 0 24)). assert (Hl : length l = 24%nat) by (unfold l; by rewrite length_map, length_seq).
  assert (Hc : forallb client_id_char l = true).
  { apply forallb_forall. intros c (i & <- & _)%in_map_iff. revert i.
    assert (Hd : forall d, 0 <= d < Z.of_nat 36 -> client_id_char (digit36 d) = true) by (apply digit36_below; vm_compute; reflexivity).
    intros i. apply Hd, draw_range; [done|apply Hr..]. }
  clearbody l. unfold CLIENT_ID. cbn [String.append String.length String.list_ascii_of_string].
  assert (Hlen : String.length (str_of l) = length l) by (unfold str_of; clear; induction l; simpl; congruence).
  change (("c-" +:+ str_of l)) with (String "c" (String "-" (str_of l))). cbn [String.length String.list_ascii_of_string forallb].
  rewrite Hlen, Hl. unfold str_of. by rewrite String.list_ascii_of_string_of_list_ascii, Hc.
Qed.

Lemma random_client_id_valid_witness :
  randomClientId None (fun _ => 1 # 2) = "c-iiiiiiiiiiiiiiiiiiiiiiii" /\ CLIENT_ID (randomClientId None (fun _ => 1 # 2)) = true.
Proof. split; [vm_compute; reflexivity|]. apply random_client_id_valid. intros i. split; [discriminate|reflexivity]. Defined.
